(* ===== verification/_CoqProject ===== *)
-Q . S2P
Prelude.v
Sha256.v
Json.v
AuditChain.v
Regex.v
Canonical.v
AtomicWrite.v
LifecycleContract.v
LifecycleSchema.v
Breaker.v
LifecycleJournal.v
LifecycleStore.v
LifecycleNumbers.v
LifecycleInvariant.v
LifecycleTheorems.v
Rbac.v
Health.v
Impact.v
Ip.v
AgentScope.v
AgentCapabilities.v
AgentRegistry.v
AgentIdentity.v
AgentTokens.v
AgentLink.v
Monitor.v
MetricAlert.v
Redaction.v
ProbeSecrets.v
ProbeRuns.v
ProbeIngest.v
ProbeLeases.v
ProbeDispatch.v
ProbeTheorems.v
ProbeHistory.v
ProbeClaim.v
ProbeLiveness.v
ProbeSafety.v
ProbeLab.v
DiscoveryJobs.v
DiscoveryDispatch.v
DiscoveryIngest.v
DiscoveryHistory.v
DiscoverySchedule.v
DiscoveryTheorems.v
DiscoveryLab.v
Delivery.v
TransferFormat.v
TransferPlan.v
TransferApply.v
TransferTheorems.v
TransferOnce.v
TransferRoundtrip.v
Hmac.v
Accounts.v
Login.v
Bootstrap.v
AccountAdmin.v
SessionCache.v
AccountFacts.v
AccountHistory.v
SessionSafety.v
SessionTheorems.v
LoginTheorems.v
AccountTheorems.v
AccountsLab.v
