(* ===== verification/Prelude.v ===== *)
(** * Circuit Breaker: a verification library of the server's core logic

    Circuit Breaker is a self-hosted inventory and monitoring server: a FastAPI
    backend ([src/apps/backend/src/app]) over PostgreSQL, with NATS workers, a
    remote agent written in Go that links to it over a websocket, a web
    interface, and a native installer whose state utility is
    [src/deploy/scripts/lifecycle-state.py].  This library models the Python
    parts that carry its guarantees and proves them.  File names below are
    relative to the backend unless they start with [deploy].

    ** How code is modelled

    Python functions are Rocq functions of the same name.  A function that
    raises returns [result]: [Err] holds the exception's value and the caller's
    transaction is rolled back.  Tables are [gmap]s under the constraints the
    code relies on (unique columns, partial unique indexes, foreign keys), a
    transaction is a function on them, and concurrent workers are histories of
    transactions: an inductive step relation whose steps are the code's own
    functions.  Where the code suspends inside a transaction (an awaited probe, a
    published frame) the function is cut there and anything may happen in
    between.  Times are integers in the code's smallest unit (microseconds for
    monitors and agents), floats are rationals, Python strings are Latin-1
    strings.  Code from outside the repository and values the code only passes
    on (clocks, random tokens, pydantic validation, [ipaddress] text forms,
    [repr], [json.loads]) are arguments, or the interface [IpText] with its laws
    and the proved instance [ExplodedText].

    Loops are structural wherever the code walks data.  The outage traversal takes
    one more step than there are edges as fuel (a node enters the queue only over
    an edge), its evidence paths the depth of the node, and the audit purge and
    repair one more than the number of rows (a batch consumes one); the theorems
    show that a result comes out with that fuel.

    ** Foundations

    - [Prelude]: [result], the [guard!] notation, tactics, hint databases, stable
      sorting as Python has it, and list lemmas.
    - [Sha256], [Json], [Canonical], [Regex], [Ip]: FIPS 180-4, [json.dumps],
      RFC 8785-style canonical text and its injectivity, [re] by derivatives with
      its language semantics, and addresses and networks on the integers.

    ** Audit log

    - [AuditChain]: [core/audit_chain.py], [services/log_service.py],
      [services/audit_spool.py], [services/log_purge.py].  Any interleaving of
      appends, deferred appends, drains and purges leaves a chain that verifies;
      whoever rewrites a hashed column is detected, or has found a collision
      between the two texts of that row; what the purge keeps; what the repair
      restores and when it stops.
    - [Redaction]: the redaction of audit entries.  No secret survives in a
      stored difference.

    ** Native lifecycle state ([deploy/scripts/lifecycle-state.py])

    - [LifecycleContract], [LifecycleSchema]: the journal contract; the checker is
      equal to a declarative reading of its rules.
    - [LifecycleJournal]: what an accepted journal guarantees.
    - [AtomicWrite]: the atomic write on a disk that loses power between any two
      system calls.
    - [LifecycleStore], [LifecycleNumbers], [LifecycleInvariant],
      [LifecycleTheorems]: the state tree and the five requests with any write
      failing; the invariant of every reachable tree; reconciliation settles an
      interrupted operation.

    ** Protection of the server

    - [Breaker]: [core/circuit_breaker.py], its state invariant and behaviour.
    - [Rbac]: [core/rbac.py], [core/token_scopes.py]; what the gates admit.
    - [Health]: [core/health.py], [core/server_state.py],
      [core/write_admission.py]; a draining server takes no write that asks for
      its verdict then, and what becomes of one that was already waiting.

    ** Inventory

    - [Impact]: outage impact over the dependency edges; the bounded traversal
      returns exactly the nodes within reach.
    - [TransferFormat], [TransferPlan], [TransferApply]: the portable inventory
      format, the merge planner and the apply ([services/inventory_transfer]).
      [TransferTheorems], [TransferOnce], [TransferRoundtrip]: a preview without
      conflicts applies as promised (and the three kinds that do not), an apply
      takes effect once, and importing an export reproduces it, save nulls in
      columns that have a default.

    ** Monitoring

    - [Monitor]: [services/monitoring/state.py]; the status after any sequence of
      checks.
    - [MetricAlert]: the sustained-threshold evaluator and its incidents.
    - [Delivery]: notification routing and receipts, a refinement of a lease.

    ** Remote agents

    - [AgentScope]: [core/agent_scope.py], [core/network_acl.py]; which
      destinations an agent and a scan may reach.
    - [AgentCapabilities]: the capability registry and grant normalization.
    - [AgentRegistry], [AgentIdentity], [AgentTokens]: enrollment, approval,
      withdrawal, device keys and enrollment tokens.  Which key links as which
      agent, in every reachable registry; rotation never strands an agent;
      withdrawal is final; a token enrolls no more agents than its uses; the
      agents' timelines replay to their statuses, although the audit entries
      beside them may be lost.
    - [AgentLink]: one connection of [api/ws_agents.py]; what is acknowledged was
      handled, sequence numbers are not replayed, a withheld capability stores
      nothing.

    ** Remote probes, over the agents and the monitors

    - [ProbeSecrets], [ProbeRuns], [ProbeIngest]: redaction of what comes back,
      the tables and the one result path, and the ingest of a result
      ([services/agent_probe.py], [services/monitoring/result_service.py]).
    - [ProbeLeases], [ProbeDispatch]: opening, cancellation, expiry, retention,
      eligibility and dispatch ([services/monitoring/scheduler.py],
      [probe_reconcile.py], [probe_eligibility.py],
      [services/monitor_service.py], [workers/monitor_probe_dispatch.py]).
    - [ProbeClaim]: the scheduler's tick; its claim starves no vantage.
    - [ProbeTheorems], [ProbeHistory], [ProbeLiveness], [ProbeSafety]: dispatches
      and results read a run, wait and write it, and anything may happen in
      between; one result per run but for such overlaps; an unavailable vantage never moves its target; a
      silent agent cannot wedge a monitor; assignments stay inside the agent's
      scope; a dispatch that overlaps a closing of its run opens it again.
    - [ProbeLab]: a concrete installation on which these theorems are applied.

    ** Agent discovery, over the agents and their scope

    - [DiscoveryJobs]: the job row with its lease, the terminal writes,
      cancellation, the limits of a request ([db/models/discovery.py],
      [services/discovery_dispatch.py], [discovery_admission.py],
      [agent_discovery.py]).
    - [DiscoveryDispatch]: eligibility, the claim, what becomes of it after each
      wait, scope changes, the reconciliation pass
      ([services/discovery_eligibility.py], [agent_discovery_reconcile.py]).
    - [DiscoveryIngest]: what is judged of a finding and what it writes.
    - [DiscoveryHistory], [DiscoveryTheorems]: histories in which every operation
      may be stopped at each of its waits: one request per job, terminal states
      that stay, counters that are the findings stored (whatever review and
      purge make of the rows), findings confined to what was asked and granted
      when they were judged, leases that end when the ingest stops accepting; a
      parked job whose deadline never arrives.  The purge of old results is part
      of a history, the deletion of whole jobs past the retention period is not.
    - [DiscoverySchedule]: the pause scopes, routing, and the ceiling of
      concurrent scans ([services/discovery_scheduler.py]).
    - [DiscoveryLab]: a concrete discovery on which these theorems are applied.

    ** Users, sessions and sign-in

    - [Hmac]: HMAC-SHA256, PBKDF2 and the salted hashes of stored API tokens.
    - [Accounts]: the account tables and the operations of
      [services/user_service.py] with the credential helpers of
      [core/security.py].  [Libs] is the interface to PyJWT, bcrypt and pyotp and
      [LibsLaws] what the code relies on of them.  A handler is a value of the
      monad [M], which commits as the code does, so that what was committed
      before an exception stays.
    - [Login], [Bootstrap], [AccountAdmin]: sign-in with its challenges, password
      changes, registration, removal ([services/auth_service.py], [api/auth.py]);
      first-run setup; the administrator's routes ([api/admin_users.py]) and API
      tokens.
    - [SessionCache]: who a request is ([core/security.py]): the cache of each
      worker process, the Redis keys by which workers tell each other of
      revocations, validation against the tables, the routes' dependencies.
    - [AccountFacts], [AccountHistory]: what the tables never take back, and the
      system as a step relation: any number of workers over shared tables and a
      shared Redis, a validation and the storing of its answer being two steps
      between which anything may happen, as are a thread's taking over a flush
      epoch and its clearing of the cache, and Redis being out of reach of any one
      call.  A handler is one step, and all clocks are one.
    - [SessionSafety], [SessionTheorems]: a logout is effective on every worker at
      once, the end of all of a user's sessions on every worker that has emptied
      its cache and after ten seconds on all; a cache serves what the
      tables answered, for ten seconds at most.
    - [LoginTheorems]: the cap on sessions, what a reply to a sign-in proves,
      lockout, the second factor, audiences kept apart, a session that is issued
      resolves to its user.
    - [AccountTheorems]: setup happens once, an invite makes one account,
      rotation keeps the power of a service account's token; and the behaviours
      that depart from what the code says of itself.
    - [AccountsLab]: an instance of [Libs] that meets [LibsLaws] and evaluates,
      the theorems applied to it, and the histories in which a revocation is not
      seen (Redis out of reach, a flush that races a validation or is overtaken
      before the cache is emptied, a removed
      account, an evicted session, an API token revoked on another worker).

    Left out there: the exchanges with OAuth providers, avatars and other
    profile columns, cookies, the adapter to FastAPI-Users, and the time an API
    token was last used.

    ** Not modelled

    Network discovery and its merge into the inventory (nmap, SNMP and vendor
    parsing dominate it), the agents' host telemetry handlers, the exchanges with
    OAuth providers, the credential vault and certificates (cryptography is a
    library), integrations (Proxmox, OPNsense, Docker), CVE
    and threat feeds, the layout and search services and the plain inventory
    routes (queries without state of their own), the command line tools and the
    installer's shell, migrations, the Go agent and the web interface. *)

From Stdlib Require Export ZArith Lia Bool String Ascii.
From stdpp Require Export base tactics option list numbers.
From stdpp Require Export strings gmap sorting.

(** ** Error results

    Python code that raises is modelled by [result]: [Ok] for a normal return,
    [Err] for the exception's value. *)
Inductive result (E A : Type) : Type :=
| Ok (a : A)
| Err (e : E).
Arguments Ok {E A} a.
Arguments Err {E A} e.

#[export] Instance result_ret E : MRet (result E) := fun A a => Ok a.
#[export] Instance result_bind E : MBind (result E) :=
  fun A B f r => match r with Ok a => f a | Err e => Err e end.

Definition is_ok {E A} (r : result E A) : bool :=
  match r with Ok _ => true | Err _ => false end.

Declare Scope cb_scope.
Delimit Scope cb_scope with cb.
Notation "'guard!' b 'else' e ;; k" := (if (b : bool) then k else Err e)
  (at level 100, b at level 99, e at level 99, k at level 200, right associativity) : cb_scope.
Open Scope cb_scope.

(** ** The development's hint databases and tactics *)
Create HintDb cb.
Create Rewrite HintDb cb_bool.

#[export] Hint Rewrite andb_true_iff orb_true_iff negb_true_iff negb_false_iff
  andb_false_iff orb_false_iff Z.leb_le Z.ltb_lt Z.eqb_eq Z.leb_gt Z.ltb_ge Z.eqb_neq
  Nat.leb_le Nat.ltb_lt Nat.eqb_eq Nat.leb_gt Nat.ltb_ge Nat.eqb_neq
  String.eqb_eq String.eqb_neq : cb_bool.

(** Turn every boolean test in the context into the proposition it decides. *)
Ltac reflect_bools := autorewrite with cb_bool in *.

(** Case on the outermost [if]/[match] of the goal, remembering the equation. *)
Ltac split_match :=
  match goal with
  | |- context [match ?x with _ => _ end] =>
      lazymatch x with
      | context [match _ with _ => _ end] => fail
      | _ => destruct x eqn:?
      end
  end.

Ltac split_match_in H :=
  match type of H with
  | context [match ?x with _ => _ end] =>
      lazymatch x with
      | context [match _ with _ => _ end] => fail
      | _ => destruct x eqn:?
      end
  end.

Ltac split_ands := repeat match goal with H : _ /\ _ |- _ => destruct H end.



(** Close a case of a decision procedure's proof. *)
Ltac cb_done := simplify_eq/=; reflect_bools; split_ands; try lia; eauto with cb.

(** ** Lists *)
Lemma map_ext_in_id {A} (f : A -> A) (l : list A) : (forall x, In x l -> f x = x) -> map f l = l.
Proof. intros H. rewrite <- (map_id l) at 2. by apply map_ext_in. Qed.

Lemma existsb_false {A} (f : A -> bool) l : existsb f l = false <-> forall x, x ∈ l -> f x = false.
Proof.
  rewrite <- not_true_iff_false, existsb_exists. setoid_rewrite <- list_elem_of_In. split.
  - intros H x Hx. apply not_true_iff_false. naive_solver.
  - intros H (x & Hx & E). rewrite H in E; done.
Qed.

Lemma existsb_true {A} (f : A -> bool) l : existsb f l = true <-> exists x, x ∈ l /\ f x = true.
Proof. rewrite existsb_exists. by setoid_rewrite <- list_elem_of_In. Qed.

(** Equal graphs, equal functions. *)
Lemma map_graph_inj {A B} (f g : A -> B) l x :
  map (fun n => (n, f n)) l = map (fun n => (n, g n)) l -> x ∈ l -> f x = g x.
Proof.
  induction l as [| n l IH]; [by intros _ ?%elem_of_nil |].
  cbn [map]. intros [= E1 E2] [-> | Hin]%elem_of_cons; [done | by apply IH].
Qed.

Lemma filter_none {A} (f : A -> bool) l : List.filter f l = [] <-> forall x, x ∈ l -> f x = false.
Proof.
  induction l as [| x l IH]; simpl; [set_solver |]. destruct (f x) eqn:E.
  - split; [done |]. intros H. rewrite H in E by constructor. done.
  - rewrite IH. set_solver.
Qed.

Lemma size_list_to_set_le `{Countable A} (l : list A) : (size (list_to_set l : gset A) <= length l)%nat.
Proof.
  induction l as [| x l IH]; [by rewrite list_to_set_nil, size_empty |].
  rewrite list_to_set_cons, size_union_alt, size_singleton. simpl. apply le_n_S.
  etransitivity; [| exact IH]. apply subseteq_size. set_solver.
Qed.

(** ** Strings

    A Python [str] is a [string] whose characters are the code points below
    256; [str(n)] of an [int] is stdpp's [pretty]. *)
From stdpp Require Export pretty.
#[global] Arguments String.append !s1 s2 : simpl nomatch, rename.

Definition code (c : ascii) : Z := Z.of_nat (nat_of_ascii c).

Definition all_ascii : list ascii := ascii_of_nat <$> seq 0 256.

Lemma elem_of_all_ascii c : c ∈ all_ascii.
Proof.
  apply list_elem_of_fmap. exists (nat_of_ascii c).
  rewrite ascii_nat_embedding. split; [done |].
  pose proof (nat_ascii_bounded c). apply elem_of_seq. lia.
Qed.

(** A property of one or two characters is decided by evaluating it on all. *)
Lemma forall_ascii (P : ascii -> bool) :
  forallb P all_ascii = true -> forall c, P c = true.
Proof. rewrite forallb_forall. intros H c. apply H, list_elem_of_In, elem_of_all_ascii. Qed.

Lemma forall_ascii2 (P : ascii -> ascii -> bool) :
  forallb (fun a => forallb (P a) all_ascii) all_ascii = true -> forall a b, P a b = true.
Proof. intros H a b. apply (forall_ascii (P a)), (forall_ascii (fun a => forallb (P a) all_ascii)), H. Qed.

Fixpoint str_forallb (P : ascii -> bool) (s : string) : bool :=
  match s with EmptyString => true | String c s => P c && str_forallb P s end.

Lemma str_forallb_app P x y : str_forallb P (x +:+ y) = str_forallb P x && str_forallb P y.
Proof. induction x as [| c x IH]; simpl; [done |]. by rewrite IH, andb_assoc. Qed.

Lemma str_forallb_impl (P Q : ascii -> bool) s : (forall c, P c = true -> Q c = true) -> str_forallb P s = true -> str_forallb Q s = true.
Proof.
  intros H. induction s as [| c s IH]; [done |]. cbn [str_forallb]. rewrite !andb_true_iff. intros [Hc Hs]. auto.
Qed.

Lemma str_app_cancel (x s t : string) : x +:+ s = x +:+ t -> s = t.
Proof. induction x; simpl; [done |]. intros [=]. auto. Qed.

Lemma str_app_assoc (x y z : string) : x +:+ (y +:+ z) = (x +:+ y) +:+ z.
Proof. induction x as [| c x IH]; simpl; [done | by rewrite IH]. Qed.

Lemma str_length_app (x y : string) : String.length (x +:+ y) = (String.length x + String.length y)%nat.
Proof. induction x as [| c x IH]; simpl; [done | by rewrite IH]. Qed.

(** The two strings differ at a position both of them have. *)
Fixpoint incompat (x y : string) : bool :=
  match x, y with
  | String a x, String b y => negb (Ascii.eqb a b) || incompat x y
  | _, _ => false
  end.

Lemma incompat_app x y s t : incompat x y = true -> x +:+ s <> y +:+ t.
Proof.
  revert y; induction x as [| a x IH]; intros [| b y]; simpl; try done.
  intros H [= -> E]. rewrite Ascii.eqb_refl in H. by apply (IH y).
Qed.

(** Text up to a delimiter none of whose characters occur in it is determined. *)
Lemma delimited_inj (P : ascii -> bool) x y d t d' t' :
  str_forallb (fun c => negb (P c)) x = true -> str_forallb (fun c => negb (P c)) y = true ->
  P d = true -> P d' = true ->
  x +:+ String d t = y +:+ String d' t' -> x = y /\ String d t = String d' t'.
Proof.
  intros Hx Hy Hd Hd'. revert y Hx Hy.
  induction x as [| a x IH]; intros [| b y] Hx Hy; simpl in *; try done;
    reflect_bools; split_ands; intros [= -> E]; try congruence.
  destruct (IH y) as [-> ->]; done.
Qed.

(** ** [sorted]: Python's stable sort, as insertion after equals *)
Section Sorted.
Context {A : Type} (le : A -> A -> bool).

Fixpoint insert_sorted (x : A) (l : list A) : list A :=
  match l with
  | [] => [x]
  | y :: l => if le y x then y :: insert_sorted x l else x :: y :: l
  end.

Definition py_sorted (l : list A) : list A := foldl (fun acc x => insert_sorted x acc) [] l.
End Sorted.

Lemma sorted_snoc {A} (R : A -> A -> Prop) l x :
  StronglySorted R l -> Forall (fun y => R y x) l -> StronglySorted R (l ++ [x]).
Proof.
  induction 1 as [| y l Hl IH Hy]; simpl; intros H; [repeat constructor |].
  inversion H; subst. constructor; [by apply IH |]. apply Forall_app; split; [done |]. by repeat constructor.
Qed.

Lemma insert_sorted_map {A B} (le : A -> A -> bool) (le' : B -> B -> bool) (f : A -> B) x l :
  (forall x y, le' (f x) (f y) = le x y) ->
  insert_sorted le' (f x) (map f l) = map f (insert_sorted le x l).
Proof.
  intros H. induction l as [| y l IH]; simpl; [done |]. rewrite H.
  destruct (le y x); simpl; [by rewrite IH | done].
Qed.

Lemma py_sorted_map {A B} (le : A -> A -> bool) (le' : B -> B -> bool) (f : A -> B) l :
  (forall x y, le' (f x) (f y) = le x y) -> py_sorted le' (map f l) = map f (py_sorted le l).
Proof.
  intros H. unfold py_sorted. change (@nil B) with (map f []). generalize (@nil A).
  induction l as [| x l IH]; intros acc; simpl; [done |].
  by rewrite (insert_sorted_map le le' f x acc H), IH.
Qed.

Lemma insert_sorted_perm {A} (le : A -> A -> bool) x l : insert_sorted le x l ≡ₚ x :: l.
Proof.
  induction l as [| y l IH]; simpl; [done |]. destruct (le y x); [| done]. rewrite IH. constructor.
Qed.

Lemma py_sorted_perm {A} (le : A -> A -> bool) l : py_sorted le l ≡ₚ l.
Proof.
  unfold py_sorted. enough (forall acc, foldl (fun acc x => insert_sorted le x acc) acc l ≡ₚ l ++ acc) as H
    by (rewrite H; by rewrite app_nil_r).
  induction l as [| x l IH]; intros acc; simpl; [done |].
  rewrite IH, insert_sorted_perm. by rewrite Permutation_middle.
Qed.

(** [sorted] leaves an ordered list as it is. *)
Lemma insert_sorted_last {A} (le : A -> A -> bool) x l : Forall (fun y => le y x = true) l -> insert_sorted le x l = l ++ [x].
Proof. induction 1 as [| y l Hy _ IH]; simpl; [done |]. by rewrite Hy, IH. Qed.

Lemma py_sorted_id {A} (le : A -> A -> bool) l : StronglySorted (fun x y => le x y = true) l -> py_sorted le l = l.
Proof.
  unfold py_sorted. intros Hs. change l with ([] ++ l) in Hs at 1. change l with ([] ++ l) at 2. revert Hs. generalize (@nil A) as acc.
  induction l as [| x l IH]; intros acc Hs; simpl; [by rewrite app_nil_r |].
  rewrite insert_sorted_last.
  - rewrite IH; [by rewrite <- app_assoc | by rewrite <- app_assoc].
  - apply Forall_forall. intros y Hy. clear IH. induction acc as [| z acc IHacc]; [by apply elem_of_nil in Hy |].
    simpl in Hs. inversion Hs as [| ? ? Hs' Hall]; subst. apply elem_of_cons in Hy as [-> | Hy]; [| by apply IHacc].
    rewrite Forall_forall in Hall. apply Hall. apply elem_of_app. right. constructor.
Qed.

(** [sorted] returns an ordered list when the comparison is a total preorder. *)
Section SortedOrder.
Context {A : Type} (le : A -> A -> bool).
Hypothesis le_total : forall x y, le x y = true \/ le y x = true.
Hypothesis le_trans : forall x y z, le x y = true -> le y z = true -> le x z = true.

Definition in_order : A -> A -> Prop := fun x y => le x y = true.

Lemma insert_sorted_ordered x l : StronglySorted in_order l -> StronglySorted in_order (insert_sorted le x l).
Proof.
  induction 1 as [| y l Hl IH Hy]; simpl; [repeat constructor |].
  destruct (le y x) eqn:E.
  - constructor; [done |]. rewrite insert_sorted_perm. by constructor.
  - assert (le x y = true) as Exy by (destruct (le_total x y); congruence).
    constructor; [by constructor |]. constructor; [done |].
    eapply Forall_impl; [exact Hy |]. intros z Hz. by apply (le_trans x y z).
Qed.

Lemma py_sorted_ordered l : StronglySorted in_order (py_sorted le l).
Proof.
  unfold py_sorted. assert (StronglySorted in_order []) as H by constructor.
  revert H. generalize (@nil A). induction l as [| x l IH]; intros acc Hacc; simpl; [done |].
  by apply IH, insert_sorted_ordered.
Qed.

(** [sorted(set(l))] depends on the elements only. *)
Lemma sorted_set_ext `{EqDecision A} l l' :
  (forall x y, le x y = true -> le y x = true -> x = y) -> (forall x, x ∈ l <-> x ∈ l') ->
  py_sorted le (remove_dups l) = py_sorted le (remove_dups l').
Proof.
  intros Hanti H. eapply (StronglySorted_unique_strong in_order); [intros x y _ _; apply Hanti | apply py_sorted_ordered .. |].
  rewrite !py_sorted_perm. apply NoDup_Permutation; [apply NoDup_remove_dups .. |]. intros n. by rewrite !elem_of_remove_dups.
Qed.

(** [sorted(l)[-1]] is a greatest element. *)
Lemma py_sorted_last_max l x m : x ∈ l -> list.last (py_sorted le l) = Some m -> le x m = true.
Proof.
  intros Hx [l' E]%last_Some. pose proof (py_sorted_ordered l) as Hs.
  assert (x ∈ py_sorted le l) as Hin by by rewrite py_sorted_perm. rewrite E in *.
  apply elem_of_app in Hin as [Hin | ->%list_elem_of_singleton].
  - clear E Hx. induction l' as [| y l' IH]; [by apply elem_of_nil in Hin |].
    simpl in Hs. inversion Hs as [| ? ? Hs' Hall]; subst.
    apply elem_of_cons in Hin as [-> | Hin]; [| by apply IH].
    rewrite Forall_forall in Hall. apply Hall. set_solver.
  - by destruct (le_total m m).
Qed.
End SortedOrder.

(** ** The order of strings *)

Lemma leb_trans (x y z : string) :
  String.leb x y = true -> String.leb y z = true -> String.leb x z = true.
Proof.
  unfold String.leb. revert y z; induction x as [| a x IH]; intros [| b y] [| c z]; simpl; try done.
  unfold Ascii.compare.
  destruct (N.compare_spec (N_of_ascii a) (N_of_ascii b)) as [E1 | L1 | G1]; try done;
    destruct (N.compare_spec (N_of_ascii b) (N_of_ascii c)) as [E2 | L2 | G2]; try done;
    destruct (N.compare_spec (N_of_ascii a) (N_of_ascii c)) as [E3 | L3 | G3]; try done; try lia.
  apply IH.
Qed.

(** ** [str] methods on Latin-1 text *)

(** [str.isspace] of one character. *)
Definition is_space (c : ascii) : bool :=
  let n := code c in
  ((9 <=? n) && (n <=? 13) || (28 <=? n) && (n <=? 32) || (n =? 133) || (n =? 160))%Z.

Fixpoint lstrip (s : string) : string :=
  match s with
  | EmptyString => EmptyString
  | String c r => if is_space c then lstrip r else s
  end.

Fixpoint rstrip_by (P : ascii -> bool) (s : string) : string :=
  match s with
  | EmptyString => EmptyString
  | String c r =>
      match rstrip_by P r with
      | EmptyString => if P c then EmptyString else String c EmptyString
      | r' => String c r'
      end
  end.

(** [s.strip()] and [s.rstrip(".")]. *)
Definition strip (s : string) : string := rstrip_by is_space (lstrip s).

Lemma strip_id s : str_forallb (fun c => negb (is_space c)) s = true -> strip s = s.
Proof.
  intros H. unfold strip. assert (lstrip s = s) as ->.
  { destruct s as [| c s]; [done |]. cbn [str_forallb] in H. apply andb_true_iff in H as [H%negb_true_iff _].
    cbn [lstrip]. by rewrite H. }
  induction s as [| c s IH]; [done |]. cbn [str_forallb] in H. apply andb_true_iff in H as [Hc%negb_true_iff Hs].
  cbn [rstrip_by]. rewrite IH by done. destruct s; [by rewrite Hc | done].
Qed.

(** [s.lower()]. *)
Definition lower_char (c : ascii) : ascii :=
  let n := code c in
  if ((65 <=? n) && (n <=? 90) || (192 <=? n) && (n <=? 222) && negb (n =? 215))%Z
  then ascii_of_nat (Z.to_nat (n + 32)) else c.

Fixpoint str_map (f : ascii -> ascii) (s : string) : string :=
  match s with EmptyString => EmptyString | String c s => String (f c) (str_map f s) end.

Definition lower (s : string) : string := str_map lower_char s.

(** [s.split(d)] on one character. *)
Fixpoint split_on (d : ascii) (s : string) : list string :=
  match s with
  | EmptyString => [EmptyString]
  | String c s =>
      if Ascii.eqb c d then EmptyString :: split_on d s
      else match split_on d s with
           | x :: l => String c x :: l
           | [] => [String c EmptyString]
           end
  end.

Definition startswith (p s : string) : bool := String.prefix p s.

(** [w in s]. *)
Fixpoint occurs (w s : string) : bool :=
  String.prefix w s || match s with EmptyString => false | String _ s => occurs w s end.

Lemma prefix_iff w s : String.prefix w s = true <-> exists t, s = w +:+ t.
Proof.
  revert s; induction w as [| c w IH]; intros s; simpl; [split; [eauto | destruct s; done] |].
  destruct s as [| d s]; [split; [done | by intros [t E]] |].
  cbn [String.prefix]. destruct (ascii_dec c d) as [<- | Hne].
  - rewrite IH. split; intros [t E]; exists t; [by rewrite E | by injection E].
  - split; [done |]. intros [t E]. by injection E as -> _.
Qed.

(** [list(set(l))] up to order, keeping the first occurrences. *)
Fixpoint dedup (l : list string) : list string :=
  match l with
  | [] => []
  | x :: l => if bool_decide (x ∈ l) then dedup l else x :: dedup l
  end.

Lemma dedup_elem x l : x ∈ dedup l <-> x ∈ l.
Proof. induction l as [| y l IH]; simpl; [done |]. case_bool_decide; set_solver. Qed.

Lemma dedup_nodup l : NoDup (dedup l).
Proof.
  induction l as [| x l IH]; simpl; [constructor |]. case_bool_decide; [done |]. constructor; [| done].
  by rewrite dedup_elem.
Qed.

Lemma split_on_app d x s : str_forallb (fun c => negb (Ascii.eqb c d)) x = true ->
  split_on d (x +:+ String d s) = x :: split_on d s.
Proof.
  induction x as [| c x IH]; simpl; [by rewrite Ascii.eqb_refl |]. intros [Hc Hx]%andb_true_iff.
  apply negb_true_iff in Hc. by rewrite Hc, IH.
Qed.

Lemma split_on_self d x : str_forallb (fun c => negb (Ascii.eqb c d)) x = true -> split_on d x = [x].
Proof.
  induction x as [| c x IH]; simpl; [done |]. intros [Hc Hx]%andb_true_iff.
  apply negb_true_iff in Hc. by rewrite Hc, IH.
Qed.

Lemma split_on_concat d l : l <> [] -> (forall x, x ∈ l -> str_forallb (fun c => negb (Ascii.eqb c d)) x = true) ->
  split_on d (String.concat (String d EmptyString) l) = l.
Proof.
  induction l as [| x l IH]; intros Hne Hl; [done |]. destruct l as [| y l].
  - simpl. apply split_on_self, Hl, list_elem_of_here.
  - change (String.concat (String d "") (x :: y :: l)) with (x +:+ String d (String.concat (String d "") (y :: l))).
    rewrite split_on_app by (apply Hl, list_elem_of_here). rewrite IH; [done | done |]. intros z Hz. apply Hl.
    by apply list_elem_of_further.
Qed.

(** ** Python dicts

    A [dict] is an association list in insertion order. *)
Section Dict.
Context {K A : Type} `{EqDecision K}.
Implicit Types d : list (K * A).

(** [d.get(k)]. *)
Fixpoint dict_get (k : K) d : option A :=
  match d with
  | [] => None
  | (k', v) :: d => if decide (k' = k) then Some v else dict_get k d
  end.

(** [d[k] = v]. *)
Fixpoint dict_set (k : K) (v : A) d : list (K * A) :=
  match d with
  | [] => [(k, v)]
  | (k', v') :: d => if decide (k' = k) then (k, v) :: d else (k', v') :: dict_set k v d
  end.

Lemma dict_set_elem k v d f : f ∈ dict_set k v d -> f = (k, v) \/ f ∈ d.
Proof.
  induction d as [| [k' v'] d IH]; simpl; [set_solver |]. case_decide; [set_solver |].
  intros [-> | H']%elem_of_cons; [set_solver |]. destruct (IH H'); set_solver.
Qed.

Lemma dict_set_keys k v d : (dict_set k v d).*1 = if bool_decide (k ∈ d.*1) then d.*1 else d.*1 ++ [k].
Proof.
  induction d as [| [l w] d IH]; [done |]. cbn [dict_set]. destruct (decide (l = k)) as [-> |].
  - rewrite !fmap_cons. by rewrite bool_decide_true by constructor.
  - rewrite !fmap_cons, IH. simpl. case_bool_decide as H.
    + by rewrite bool_decide_true by by constructor.
    + by rewrite bool_decide_false by set_solver.
Qed.

Lemma dict_set_nodup k v d : NoDup d.*1 -> NoDup (dict_set k v d).*1.
Proof.
  rewrite dict_set_keys. intros Hd. case_bool_decide; [done |]. apply NoDup_app. split_and!; [done | set_solver | apply NoDup_singleton].
Qed.

Lemma dict_get_set k k' v d : dict_get k (dict_set k' v d) = if decide (k' = k) then Some v else dict_get k d.
Proof.
  induction d as [| [l w] d IH]; simpl; [done |].
  destruct (decide (l = k')) as [-> | Hl]; simpl; [by destruct (decide (k' = k)) |].
  rewrite IH. destruct (decide (l = k)), (decide (k' = k)); congruence.
Qed.

Lemma dict_get_elem k v d : dict_get k d = Some v -> (k, v) ∈ d.
Proof.
  induction d as [| [l w] d IH]; simpl; [done |].
  case_decide; [intros [= ->]; subst; constructor | intros ?; constructor; auto].
Qed.

Lemma dict_get_is_Some k d : is_Some (dict_get k d) <-> k ∈ d.*1.
Proof.
  induction d as [| [l w] d IH]; simpl; [rewrite is_Some_alt; set_solver |].
  case_decide; [set_solver |]. rewrite IH. set_solver.
Qed.

Lemma dict_get_None k d : dict_get k d = None <-> k ∉ d.*1.
Proof. by rewrite <- dict_get_is_Some, eq_None_not_Some. Qed.

Lemma elem_dict_get k v d : NoDup d.*1 -> (k, v) ∈ d -> dict_get k d = Some v.
Proof.
  induction d as [| [l w] d IH]; simpl; [set_solver |]. rewrite NoDup_cons. intros [Hl Hd].
  rewrite elem_of_cons. intros [[= -> ->] | Hin]; [by rewrite decide_True |].
  case_decide; [subst | by auto]. destruct Hl. apply list_elem_of_fmap. by exists (k, v).
Qed.
End Dict.

Lemma dict_get_map {K A B} `{EqDecision K} (f : A -> B) (k : K) d :
  dict_get k (map (fun e => (e.1, f e.2)) d) = f <$> dict_get k d.
Proof. induction d as [| [l w] d IH]; simpl; [done |]. by case_decide. Qed.
