(* ===== verification/Sha256.v ===== *)
(** SHA-256 as [hashlib.sha256] computes it (FIPS 180-4), over strings whose
    characters are bytes, with [hexdigest].  Words are [Z] kept below [2^32]. *)
From S2P Require Import Prelude.
Open Scope Z_scope.

Module Sha256.

Definition w32 (x : Z) : Z := Z.land x 0xffffffff.
Definition add32 (x y : Z) : Z := w32 (x + y).
Definition rotr (n x : Z) : Z := w32 (Z.lor (Z.shiftr x n) (Z.shiftl x (32 - n))).
Definition not32 (x : Z) : Z := Z.lxor x 0xffffffff.

Definition ch (x y z : Z) : Z := Z.lxor (Z.land x y) (Z.land (not32 x) z).
Definition maj (x y z : Z) : Z := Z.lxor (Z.lxor (Z.land x y) (Z.land x z)) (Z.land y z).
Definition bsig0 (x : Z) : Z := Z.lxor (Z.lxor (rotr 2 x) (rotr 13 x)) (rotr 22 x).
Definition bsig1 (x : Z) : Z := Z.lxor (Z.lxor (rotr 6 x) (rotr 11 x)) (rotr 25 x).
Definition ssig0 (x : Z) : Z := Z.lxor (Z.lxor (rotr 7 x) (rotr 18 x)) (Z.shiftr x 3).
Definition ssig1 (x : Z) : Z := Z.lxor (Z.lxor (rotr 17 x) (rotr 19 x)) (Z.shiftr x 10).

(** The constants are the first 32 bits of the fractional parts of the cube
    roots of the first 64 primes and of the square roots of the first 8. *)
Definition is_prime (n : nat) : bool :=
  forallb (fun d => negb (Nat.eqb (n mod d) 0)) (seq 2 (n - 2)).

Definition primes : list Z := Z.of_nat <$> List.filter is_prime (seq 2 310).

(** The integer cube root of [x], found bit by bit below [2^bits]. *)
Fixpoint cbrt_bits (bits : nat) (x acc : Z) : Z :=
  match bits with
  | O => acc
  | S k =>
      let acc' := acc + Z.shiftl 1 (Z.of_nat k) in
      cbrt_bits k x (if acc' * acc' * acc' <=? x then acc' else acc)
  end.

Definition round_constants : list Z :=
  Eval vm_compute in map (fun p => w32 (cbrt_bits 36 (Z.shiftl p 96) 0)) primes.

Definition initial_state : list Z :=
  Eval vm_compute in map (fun p => w32 (Z.sqrt (Z.shiftl p 64))) (firstn 8 primes).

(** The last sixteen words of the schedule, newest first; each step adds one. *)
Definition next_word (recent : list Z) : Z :=
  add32 (add32 (ssig1 (nth 1 recent 0)) (nth 6 recent 0))
        (add32 (ssig0 (nth 14 recent 0)) (nth 15 recent 0)).

Fixpoint extend (n : nat) (recent acc : list Z) : list Z :=
  match n with
  | O => rev acc
  | S n => let w := next_word recent in extend n (w :: firstn 15 recent) (w :: acc)
  end.

Definition schedule (block : list Z) : list Z := block ++ extend 48 (rev block) [].

Definition round (st : list Z) (kw : Z * Z) : list Z :=
  match st with
  | [a; b; c; d; e; f; g; h] =>
      let t1 := add32 (add32 (add32 h (bsig1 e)) (ch e f g)) (add32 (fst kw) (snd kw)) in
      let t2 := add32 (bsig0 a) (maj a b c) in
      [add32 t1 t2; a; b; c; add32 d t1; e; f; g]
  | _ => st
  end.

Definition compress (st block : list Z) : list Z :=
  zip_with add32 st (foldl round st (zip round_constants (schedule block))).

Definition bytes_of_string (s : string) : list Z :=
  map (fun c => Z.of_nat (nat_of_ascii c)) (list_ascii_of_string s).

Definition be_bytes (n : nat) (x : Z) : list Z :=
  map (fun i => Z.land (Z.shiftr x (8 * Z.of_nat i)) 0xff) (rev (seq 0 n)).

Definition pad (bs : list Z) : list Z :=
  let n := Z.of_nat (length bs) in
  bs ++ [0x80] ++ replicate (Z.to_nat ((55 - n) mod 64)) 0 ++ be_bytes 8 (8 * n).

Fixpoint words (bs : list Z) : list Z :=
  match bs with
  | a :: b :: c :: d :: bs => (Z.lor (Z.shiftl a 24) (Z.lor (Z.shiftl b 16) (Z.lor (Z.shiftl c 8) d))) :: words bs
  | _ => []
  end.

Fixpoint blocks (fuel : nat) (ws : list Z) : list (list Z) :=
  match fuel, ws with
  | S fuel, _ :: _ => firstn 16 ws :: blocks fuel (skipn 16 ws)
  | _, _ => []
  end.

Definition digest (s : string) : list Z :=
  let ws := words (pad (bytes_of_string s)) in
  foldl compress initial_state (blocks (length ws) ws).

Definition hex_digit (x : Z) : ascii :=
  ascii_of_nat (Z.to_nat (if x <? 10 then 48 + x else 87 + x)).

Definition hex_word (w : Z) : list ascii :=
  map (fun i => hex_digit (Z.land (Z.shiftr w (4 * Z.of_nat i)) 15)) (rev (seq 0 8)).

(** [hashlib.sha256(s).hexdigest()]. *)
Definition hexdigest (s : string) : string :=
  string_of_list_ascii (mjoin (hex_word <$> digest s)).

Example hexdigest_empty :
  hexdigest "" = "e3b0c44298fc1c149afbf4c8996fb92427ae41e4649b934ca495991b7852b855"%string.
Proof. vm_compute. reflexivity. Qed.

Example hexdigest_abc :
  hexdigest "abc" = "ba7816bf8f01cfea414140de5dae2223b00361a396177a9cb410ff61f20015ad"%string.
Proof. vm_compute. reflexivity. Qed.

Example hexdigest_two_blocks :
  hexdigest "abcdbcdecdefdefgefghfghighijhijkijkljklmklmnlmnomnopnopq"
  = "248d6a61d20638b8e5c026930c3e6039a33ce45964ff2167f6ecedd419db06c1"%string.
Proof. vm_compute. reflexivity. Qed.

End Sha256.
