(* ===== verification/Json.v ===== *)
(** JSON values and [json.dumps] with its default separators, as the audit
    chain and the log writer use it. *)
From S2P Require Import Prelude Sha256.

Module Json.

(** A value of Python's [json] module.  A float enters only through its
    [repr], which is what [json.dumps] prints. *)
#[local] Set Warnings "-register-all".
Inductive json :=
| JNull
| JBool (b : bool)
| JInt (z : Z)
| JFloat (repr : string)
| JStr (s : string)
| JList (l : list json)
| JObj (fields : list (string * json)).

(** [not v]. *)
Definition falsy (v : json) : bool :=
  match v with
  | JNull | JBool false | JStr EmptyString | JList [] | JObj [] => true
  | JInt z => (z =? 0)%Z
  | JFloat r => String.eqb r "0.0" || String.eqb r "-0.0"
  | _ => false
  end.

Definition quote : ascii := "034".
Definition backslash : ascii := "092".

(** The escape [json.dumps] gives one character with [ensure_ascii]. *)
Definition escape (c : ascii) : string :=
  let n := code c in
  let letter c := String backslash (String c EmptyString) in
  if (n =? 34)%Z then letter quote
  else if (n =? 92)%Z then letter backslash
  else if (n =? 8)%Z then letter "b"%char
  else if (n =? 9)%Z then letter "t"%char
  else if (n =? 10)%Z then letter "n"%char
  else if (n =? 12)%Z then letter "f"%char
  else if (n =? 13)%Z then letter "r"%char
  else if (32 <=? n)%Z && (n <=? 126)%Z then String c EmptyString
  else letter "u"%char +:+ "00" +:+
       String (Sha256.hex_digit (n / 16)) (String (Sha256.hex_digit (n mod 16)) EmptyString).

(** A string literal whose characters are written by [esc]. *)
Fixpoint escape_all (esc : ascii -> string) (s : string) : string :=
  match s with EmptyString => EmptyString | String c s => esc c +:+ escape_all esc s end.

Definition quoted (esc : ascii -> string) (s : string) : string :=
  String quote (escape_all esc s +:+ String quote EmptyString).

Definition dump_str (s : string) : string := quoted escape s.

Fixpoint join (sep : string) (l : list string) : string :=
  match l with
  | [] => EmptyString
  | [x] => x
  | x :: l => x +:+ sep +:+ join sep l
  end.

Definition key_le (x y : string * string) : bool := String.leb (fst x) (fst y).

(** [json.dumps(v, sort_keys=sort)]. *)
Fixpoint dumps (sort : bool) (v : json) : string :=
  match v with
  | JNull => "null"
  | JBool true => "true"
  | JBool false => "false"
  | JInt z => pretty z
  | JFloat r => r
  | JStr s => dump_str s
  | JList l => "[" +:+ join ", " (map (dumps sort) l) +:+ "]"
  | JObj fs =>
      let texts := map (fun '(k, v) => (k, dumps sort v)) fs in
      let texts := if sort then py_sorted key_le texts else texts in
      "{" +:+ join ", " (map (fun '(k, t) => dump_str k +:+ ": " +:+ t) texts) +:+ "}"
  end.

(** *** [json.dumps] of a scalar determines the scalar *)

Definition scalar (v : json) : bool :=
  match v with JNull | JInt _ | JStr _ => true | _ => false end.

Definition delim (c : ascii) : bool := Ascii.eqb c ","%char || Ascii.eqb c "}"%char.

(** A literal is determined by its text when the escapes are prefix free and
    none of them starts with a quote. *)
Section Quoted.
Variable esc : ascii -> string.
Hypothesis esc_prefix_free :
  forallb (fun a => forallb (fun b => Ascii.eqb a b || incompat (esc a) (esc b)) all_ascii) all_ascii = true.
Hypothesis esc_not_quote : forallb (fun a => incompat (esc a) (String quote EmptyString)) all_ascii = true.

Lemma escape_all_tail x y s t :
  escape_all esc x +:+ String quote s = escape_all esc y +:+ String quote t -> x = y /\ s = t.
Proof.
  assert (forall a s t, esc a +:+ s <> String quote t) as Hq.
  { intros a s' t'. apply (incompat_app _ (String quote EmptyString) s' t').
    revert a. apply forall_ascii, esc_not_quote. }
  revert y; induction x as [| a x IH]; intros [| b y]; simpl.
  - by intros [= ->].
  - rewrite <- str_app_assoc. intros E. by apply eq_sym, Hq in E.
  - rewrite <- str_app_assoc. intros E. by apply Hq in E.
  - rewrite <- !str_app_assoc. intros E.
    pose proof (forall_ascii2 _ esc_prefix_free a b) as H. simpl in H.
    destruct (Ascii.eqb_spec a b) as [-> |]; simpl in H.
    + apply str_app_cancel, IH in E as [-> ->]. done.
    + by apply (incompat_app _ _ _ _ H) in E.
Qed.

Lemma quoted_tail x y s t : quoted esc x +:+ s = quoted esc y +:+ t -> x = y /\ s = t.
Proof.
  unfold quoted; simpl. rewrite <- !str_app_assoc; simpl.
  intros [= E]. by apply escape_all_tail in E.
Qed.
End Quoted.

Lemma dump_str_tail x y s t : dump_str x +:+ s = dump_str y +:+ t -> x = y /\ s = t.
Proof. apply quoted_tail; vm_compute; reflexivity. Qed.

Lemma pretty_N_go_forallb P x s :
  (forall d, P (pretty_N_char d) = true) -> str_forallb P s = true ->
  str_forallb P (pretty_N_go x s) = true.
Proof.
  intros HP. revert s. induction (N.lt_wf_0 x) as [x _ IH]; intros s Hs.
  destruct (decide (x = 0)%N) as [-> |]; [done |].
  rewrite pretty_N_go_step by lia. apply IH; [apply N.div_lt; lia |].
  simpl. by rewrite HP.
Qed.

Lemma pretty_Z_forallb P (z : Z) :
  (forall d, P (pretty_N_char d) = true) -> P "-"%char = true ->
  str_forallb P (pretty z) = true.
Proof.
  intros Hd Hm. unfold pretty, pretty_Z, pretty, pretty_positive, pretty, pretty_N.
  assert (P "0"%char = true) by apply (Hd 0%N).
  destruct z; simpl; repeat case_decide; simpl; rewrite ?andb_true_r, ?andb_true_iff;
    auto using pretty_N_go_forallb.
Qed.

Lemma pretty_N_go_not_empty x s : s <> EmptyString -> pretty_N_go x s <> EmptyString.
Proof.
  revert s. induction (N.lt_wf_0 x) as [x _ IH]; intros s Hs.
  destruct (decide (x = 0)%N) as [-> |]; [done |].
  rewrite pretty_N_go_step by lia. apply IH; [apply N.div_lt; lia | done].
Qed.

Lemma pretty_Z_not_empty (z : Z) : pretty z <> EmptyString.
Proof.
  unfold pretty, pretty_Z, pretty, pretty_positive, pretty, pretty_N.
  destruct z; simpl; try done.
  rewrite pretty_N_go_step by lia. by apply pretty_N_go_not_empty.
Qed.

(** A number's text starts with a digit or a minus sign. *)
Definition num_char (c : ascii) : bool :=
  Ascii.eqb c "-"%char || ((48 <=? code c)%Z && (code c <=? 57)%Z).

Lemma pretty_Z_num (z : Z) : str_forallb num_char (pretty z) = true.
Proof. apply pretty_Z_forallb; [| done]. intros d. unfold pretty_N_char. by repeat case_match. Qed.

Lemma pretty_Z_not_delim (z : Z) : str_forallb (fun c => negb (delim c)) (pretty z) = true.
Proof. apply pretty_Z_forallb; [| done]. intros d. unfold pretty_N_char. by repeat case_match. Qed.

Lemma pretty_Z_not_quote (z : Z) s t : pretty z +:+ s <> String quote t.
Proof.
  pose proof (pretty_Z_num z) as H. pose proof (pretty_Z_not_empty z) as Hne.
  destruct (pretty z) as [| c r]; simpl in *; [done |].
  intros [= -> _]. apply andb_true_iff in H as [H _]. by vm_compute in H.
Qed.

Lemma pretty_Z_not_null (z : Z) : pretty z <> "null".
Proof. intros E. pose proof (pretty_Z_num z) as H. rewrite E in H. by vm_compute in H. Qed.

(** The text of a scalar, followed by a comma or a closing brace, determines
    the scalar and what follows. *)
Lemma scalar_dumps_tail sort v w d s d' t :
  scalar v = true -> scalar w = true -> delim d = true -> delim d' = true ->
  dumps sort v +:+ String d s = dumps sort w +:+ String d' t -> v = w /\ String d s = String d' t.
Proof.
  intros Hv Hw Hd Hd' E.
  destruct v, w; try done; simpl in E.
  - apply (delimited_inj delim "null" "null") in E; naive_solver.
  - apply (delimited_inj delim "null") in E as [E _]; auto using pretty_Z_not_delim.
    by apply eq_sym, pretty_Z_not_null in E.
  - apply (delimited_inj delim _ "null") in E as [E _]; auto using pretty_Z_not_delim.
    by apply pretty_Z_not_null in E.
  - apply (delimited_inj delim) in E as [E ?]; auto using pretty_Z_not_delim.
    apply (inj pretty) in E. naive_solver.
  - by apply pretty_Z_not_quote in E.
  - by apply eq_sym, pretty_Z_not_quote in E.
  - apply dump_str_tail in E. naive_solver.
Qed.

End Json.
