(* ===== verification/AuditChain.v ===== *)
(** The tamper-evident audit log: the hash chain
    ([apps/backend/src/app/core/audit_chain.py]), its writers
    ([services/log_service.py], [services/audit_spool.py]) and its retention
    purge ([services/log_purge.py]). *)
From S2P Require Import Prelude Sha256 Json.
Import Json.
Open Scope Z_scope.

Module AuditChain.

(** *** The data: [db/models/audit.py], and the columns of [AppSettings] the
    audit log uses *)

(** The columns of a [Log] row that no hash covers. *)
Record body := Body {
  level : string; category : string; actor : option string;
  actor_gravatar_hash : option string; actor_name : option string;
  old_value : option string; new_value : option string;
  user_agent : option string; details : option string; status_code : option Z;
  entity_name : option string; severity : option string; session_id : option Z
}.

(** [log_fields]: everything but the key and the chain columns.  Datetimes are
    microseconds since the epoch. *)
Record fields := Fields {
  timestamp : Z;
  created_at_utc : option string;
  action : string;
  actor_id : option Z;
  role_at_time : option string;
  entity_type : option string;
  entity_id : option Z;
  diff : option string;
  ip_address : option string;
  rest : body
}.

Record log := Log {
  id : Z;
  entry : fields;
  previous_hash : option string;
  log_hash : option string
}.

Record app_settings := AppSettings {
  audit_log_retention_days : Z;
  audit_log_hide_ip : bool;
  audit_chain_checkpoint_hash : option string
}.

(** The database: the [logs] table in id order, the first [app_settings] row,
    the [pending_audit_logs] spool in id order, and the next value of the
    [logs.id] sequence. *)
Record db := Db {
  logs : list log;
  settings : option app_settings;
  pending : list fields;
  next_id : Z
}.

Inductive error := UniqueViolation | BadAuthorization.

Definition with_logs (d : db) (ls : list log) : db := Db ls (settings d) (pending d) (next_id d).

(** *** Hashing *)

Definition jopt {A} (f : A -> json) (o : option A) : json :=
  match o with Some a => f a | None => JNull end.

Definition canonical_log_payload (f : fields) (previous_hash : option string) : json :=
  JObj [("timestamp", JStr (default EmptyString (created_at_utc f)));
        ("action", JStr (action f));
        ("actor_id", jopt JInt (actor_id f));
        ("role_at_time", jopt JStr (role_at_time f));
        ("entity_type", jopt JStr (entity_type f));
        ("entity_id", jopt JInt (entity_id f));
        ("diff", jopt JStr (diff f));
        ("ip_address", jopt JStr (ip_address f));
        ("previous_hash", jopt JStr previous_hash)]%string.

Definition payload_text (f : fields) (previous_hash : option string) : string :=
  dumps true (canonical_log_payload f previous_hash).

Definition compute_log_hash (f : fields) (previous_hash : option string) : string :=
  Sha256.hexdigest (payload_text f previous_hash).

(** *** The serialisation lock *)

Inductive lock_outcome := LockHeld | LockNoop | LockTimeout | LockRefused.

(** The polling of [lock_audit_chain]: [tries] is what each
    [pg_try_advisory_xact_lock] statement answered ([None]: it raised), with the
    clock after it. *)
Fixpoint poll_lock (deadline : Z) (tries : list (option bool * Z)) : option lock_outcome :=
  match tries with
  | [] => None
  | (None, _) :: _ => Some LockRefused
  | (Some true, _) :: _ => Some LockHeld
  | (Some false, now) :: tries =>
      if deadline <=? now then Some LockTimeout else poll_lock deadline tries
  end.

(** [lock_audit_chain]; without a deadline the first statement blocks until it
    is granted or raises.  [None]: still waiting. *)
Definition lock_audit_chain (postgresql : bool) (wait : option Z) (now : Z)
    (tries : list (option bool * Z)) : option lock_outcome :=
  if negb postgresql then Some LockNoop
  else match wait, tries with
       | None, [] => None
       | None, (None, _) :: _ => Some LockRefused
       | None, (Some _, _) :: _ => Some LockHeld
       | Some w, _ => poll_lock (now + w) tries
       end.

(** *** Verification *)

Definition chain_seed_hash (d : db) : option string :=
  settings d ≫= audit_chain_checkpoint_hash.

Record report := Report {
  valid : bool;
  first_failure_id : option Z;
  message : string;
  checked_count : Z
}.

(** The streamed walk of [verify_audit_chain]. *)
Fixpoint walk (previous : option string) (checked : Z) (ls : list log) : report :=
  match ls with
  | [] =>
      if checked =? 0 then Report true None "No log entries to verify." 0
      else Report true None ("Chain verified (" +:+ pretty checked +:+ " entries).") checked
  | r :: ls =>
      let checked := checked + 1 in
      let expected := compute_log_hash (entry r) previous in
      if negb (bool_decide (previous_hash r = previous)) then
        Report false (Some (id r))
          ("Log id=" +:+ pretty (id r) +:+ ": previous_hash mismatch (chain broken).") checked
      else if negb (bool_decide (log_hash r = Some expected)) then
        Report false (Some (id r))
          ("Log id=" +:+ pretty (id r) +:+ ": log_hash mismatch (entry tampered).") checked
      else walk (Some expected) checked ls
  end.

Definition verify_audit_chain (d : db) : report := walk (chain_seed_hash d) 0 (logs d).

(** *** Appending *)

Definition has_hash (h : string) (ls : list log) : bool :=
  existsb (fun r => bool_decide (log_hash r = Some h)) ls.

(** [_do_write] of [write_log]; [logs.log_hash] is unique. *)
Definition do_write (f : fields) (d : db) : result error db :=
  let previous := last (logs d) ≫= log_hash in
  let h := compute_log_hash f previous in
  if has_hash h (logs d) then Err UniqueViolation
  else Ok (Db (logs d ++ [Log (next_id d) f previous (Some h)]) (settings d) (pending d)
             (next_id d + 1)).

(** [audit_spool.defer]. *)
Definition defer (f : fields) (d : db) : db :=
  Db (logs d) (settings d) (pending d ++ [f]) (next_id d).

(** [get_or_create_settings] on the columns used here. *)
Definition get_or_create_settings (d : db) : app_settings * db :=
  match settings d with
  | Some s => (s, d)
  | None => let s := AppSettings 90 false None in (s, Db (logs d) (Some s) (pending d) (next_id d))
  end.

Definition hide_ip (f : fields) : fields :=
  Fields (timestamp f) (created_at_utc f) (action f) (actor_id f) (role_at_time f)
    (entity_type f) (entity_id f) (diff f) None (rest f).

(** [write_log] from the point where the entry's fields are known: it redacts
    the address, appends, or spools the entry when a background writer ([tx] is
    false) did not get the lock.  Any other failure is logged and swallowed. *)
Definition write_log (tx : bool) (lock : lock_outcome) (f : fields) (d : db) : db :=
  let '(s, d) := get_or_create_settings d in
  let f := if audit_log_hide_ip s then hide_ip f else f in
  match lock with
  | LockTimeout => if tx then d else defer f d
  | LockRefused => d
  | LockHeld | LockNoop => match do_write f d with Ok d' => d' | Err _ => d end
  end.

(** [_drain_within]: chain the oldest [limit] spooled entries, in one
    transaction, and report how many. *)
Fixpoint chain_all (fs : list fields) (d : db) : result error db :=
  match fs with
  | [] => Ok d
  | f :: fs => d' ← do_write f d; chain_all fs d'
  end.

Definition drain_within (limit : nat) (d : db) : result error (nat * db) :=
  let batch := take limit (pending d) in
  if bool_decide (batch = []) then Ok (0%nat, d)
  else d' ← chain_all batch d;
       Ok (length batch, Db (logs d') (settings d') (drop limit (pending d')) (next_id d')).

(** *** Retention *)

Definition next_purge_batch (batch_rows : nat) (cutoff : Z) (d : db) : option (Z * option string) :=
  max_id ← id <$> last (logs d);
  let first_kept_id := id <$> head (filter (fun r => cutoff <= timestamp (entry r)) (logs d)) in
  let bound := default max_id first_kept_id in
  let ids := take batch_rows (id <$> filter (fun r => id r < bound) (logs d)) in
  tip_id ← last ids;
  Some (tip_id, head (filter (fun r => id r = tip_id) (logs d)) ≫= log_hash).

Definition day : Z := 86400 * 1000000.

Inductive purge_outcome :=
| NoSettings
| RetentionOff
| NoBatch
| Purged (rowcount : nat) (d : db).

(** One transaction of [purge_old_audit_logs]. *)
Definition purge_transaction (batch_rows : nat) (now : Z) (d : db) : purge_outcome :=
  match settings d with
  | None => NoSettings
  | Some s =>
      if audit_log_retention_days s <=? 0 then RetentionOff
      else
        let cutoff := now - audit_log_retention_days s * day in
        match next_purge_batch batch_rows cutoff d with
        | None => NoBatch
        | Some (tip_id, tip_hash) =>
            let s' := AppSettings (audit_log_retention_days s) (audit_log_hide_ip s) tip_hash in
            let kept := filter (fun r => ~ id r <= tip_id) (logs d) in
            Purged (length (logs d) - length kept)
              (Db kept (Some s') (pending d) (next_id d))
        end
  end.

(** The loop; [clock i] is the time of its [i]-th transaction.  [None] only when
    the fuel runs out. *)
Fixpoint purge_loop (fuel : nat) (batch_rows : nat) (clock : nat -> Z) (i : nat)
    (deleted : nat) (d : db) : option (nat * db) :=
  match fuel with
  | O => None
  | S fuel =>
      match purge_transaction batch_rows (clock i) d with
      | NoSettings => Some (0%nat, d)
      | RetentionOff | NoBatch => Some (deleted, d)
      | Purged O d' => Some (deleted, d')
      | Purged n d' => purge_loop fuel batch_rows clock (S i) (deleted + n) d'
      end
  end.

(** [purge_old_audit_logs]: the loop and its summary entry, whose fields the
    caller's clock determines. *)
Definition purge_old_audit_logs (batch_rows : nat) (clock : nat -> Z) (lock : lock_outcome)
    (summary : nat -> fields) (d : db) : option (nat * db) :=
  '(deleted, d') ← purge_loop (S (length (logs d))) batch_rows clock 0 0 d;
  Some (deleted, if bool_decide (deleted = 0%nat) then d' else write_log false lock (summary deleted) d').

(** *** Repair *)

Record change := Change {
  changed_id : Z;
  old_previous_hash : option string;
  new_previous_hash : option string;
  old_log_hash : option string;
  new_log_hash : string
}.

(** The rows of one window that do not match, and the hash after it. *)
Fixpoint relink_window (previous : option string) (w : list log) : option string * list change :=
  match w with
  | [] => (previous, [])
  | r :: w =>
      let expected := compute_log_hash (entry r) previous in
      let '(tip, cs) := relink_window (Some expected) w in
      if negb (bool_decide (previous_hash r = previous)) || negb (bool_decide (log_hash r = Some expected))
      then (tip, Change (id r) (previous_hash r) previous (log_hash r) expected :: cs)
      else (tip, cs)
  end.

(** The [UPDATE] a flush issues for one changed row: the unique constraint on
    [log_hash] is checked against the table as it then is. *)
Definition update_row (c : change) (ls : list log) : result error (list log) :=
  if existsb (fun r => negb (id r =? changed_id c) && bool_decide (log_hash r = Some (new_log_hash c))) ls
  then Err UniqueViolation
  else Ok (map (fun r => if id r =? changed_id c
                         then Log (id r) (entry r) (new_previous_hash c) (Some (new_log_hash c)) else r) ls).

Fixpoint flush (cs : list change) (ls : list log) : result error (list log) :=
  match cs with
  | [] => Ok ls
  | c :: cs => ls' ← update_row c ls; flush cs ls'
  end.

Fixpoint repair_loop (fuel batch : nat) (from : Z) (previous : option string)
    (changed : list change) (ls : list log) : option (result error (list log * list change)) :=
  match fuel with
  | O => None
  | S fuel =>
      let window := take batch (filter (fun r => from <= id r) ls) in
      match last window with
      | None => Some (Ok (ls, changed))
      | Some l =>
          let '(tip, cs) := relink_window previous window in
          match flush cs ls with
          | Err e => Some (Err e)
          | Ok ls' => repair_loop fuel batch (id l + 1) tip (changed ++ cs) ls'
          end
      end
  end.

(** The audit entry the repair appends about itself. *)
Definition repair_entry (now : Z) (iso : string) (actor : option Z) (reason : string)
    (failure_id : Z) (changed_count : nat) : fields :=
  let name := match actor with None => "system" | Some a => "user:" +:+ pretty a end%string in
  let summary := [("reason", JStr reason); ("first_failure_id", JInt failure_id);
                  ("changed_count", JInt (Z.of_nat changed_count))]%string in
  Fields now (Some iso) "audit_chain_repair" actor None (Some "audit_log"%string) (Some failure_id)
    (Some (dumps false (JObj summary))) None
    (Body "warn" "audit" (Some name) None (Some name) None None None
       (Some (dumps true (JObj (("authorization", JStr "REPAIR_AUDIT_CHAIN") :: summary)%string)))
       None (Some ("from:" +:+ pretty failure_id)) (Some "warn"%string) None).

Record repair_report := RepairReport {
  repaired : bool; before : report; changes : list change; after : report
}.

Definition repair_audit_chain (batch : nat) (authorization : string) (actor : option Z)
    (reason : string) (now : Z) (iso : string) (d : db)
    : option (result error (repair_report * db)) :=
  if negb (String.eqb authorization "REPAIR_AUDIT_CHAIN") then Some (Err BadAuthorization)
  else
    let report := verify_audit_chain d in
    if valid report then Some (Ok (RepairReport false report [] report, d))
    else
        let failure_id := default 0 (first_failure_id report) in
        let seed := match last (filter (fun r => id r < failure_id) (logs d)) ≫= log_hash with
                    | Some h => Some h
                    | None => chain_seed_hash d
                    end in
        match repair_loop (S (length (logs d))) batch failure_id seed [] (logs d) with
        | None => None
        | Some (Err e) => Some (Err e)
        | Some (Ok (ls, changed)) =>
            let d' := write_log true LockHeld
                        (repair_entry now iso actor reason failure_id (length changed))
                        (with_logs d ls) in
            Some (Ok (RepairReport true report changed (verify_audit_chain d'), d'))
        end.

(** *** The chain as a specification *)

Definition row_ok (previous : option string) (r : log) : Prop :=
  previous_hash r = previous /\ log_hash r = Some (compute_log_hash (entry r) previous).

(** Every row links to its predecessor and carries its own hash. *)
Fixpoint linked (previous : option string) (ls : list log) : Prop :=
  match ls with
  | [] => True
  | r :: ls => row_ok previous r /\ linked (log_hash r) ls
  end.

(** The hash the next row has to link to. *)
Definition tip (previous : option string) (ls : list log) : option string :=
  match last ls with Some r => log_hash r | None => previous end.

Definition ids_increase (ls : list log) : Prop := StronglySorted (fun r r' => id r < id r') ls.

(** What holds of the tables whatever the rows say: keys come from the sequence
    and a recorded checkpoint has rows after it. *)
Definition tables (d : db) : Prop :=
  ids_increase (logs d) /\ Forall (fun r => id r < next_id d) (logs d) /\
  (logs d = [] -> chain_seed_hash d = None).

(** The invariant of an untampered audit log. *)
Definition wf (d : db) : Prop := linked (chain_seed_hash d) (logs d) /\ tables d.

(** Reference for the repair: recompute both chain columns of every row. *)
Fixpoint relink (previous : option string) (ls : list log) : list log :=
  match ls with
  | [] => []
  | r :: ls =>
      let h := compute_log_hash (entry r) previous in
      Log (id r) (entry r) previous (Some h) :: relink (Some h) ls
  end.

(** *** Lemmas: verification *)

#[local] Opaque compute_log_hash.

Lemma tip_cons p r ls : tip p (r :: ls) = tip (log_hash r) ls.
Proof.
  unfold tip. destruct ls as [| r0 ls]; [done |]. simpl.
  by destruct (last (r0 :: ls)) eqn:E; [| apply last_None in E].
Qed.

Lemma walk_valid p n ls : valid (walk p n ls) = true <-> linked p ls.
Proof.
  revert p n; induction ls as [| r ls IH]; intros p n; simpl; [by case_match |].
  unfold row_ok. case_bool_decide as Hp; simpl; [| naive_solver].
  case_bool_decide as Hh; simpl; [| naive_solver].
  rewrite IH, Hh. naive_solver.
Qed.

Lemma walk_failure p n ls :
  ~ linked p ls ->
  exists pre r post, ls = pre ++ r :: post /\ linked p pre /\ ~ row_ok (tip p pre) r /\
    first_failure_id (walk p n ls) = Some (id r) /\
    checked_count (walk p n ls) = n + Z.of_nat (length pre) + 1.
Proof.
  revert p n; induction ls as [| r ls IH]; intros p n H; simpl in *; [done |].
  unfold row_ok in H.
  case_bool_decide as Hp; simpl.
  2: { exists [], r, ls. unfold row_ok, tip; simpl. repeat split; naive_solver lia. }
  case_bool_decide as Hh; simpl.
  2: { exists [], r, ls. unfold row_ok, tip; simpl. repeat split; naive_solver lia. }
  destruct (IH (log_hash r) (n + 1)) as (pre & r' & post & -> & Hl & Hr & Hf & Hc).
  { naive_solver. }
  rewrite <- Hh. exists (r :: pre), r', post. split_and!.
  - reflexivity.
  - split; [by split | done].
  - by rewrite tip_cons.
  - exact Hf.
  - rewrite Hc, length_cons. lia.
Qed.

Lemma linked_app p a b : linked p (a ++ b) <-> linked p a /\ linked (tip p a) b.
Proof.
  revert p; induction a as [| r a IH]; intros p; simpl; [unfold tip; naive_solver |].
  rewrite IH, tip_cons. naive_solver.
Qed.

Lemma tip_snoc p a r : tip p (a ++ [r]) = log_hash r.
Proof. unfold tip. by rewrite last_snoc. Qed.

Lemma linked_snoc p a r : linked p (a ++ [r]) <-> linked p a /\ row_ok (tip p a) r.
Proof. rewrite linked_app. simpl. naive_solver. Qed.

Lemma linked_tip_some p a r : linked p (a ++ [r]) -> is_Some (tip p (a ++ [r])).
Proof. rewrite linked_snoc, tip_snoc. unfold row_ok. naive_solver. Qed.

(** *** Lemmas: appending *)

Lemma do_write_shape f d d' :
  do_write f d = Ok d' ->
  exists r, logs d' = logs d ++ [r] /\ id r = next_id d /\ entry r = f /\
    row_ok (last (logs d) ≫= log_hash) r /\
    settings d' = settings d /\ pending d' = pending d /\ next_id d' = next_id d + 1.
Proof.
  unfold do_write. case_match; [done |]. intros [= <-]. simpl.
  eexists. repeat split; reflexivity.
Qed.

Lemma wf_tip d : wf d -> last (logs d) ≫= log_hash = tip (chain_seed_hash d) (logs d).
Proof.
  intros (_ & _ & _ & He). unfold tip. destruct (last (logs d)) eqn:E; [done |].
  apply last_None in E. by rewrite He.
Qed.

Lemma ids_increase_snoc ls r :
  ids_increase ls -> Forall (fun r' => id r' < id r) ls -> ids_increase (ls ++ [r]).
Proof.
  unfold ids_increase. induction 1 as [| x ls Hs IH Hx]; intros Hf; simpl.
  - repeat constructor.
  - apply Forall_cons in Hf as [Hxr Hf]. constructor; [by apply IH |].
    apply Forall_app; auto.
Qed.

Lemma do_write_wf f d d' : wf d -> do_write f d = Ok d' -> wf d'.
Proof.
  intros Hwf H. pose proof (wf_tip _ Hwf) as Ht.
  destruct Hwf as (Hl & Hs & Hn & He).
  apply do_write_shape in H as (r & El & Ei & Ef & Hr & Es & Ep & En).
  assert (chain_seed_hash d' = chain_seed_hash d) as Hseed
    by (unfold chain_seed_hash; by rewrite Es).
  unfold wf, tables. rewrite El, Hseed, En. split; [| split; [| split]].
  - apply linked_snoc. split; [done |]. by rewrite <- Ht.
  - apply ids_increase_snoc; [done |]. by rewrite Ei.
  - apply Forall_app; split; [| constructor; [lia | done]].
    eapply Forall_impl; [done |]. simpl; lia.
  - intros E. by apply app_nil in E as [_ [=]].
Qed.

Lemma settings_wf d s d' : wf d -> get_or_create_settings d = (s, d') -> wf d'.
Proof.
  intros Hwf. unfold get_or_create_settings. destruct d as [ls [st |] ps n]; intros [= <- <-]; [done |].
  exact Hwf.
Qed.

Lemma write_log_wf tx lock f d : wf d -> wf (write_log tx lock f d).
Proof.
  intros Hwf. unfold write_log. destruct (get_or_create_settings d) as [s d'] eqn:E.
  apply settings_wf in E; [| done].
  assert (forall f, wf (match do_write f d' with Ok d'' => d'' | Err _ => d' end)).
  { intros f'. destruct (do_write f' d') eqn:Ew; eauto using do_write_wf. }
  destruct lock, tx; auto.
Qed.

Lemma chain_all_wf fs d d' : wf d -> chain_all fs d = Ok d' -> wf d'.
Proof.
  revert d; induction fs as [| f fs IH]; intros d Hwf; simpl; [by intros [= <-] |].
  destruct (do_write f d) eqn:E; simpl; [| done]. eauto using do_write_wf.
Qed.

Lemma drain_within_wf limit d n d' : wf d -> drain_within limit d = Ok (n, d') -> wf d'.
Proof.
  intros Hwf. unfold drain_within. case_bool_decide; [by intros [= <- <-] |].
  destruct (chain_all _ d) eqn:E; simpl; [| done]. intros [= <- <-].
  apply chain_all_wf in E; done.
Qed.

(** *** Lemmas: retention *)

Lemma ids_increase_app a b :
  ids_increase (a ++ b) <->
  ids_increase a /\ ids_increase b /\ (forall x y, x ∈ a -> y ∈ b -> id x < id y).
Proof.
  unfold ids_increase. induction a as [| r a IH]; simpl.
  - split; [| naive_solver]. intros H. repeat split; [constructor | done |]. intros x y Hx. by apply not_elem_of_nil in Hx.
  - split.
    + intros H. inversion_clear H as [| ? ? Hs Hf]. apply IH in Hs as (Ha & Hb & Hab).
      apply Forall_app in Hf as [Hfa Hfb]. repeat split; [by constructor | done |].
      intros x y [-> | Hx]%elem_of_cons Hy; [| by apply Hab].
      by rewrite Forall_forall in Hfb; apply Hfb.
    + intros (Ha & Hb & Hab). inversion_clear Ha as [| ? ? Hs Hf]. constructor.
      * apply IH. repeat split; [done | done |]. intros; apply Hab; [by right | done].
      * apply Forall_app. split; [done |]. apply Forall_forall. intros; apply Hab; [left | done].
Qed.

Lemma filter_true {A} (P : A -> Prop) `{forall x, Decision (P x)} (l : list A) :
  Forall P l -> filter P l = l.
Proof.
  induction 1 as [| x l Hx Hl IH]; [done |].
  rewrite filter_cons_True by done. by rewrite IH.
Qed.

Lemma filter_false {A} (P : A -> Prop) `{forall x, Decision (P x)} (l : list A) :
  Forall (fun x => ~ P x) l -> filter P l = [].
Proof.
  induction 1 as [| x l Hx Hl IH]; [done |].
  rewrite filter_cons_False by done. done.
Qed.

(** The rows below an id are a prefix of the table. *)
Lemma split_at_id ls b :
  ids_increase ls ->
  exists a c, ls = a ++ c /\ Forall (fun r => id r < b) a /\ Forall (fun r => b <= id r) c.
Proof.
  unfold ids_increase. induction 1 as [| r ls Hs IH Hf]; [by exists [], [] |].
  destruct (decide (id r < b)).
  - destruct IH as (a & c & -> & Ha & Hc). exists (r :: a), c. auto.
  - exists [], (r :: ls). split; [done |]. split; [done |]. constructor; [lia |].
    eapply Forall_impl; [exact Hf |]. simpl; lia.
Qed.

Lemma filter_lt_split a c b :
  Forall (fun r => id r < b) a -> Forall (fun r => b <= id r) c ->
  filter (fun r => id r < b) (a ++ c) = a.
Proof.
  intros Ha Hc. rewrite filter_app, filter_true, filter_false, app_nil_r; [done | | done].
  eapply Forall_impl; [exact Hc |]. simpl; lia.
Qed.

Lemma head_at_id del r keep :
  ids_increase ((del ++ [r]) ++ keep) ->
  head (filter (fun x => id x = id r) ((del ++ [r]) ++ keep)) = Some r.
Proof.
  intros Hs. rewrite <- app_assoc in *; simpl in *.
  apply ids_increase_app in Hs as (_ & _ & Hlt).
  rewrite filter_app, filter_false; simpl.
  - by rewrite filter_cons_True.
  - apply Forall_forall. intros x Hx. specialize (Hlt x r Hx ltac:(left)). lia.
Qed.

Lemma head_filter_min P `{forall x, Decision (P x)} ls k x :
  ids_increase ls -> head (filter P ls) = Some k -> x ∈ ls -> P x -> id k <= id x.
Proof.
  unfold ids_increase. induction 1 as [| r ls Hs IH Hf]; intros Hk Hx HP; [done |].
  rewrite filter_cons in Hk. case_decide.
  - injection Hk as ->. apply elem_of_cons in Hx as [-> | Hx]; [lia |].
    rewrite Forall_forall in Hf. specialize (Hf x Hx). lia.
  - apply elem_of_cons in Hx as [-> | Hx]; [done | by apply IH].
Qed.

(** What a selected batch is: a prefix of expired rows that is not the whole
    table, with the id and the hash of its last row. *)
Lemma next_purge_batch_spec n cutoff d tip_id tip_hash :
  ids_increase (logs d) -> next_purge_batch n cutoff d = Some (tip_id, tip_hash) ->
  exists del r keep, logs d = (del ++ [r]) ++ keep /\ keep <> [] /\
    id r = tip_id /\ log_hash r = tip_hash /\ (length (del ++ [r]) <= n)%nat /\
    Forall (fun r => timestamp (entry r) < cutoff) (del ++ [r]).
Proof.
  intros Hs. unfold next_purge_batch.
  destruct (last (logs d)) as [m |] eqn:Em; simpl; [| done].
  set (kept := head (filter _ (logs d))). set (bound := default (id m) _). intros H.
  destruct (split_at_id (logs d) bound Hs) as (old & new & El & Ho & Hn).
  rewrite El, (filter_lt_split old new bound Ho Hn) in H.
  rewrite <- fmap_take, fmap_last in H.
  destruct (last (take n old)) as [r |] eqn:Er; simpl in H; [| done].
  apply last_Some in Er as [del Edel]. injection H as Hid Hh.
  assert (m ∈ logs d) as Hm by by apply last_Some_elem_of.
  assert (bound <= id m) as Hbm.
  { subst bound. destruct kept as [k |] eqn:Ek; simpl; [| lia].
    apply head_Some_elem_of, list_elem_of_filter in Ek as [_ Hk].
    apply last_Some in Em as [l Em]. rewrite Em in Hs, Hk.
    apply ids_increase_app in Hs as (_ & _ & Hlt).
    apply elem_of_app in Hk as [Hk | ->%list_elem_of_singleton]; [| lia].
    specialize (Hlt k m Hk ltac:(left)). lia. }
  assert (logs d = (del ++ [r]) ++ (drop n old ++ new)) as Esplit
    by by rewrite <- Edel, app_assoc, take_drop.
  exists del, r, (drop n old ++ new). split_and!; [done | | done | | | ].
  - intros [_ ->]%app_nil. rewrite El, app_nil_r, Forall_forall in *.
    specialize (Ho m Hm). lia.
  - rewrite <- Hh, <- El, Esplit. rewrite head_at_id; [done |]. by rewrite <- Esplit.
  - rewrite <- Edel, length_take. lia.
  - rewrite <- Edel. apply Forall_take, Forall_forall. intros x Hx.
    destruct (decide (cutoff <= timestamp (entry x))) as [Hts |]; [| lia].
    assert (x ∈ logs d) as Hxl by (rewrite El; apply elem_of_app; by left).
    rewrite Forall_forall in Ho. specialize (Ho x Hx).
    subst bound. destruct kept as [k |] eqn:Ek; simpl in Ho.
    + pose proof (head_filter_min (fun r => cutoff <= timestamp (entry r)) _ k x Hs Ek Hxl Hts). lia.
    + unfold kept in Ek. apply head_None in Ek. assert (x ∈ filter (fun r => cutoff <= timestamp (entry r)) (logs d)) as Hin
        by by apply list_elem_of_filter.
      rewrite Ek in Hin. by apply not_elem_of_nil in Hin.
Qed.

(** A purge transaction removes a non-empty prefix of expired rows, keeps the
    chain tip and records the hash of the last removed row. *)
Lemma purge_transaction_spec n now d k d' :
  ids_increase (logs d) -> purge_transaction n now d = Purged k d' ->
  exists s del r, settings d = Some s /\ 0 < audit_log_retention_days s /\
    logs d = (del ++ [r]) ++ logs d' /\ logs d' <> [] /\ k = length (del ++ [r]) /\ (k <= n)%nat /\
    settings d' = Some (AppSettings (audit_log_retention_days s) (audit_log_hide_ip s) (log_hash r)) /\
    next_id d' = next_id d /\ pending d' = pending d /\
    Forall (fun r => timestamp (entry r) < now - audit_log_retention_days s * day) (del ++ [r]).
Proof.
  intros Hs. unfold purge_transaction. destruct (settings d) as [s |]; [| done].
  destruct (Z.leb_spec (audit_log_retention_days s) 0); [done |].
  destruct (next_purge_batch _ _ d) as [[tip_id tip_hash] |] eqn:E; [| done].
  intros [= <- <-]. simpl.
  apply next_purge_batch_spec in E as (del & r & keep & El & Hne & Hid & Hh & Hlen & Hts); [| done].
  assert (filter (fun r => ~ id r <= tip_id) (logs d) = keep) as Ek.
  { rewrite El in Hs |- *. apply ids_increase_app in Hs as (Hdel & _ & Hlt).
    rewrite filter_app, filter_false, filter_true; [done | |].
    - apply Forall_forall. intros y Hy. specialize (Hlt r y). rewrite elem_of_app, list_elem_of_singleton in Hlt.
      specialize (Hlt ltac:(auto) Hy). lia.
    - apply ids_increase_app in Hdel as (_ & _ & Hlt').
      apply Forall_app; split; [| constructor; [lia | done]].
      apply Forall_forall. intros x Hx. specialize (Hlt' x r Hx ltac:(left)). lia. }
  rewrite Ek. exists s, del, r. split_and!; try done.
  - rewrite El, length_app. lia.
  - rewrite El, length_app. lia.
  - by rewrite Hh.
Qed.

Lemma purge_transaction_wf n now d k d' :
  wf d -> purge_transaction n now d = Purged k d' -> wf d'.
Proof.
  intros (Hl & Hs & Hn & _) H.
  apply purge_transaction_spec in H as (s & del & r & _ & _ & El & Hne & _ & _ & Hseed & Hnext & _); [| done].
  rewrite El in *. apply linked_app in Hl as [_ Hl]. rewrite tip_snoc in Hl.
  apply ids_increase_app in Hs as (_ & Hs & _). apply Forall_app in Hn as [_ Hn].
  unfold wf, tables, chain_seed_hash. rewrite Hseed, Hnext. done.
Qed.

(** When no batch is selected the oldest row is unexpired, or is the tip. *)
Definition nothing_expired (cutoff : Z) (ls : list log) : Prop :=
  match ls with
  | [] | [_] => True
  | r :: _ => cutoff <= timestamp (entry r)
  end.

Lemma next_purge_batch_none n cutoff d :
  (1 <= n)%nat -> ids_increase (logs d) -> next_purge_batch n cutoff d = None ->
  nothing_expired cutoff (logs d).
Proof.
  intros Hn Hs H. unfold nothing_expired.
  destruct (logs d) as [| r [| r2 ls]] eqn:El; [done | done |].
  unfold next_purge_batch in H. rewrite El in H.
  destruct (last (r :: r2 :: ls)) as [m |] eqn:Em; [simpl in H | by apply last_None in Em].
  set (kept := head (filter _ _)) in H. set (bound := default (id m) _) in H.
  destruct (decide (id r < bound)) as [Hlt | Hge].
  { rewrite filter_cons_True in H by done. destruct n; [lia |]. rewrite fmap_cons in H.
    cbn [take] in H. destruct (last (id r :: _)) eqn:E; [done | by apply last_None in E]. }
  assert (m ∈ r2 :: ls) as Hm.
  { rewrite last_cons_cons in Em. by apply last_Some_elem_of. }
  assert (id r < id m).
  { unfold ids_increase in Hs. inversion_clear Hs as [| ? ? _ Hf].
    rewrite Forall_forall in Hf. by apply Hf. }
  subst bound. destruct kept as [k |] eqn:Ek; simpl in Hge; [| lia].
  apply head_Some_elem_of, list_elem_of_filter in Ek as [Hk Hin].
  apply elem_of_cons in Hin as [-> | Hin]; [done |].
  unfold ids_increase in Hs. inversion_clear Hs as [| ? ? _ Hf].
  rewrite Forall_forall in Hf. specialize (Hf k Hin). lia.
Qed.

(** What a finished purge has done to the table. *)
Definition purged (clock : nat -> Z) (s : app_settings) (ls ls' : list log) (k : nat) : Prop :=
  let window := audit_log_retention_days s * day in
  exists gone, ls = gone ++ ls' /\ k = length gone /\ (ls <> [] -> ls' <> []) /\
    Forall (fun r => exists i, timestamp (entry r) < clock i - window) gone /\
    exists i, nothing_expired (clock i - window) ls'.

Lemma purge_loop_spec fuel n clock i deleted s d :
  wf d -> (1 <= n)%nat -> settings d = Some s -> 0 < audit_log_retention_days s ->
  (length (logs d) < fuel)%nat ->
  exists k d', purge_loop fuel n clock i deleted d = Some ((deleted + k)%nat, d') /\ wf d' /\
    purged clock s (logs d) (logs d') k.
Proof.
  intros Hwf Hn. revert i deleted s d Hwf.
  induction fuel as [| fuel IH]; intros i deleted s d Hwf Hset Hret Hlen; [lia |].
  simpl. destruct (purge_transaction n (clock i) d) as [| | | k d'] eqn:E.
  1, 2: unfold purge_transaction in E; rewrite Hset in E;
    destruct (Z.leb_spec (audit_log_retention_days s) 0); [lia | by repeat case_match].
  - exists 0%nat, d. rewrite Nat.add_0_r. split_and!; [done | done |].
    exists []. split_and!; try done. exists i.
    unfold purge_transaction in E. rewrite Hset in E.
    destruct (Z.leb_spec (audit_log_retention_days s) 0); [lia |].
    case_match eqn:Eb; [by case_match |]. apply next_purge_batch_none in Eb; [done | done | apply Hwf].
  - pose proof (purge_transaction_wf _ _ _ _ _ Hwf E) as Hwf'.
    apply purge_transaction_spec in E
      as (s0 & del & r & Hset0 & _ & El & Hne & Ek & _ & Hset' & _ & _ & Hexp); [| apply Hwf].
    rewrite Hset in Hset0. injection Hset0 as <-.
    destruct k as [| k]; [rewrite length_app in Ek; simpl in Ek; lia |].
    destruct (IH (S i) (deleted + S k)%nat _ d' Hwf' Hset' Hret)
      as (k' & d'' & -> & Hwf'' & gone & Eg & Ek' & Hg & Hexp' & Hdone).
    { rewrite El, !length_app in Hlen. simpl in Hlen. lia. }
    exists (S k + k')%nat, d''. split_and!; [by rewrite Nat.add_assoc | done |].
    exists ((del ++ [r]) ++ gone). split_and!.
    + by rewrite El, Eg, app_assoc.
    + rewrite length_app. lia.
    + intros _. by apply Hg.
    + apply Forall_app. split; [| done]. eapply Forall_impl; [exact Hexp |]. simpl. eauto.
    + done.
Qed.

(** *** Lemmas: repair *)

Lemma linked_relink p ls : linked p (relink p ls).
Proof. revert p; induction ls; intros p; simpl; [done | by repeat split]. Qed.

Lemma relink_content p ls :
  (fun r => (id r, entry r)) <$> relink p ls = (fun r => (id r, entry r)) <$> ls.
Proof. revert p; induction ls as [| r ls IH]; intros p; csimpl; [done | by rewrite IH]. Qed.

Lemma relink_app p a b : relink p (a ++ b) = relink p a ++ relink (tip p (relink p a)) b.
Proof.
  revert p; induction a as [| r a IH]; intros p; simpl; [done |].
  by rewrite IH, tip_cons.
Qed.

Lemma ids_increase_fmap ls : ids_increase ls <-> StronglySorted Z.lt (id <$> ls).
Proof.
  unfold ids_increase. induction ls as [| r ls IH]; [split; constructor |]. rewrite fmap_cons. split.
  - intros H. inversion_clear H as [| ? ? Hs Hf]. constructor; [by apply IH | rewrite Forall_fmap; exact Hf].
  - intros H. inversion_clear H as [| ? ? Hs Hf]. constructor; [by apply IH | rewrite Forall_fmap in Hf; exact Hf].
Qed.

Lemma relink_ids p ls : id <$> relink p ls = id <$> ls.
Proof. revert p; induction ls as [| r ls IH]; intros p; csimpl; [done | by rewrite IH]. Qed.

Lemma update_row_spec c a r b ls :
  ids_increase (a ++ r :: b) -> changed_id c = id r -> update_row c (a ++ r :: b) = Ok ls ->
  ls = a ++ Log (id r) (entry r) (new_previous_hash c) (Some (new_log_hash c)) :: b.
Proof.
  intros Hs Hid. unfold update_row. case_match; [done |]. intros [= <-]. rewrite Hid.
  change (r :: b) with ([r] ++ b) in Hs. rewrite !ids_increase_app in Hs.
  destruct Hs as (_ & (_ & _ & Hb) & Ha).
  rewrite map_app. simpl. rewrite Z.eqb_refl. f_equal; [| f_equal].
  - apply map_ext_in_id. intros x Hx%list_elem_of_In. specialize (Ha x r Hx).
    rewrite elem_of_app in Ha. specialize (Ha ltac:(left; left)). case_match; [lia | done].
  - apply map_ext_in_id. intros x Hx%list_elem_of_In. specialize (Hb r x ltac:(left) Hx).
    case_match; [lia | done].
Qed.

(** Flushing the changes of a window relinks exactly that window. *)
Lemma flush_window p a w b t cs ls :
  ids_increase (a ++ w ++ b) -> relink_window p w = (t, cs) -> flush cs (a ++ w ++ b) = Ok ls ->
  ls = a ++ relink p w ++ b /\ t = tip p (relink p w).
Proof.
  revert p a t cs ls. induction w as [| r w IH]; intros p a t cs ls Hs; simpl.
  { by intros [= <- <-] [= <-]. }
  destruct (relink_window _ w) as [t' cs'] eqn:E.
  set (h := compute_log_hash (entry r) p) in *.
  set (r' := Log (id r) (entry r) p (Some h)). rewrite tip_cons. simpl.
  assert (forall cs0, flush cs0 (a ++ r' :: w ++ b) = Ok ls -> cs0 = cs' ->
            ls = a ++ r' :: relink (Some h) w ++ b /\ t' = tip (Some h) (relink (Some h) w)) as Hgo.
  { intros cs0 Hf ->.
    change (a ++ r' :: w ++ b) with (a ++ [r'] ++ w ++ b) in Hf. rewrite app_assoc in Hf.
    eapply IH in Hf; [| | exact E].
    - rewrite <- app_assoc in Hf. exact Hf.
    - apply ids_increase_fmap. apply ids_increase_fmap in Hs. revert Hs.
      by rewrite <- app_assoc, !fmap_app. }
  case_match eqn:Hc; intros [= <- <-]; simpl.
  - destruct (update_row _ _) as [ls1 |] eqn:Eu; simpl; [| done].
    apply update_row_spec in Eu; [| done | done]. subst ls1. intros Hf. by apply (Hgo cs').
  - intros Hf. apply orb_false_iff in Hc as [H1 H2]. rewrite negb_false_iff, bool_decide_eq_true in H1, H2.
    assert (r = r') as Er by (destruct r; simpl in *; by subst).
    apply (Hgo cs'); [| done]. by rewrite <- Er.
Qed.

(** The windowed loop relinks the whole suffix from [from] on, for any window
    size, unless an update breaks the unique constraint. *)
Lemma repair_loop_spec fuel batch from p changed a todo :
  (1 <= batch)%nat -> (length todo < fuel)%nat -> ids_increase (a ++ todo) ->
  Forall (fun r => id r < from) a -> Forall (fun r => from <= id r) todo ->
  exists r, repair_loop fuel batch from p changed (a ++ todo) = Some r /\
    match r with
    | Ok (ls, _) => ls = a ++ relink p todo
    | Err e => e = UniqueViolation
    end.
Proof.
  intros Hb. revert from p changed a todo.
  induction fuel as [| fuel IH]; intros from p changed a todo Hf Hs Ha Ht; [lia |]. simpl.
  rewrite filter_app, (filter_false _ a), (filter_true _ todo); [| done | ].
  2: { eapply Forall_impl; [exact Ha |]. simpl; lia. }
  simpl. destruct (last (take batch todo)) as [l |] eqn:El.
  2: { apply last_None in El. exists (Ok (a ++ todo, changed)). split; [done |].
       destruct todo; [done | by destruct batch; [lia |]]. }
  destruct (relink_window p (take batch todo)) as [t cs] eqn:Ew.
  rewrite <- (take_drop batch todo) in Hs.
  destruct (flush cs (a ++ todo)) as [ls | e] eqn:Ef.
  2: { exists (Err e). split; [done |]. clear -Ef. revert Ef. generalize (a ++ todo).
       induction cs as [| c cs IH]; intros l; simpl; [done |].
       destruct (update_row c l) eqn:Eu; simpl; [eauto |]. intros [= <-].
       unfold update_row in Eu. case_match; congruence. }
  rewrite <- (take_drop batch todo) in Ef.
  destruct (flush_window _ _ _ _ _ _ _ Hs Ew Ef) as [-> ->].
  apply last_Some in El as [w0 Ew0].
  assert (ids_increase ((a ++ relink p (take batch todo)) ++ drop batch todo)) as Hs'.
  { apply ids_increase_fmap. apply ids_increase_fmap in Hs. revert Hs.
    by rewrite <- !app_assoc, !fmap_app, relink_ids. }
  apply ids_increase_app in Hs as (_ & Hs & Hlt).
  rewrite app_assoc. destruct (IH (id l + 1) (tip p (relink p (take batch todo))) (changed ++ cs)
    (a ++ relink p (take batch todo)) (drop batch todo)) as (r & -> & Hr); [| done | | |].
  - rewrite length_drop. destruct todo; [by rewrite take_nil in Ew0; destruct w0 | simpl in *; lia].
  - apply Forall_app; split.
    + apply Forall_forall. intros x Hx. specialize (Hlt x l Hx).
      rewrite Ew0, !elem_of_app, list_elem_of_singleton in Hlt. specialize (Hlt ltac:(auto)). lia.
    + apply (Forall_fmap id (fun z => z < id l + 1)). rewrite relink_ids, Ew0 in *.
      apply ids_increase_app in Hs as (Hs & _ & _). apply ids_increase_app in Hs as (_ & _ & Hlt').
      apply Forall_fmap, Forall_app. split; [| constructor; [simpl; lia | done]].
      apply Forall_forall. intros x Hx. specialize (Hlt' x l Hx ltac:(left)). simpl; lia.
  - apply Forall_forall. intros x Hx. apply ids_increase_app in Hs as (_ & _ & Hlt').
    rewrite Ew0 in Hlt'. specialize (Hlt' l x). rewrite elem_of_app, list_elem_of_singleton in Hlt'.
    specialize (Hlt' ltac:(auto) Hx). lia.
  - exists r. split; [done |]. destruct r as [[ls ch] | e]; [| done].
    rewrite Hr, <- app_assoc, <- relink_app, take_drop. done.
Qed.

(** The seed of a repair is the hash the first failing row has to link to. *)
Lemma repair_seed p pre r post :
  linked p pre -> ids_increase (pre ++ r :: post) ->
  match last (filter (fun x => id x < id r) (pre ++ r :: post)) ≫= log_hash with
  | Some h => Some h
  | None => p
  end = tip p pre.
Proof.
  intros Hl Hs. rewrite (filter_lt_split pre (r :: post) (id r)).
  - unfold tip. destruct (last pre) as [x |] eqn:E; [| done]. simpl.
    apply last_Some in E as [l ->]. apply linked_tip_some in Hl as [h Hh].
    rewrite tip_snoc in Hh. by rewrite Hh.
  - apply ids_increase_app in Hs as (_ & _ & Hlt). apply Forall_forall.
    intros x Hx. apply Hlt; [done | left].
  - apply ids_increase_app in Hs as (_ & Hs & _). constructor; [lia |].
    unfold ids_increase in Hs. inversion_clear Hs as [| ? ? _ Hf].
    eapply Forall_impl; [exact Hf |]. simpl; lia.
Qed.

(** Everything a repair of a damaged table does, up to its own log entry. *)
Lemma repair_spec batch d :
  (1 <= batch)%nat -> tables d -> ~ linked (chain_seed_hash d) (logs d) ->
  exists pre r post, logs d = pre ++ r :: post /\
    first_failure_id (verify_audit_chain d) = Some (id r) /\
    linked (chain_seed_hash d) pre /\ ~ row_ok (tip (chain_seed_hash d) pre) r /\
    exists res, repair_loop (S (length (logs d))) batch (id r)
        (match last (filter (fun x => id x < id r) (logs d)) ≫= log_hash with
         | Some h => Some h | None => chain_seed_hash d end) [] (logs d) = Some res /\
      match res with
      | Ok (ls, _) => ls = pre ++ relink (tip (chain_seed_hash d) pre) (r :: post)
      | Err e => e = UniqueViolation
      end.
Proof.
  intros Hb (Hs & _ & _) Hbad.
  destruct (walk_failure _ 0 _ Hbad) as (pre & r & post & El & Hpre & Hr & Hf & _).
  exists pre, r, post. split_and!; [done | exact Hf | done | done |].
  rewrite El in Hs |- *. rewrite repair_seed by done.
  assert (Forall (fun x => id x < id r) pre /\ Forall (fun x => id r <= id x) (r :: post)) as [Hlo Hhi].
  { apply ids_increase_app in Hs as (_ & Hp & Hlt). split.
    - apply Forall_forall. intros x Hx. apply Hlt; [done | left].
    - constructor; [lia |]. unfold ids_increase in Hp. inversion_clear Hp as [| ? ? _ Hp'].
      eapply Forall_impl; [exact Hp' |]. simpl; lia. }
  apply repair_loop_spec; try done. rewrite length_app. lia.
Qed.

(** *** Lemmas: the hashed text *)

Definition sorted_values (f : fields) (p : option string) : list json :=
  [JStr (action f); jopt JInt (actor_id f); jopt JStr (diff f); jopt JInt (entity_id f);
   jopt JStr (entity_type f); jopt JStr (ip_address f); jopt JStr p; jopt JStr (role_at_time f);
   JStr (default EmptyString (created_at_utc f))].
Definition sorted_keys : list string :=
  ["action"; "actor_id"; "diff"; "entity_id"; "entity_type"; "ip_address"; "previous_hash";
   "role_at_time"; "timestamp"]%string.
Fixpoint dump_fields (ks : list string) (vs : list json) : string :=
  match ks, vs with
  | [k], [v] => dump_str k +:+ ": " +:+ dumps true v +:+ "}"
  | k :: ks, v :: vs => dump_str k +:+ ": " +:+ dumps true v +:+ ", " +:+ dump_fields ks vs
  | _, _ => "}"
  end.
Lemma payload_text_sorted f p :
  payload_text f p = "{" +:+ dump_fields sorted_keys (sorted_values f p).
Proof.
  unfold payload_text, canonical_log_payload, sorted_values, sorted_keys.
  generalize (JStr (action f)) (jopt JInt (actor_id f)) (jopt JStr (diff f)) (jopt JInt (entity_id f))
   (jopt JStr (entity_type f)) (jopt JStr (ip_address f)) (jopt JStr p) (jopt JStr (role_at_time f))
   (JStr (default EmptyString (created_at_utc f))).
  intros. cbn [dumps map dump_fields].
  repeat match goal with |- context [dumps true ?v] => generalize (dumps true v); intro end.
  match goal with |- context [py_sorted key_le ?l] =>
    let l' := eval vm_compute in (py_sorted key_le l) in change (py_sorted key_le l) with l' end.
  cbn [map join].
  repeat match goal with |- context [dump_str ?k] => generalize (dump_str k); intro end.
  generalize ", "%string ": "%string "{"%string "}"%string. intros.
  by rewrite <- !str_app_assoc.
Qed.

Lemma dump_fields_cons k k' ks v v' vs :
  dump_fields (k :: k' :: ks) (v :: v' :: vs) =
  dump_str k +:+ (": " +:+ (dumps true v +:+ String "," (" " +:+ dump_fields (k' :: ks) (v' :: vs)))).
Proof. reflexivity. Qed.

Lemma dump_fields_inj ks vs ws t u :
  length vs = length ks -> length ws = length ks ->
  forallb scalar vs = true -> forallb scalar ws = true ->
  dump_fields ks vs +:+ t = dump_fields ks ws +:+ u -> vs = ws.
Proof.
  revert vs ws. induction ks as [| k ks IH]; intros [| v vs] [| w ws]; try done.
  cbn [length forallb]. intros [= Hv] [= Hw]. rewrite !andb_true_iff. intros [Sv Svs] [Sw Sws] E.
  destruct ks as [| k' ks]; destruct vs as [| v' vs], ws as [| w' ws]; try done.
  - unfold dump_fields in E. rewrite <- !str_app_assoc in E. apply str_app_cancel in E.
    apply (str_app_cancel ": ") in E. cbn [String.append] in E.
    apply scalar_dumps_tail in E as [-> _]; done.
  - rewrite !dump_fields_cons, <- !str_app_assoc in E.
    apply str_app_cancel, (str_app_cancel ": "), scalar_dumps_tail in E as [-> E]; try done.
    injection E as E. f_equal. by apply (IH (v' :: vs) (w' :: ws)).
Qed.

Lemma sorted_values_scalar f p : forallb scalar (sorted_values f p) = true.
Proof.
  unfold sorted_values. destruct f as [? c ? i r t e d a ?], c, i, r, t, e, d, a, p; reflexivity.
Qed.

(** The text that is hashed determines every hashed field of the entry. *)
Lemma payload_text_inj f p f' p' :
  payload_text f p = payload_text f' p' ->
  canonical_log_payload f p = canonical_log_payload f' p'.
Proof.
  rewrite !payload_text_sorted. intros E%(str_app_cancel "{").
  apply (f_equal (fun s => s +:+ EmptyString)) in E.
  apply dump_fields_inj in E; [| reflexivity | reflexivity | apply sorted_values_scalar ..].
  unfold sorted_values in E. unfold canonical_log_payload. injection E. intros. congruence.
Qed.

Definition same_content (r r' : log) : Prop :=
  canonical_log_payload (entry r) (previous_hash r) =
  canonical_log_payload (entry r') (previous_hash r').

(** Two rows whose content differs although both store the digest of their own
    content and the two digests are equal: the texts that were hashed are a
    SHA-256 collision. *)
Definition collide (r r' : log) : Prop :=
  payload_text (entry r) (previous_hash r) <> payload_text (entry r') (previous_hash r') /\
  compute_log_hash (entry r) (previous_hash r) = compute_log_hash (entry r') (previous_hash r') /\
  log_hash r = log_hash r'.

(** The latest rows at which the two logs differ, and they collide. *)
Definition collide_at (ls ls' : list log) (k : nat) : Prop :=
  exists r r', ls !! k = Some r /\ ls' !! k = Some r' /\ collide r r' /\
    Forall2 same_content (drop (S k) ls) (drop (S k) ls').

Lemma same_or_collide p p' r r' :
  row_ok p r -> row_ok p' r' -> log_hash r = log_hash r' -> same_content r r' \/ collide r r'.
Proof.
  intros [Hp Hh] [Hp' Hh'] E.
  destruct (decide (payload_text (entry r) (previous_hash r) = payload_text (entry r') (previous_hash r'))) as [Et | Hne].
  - left. by apply payload_text_inj.
  - right. split_and!; [done | | done]. rewrite Hp, Hp'. congruence.
Qed.

Lemma same_content_previous r r' : same_content r r' -> previous_hash r = previous_hash r'.
Proof.
  unfold same_content, canonical_log_payload. intros [=]. destruct (previous_hash r), (previous_hash r'); simpl in *; congruence.
Qed.

Lemma collide_at_snoc ls ls' r r' k :
  length ls = length ls' -> same_content r r' -> collide_at ls ls' k -> collide_at (ls ++ [r]) (ls' ++ [r']) k.
Proof.
  intros Hlen Hs (x & x' & Ex & Ex' & Hc & Hd). exists x, x'. apply lookup_lt_Some in Ex as Hk, Ex' as Hk'.
  rewrite !lookup_app_l, !drop_app_le by lia. split_and!; [done .. |].
  apply Forall2_app; [done | by repeat constructor].
Qed.

Lemma linked_determines p p' ls ls' :
  length ls = length ls' -> ls <> [] -> linked p ls -> linked p' ls' -> tip p ls = tip p' ls' ->
  Forall2 same_content ls ls' \/ exists k, collide_at ls ls' k.
Proof.
  revert p' ls'. induction ls as [| r ls IH] using rev_ind; intros p' ls' Hlen Hne Hl Hl' Ht; [done |].
  destruct ls' as [| r' ls' _] using rev_ind; [by rewrite length_app in Hlen; simpl in Hlen; lia |].
  rewrite !length_app in Hlen. simpl in Hlen.
  rewrite !tip_snoc in Ht. apply linked_snoc in Hl as [Hl Hr], Hl' as [Hl' Hr'].
  destruct (same_or_collide _ _ _ _ Hr Hr' Ht) as [Hs | Hc].
  2: { right. exists (length ls), r, r'. rewrite list_lookup_middle, (list_lookup_middle ls'), !drop_ge by (rewrite ?length_app; simpl; lia).
    by split_and!. }
  assert (tip p ls = tip p' ls') as Htip by (destruct Hr as [<- _], Hr' as [<- _]; by apply same_content_previous).
  destruct ls as [| r0 ls0] eqn:E.
  - left. destruct ls'; [| simpl in Hlen; lia]. by repeat constructor.
  - rewrite <- E in *. destruct (IH p' ls') as [Hf | [k Hk]]; [lia | by subst | done | done | done | |].
    + left. apply Forall2_app; [done | by repeat constructor].
    + right. exists k. apply collide_at_snoc; [lia | done | done].
Qed.

Lemma chain_all_logs fs d d' :
  chain_all fs d = Ok d' ->
  exists rows, logs d' = logs d ++ rows /\ entry <$> rows = fs /\ pending d' = pending d.
Proof.
  revert d; induction fs as [| f fs IH]; intros d; simpl.
  - intros [= <-]. exists []. by rewrite app_nil_r.
  - destruct (do_write f d) as [d1 |] eqn:E; simpl; [| done]. intros H.
    apply do_write_shape in E as (r & El & _ & Ef & _ & _ & Ep & _).
    apply IH in H as (rows & El' & Er & Ep'). exists (r :: rows). csimpl.
    rewrite El', El, <- app_assoc, Ef, Er. split_and!; [done | done | congruence].
Qed.

Lemma write_log_logs tx lock f d :
  exists new, logs (write_log tx lock f d) = logs d ++ new /\ (length new <= 1)%nat.
Proof.
  unfold write_log. destruct (get_or_create_settings d) as [s d1] eqn:E.
  assert (logs d1 = logs d) as El.
  { unfold get_or_create_settings in E. destruct (settings d); by simplify_eq. }
  assert (forall f, exists new, logs (match do_write f d1 with Ok d2 => d2 | Err _ => d1 end)
            = logs d ++ new /\ (length new <= 1)%nat) as Hw.
  { intros f'. destruct (do_write f' d1) eqn:Ew.
    - apply do_write_shape in Ew as (r & -> & _). rewrite El. by exists [r].
    - exists []. rewrite app_nil_r. split; [done | simpl; lia]. }
  assert (exists new, logs d1 = logs d ++ new /\ (length new <= 1)%nat).
  { exists []. rewrite app_nil_r. split; [done | simpl; lia]. }
  destruct lock, tx; auto.
Qed.

(** *** Every writer, in any order *)

(** One transaction on the audit tables: a write from a request or from the
    background, a deferral, a drain of the spool, a batch of the retention
    purge, a settings change, or a repair. *)
Inductive step : db -> db -> Prop :=
| step_write tx lock f d : step d (write_log tx lock f d)
| step_defer f d : step d (defer f d)
| step_drain limit n d d' : drain_within limit d = Ok (n, d') -> step d d'
| step_purge n now k d d' : purge_transaction n now d = Purged k d' -> step d d'
| step_settings days hide s d :
    settings d = Some s ->
    step d (Db (logs d) (Some (AppSettings days hide (audit_chain_checkpoint_hash s)))
              (pending d) (next_id d))
| step_repair batch auth actor reason now iso rep d d' :
    (1 <= batch)%nat ->
    repair_audit_chain batch auth actor reason now iso d = Some (Ok (rep, d')) -> step d d'.

(** A fresh installation. *)
Definition fresh : db := Db [] None [] 1.

Lemma fresh_wf : wf fresh.
Proof. repeat split; constructor. Qed.

Lemma verify_wf d : wf d -> valid (verify_audit_chain d) = true.
Proof. intros [Hl _]. by apply walk_valid. Qed.

Lemma repair_entries_wf d pre r post :
  tables d -> logs d = pre ++ r :: post -> linked (chain_seed_hash d) pre ->
  wf (with_logs d (pre ++ relink (tip (chain_seed_hash d) pre) (r :: post))).
Proof.
  intros (Hs & Hn & _) El Hpre.
  assert (id <$> (pre ++ relink (tip (chain_seed_hash d) pre) (r :: post)) = id <$> logs d) as Eid
    by by rewrite El, !fmap_app, relink_ids.
  split; [| split; [| split]].
  - apply linked_app. split; [exact Hpre | apply linked_relink].
  - apply ids_increase_fmap. cbn [with_logs logs next_id]. rewrite Eid. by apply ids_increase_fmap.
  - apply (Forall_fmap id (fun z => z < next_id d)). cbn [with_logs logs next_id]. rewrite Eid. by apply Forall_fmap.
  - simpl. intros H. by apply app_nil in H as [_ ?].
Qed.

(** The cases of a repair. *)
Lemma repair_cases batch auth actor reason now iso d :
  (1 <= batch)%nat -> tables d ->
  (auth <> "REPAIR_AUDIT_CHAIN"%string /\
   repair_audit_chain batch auth actor reason now iso d = Some (Err BadAuthorization)) \/
  (auth = "REPAIR_AUDIT_CHAIN"%string /\ linked (chain_seed_hash d) (logs d) /\
   repair_audit_chain batch auth actor reason now iso d =
     Some (Ok (RepairReport false (verify_audit_chain d) [] (verify_audit_chain d), d))) \/
  (auth = "REPAIR_AUDIT_CHAIN"%string /\
   (repair_audit_chain batch auth actor reason now iso d = Some (Err UniqueViolation) \/
    exists pre r post ch, logs d = pre ++ r :: post /\
      linked (chain_seed_hash d) pre /\ ~ row_ok (tip (chain_seed_hash d) pre) r /\
      let ls := pre ++ relink (tip (chain_seed_hash d) pre) (r :: post) in
      let d' := write_log true LockHeld (repair_entry now iso actor reason (id r) (length ch))
                  (with_logs d ls) in
      repair_audit_chain batch auth actor reason now iso d =
        Some (Ok (RepairReport true (verify_audit_chain d) ch (verify_audit_chain d'), d')))).
Proof.
  intros Hb Ht. unfold repair_audit_chain.
  destruct (String.eqb_spec auth "REPAIR_AUDIT_CHAIN") as [-> | Hne]; cbn [negb]; cbv zeta; [| by left].
  right. destruct (valid (verify_audit_chain d)) eqn:Ev.
  { left. split_and!; [done | by apply walk_valid in Ev | done]. }
  right. split; [done |].
  destruct (repair_spec batch d Hb Ht) as (pre & r & post & El & Hf & Hpre & Hr & res & Hres & Hok).
  { intros Hl. apply walk_valid with (n := 0) in Hl. unfold verify_audit_chain in Ev. congruence. }
  rewrite Hf. change (default 0 (Some (id r))) with (id r). rewrite Hres. destruct res as [[ls ch] | e]; [right | left; by rewrite Hok].
  subst ls. by exists pre, r, post, ch.
Qed.

Lemma step_preserves_wf d d' : wf d -> step d d' -> wf d'.
Proof.
  intros Hwf Hs.
  destruct Hs as [tx lock f d | f d | limit n d d' E | n now k d d' E | days hide s d E
                 | batch auth actor reason now iso rep d d' Hb E].
  - by apply write_log_wf.
  - exact Hwf.
  - by eapply drain_within_wf.
  - by eapply purge_transaction_wf.
  - unfold wf, tables, chain_seed_hash in *. simpl. rewrite E in Hwf. exact Hwf.
  - destruct (repair_cases batch auth actor reason now iso d Hb (proj2 Hwf))
      as [[_ E'] | [(_ & _ & E') | (_ & [E' | E'])]]; [congruence | naive_solver | congruence |].
    destruct E' as (pre & r & post & ch & El & Hpre & _ & E').
    cbv zeta in E'. rewrite E' in E. injection E as _ <-.
    apply write_log_wf, repair_entries_wf; [apply Hwf | done | done].
Qed.

(** *** Theorems *)

(** C1: The audit log verifies in every state any interleaving of its writers
    can reach: request and background appends, deferrals to the spool, drains,
    retention batches, settings changes and repairs.  In particular a retention
    purge never makes the product's own log look tampered with. *)
Theorem reachable_log_verifies d : rtc step fresh d -> valid (verify_audit_chain d) = true.
Proof.
  intros H. apply verify_wf.
  assert (wf fresh) as H0 by apply fresh_wf. revert H0.
  induction H; eauto using step_preserves_wf.
Qed.

(** Verification is exact: it accepts a log if and only if every row links
    to its predecessor and stores its own hash, and otherwise it names the
    first row that does not and counts the rows up to it. *)
Theorem verify_exact d :
  (valid (verify_audit_chain d) = true <-> linked (chain_seed_hash d) (logs d)) /\
  (valid (verify_audit_chain d) = false ->
   exists pre r post, logs d = pre ++ r :: post /\ linked (chain_seed_hash d) pre /\
     ~ row_ok (tip (chain_seed_hash d) pre) r /\
     first_failure_id (verify_audit_chain d) = Some (id r) /\
     checked_count (verify_audit_chain d) = Z.of_nat (length pre) + 1).
Proof.
  split; [apply walk_valid |]. intros H.
  apply (walk_failure _ 0). intros Hl. apply (walk_valid _ 0) in Hl.
  unfold verify_audit_chain in H. congruence.
Qed.

(** C2: Tamper evidence.  Two logs of the same length that both verify and end
    in the same hash agree on the hashed fields of every entry; if they do not,
    the latest two entries that differ store the same hash over different
    texts, so whoever rewrote the log has found a SHA-256 collision between
    these two entries. *)
Theorem tampering_detected d d' :
  valid (verify_audit_chain d) = true -> valid (verify_audit_chain d') = true ->
  logs d <> [] -> length (logs d) = length (logs d') ->
  last (logs d) ≫= log_hash = last (logs d') ≫= log_hash ->
  Forall2 same_content (logs d) (logs d') \/ exists k, collide_at (logs d) (logs d') k.
Proof.
  intros Hv Hv' Hne Hlen Ht. apply walk_valid in Hv, Hv'.
  eapply linked_determines; try done. unfold tip.
  destruct (last (logs d)) eqn:E; [| by apply last_None in E].
  destruct (last (logs d')) eqn:E'; [done |].
  apply last_None in E'. rewrite E' in Hlen. by destruct (logs d).
Qed.

(** The retention purge terminates, removes exactly a prefix of the log
    (never the tip of a non-empty log), removes only entries older than the
    retention window, stops only when the oldest entry left is inside the
    window or is the tip, returns the number of rows it removed, and leaves a
    log that verifies. *)
Theorem purge_correct n clock lock summary s d :
  wf d -> (1 <= n)%nat -> settings d = Some s -> 0 < audit_log_retention_days s ->
  exists k d0 d', purge_old_audit_logs n clock lock summary d = Some (k, d') /\
    purged clock s (logs d) (logs d0) k /\ valid (verify_audit_chain d') = true /\
    d' = (if bool_decide (k = 0%nat) then d0 else write_log false lock (summary k) d0).
Proof.
  intros Hwf Hn Hset Hret. unfold purge_old_audit_logs.
  destruct (purge_loop_spec (S (length (logs d))) n clock 0 0 s d Hwf Hn Hset Hret)
    as (k & d0 & -> & Hwf0 & Hp); [lia |].
  simpl. eexists k, d0, _. split_and!; [done | done | | done].
  apply verify_wf. case_bool_decide; [done | by apply write_log_wf].
Qed.

(** A repair, whatever the damage and whatever its window size, answers a
    wrong authorization, fails on the unique constraint, or returns a log that
    verifies in which every entry keeps its id and its content, every row
    before the first failure is untouched, and at most one row, its own audit
    entry, is new. *)
Theorem repair_restores_chain batch auth actor reason now iso d :
  (1 <= batch)%nat -> tables d ->
  exists r, repair_audit_chain batch auth actor reason now iso d = Some r /\
    match r with
    | Err e => e = UniqueViolation \/ auth <> "REPAIR_AUDIT_CHAIN"%string
    | Ok (rep, d') =>
        valid (verify_audit_chain d') = true /\ after rep = verify_audit_chain d' /\
        exists pre post post' new, logs d = pre ++ post /\ logs d' = pre ++ post' ++ new /\
          linked (chain_seed_hash d) pre /\ (length new <= 1)%nat /\
          (fun r => (id r, entry r)) <$> post' = (fun r => (id r, entry r)) <$> post
    end.
Proof.
  intros Hb Ht.
  destruct (repair_cases batch auth actor reason now iso d Hb Ht)
    as [[Ha ->] | [(_ & Hl & ->) | (_ & [-> | H])]];
    [eexists; split; [done |]; by right | | eexists; split; [done |]; by left |].
  - eexists. split; [done |]. cbv beta iota. split; [by apply walk_valid |]. split; [done |].
    exists (logs d), [], [], []. rewrite !app_nil_r. split_and!; [done .. | simpl; lia | done].
  - destruct H as (pre & r & post & ch & El & Hpre & _ & ->). eexists. split; [done |].
    set (d' := write_log _ _ _ _). cbv beta iota.
    split; [| split; [done |]].
    + by apply verify_wf, write_log_wf, repair_entries_wf.
    + destruct (write_log_logs true LockHeld (repair_entry now iso actor reason (id r) (length ch))
        (with_logs d (pre ++ relink (tip (chain_seed_hash d) pre) (r :: post)))) as (new & Hn & Hlen).
      exists pre, (r :: post), (relink (tip (chain_seed_hash d) pre) (r :: post)), new.
      split_and!; [done | | done | done | apply relink_content].
      unfold d'. rewrite Hn. cbn [with_logs logs]. by rewrite app_assoc.
Qed.

(** Draining the spool chains the oldest deferred entries, in order, each
    exactly once: the rows appended are the entries removed from the spool. *)
Theorem drain_conserves_entries limit d n d' :
  drain_within limit d = Ok (n, d') ->
  exists rows, logs d' = logs d ++ rows /\ n = length rows /\
    entry <$> rows = take limit (pending d) /\ pending d' = drop limit (pending d).
Proof.
  unfold drain_within. case_bool_decide as He.
  - intros [= <- <-]. exists []. rewrite app_nil_r, He. split_and!; [done .. |].
    rewrite <- (take_drop limit (pending d)) at 1. by rewrite He.
  - destruct (chain_all _ d) as [d1 |] eqn:E; simpl; [| done]. intros [= <- <-].
    apply chain_all_logs in E as (rows & El & Er & Ep). exists rows. simpl.
    rewrite Er, Ep, El. split_and!; [done | | done | done]. by rewrite <- (length_fmap entry), Er.
Qed.

(** *** Concrete logs *)

Definition demo_body (details : string) : body :=
  Body "info" "crud" (Some "system"%string) None (Some "system"%string) None None None
    (Some details) None None (Some "info"%string) None.

Definition demo_entry (t : Z) (act : string) : fields :=
  Fields t (Some "2026-01-01T00:00:00Z"%string) act (Some 7) None (Some "hardware"%string) (Some 3)
    None None (demo_body "x").

(** A fresh installation after two writes. *)
Definition demo : db :=
  write_log false LockHeld (demo_entry 20 "update_hardware")
    (write_log true LockHeld (demo_entry 10 "create_hardware") fresh).

Lemma demo_reachable : rtc step fresh demo.
Proof.
  eapply rtc_l; [apply (step_write true LockHeld (demo_entry 10 "create_hardware")) |].
  eapply rtc_l; [apply (step_write false LockHeld (demo_entry 20 "update_hardware")) |].
  unfold demo. apply rtc_refl.
Qed.

Lemma demo_wf : wf demo.
Proof. apply write_log_wf, write_log_wf, fresh_wf. Qed.

(** [demo] with a column that no hash covers rewritten. *)
Definition demo_rewritten : db :=
  with_logs demo (map (fun r => let f := entry r in
    Log (id r) (Fields (timestamp f) (created_at_utc f) (action f) (actor_id f) (role_at_time f)
                  (entity_type f) (entity_id f) (diff f) (ip_address f) (demo_body "y"))
      (previous_hash r) (log_hash r)) (logs demo)).

(** [demo] with a retention window of one day. *)
Definition demo_retention : db :=
  Db (logs demo) (Some (AppSettings 1 false None)) (pending demo) (next_id demo).

Lemma demo_retention_wf : wf demo_retention.
Proof.
  eapply step_preserves_wf; [apply demo_wf |].
  apply (step_settings 1 false (AppSettings 90 false None) demo). vm_compute. reflexivity.
Qed.

(** Two rows with broken hashes. *)
Definition damaged : db :=
  Db [Log 1 (demo_entry 10 "create_hardware") None (Some "x"%string);
      Log 2 (demo_entry 20 "update_hardware") (Some "x"%string) (Some "y"%string)]
     (Some (AppSettings 90 false None)) [] 3.

Lemma damaged_tables : tables damaged.
Proof. split; [| split]; simpl; repeat constructor; simpl; lia. Qed.

(** A log whose second row already stores the hash its first row should have. *)
Definition cross_damaged : db :=
  Db [Log 1 (demo_entry 10 "create_hardware") None (Some "x"%string);
      Log 2 (demo_entry 20 "update_hardware") (Some "x"%string)
        (Some (compute_log_hash (demo_entry 10 "create_hardware") None))]
     (Some (AppSettings 90 false None)) [] 3.

(** A repair can be blocked.  When a later row already stores the hash the
    repair recomputes for the first failing row, the update breaks the unique
    constraint on [log_hash] and the repair fails, leaving the log unverifiable. *)
Theorem repair_blocked :
  tables cross_damaged /\ valid (verify_audit_chain cross_damaged) = false /\
  repair_audit_chain 500 "REPAIR_AUDIT_CHAIN" None "x" 0 "t" cross_damaged
    = Some (Err UniqueViolation).
Proof.
  split; [| split; vm_compute; reflexivity].
  split; [| split]; simpl; repeat constructor; simpl; lia.
Qed.

Lemma reachable_log_verifies_witness :
  rtc step fresh demo /\ length (logs demo) = 2%nat /\ valid (verify_audit_chain demo) = true.
Proof.
  split; [apply demo_reachable |]. split; [vm_compute; reflexivity |].
  apply reachable_log_verifies, demo_reachable.
Defined.

Lemma tampering_detected_witness :
  Forall2 same_content (logs demo) (logs demo_rewritten) \/ exists k, collide_at (logs demo) (logs demo_rewritten) k.
Proof. apply tampering_detected; vm_compute; try reflexivity; discriminate. Defined.

Lemma purge_correct_witness :
  exists k d0 d', purge_old_audit_logs 1000 (fun _ => 2 * day) LockHeld
      (fun _ => demo_entry 30 "audit_log_purge") demo_retention = Some (k, d') /\
    purged (fun _ => 2 * day) (AppSettings 1 false None) (logs demo_retention) (logs d0) k /\
    valid (verify_audit_chain d') = true /\
    d' = (if bool_decide (k = 0%nat) then d0
          else write_log false LockHeld (demo_entry 30 "audit_log_purge") d0).
Proof.
  apply (purge_correct 1000 (fun _ => 2 * day) LockHeld (fun _ => demo_entry 30 "audit_log_purge")
           (AppSettings 1 false None) demo_retention);
    [apply demo_retention_wf | lia | reflexivity | vm_compute; reflexivity].
Defined.

Lemma repair_restores_chain_witness :
  exists r, repair_audit_chain 500 "REPAIR_AUDIT_CHAIN" None "x" 0 "t" damaged = Some r /\
    match r with
    | Err e => e = UniqueViolation \/ "REPAIR_AUDIT_CHAIN"%string <> "REPAIR_AUDIT_CHAIN"%string
    | Ok (rep, d') =>
        valid (verify_audit_chain d') = true /\ after rep = verify_audit_chain d' /\
        exists pre post post' new, logs damaged = pre ++ post /\ logs d' = pre ++ post' ++ new /\
          linked (chain_seed_hash damaged) pre /\ (length new <= 1)%nat /\
          (fun r => (id r, entry r)) <$> post' = (fun r => (id r, entry r)) <$> post
    end.
Proof. apply repair_restores_chain; [lia | apply damaged_tables]. Defined.

Lemma drain_conserves_entries_witness :
  exists rows, logs (match drain_within 500 (defer (demo_entry 30 "x") fresh) with
                     | Ok (_, d') => d' | Err _ => fresh end) = [] ++ rows /\ 1%nat = length rows /\
    entry <$> rows = [demo_entry 30 "x"] /\
    pending (match drain_within 500 (defer (demo_entry 30 "x") fresh) with
             | Ok (_, d') => d' | Err _ => fresh end) = [].
Proof.
  apply (drain_conserves_entries 500 (defer (demo_entry 30 "x") fresh) 1).
  vm_compute. reflexivity.
Defined.

End AuditChain.
