(* ===== verification/Regex.v ===== *)
(** Regular expressions as the sources use Python's [re]: only to ask whether a
    text matches.  A pattern is matched by derivatives; the matcher is proved
    equal to the usual language semantics. *)
From S2P Require Import Prelude.

Module Regex.

Inductive re :=
| Empty
| Eps
| Chr (P : ascii -> bool)
| Seq (r s : re)
| Alt (r s : re)
| Star (r : re).

(** The language of a pattern. *)
Inductive lang : re -> string -> Prop :=
| lang_eps : lang Eps EmptyString
| lang_chr P c : P c = true -> lang (Chr P) (String c EmptyString)
| lang_seq r s x y : lang r x -> lang s y -> lang (Seq r s) (x +:+ y)
| lang_alt_l r s x : lang r x -> lang (Alt r s) x
| lang_alt_r r s x : lang s x -> lang (Alt r s) x
| lang_star_nil r : lang (Star r) EmptyString
| lang_star_cons r x y : lang r x -> lang (Star r) y -> lang (Star r) (x +:+ y).

Fixpoint nullable (r : re) : bool :=
  match r with
  | Empty | Chr _ => false
  | Eps | Star _ => true
  | Seq r s => nullable r && nullable s
  | Alt r s => nullable r || nullable s
  end.

(** Smart constructors that keep derivatives small. *)
Definition seq_ (r s : re) : re :=
  match r, s with
  | Empty, _ | _, Empty => Empty
  | Eps, _ => s
  | _, _ => Seq r s
  end.

Definition alt_ (r s : re) : re :=
  match r, s with
  | Empty, _ => s
  | _, Empty => r
  | _, _ => Alt r s
  end.

Fixpoint deriv (c : ascii) (r : re) : re :=
  match r with
  | Empty | Eps => Empty
  | Chr P => if P c then Eps else Empty
  | Seq r s =>
      if nullable r then alt_ (seq_ (deriv c r) s) (deriv c s) else seq_ (deriv c r) s
  | Alt r s => alt_ (deriv c r) (deriv c s)
  | Star r => seq_ (deriv c r) (Star r)
  end.

(** [re.fullmatch(r, s)]. *)
Fixpoint fullmatch (r : re) (s : string) : bool :=
  match s with
  | EmptyString => nullable r
  | String c s => fullmatch (deriv c r) s
  end.

(** *** Building patterns *)

Definition lit (c : ascii) : re := Chr (Ascii.eqb c).

Fixpoint word (s : string) : re :=
  match s with EmptyString => Eps | String c s => Seq (lit c) (word s) end.

Definition any : re := Chr (fun _ => true).

Definition range (lo hi : Z) (c : ascii) : bool := (lo <=? code c)%Z && (code c <=? hi)%Z.
Definition digit : ascii -> bool := range 48 57.
Definition lower : ascii -> bool := range 97 122.
Definition upper : ascii -> bool := range 65 90.
Definition alnum (c : ascii) : bool := digit c || lower c || upper c.
Definition one_of (s : string) (c : ascii) : bool := negb (str_forallb (fun d => negb (Ascii.eqb c d)) s).

Definition opt (r : re) : re := Alt Eps r.
Definition plus (r : re) : re := Seq r (Star r).

Fixpoint exactly (n : nat) (r : re) : re :=
  match n with O => Eps | S n => Seq r (exactly n r) end.

Fixpoint up_to (n : nat) (r : re) : re :=
  match n with O => Eps | S n => opt (Seq r (up_to n r)) end.

(** [r{lo,hi}]. *)
Definition between (lo hi : nat) (r : re) : re := Seq (exactly lo r) (up_to (hi - lo) r).

(** [re.search]: a match anywhere. *)
Definition search (r : re) (s : string) : bool := fullmatch (Seq (Star any) (Seq r (Star any))) s.

(** *** Correctness *)

Lemma nullable_correct r : nullable r = true <-> lang r EmptyString.
Proof.
  assert (forall x y : string, EmptyString = x +:+ y -> x = EmptyString /\ y = EmptyString) as Happ
    by by intros [] [].
  induction r as [| | P | r IHr s IHs | r IHr s IHs | r IHr]; simpl.
  - split; [done | intros H; by inversion H].
  - split; [constructor | done].
  - split; [done | intros H; by inversion H].
  - rewrite andb_true_iff, IHr, IHs. split.
    + intros [H1 H2]. by apply (lang_seq _ _ EmptyString EmptyString).
    + intros H. inversion H as [| | ? ? x y Hx Hy Hr Ex | | | |].
      apply eq_sym, Happ in Ex as [-> ->]. done.
  - rewrite orb_true_iff, IHr, IHs. split.
    + intros [H | H]; [by apply lang_alt_l | by apply lang_alt_r].
    + intros H. inversion H; naive_solver.
  - split; [constructor | done].
Qed.

Lemma seq_empty_r r x : lang (Seq r Empty) x -> False.
Proof. intros H. inversion H as [| | ? ? y z Hy Hz | | | |]. inversion Hz. Qed.

Lemma seq_empty_l r x : lang (Seq Empty r) x -> False.
Proof. intros H. inversion H as [| | ? ? y z Hy Hz | | | |]. inversion Hy. Qed.

Lemma seq_eps_l r x : lang (Seq Eps r) x <-> lang r x.
Proof.
  split; intros H.
  - inversion H as [| | ? ? y z Hy Hz | | | |]; subst. by inversion Hy.
  - apply (lang_seq Eps r EmptyString x); [constructor | done].
Qed.

Lemma empty_none x : lang Empty x -> False.
Proof. intros H. inversion H. Qed.

Lemma seq_correct r s x : lang (seq_ r s) x <-> lang (Seq r s) x.
Proof.
  destruct r, s; simpl; try done; try (symmetry; apply seq_eps_l);
    split; intros H;
    solve [ by apply empty_none in H | by apply seq_empty_l in H | by apply seq_empty_r in H ].
Qed.

Lemma alt_correct r s x : lang (alt_ r s) x <-> lang (Alt r s) x.
Proof.
  unfold alt_. split; intros H.
  - destruct r, s; try done; try (by apply lang_alt_l); by apply lang_alt_r.
  - destruct r, s; try done; inversion H as [| | | ? ? ? Hy | ? ? ? Hy | |]; try done; by inversion Hy.
Qed.

Lemma star_cons_inv r c x :
  lang (Star r) (String c x) ->
  exists y z, x = y +:+ z /\ lang r (String c y) /\ lang (Star r) z.
Proof.
  remember (Star r) as q eqn:Eq. remember (String c x) as w eqn:Ew. intros H. revert r c x Eq Ew.
  induction H as [| | | | | r' | r' y z Hy IHy Hz IHz]; intros q' d' w' Eq Ew; try done; simplify_eq.
  destruct y as [| d y]; simpl in Ew.
  - by apply (IHz q' d' w').
  - injection Ew as -> <-. by exists y, z.
Qed.

Lemma seq_cons_inv r s c x :
  lang (Seq r s) (String c x) <->
  (exists y z, x = y +:+ z /\ lang r (String c y) /\ lang s z) \/
  (lang r EmptyString /\ lang s (String c x)).
Proof.
  split.
  - intros H. inversion H as [| | ? ? y z Hy Hz Er Ex | | | |].
    destruct y as [| d y]; simpl in Ex; simplify_eq; [by right | left]. by exists y, z.
  - intros [(y & z & -> & Hy & Hz) | [Hr Hs]].
    + apply (lang_seq r s (String c y) z); done.
    + apply (lang_seq r s EmptyString); done.
Qed.

Lemma deriv_correct c r x : lang (deriv c r) x <-> lang r (String c x).
Proof.
  revert x. induction r as [| | P | r IHr s IHs | r IHr s IHs | r IHr]; intros x; simpl.
  - split; intros H; by inversion H.
  - split; intros H; by inversion H.
  - destruct (P c) eqn:E; split; intros H; inversion H; subst; try congruence; by constructor.
  - assert (forall x, lang (Seq (deriv c r) s) x <->
              exists y z, x = y +:+ z /\ lang r (String c y) /\ lang s z) as Hseq.
    { intros w. split.
      - intros H. inversion H as [| | ? ? y z Hy Hz | | | |]; subst.
        exists y, z. by rewrite <- IHr.
      - intros (y & z & -> & Hy & Hz). apply lang_seq; [by apply IHr | done]. }
    rewrite seq_cons_inv. destruct (nullable r) eqn:En.
    + rewrite alt_correct. apply nullable_correct in En. split.
      * intros H. inversion H as [| | | ? ? ? H' | ? ? ? H' | |]; subst.
        -- left. by apply Hseq, seq_correct.
        -- right. by rewrite <- IHs.
      * intros [H | [_ H]]; [apply lang_alt_l; by apply seq_correct, Hseq | apply lang_alt_r; by apply IHs].
    + rewrite seq_correct, Hseq. split; [by left |]. intros [H | [H _]]; [done |].
      apply nullable_correct in H. congruence.
  - rewrite alt_correct. split; intros H; inversion H; subst.
    1, 3: apply lang_alt_l; by apply IHr. all: apply lang_alt_r; by apply IHs.
  - rewrite seq_correct. split.
    + intros H. inversion H as [| | ? ? y z Hy Hz | | | |]; subst.
      apply (lang_star_cons r (String c y)); [by apply IHr | done].
    + intros (y & z & -> & Hy & Hz)%star_cons_inv. apply lang_seq; [by apply IHr | done].
Qed.

(** The matcher decides the language. *)
Lemma fullmatch_correct r s : fullmatch r s = true <-> lang r s.
Proof.
  revert r; induction s as [| c s IH]; intros r; simpl; [apply nullable_correct |].
  by rewrite IH, deriv_correct.
Qed.

(** *** Members of the built languages *)

Lemma lang_lit c : lang (lit c) (String c EmptyString).
Proof. constructor. apply Ascii.eqb_refl. Qed.

Lemma lang_cons P r c x : P c = true -> lang r x -> lang (Seq (Chr P) r) (String c x).
Proof. intros HP Hx. apply (lang_seq (Chr P) r (String c EmptyString) x); [by constructor | done]. Qed.

Lemma lang_word s : lang (word s) s.
Proof. induction s as [| c s IH]; simpl; [constructor |]. apply lang_cons; [apply Ascii.eqb_refl | done]. Qed.

Lemma lang_up_to P n s :
  str_forallb P s = true -> (String.length s <= n)%nat -> lang (up_to n (Chr P)) s.
Proof.
  revert s; induction n as [| n IH]; intros [| c s]; simpl; intros HP Hn; try lia.
  - constructor.
  - apply lang_alt_l. constructor.
  - apply andb_true_iff in HP as [HP HP']. apply lang_alt_r, lang_cons; [done |]. apply IH; [done | lia].
Qed.

Lemma lang_between P lo hi s :
  str_forallb P s = true -> (lo <= String.length s <= hi)%nat -> lang (between lo hi (Chr P)) s.
Proof.
  unfold between. revert hi s; induction lo as [| lo IH]; intros hi s HP Hn; simpl.
  - apply (lang_seq Eps _ EmptyString s); [constructor |]. apply lang_up_to; [done | lia].
  - destruct s as [| c s]; simpl in *; [lia |]. destruct hi as [| hi]; [lia |].
    apply andb_true_iff in HP as [HP HP'].
    assert (lang (Seq (exactly lo (Chr P)) (up_to (hi - lo) (Chr P))) s) as H by (apply IH; [done | lia]).
    inversion H as [| | ? ? y z Hy Hz | | | |]; subst.
    apply (lang_seq _ _ (String c y) z); [by apply lang_cons | done].
Qed.

End Regex.
