(* ===== verification/Canonical.v ===== *)
(** The canonical form of lifecycle documents
    ([deploy/scripts/lifecycle-state.py]: [_canonical], [canonicalize],
    [plan_digest]): the text both validators hash and size.  A Python string is
    Latin-1 text here, so a lone surrogate cannot occur. *)
From S2P Require Import Prelude Sha256 Json Regex.
Open Scope Z_scope.

Module Canonical.
Import Json.

(** A refusal: the path of the value and the reason. *)
Definition refusal : Type := string * string.

Definition MAX_DEPTH : Z := 32.
Definition MAX_SAFE : Z := 2 ^ 53 - 1.

(** [json.dumps(s, ensure_ascii=False)]. *)
Definition escape_raw (c : ascii) : string :=
  if 127 <=? code c then String c EmptyString else escape c.

Definition js (s : string) : string := quoted escape_raw s.

(** [_KEY]. *)
Definition key_pattern : Regex.re :=
  Regex.Seq (Regex.Chr Regex.lower)
    (Regex.Star (Regex.Chr (fun c => Regex.lower c || Regex.digit c || Ascii.eqb c "_"))).

Definition is_key (k : string) : bool := Regex.fullmatch key_pattern k.

Definition key_of_le {A} (x y : string * A) : bool := String.leb (fst x) (fst y).

(** The elements of a container in order; the first refusal wins. *)
Fixpoint all_ok {A} (l : list (result refusal A)) : result refusal (list A) :=
  match l with
  | [] => Ok []
  | r :: l =>
      match r with
      | Err e => Err e
      | Ok x => match all_ok l with Ok xs => Ok (x :: xs) | Err e => Err e end
      end
  end.

(** [for i, x in enumerate(l)]. *)
Definition enumerate {A B} (f : Z -> A -> B) : Z -> list A -> list B :=
  fix go i l := match l with [] => [] | x :: l => f i x :: go (i + 1) l end.

Definition not_safe (z : string) : string :=
  z +:+ " is not a safe integer (no fractions, -0 or values beyond 2^53-1)".

Definition bad_key (k : string) : string :=
  "key " +:+ substring 0 66 (js k) +:+ " is not lowercase snake_case ASCII".

Fixpoint canonical (v : json) (path : string) (depth : Z) : result refusal string :=
  if MAX_DEPTH <? depth then Err (path, "nested deeper than " +:+ pretty MAX_DEPTH +:+ " levels")
  else match v with
  | JNull => Ok "null"
  | JBool true => Ok "true"
  | JBool false => Ok "false"
  | JStr s => Ok (js s)
  | JInt z => if MAX_SAFE <? Z.abs z then Err (path, not_safe (pretty z)) else Ok (pretty z)
  | JFloat r => Err (path, not_safe r)
  | JList l =>
      match all_ok (enumerate (fun i x => canonical x (path +:+ "/" +:+ pretty i) (depth + 1)) 0 l) with
      | Ok ts => Ok ("[" +:+ join "," ts +:+ "]")
      | Err e => Err e
      end
  | JObj fs =>
      let members := map (fun '(k, x) => (k, canonical x (path +:+ "/" +:+ k) (depth + 1))) fs in
      let member '(k, r) :=
        if negb (is_key k) then Err (path +:+ "/" +:+ k, bad_key k)
        else match r with Ok t => Ok (dump_str k +:+ ":" +:+ t) | Err e => Err e end in
      match all_ok (map member (py_sorted key_of_le members)) with
      | Ok ts => Ok ("{" +:+ join "," ts +:+ "}")
      | Err e => Err e
      end
  end.

Definition canonicalize (v : json) : result refusal string := canonical v EmptyString 0.

(** [text.encode("utf-8")] of Latin-1 text. *)
Definition utf8_char (c : ascii) : string :=
  let n := code c in
  if n <? 128 then String c EmptyString
  else String (ascii_of_nat (Z.to_nat (192 + n / 64)))
         (String (ascii_of_nat (Z.to_nat (128 + n mod 64))) EmptyString).

Fixpoint utf8 (s : string) : string :=
  match s with EmptyString => EmptyString | String c s => utf8_char c +:+ utf8 s end.

(** [{k: v for k, v in plan.items() if k not in ("plan_digest", "presentation")}]. *)
Definition bound_members (plan : list (string * json)) : list (string * json) :=
  List.filter (fun '(k, _) => negb (String.eqb k "plan_digest") && negb (String.eqb k "presentation")) plan.

Definition plan_digest (plan : list (string * json)) : result refusal string :=
  match canonicalize (JObj (bound_members plan)) with
  | Ok t => Ok ("sha256:" +:+ Sha256.hexdigest (utf8 t))
  | Err e => Err e
  end.

(** *** The canonical text determines the value up to member order *)

(** Induction on a value with its elements and members. *)
Section JsonInd.
Variable P : json -> Prop.
Hypothesis Hscalar : forall v, match v with JList _ | JObj _ => True | _ => P v end.
Hypothesis Hlist : forall l, Forall P l -> P (JList l).
Hypothesis Hobj : forall fs, Forall (fun f => P f.2) fs -> P (JObj fs).

Fixpoint json_rect' (v : json) : P v :=
  match v return P v with
  | JList l =>
      Hlist l ((fix go l : Forall P l :=
                  match l with [] => Forall_nil_2 P | x :: l => Forall_cons_2 P x l (json_rect' x) (go l) end) l)
  | JObj fs =>
      Hobj fs ((fix go fs : Forall (fun f => P f.2) fs :=
                  match fs with
                  | [] => Forall_nil_2 _
                  | f :: fs => Forall_cons_2 _ f fs (json_rect' f.2) (go fs)
                  end) fs)
  | v => Hscalar v
  end.
End JsonInd.

(** The members of every object in key order. *)
Fixpoint norm (v : json) : json :=
  match v with
  | JList l => JList (map norm l)
  | JObj fs => JObj (py_sorted key_of_le (map (fun '(k, x) => (k, norm x)) fs))
  | v => v
  end.

(** Values equal up to the order of object members. *)
Definition same_document (v w : json) : Prop := norm v = norm w.

(** The compact text of a value whose string literals are written by [lit]. *)
Fixpoint text_by (lit : string -> string) (v : json) : string :=
  match v with
  | JNull => "null"
  | JBool true => "true"
  | JBool false => "false"
  | JStr s => lit s
  | JInt z => pretty z
  | JFloat r => r
  | JList l => "[" +:+ join "," (map (text_by lit) l) +:+ "]"
  | JObj fs => "{" +:+ join "," (map (fun '(k, x) => dump_str k +:+ ":" +:+ text_by lit x) fs) +:+ "}"
  end.

Abbreviation text := (text_by js).

Fixpoint no_float (v : json) : bool :=
  match v with
  | JFloat _ => false
  | JList l => forallb no_float l
  | JObj fs => forallb (fun '(_, x) => no_float x) fs
  | _ => true
  end.

Lemma all_ok_Ok {A} (l : list (result refusal A)) xs : all_ok l = Ok xs -> l = map Ok xs.
Proof.
  revert xs; induction l as [| [x | e] l IH]; intros xs; simpl; try done.
  - by intros [= <-].
  - destruct (all_ok l) as [ys |]; [| done]. intros [= <-]. simpl. f_equal. by apply IH.
Qed.

Lemma norm_obj fs :
  norm (JObj fs) = JObj (map (fun '(k, x) => (k, norm x)) (py_sorted key_of_le fs)).
Proof. simpl. f_equal. apply py_sorted_map. by intros [] []. Qed.

Definition printed (v : json) : Prop :=
  forall path depth t, canonical v path depth = Ok t -> t = text (norm v) /\ no_float (norm v) = true.

Lemma printed_items l path depth ts :
  Forall printed l -> forall i,
  enumerate (fun i x => canonical x (path +:+ "/" +:+ pretty i) depth) i l = map Ok ts ->
  ts = map text (map norm l) /\ forallb no_float (map norm l) = true.
Proof.
  intros H. revert ts. induction H as [| x l Hx Hl IH]; intros [| t ts] i; simpl; try done.
  intros [= E1 E2]. apply Hx in E1 as [-> ->]. by apply IH in E2 as [-> ->].
Qed.

Lemma printed_members fs path depth ts :
  Forall (fun f => printed f.2) fs ->
  map (fun '(k, r) =>
         if negb (is_key k) then Err (path +:+ "/" +:+ k, bad_key k)
         else match r with Ok t => Ok (dump_str k +:+ ":" +:+ t) | Err e => Err e end)
    (map (fun '(k, x) => (k, canonical x (path +:+ "/" +:+ k) depth)) fs) = map Ok ts ->
  ts = map (fun '(k, x) => dump_str k +:+ ":" +:+ text x) (map (fun '(k, x) => (k, norm x)) fs) /\
  forallb (fun '(_, x) => no_float x) (map (fun '(k, x) => (k, norm x)) fs) = true.
Proof.
  intros H. revert ts. induction H as [| [k x] fs Hx Hl IH]; intros [| t ts]; simpl in *; try done.
  destruct (negb (is_key k)); [done |]. destruct (canonical x _ _) as [u |] eqn:E; [| done].
  intros [= <- E2]. apply Hx in E as [-> ->]. by apply IH in E2 as [-> ->].
Qed.

(** What [canonical] returns is the text of the normalised value. *)
Lemma canonical_text v : printed v.
Proof.
  revert v. apply json_rect'; [intros v | intros l IH | intros fs IH].
  - destruct v as [| [] | | | | |]; try done; intros path depth t; simpl; repeat case_match;
      naive_solver.
  - intros path depth t. simpl. destruct (MAX_DEPTH <? depth); [done |].
    destruct (all_ok _) as [ts |] eqn:E; [| done]. intros [= <-].
    apply all_ok_Ok, printed_items in E as [-> Hn]; done.
  - intros path depth t. rewrite norm_obj. simpl. destruct (MAX_DEPTH <? depth); [done |].
    rewrite (py_sorted_map key_of_le key_of_le) by by intros [] [].
    destruct (all_ok _) as [ts |] eqn:E; [| done]. intros [= <-].
    apply all_ok_Ok, printed_members in E as [-> Hn]; [done |].
    by rewrite py_sorted_perm.
Qed.

(** *** The text, followed by a delimiter, determines the value *)

Definition ends_value (c : ascii) : bool := Ascii.eqb c "," || Ascii.eqb c "]" || Ascii.eqb c "}".

Lemma js_tail x y s t : js x +:+ s = js y +:+ t -> x = y /\ s = t.
Proof. apply quoted_tail; vm_compute; reflexivity. Qed.

Lemma join_cons sep x l :
  join sep (x :: l) = x +:+ match l with [] => EmptyString | _ => sep +:+ join sep l end.
Proof. destruct l; simpl; [| done]. induction x as [| c x IH]; simpl; [done | by f_equal]. Qed.

(** A bracketed list of items is determined by its text. *)
Section Joined.
Context {A : Type} (f : A -> string) (ok : A -> Prop) (close : ascii).
Hypothesis close_ends : ends_value close = true.
Hypothesis close_not_comma : close <> ","%char.
Hypothesis head : forall x, ok x -> exists c r, f x = String c r /\ ends_value c = false.

Definition item_inj (x : A) : Prop :=
  forall y d s d' t, ok y -> ends_value d = true -> ends_value d' = true ->
  f x +:+ String d s = f y +:+ String d' t -> x = y /\ String d s = String d' t.

Lemma joined_inj l m s t :
  Forall item_inj l -> Forall ok l -> Forall ok m ->
  join "," (map f l) +:+ String close s = join "," (map f m) +:+ String close t -> l = m /\ s = t.
Proof.
  intros Hl. revert m; induction Hl as [| x l Hx Hl IH]; intros [| y m] Hok Hm E; cbn [map] in E.
  - by injection E as ->.
  - rewrite join_cons, <- str_app_assoc in E. inversion Hm as [| ? ? Hy]; subst.
    destruct (head y Hy) as (c & r & Ey & Hc). rewrite Ey in E. injection E as -> _. congruence.
  - rewrite join_cons, <- str_app_assoc in E. inversion Hok as [| ? ? Hy]; subst.
    destruct (head x Hy) as (c & r & Ey & Hc). rewrite Ey in E. injection E as -> _. congruence.
  - rewrite !join_cons, <- !str_app_assoc in E. inversion Hm as [| ? ? Hy Hm']; subst.
    inversion Hok as [| ? ? _ Hok']; subst.
    destruct l as [| x' l], m as [| y' m]; cbn [map String.append] in E.
    + apply Hx in E as [-> E]; try done. by injection E as ->.
    + apply Hx in E as [_ E]; try done. congruence.
    + apply Hx in E as [_ E]; try done. congruence.
    + apply Hx in E as [-> E]; try done. injection E as E.
      by destruct (IH (y' :: m) Hok' Hm' E) as [-> ->].
Qed.
End Joined.

(** The kind of a value shows in the first character of its text. *)
Definition tag_of (c : ascii) : Z :=
  if num_char c then 4
  else if Ascii.eqb c quote then 5
  else if Ascii.eqb c "[" then 6
  else if Ascii.eqb c "{" then 7
  else if Ascii.eqb c "n" then 1
  else if Ascii.eqb c "t" then 2
  else if Ascii.eqb c "f" then 3 else 0.

Definition tag (v : json) : Z :=
  match v with
  | JNull => 1 | JBool true => 2 | JBool false => 3 | JInt _ | JFloat _ => 4
  | JStr _ => 5 | JList _ => 6 | JObj _ => 7
  end.

Section TextBy.
Variable lit : string -> string.
Hypothesis lit_head : forall x, exists r, lit x = String quote r.
Hypothesis lit_tail : forall x y s t, lit x +:+ s = lit y +:+ t -> x = y /\ s = t.
#[local] Abbreviation text := (text_by lit).

Lemma text_head v : no_float v = true -> exists c r, text v = String c r /\ tag_of c = tag v.
Proof.
  destruct v as [| [] | z | | x | |]; intros H; try done; cbn [text_by]; try (eexists _, _; split; reflexivity).
  2: { destruct (lit_head x) as [r Er]. exists quote, r. split; [done | reflexivity]. }
  pose proof (pretty_Z_num z) as Hn. pose proof (pretty_Z_not_empty z).
  destruct (pretty z) as [| c r]; [done |]. exists c, r. split; [done |].
  simpl in Hn. apply andb_true_iff in Hn as [Hn _]. unfold tag_of. by rewrite Hn.
Qed.

Lemma tag_not_end c : ends_value c = true -> tag_of c = 0.
Proof.
  intros H. assert (negb (ends_value c) || (tag_of c =? 0) = true) as E.
  { revert c H. intros c _. revert c. apply forall_ascii. vm_compute. reflexivity. }
  rewrite H in E. by apply Z.eqb_eq.
Qed.

Lemma text_head_open v : no_float v = true -> exists c r, text v = String c r /\ ends_value c = false.
Proof.
  intros H. destruct (text_head v H) as (c & r & E & Ht). exists c, r. split; [done |].
  destruct (ends_value c) eqn:Ec; [| done]. apply tag_not_end in Ec.
  rewrite Ec in Ht. destruct v as [| [] | | | | |]; done.
Qed.

Lemma pretty_not_end (z : Z) : str_forallb (fun c => negb (ends_value c)) (pretty z) = true.
Proof. apply pretty_Z_forallb; [| done]. intros d. unfold pretty_N_char. by repeat case_match. Qed.

Definition text_inj (v : json) : Prop := item_inj text (fun w => no_float w = true) v.

Definition member_text (f : string * json) : string := dump_str f.1 +:+ ":" +:+ text f.2.

Lemma member_inj k x :
  text_inj x -> item_inj member_text (fun f => no_float f.2 = true) (k, x).
Proof.
  intros Hx [k' y] d s d' t Hy Hd Hd' E. unfold member_text in E; cbn [fst snd] in *.
  rewrite <- !str_app_assoc in E. apply dump_str_tail in E as [-> E]. simpl in E. injection E as E.
  by apply Hx in E as [-> ->].
Qed.

Lemma map_member_text fs :
  map (fun '(k, x) => dump_str k +:+ ":" +:+ text x) fs = map member_text fs.
Proof. apply map_ext. by intros []. Qed.

Lemma members_no_float fs : no_float (JObj fs) = true -> Forall (fun f => no_float f.2 = true) fs.
Proof. simpl. rewrite forallb_forall, Forall_forall. intros H [k x] Hin. by apply (H (k, x)), list_elem_of_In. Qed.

Lemma items_no_float l : no_float (JList l) = true -> Forall (fun x => no_float x = true) l.
Proof. simpl. rewrite forallb_forall, Forall_forall. intros H x Hin. by apply H, list_elem_of_In. Qed.

Lemma text_cases v w d s d' t :
  no_float v = true -> no_float w = true ->
  text v +:+ String d s = text w +:+ String d' t -> tag v = tag w.
Proof.
  intros Hv Hw E. destruct (text_head v Hv) as (c & r & Ev & <-), (text_head w Hw) as (c' & r' & Ew & <-).
  rewrite Ev, Ew in E. by injection E as -> _.
Qed.

Lemma text_injective v : no_float v = true -> text_inj v.
Proof.
  revert v. apply (json_rect' (fun v => no_float v = true -> text_inj v)).
  - intros v. destruct v as [| [] | z | | x | |]; try done; intros Hv w d s d' t Hw Hd Hd' E;
      pose proof (text_cases _ _ _ _ _ _ Hv Hw E) as Ht;
      destruct w as [| [] | z' | | y | |]; try done; cbn [text_by] in E.
    1-3: split; [done |]; by apply str_app_cancel in E.
    + apply (delimited_inj ends_value) in E as [E ?]; auto using pretty_not_end.
      apply (inj pretty) in E. naive_solver.
    + apply lit_tail in E. naive_solver.
  - intros l IH Hv w d s d' t Hw Hd Hd' E.
    pose proof (text_cases _ _ _ _ _ _ Hv Hw E) as Ht. destruct w as [| [] | | | | m |]; try done.
    cbn [text_by String.append] in E. injection E as E. rewrite <- !str_app_assoc in E; cbn [String.append] in E.
    apply (joined_inj text (fun w => no_float w = true)) in E as [-> ->]; try done; try (by apply text_head_open).
    + apply items_no_float in Hv. eapply Forall_impl; [exact (proj2 (Forall_and _ _) (conj IH Hv)) |].
      intros x [Hx Hn]. by apply Hx.
    + by apply items_no_float.
    + by apply items_no_float.
  - intros fs IH Hv w d s d' t Hw Hd Hd' E.
    pose proof (text_cases _ _ _ _ _ _ Hv Hw E) as Ht. destruct w as [| [] | | | | | gs]; try done.
    cbn [text_by String.append] in E. injection E as E. rewrite <- !str_app_assoc in E; cbn [String.append] in E.
    rewrite !map_member_text in E.
    apply (joined_inj member_text (fun f => no_float f.2 = true)) in E as [-> ->]; try done.
    + intros [k x] _. by eexists _, _.
    + apply members_no_float in Hv. eapply Forall_impl; [exact (proj2 (Forall_and _ _) (conj IH Hv)) |].
      intros [k x] [Hx Hn]. by apply member_inj, Hx.
    + by apply members_no_float.
    + by apply members_no_float.
Qed.

End TextBy.

Lemma js_head x : exists r, js x = String quote r.
Proof. by eexists. Qed.

(** Equal canonical texts come from the same document. *)
Lemma canonicalize_inj v w t :
  canonicalize v = Ok t -> canonicalize w = Ok t -> same_document v w.
Proof.
  intros [-> Hv]%canonical_text [E Hw]%canonical_text.
  destruct (text_injective js js_head js_tail _ Hv (norm w) ","%char EmptyString ","%char EmptyString) as [H _]; try done.
  by rewrite E.
Qed.

Lemma utf8_inj s t : utf8 s = utf8 t -> s = t.
Proof.
  assert (forall a, exists c r, utf8_char a = String c r) as Hne
    by (intros a; unfold utf8_char; destruct (_ <? _); eauto).
  revert t; induction s as [| a s IH]; intros [| b t]; simpl; try done.
  - destruct (Hne b) as (c & r & ->). done.
  - destruct (Hne a) as (c & r & ->). done.
  - assert (Ascii.eqb a b || incompat (utf8_char a) (utf8_char b) = true) as H.
    { revert a b. apply forall_ascii2. vm_compute. reflexivity. }
    intros E. destruct (Ascii.eqb_spec a b) as [-> |]; simpl in H.
    + f_equal. apply IH. by eapply str_app_cancel.
    + by apply (incompat_app _ _ _ _ H) in E.
Qed.

(** *** Every integer of an accepted document is safe *)

Inductive contains (z : Z) : json -> Prop :=
| contains_int : contains z (JInt z)
| contains_item l x : x ∈ l -> contains z x -> contains z (JList l)
| contains_member fs k x : (k, x) ∈ fs -> contains z x -> contains z (JObj fs).

Lemma enumerate_elem {A B} (f : Z -> A -> B) l x i : x ∈ l -> exists k, f k x ∈ enumerate f i l.
Proof.
  intros H. revert i; induction H as [x l | x y l H IH]; intros i; simpl.
  - exists i. by constructor.
  - destruct (IH (i + 1)) as [k Hk]. exists k. by constructor.
Qed.

Lemma canonical_safe v path depth t z :
  canonical v path depth = Ok t -> contains z v -> Z.abs z <= MAX_SAFE.
Proof.
  intros E H. revert path depth t E.
  induction H as [| l x Hin H IH | fs k x Hin H IH]; intros path depth t; cbn [canonical];
    destruct (MAX_DEPTH <? depth); try done.
  - destruct (MAX_SAFE <? Z.abs z) eqn:E; [done |]. intros _. lia.
  - destruct (all_ok _) as [ts |] eqn:E; [| done]. intros _. apply all_ok_Ok in E.
    destruct (enumerate_elem (fun i x => canonical x (path +:+ "/" +:+ pretty i) (depth + 1)) l x 0 Hin) as [i Hi].
    rewrite E in Hi. apply list_elem_of_fmap in Hi as (u & Hu & _). by eapply IH.
  - destruct (all_ok _) as [ts |] eqn:E; [| done]. intros _. apply all_ok_Ok in E.
    assert ((k, canonical x (path +:+ "/" +:+ k) (depth + 1)) ∈
              py_sorted key_of_le (map (fun '(k, x) => (k, canonical x (path +:+ "/" +:+ k) (depth + 1))) fs)) as Hs.
    { rewrite py_sorted_perm. apply list_elem_of_fmap. by exists (k, x). }
    apply list_elem_of_In, (in_map (fun '(k, r) =>
        if negb (is_key k) then Err (path +:+ "/" +:+ k, bad_key k)
        else match r with Ok t => Ok (dump_str k +:+ ":" +:+ t) | Err e => Err e end)) in Hs.
    rewrite E in Hs. apply in_map_iff in Hs as (u & Hu & _). symmetry in Hu.
    destruct (negb (is_key k)); [done |]. destruct (canonical x _ _) eqn:Ex; [| done]. by eapply IH.
Qed.

#[local] Opaque Sha256.hexdigest.

(** a plan digest binds the plan: two plans with the same digest agree on
    every member other than plan_digest and presentation (up to the order of
    members), or two different texts have the same SHA-256. *)
Theorem plan_digest_binds p q d :
  plan_digest p = Ok d -> plan_digest q = Ok d ->
  same_document (JObj (bound_members p)) (JObj (bound_members q)) \/
  exists x y, x <> y /\ Sha256.hexdigest x = Sha256.hexdigest y.
Proof.
  unfold plan_digest. destruct (canonicalize (JObj (bound_members p))) as [t |] eqn:Ep; [| done].
  destruct (canonicalize (JObj (bound_members q))) as [u |] eqn:Eq; [| done].
  intros [= <-] [= E]. destruct (decide (t = u)) as [-> | Hne].
  - left. by eapply canonicalize_inj.
  - right. exists (utf8 t), (utf8 u). split; [| done]. by intros ?%utf8_inj.
Qed.

Definition demo_plan : list (string * json) :=
  [("action", JStr "update"); ("plan_digest", JStr "x");
   ("data", JObj [("effect", JStr "kept"); ("count", JInt 3)]); ("acks", JList [JStr "confirm"; JNull])].

Definition demo_plan_reordered : list (string * json) :=
  [("data", JObj [("count", JInt 3); ("effect", JStr "kept")]); ("presentation", JStr "text");
   ("acks", JList [JStr "confirm"; JNull]); ("action", JStr "update")].

Lemma plan_digest_binds_witness :
  is_ok (plan_digest demo_plan) = true /\
  (same_document (JObj (bound_members demo_plan)) (JObj (bound_members demo_plan_reordered)) \/
   exists x y, x <> y /\ Sha256.hexdigest x = Sha256.hexdigest y).
Proof.
  split; [vm_compute; reflexivity |].
  eapply (plan_digest_binds demo_plan demo_plan_reordered); vm_compute; reflexivity.
Defined.


End Canonical.
