(* ===== verification/AtomicWrite.v ===== *)
(** The atomic record write ([deploy/scripts/lifecycle-state.py], [write_atomic]
    and [_unlink_quietly]) on a disk that can lose power.

    A directory has a durable map and the operations not yet synced; a power
    loss keeps some prefix of them.  A file's content survives only when it was
    synced after its last write.  [write_atomic] is a step relation: each system
    call may succeed or raise, a write may be short, and the process may stop
    between any two of them. *)
From S2P Require Import Prelude.

Module AtomicWrite.

Record contents := Contents { bytes : string; synced : bool }.

Inductive dirop := Link (n : string) (i : nat) | Rename (source target : string) | Unlink (n : string).

Record disk := Disk { files : gmap nat contents; durable : gmap string nat; pending : list dirop }.

Definition apply_op (m : gmap string nat) (o : dirop) : gmap string nat :=
  match o with
  | Link n i => <[n := i]> m
  | Rename s t => match m !! s with Some i => <[t := i]> (delete s m) | None => m end
  | Unlink n => delete n m
  end.

(** What a running process sees. *)
Definition live (d : disk) : gmap string nat := foldl apply_op (durable d) (pending d).

Definition read (d : disk) (n : string) : option string :=
  live d !! n ≫= fun i => bytes <$> files d !! i.

(** What a reader finds under [n] after a power loss that kept the first [k]
    directory operations; [lost] is whatever an unsynced file then holds. *)
Definition after_crash (d : disk) (k : nat) (lost : string) (n : string) : option string :=
  foldl apply_op (durable d) (take k (pending d)) !! n ≫= fun i =>
  (fun c => if synced c then bytes c else lost) <$> files d !! i.

Definition push (o : dirop) (d : disk) : disk := Disk (files d) (durable d) (pending d ++ [o]).
Definition set_file (i : nat) (c : contents) (d : disk) : disk := Disk (<[i := c]> (files d)) (durable d) (pending d).
Definition sync_dir (d : disk) : disk := Disk (files d) (live d) [].

(** Where [write_atomic] stands. *)
Inductive point :=
| AtOpen | AtChmod | AtWrite (rest : string) | AtFsync | AtReplace | AtSyncDir | AtCleanup | Returned | Raised.

Section Write.
Variables (name suffix data : string).

(** [f".{name}.{_random_suffix()}"]. *)
Definition temp : string := "." +:+ name +:+ "." +:+ suffix.

Inductive write_atomic (i : nat) : point * disk -> point * disk -> Prop :=
| open_ok d : live d !! temp = None -> files d !! i = None ->
    write_atomic i (AtOpen, d) (AtChmod, push (Link temp i) (set_file i (Contents EmptyString false) d))
| open_raises d : write_atomic i (AtOpen, d) (Raised, d)
| chmod_ok d : write_atomic i (AtChmod, d) (AtWrite data, d)
| chmod_raises d : write_atomic i (AtChmod, d) (AtCleanup, d)
| write_some d done rest c : rest <> EmptyString -> done <> EmptyString -> files d !! i = Some c ->
    forall more, rest = done +:+ more ->
    write_atomic i (AtWrite rest, d) (AtWrite more, set_file i (Contents (bytes c +:+ done) false) d)
| write_raises d rest : write_atomic i (AtWrite rest, d) (AtCleanup, d)
| write_all d : write_atomic i (AtWrite EmptyString, d) (AtFsync, d)
| fsync_ok d c : files d !! i = Some c ->
    write_atomic i (AtFsync, d) (AtReplace, set_file i (Contents (bytes c) true) d)
| fsync_raises d : write_atomic i (AtFsync, d) (AtCleanup, d)
| replace_ok d : write_atomic i (AtReplace, d) (AtSyncDir, push (Rename temp name) d)
| replace_raises d : write_atomic i (AtReplace, d) (AtCleanup, d)
| sync_ok d : write_atomic i (AtSyncDir, d) (Returned, sync_dir d)
| sync_raises d : write_atomic i (AtSyncDir, d) (Raised, d)
| unlink_ok d : write_atomic i (AtCleanup, d) (Raised, push (Unlink temp) d)
| unlink_raises d : write_atomic i (AtCleanup, d) (Raised, d).

Lemma temp_not_name : temp <> name.
Proof.
  intros E. assert (String.length temp = String.length name) as H by by rewrite E.
  unfold temp in H. rewrite !str_length_app in H. simpl in H. lia.
Qed.

(** A settled directory in which [name] holds [old], or nothing. *)
Definition settled (d : disk) (old : option string) : Prop :=
  pending d = [] /\
  match durable d !! name with
  | Some j => exists c, files d !! j = Some (Contents c true) /\ old = Some c
  | None => old = None
  end.

Variables (i : nat) (d0 : disk) (old : option string).
Hypothesis start : settled d0 old.
Hypothesis fresh : files d0 !! i = None.

(** The disk while the new content is being prepared under the temporary name. *)
Definition preparing (d : disk) (b : string) : Prop :=
  durable d = durable d0 /\ pending d = [Link temp i] /\
  (forall j, j <> i -> files d !! j = files d0 !! j) /\ exists s, files d !! i = Some (Contents b s).

Definition prepared (d : disk) : Prop :=
  durable d = durable d0 /\ (forall j, j <> i -> files d !! j = files d0 !! j) /\
  files d !! i = Some (Contents data true).

Definition stands (p : point) (d : disk) : Prop :=
  match p with
  | AtOpen => d = d0
  | AtChmod => preparing d EmptyString
  | AtWrite rest => exists b, b +:+ rest = data /\ preparing d b
  | AtFsync => preparing d data
  | AtReplace => prepared d /\ pending d = [Link temp i]
  | AtSyncDir => prepared d /\ pending d = [Link temp i; Rename temp name]
  | AtCleanup => exists b, preparing d b
  | Returned => (forall j, j <> i -> files d !! j = files d0 !! j) /\ files d !! i = Some (Contents data true) /\
                pending d = [] /\ durable d !! name = Some i
  | Raised => d = d0 \/ (exists b, preparing d b) \/ (prepared d /\ pending d = [Link temp i; Rename temp name]) \/
              (durable d = durable d0 /\ pending d = [Link temp i; Unlink temp] /\
               forall j, j <> i -> files d !! j = files d0 !! j)
  end.

Lemma str_app_nil (s : string) : s +:+ EmptyString = s.
Proof. induction s; simpl; congruence. Qed.

Lemma step_stands p d p' d' : write_atomic i (p, d) (p', d') -> stands p d -> stands p' d'.
Proof.
  intros H. inversion H; subst; simpl; clear H.
  - intros ->. destruct start as [Hp _]. repeat split; simpl; [by rewrite Hp | | by exists false; rewrite lookup_insert_eq].
    intros j Hj. by rewrite lookup_insert_ne.
  - by left.
  - intros Hd. by exists EmptyString.
  - intros Hd. by exists EmptyString.
  - intros (b & Eb & Hd & Hp & Hf & s & Hs). exists (b +:+ done). rewrite <- str_app_assoc. split; [done |].
    simplify_eq. repeat split; try done; simpl.
    + intros j Hj. by rewrite lookup_insert_ne; [apply Hf |].
    + exists false. by rewrite lookup_insert_eq.
  - intros (b & _ & Hd). by exists b.
  - intros (b & Eb & Hd). rewrite str_app_nil in Eb. by subst b.
  - intros (Hd & Hp & Hf & s & Hs). simplify_eq. repeat split; try done; simpl.
    + intros j Hj. by rewrite lookup_insert_ne; [apply Hf |].
    + by rewrite lookup_insert_eq.
  - eauto.
  - intros [[Hd [Hf Hi]] Hp]. repeat split; try done. simpl. by rewrite Hp.
  - intros [[Hd [Hf Hi]] Hp]. exists data. repeat split; try done. by exists true.
  - intros [[Hd [Hf Hi]] Hp]. repeat split; try done. unfold live. rewrite Hp. simpl.
    by rewrite lookup_insert_eq, lookup_insert_eq.
  - intros Hd. right. right. by left.
  - intros (b & Hd & Hp & Hf & s & Hs). right. right. right. repeat split; try done. simpl. by rewrite Hp.
  - intros Hd. right. by left.
Qed.

Lemma reachable_stands p d :
  rtc (write_atomic i) (AtOpen, d0) (p, d) -> stands p d.
Proof.
  assert (forall x y, rtc (write_atomic i) x y -> stands x.1 x.2 -> stands y.1 y.2) as H.
  { intros x y Hr. induction Hr as [| x [q e] z Hxy _ IH]; [done |]. destruct x as [q0 e0]. simpl.
    intros Hs. apply IH. by apply (step_stands q0 e0). }
  intros Hr. by apply (H (AtOpen, d0) (p, d) Hr).
Qed.

(** The old content is still found through the unchanged directory. *)
Lemma old_found d :
  (forall j, j <> i -> files d !! j = files d0 !! j) ->
  forall m : gmap string nat, m !! name = durable d0 !! name -> forall lost,
  (m !! name ≫= fun j => (fun c => if synced c then bytes c else lost) <$> files d !! j) = old.
Proof.
  intros Hf m Hm lost. rewrite Hm. destruct start as [_ Hold].
  destruct (durable d0 !! name) as [j |]; [| done]. destruct Hold as (c & Hc & ->). simpl.
  rewrite Hf by congruence. by rewrite Hc.
Qed.

Lemma link_temp_name (m : gmap string nat) : <[temp := i]> m !! name = m !! name.
Proof. apply lookup_insert_ne, temp_not_name. Qed.

Lemma crash_old_or_new p d k lost :
  stands p d -> after_crash d k lost name = old \/ after_crash d k lost name = Some data.
Proof.
  assert (forall e, e = d0 -> after_crash e k lost name = old) as H0.
  { intros e ->. unfold after_crash. destruct start as [Hp _]. rewrite Hp, take_nil. by apply (old_found d0). }
  assert (forall e, durable e = durable d0 -> (forall j, j <> i -> files e !! j = files d0 !! j) ->
    (pending e = [Link temp i] \/ pending e = [Link temp i; Unlink temp]) -> after_crash e k lost name = old) as H1.
  { intros e Hd Hf Hp. unfold after_crash. apply old_found; [done |]. rewrite Hd.
    destruct Hp as [-> | ->]; destruct k as [| [| k]]; simpl; rewrite ?take_nil; simpl;
      rewrite ?lookup_delete_ne by apply temp_not_name; rewrite ?link_temp_name; done. }
  assert (forall e, prepared e -> pending e = [Link temp i; Rename temp name] ->
    after_crash e k lost name = old \/ after_crash e k lost name = Some data) as H2.
  { intros e (Hd & Hf & Hi) Hp. unfold after_crash. rewrite Hp, Hd. destruct k as [| [| k]]; simpl; rewrite ?take_nil; simpl.
    - left. by apply (old_found e Hf).
    - left. apply (old_found e Hf). apply link_temp_name.
    - right. rewrite lookup_insert_eq, lookup_insert_eq. simpl. by rewrite Hi. }
  destruct p; simpl.
  - intros ->. left. by apply H0.
  - intros (Hd & Hp & Hf & _). left. apply H1; auto.
  - intros (b & _ & Hd & Hp & Hf & _). left. apply H1; auto.
  - intros (Hd & Hp & Hf & _). left. apply H1; auto.
  - intros [(Hd & Hf & _) Hp]. left. apply H1; auto.
  - intros [Hpr Hp]. by apply H2.
  - intros (b & Hd & Hp & Hf & _). left. apply H1; auto.
  - intros (Hf & Hi & Hp & Hn). right. unfold after_crash. rewrite Hp, take_nil. simpl. rewrite Hn. simpl. by rewrite Hi.
  - intros [-> | [(b & Hd & Hp & Hf & _) | [[Hpr Hp] | (Hd & Hp & Hf)]]].
    + left. by apply H0.
    + left. apply H1; auto.
    + by apply H2.
    + left. apply H1; auto.
Qed.

(** C6: a power loss at any moment of an atomic write, with any system call
    failing and any short writes, leaves under the record's name either the old
    content or the complete new one, never a mixture or nothing. *)
Theorem atomic_write_crash_safe p d k lost :
  rtc (write_atomic i) (AtOpen, d0) (p, d) ->
  after_crash d k lost name = old \/ after_crash d k lost name = Some data.
Proof. intros Hr. by apply (crash_old_or_new p), reachable_stands. Qed.

(** once the atomic write has returned, the new content survives every
    power loss, and a reader sees it. *)
Theorem atomic_write_durable d k lost :
  rtc (write_atomic i) (AtOpen, d0) (Returned, d) ->
  after_crash d k lost name = Some data /\ read d name = Some data.
Proof.
  intros (Hf & Hi & Hp & Hn)%reachable_stands. unfold after_crash, read, live. rewrite Hp, take_nil. simpl.
  rewrite Hn. simpl. by rewrite Hi.
Qed.

End Write.

(** *** A concrete write: two short writes replace a one-byte record *)

Definition demo_disk : disk := Disk {[0%nat := Contents "a" true]} {["journal.json" := 0%nat]} [].

Definition demo_after_replace : disk :=
  push (Rename (temp "journal.json" "x") "journal.json")
    (set_file 1 (Contents "bcd" true)
      (set_file 1 (Contents "bcd" false)
        (set_file 1 (Contents "b" false)
          (push (Link (temp "journal.json" "x") 1) (set_file 1 (Contents EmptyString false) demo_disk))))).

Lemma demo_run : rtc (write_atomic "journal.json" "x" "bcd" 1) (AtOpen, demo_disk) (AtSyncDir, demo_after_replace).
Proof.
  eapply rtc_l; [by apply open_ok; vm_compute |]. eapply rtc_l; [by apply chmod_ok |].
  eapply rtc_l; [by eapply (write_some _ _ _ _ _ "b" "bcd" (Contents EmptyString false)); vm_compute |].
  eapply rtc_l; [by eapply (write_some _ _ _ _ _ "cd" "cd" (Contents "b" false)); vm_compute |].
  eapply rtc_l; [by apply write_all |].
  eapply rtc_l; [by apply (fsync_ok _ _ _ _ _ (Contents "bcd" false)); vm_compute |].
  eapply rtc_l; [by apply replace_ok |]. apply rtc_refl.
Qed.

Lemma demo_settled : settled "journal.json" demo_disk (Some "a").
Proof. split; [done |]. vm_compute. by exists "a". Qed.

Lemma atomic_write_crash_safe_witness :
  after_crash demo_after_replace 1 "garbage" "journal.json" = Some "a" \/
  after_crash demo_after_replace 1 "garbage" "journal.json" = Some "bcd".
Proof.
  apply (atomic_write_crash_safe "journal.json" "x" "bcd" 1 demo_disk (Some "a") demo_settled eq_refl AtSyncDir).
  exact demo_run.
Defined.

Lemma atomic_write_durable_witness :
  after_crash (sync_dir demo_after_replace) 0 "garbage" "journal.json" = Some "bcd".
Proof.
  apply (atomic_write_durable "journal.json" "x" "bcd" 1 demo_disk (Some "a") demo_settled).
  eapply rtc_r; [exact demo_run | apply sync_ok].
Defined.

End AtomicWrite.
