(* ===== verification/LifecycleContract.v ===== *)
(** The lifecycle contract's journal rules
    ([deploy/scripts/lifecycle-state.py]: the state machine of
    [x-lifecycle], [_error_code_problem], [_checkpoint_rules], [is_transition]
    and [_journal_rules]), on documents that have the schema's shape: an
    optional member is an [option], a closed string set is an inductive type. *)
From S2P Require Import Prelude Regex.
Open Scope Z_scope.

Module Contract.

(** *** The closed sets of the schema *)

Inductive st :=
| Planned | Staged | Verified | RecoverySaved | Applying | Checking
| Committed | Recovering | Recovered | RecoveryRequired | Interrupted.

Inductive kind := Transaction | Legacy.

Inductive action :=
| Install | Update | Downgrade | Rollback | Recover | Uninstall
| Restore | Migrate | Backup | VaultRecover | Restart.

Inductive cause := CInterrupted | Abandoned | ApplyFailed | CheckFailed | RecoveryFailed.

Inductive outcome := OCommitted | ORecovered | ORefused | OInterrupted | OManual.

(** [exit_name]: the error codes a document may carry. *)
Inductive code :=
| USAGE | UNSUPPORTED | NETWORK | TRUST | PERMISSION | PREFLIGHT
| RECOVERED | MANUAL | LOCKED | INTERRUPTED.

Inductive adapter := Native | Mono | Package | Proxmox.

#[export] Instance st_eq_dec : EqDecision st. Proof. solve_decision. Defined.
#[export] Instance kind_eq_dec : EqDecision kind. Proof. solve_decision. Defined.
#[export] Instance action_eq_dec : EqDecision action. Proof. solve_decision. Defined.
#[export] Instance cause_eq_dec : EqDecision cause. Proof. solve_decision. Defined.
#[export] Instance outcome_eq_dec : EqDecision outcome. Proof. solve_decision. Defined.
#[export] Instance code_eq_dec : EqDecision code. Proof. solve_decision. Defined.
#[export] Instance adapter_eq_dec : EqDecision adapter. Proof. solve_decision. Defined.

Definition state_name (s : st) : string :=
  match s with
  | Planned => "planned" | Staged => "staged" | Verified => "verified"
  | RecoverySaved => "recovery_saved" | Applying => "applying" | Checking => "checking"
  | Committed => "committed" | Recovering => "recovering" | Recovered => "recovered"
  | RecoveryRequired => "recovery_required" | Interrupted => "interrupted"
  end.

Definition action_name (a : action) : string :=
  match a with
  | Install => "install" | Update => "update" | Downgrade => "downgrade" | Rollback => "rollback"
  | Recover => "recover" | Uninstall => "uninstall" | Restore => "restore" | Migrate => "migrate"
  | Backup => "backup" | VaultRecover => "vault_recover" | Restart => "restart"
  end.

Definition kind_name (k : kind) : string :=
  match k with Transaction => "transaction" | Legacy => "legacy" end.

Definition cause_name (c : cause) : string :=
  match c with
  | CInterrupted => "interrupted" | Abandoned => "abandoned" | ApplyFailed => "apply_failed"
  | CheckFailed => "check_failed" | RecoveryFailed => "recovery_failed"
  end.

Definition outcome_name (o : outcome) : string :=
  match o with
  | OCommitted => "committed" | ORecovered => "recovered" | ORefused => "refused"
  | OInterrupted => "interrupted" | OManual => "manual"
  end.

(** *** Documents *)

Record err := Error { code_of : code; reason_of : string }.

Record checkpoint := Checkpoint {
  sequence : Z;
  state : st;
  at_ : string;
  step : option string;
  cause_of : option cause;
  ckpt : option st;
  outcome_of : option outcome;
  error : option err
}.

Record release := Release { version : string; artifact_digest : option string }.

Record recovery_ref := RecoveryRef { ref_operation : string; manifest_digest : string }.

Record evidence := Evidence { check : string; check_result : string; detail : option string }.

Record journal := Journal {
  operation_id : string;
  kind_of : kind;
  action_of : action;
  adapter_of : adapter;
  generation : Z;
  plan_digest : option string;
  identity_digest : option string;
  source : option release;
  target : option release;
  recovery : option recovery_ref;
  evidences : list evidence;
  started_at : string;
  updated_at : string;
  checkpoints : list checkpoint
}.

#[export] Instance recovery_ref_eq_dec : EqDecision recovery_ref. Proof. solve_decision. Defined.

(** *** Refusals: [_fail(path, reason)] *)

Definition refusal : Type := string * string.

(** Rules checked in order; the first whose condition holds refuses. *)
Fixpoint first_failure (rules : list (bool * refusal)) : option refusal :=
  match rules with
  | [] => None
  | (true, r) :: _ => Some r
  | (false, _) :: rules => first_failure rules
  end.

(** One check, then the next when it passes. *)
Definition orelse (a b : option refusal) : option refusal :=
  match a with Some r => Some r | None => b end.

(** *** [x-lifecycle] *)

Definition initial (k : kind) : st :=
  match k with Transaction => Planned | Legacy => Applying end.

Definition pre_mutation (s : st) : bool :=
  match s with Planned | Staged | Verified | RecoverySaved => true | _ => false end.

Definition progress_state (s : st) : bool :=
  match s with Applying | Checking | Recovering => true | _ => false end.

Definition max_recovery_attempts : Z := 3.

Definition causes (s : st) : list cause :=
  match s with
  | Interrupted => [CInterrupted; Abandoned]
  | RecoveryRequired => [CInterrupted; ApplyFailed; CheckFailed; RecoveryFailed]
  | _ => []
  end.

Definition transitions (k : kind) (s : st) : list st :=
  match k, s with
  | Transaction, Planned => [Staged; Interrupted]
  | Transaction, Staged => [Verified; Interrupted]
  | Transaction, Verified => [RecoverySaved; Applying; Interrupted]
  | Transaction, RecoverySaved => [Applying; Interrupted]
  | Transaction, Applying => [Checking; Recovering; RecoveryRequired; Interrupted]
  | Transaction, Checking => [Committed; Recovering; RecoveryRequired; Interrupted]
  | Transaction, Committed => []
  | Transaction, Recovering => [Recovered; RecoveryRequired; Interrupted]
  | Transaction, Recovered => []
  | Transaction, RecoveryRequired => [Recovering]
  | Transaction, Interrupted => [Recovering; RecoveryRequired]
  | Legacy, Applying => [Checking; Committed; Recovering; RecoveryRequired; Interrupted]
  | Legacy, Checking => [Committed; Recovering; RecoveryRequired; Interrupted]
  | Legacy, Recovering => [Recovered; RecoveryRequired; Interrupted]
  | Legacy, _ => []
  end.

Definition is_transition (k : kind) (source target : st) : bool :=
  bool_decide (target ∈ transitions k source).

(** *** Error codes *)

(** What an error is judged as: a refusal, or the state of its record. *)
Inductive error_as := AsRefused | AsState (s : st).

Definition error_code_problem (a : error_as) (c : code) : option string :=
  match a with
  | AsState Recovered =>
      if bool_decide (c = RECOVERED) then None else Some "a recovered result uses code RECOVERED"
  | AsState RecoveryRequired =>
      if bool_decide (c = MANUAL) || bool_decide (c = INTERRUPTED) then None
      else Some "recovery_required uses code MANUAL, or INTERRUPTED when a signal caused it"
  | AsState Interrupted =>
      if bool_decide (c = INTERRUPTED) then None else Some "an interruption uses code INTERRUPTED"
  | _ =>
      if bool_decide (c = RECOVERED) || bool_decide (c = INTERRUPTED)
      then Some "a refusal uses the code of the check that refused, not RECOVERED or INTERRUPTED"
      else None
  end.

Definition error_as_name (a : error_as) : string :=
  match a with AsRefused => "refused" | AsState s => state_name s end.

(** *** [_checkpoint_rules] *)

Definition is_some {A} (o : option A) : bool := match o with Some _ => true | None => false end.

Definition ckpt_pre_mutation (c : checkpoint) : bool :=
  match ckpt c with Some s => pre_mutation s | None => false end.

Definition checkpoint_rules (c : checkpoint) (path : string) : option refusal :=
  let s := state c in
  let o := outcome_of c in
  let allowed := causes s in
  let has_causes := negb (bool_decide (allowed = [])) in
  let interrupted := bool_decide (s = Interrupted) in
  let closes (s' : st) (o' : outcome) :=
    negb (eqb (bool_decide (s = s')) (bool_decide (o = Some o'))) in
  let a := if bool_decide (o = Some ORefused) then AsRefused else AsState s in
  let needs_error := match a with
                     | AsRefused | AsState Recovered | AsState RecoveryRequired => true
                     | _ => false
                     end in
  let as_interrupted := match a with AsState Interrupted => true | _ => false end in
  let problem := error c ≫= fun e => error_code_problem a (code_of e) in
  first_failure [
    (is_some (step c) && negb (progress_state s),
      (path +:+ "/step", "a step only marks progress within applying, checking, recovering"));
    (has_causes && negb (is_some (cause_of c)),
      (path +:+ "/cause", state_name s +:+ " records need a cause"));
    (has_causes && negb (match cause_of c with Some x => bool_decide (x ∈ allowed) | None => false end),
      (path +:+ "/cause", state_name s +:+ " takes cause " +:+ String.concat ", " (cause_name <$> allowed)));
    (negb has_causes && is_some (cause_of c),
      (path +:+ "/cause", "only interrupted and recovery_required records carry a cause"));
    (negb (eqb interrupted (is_some (ckpt c))),
      (path +:+ "/checkpoint", if interrupted then "an interrupted record names its last durable checkpoint"
                               else "only an interrupted record names a checkpoint"));
    (closes Committed OCommitted,
      (path +:+ "/outcome", "a committed record closes with outcome committed, and only it does"));
    (closes Recovered ORecovered,
      (path +:+ "/outcome", "a recovered record closes with outcome recovered, and only it does"));
    (bool_decide (o = Some ORefused) && negb (pre_mutation s),
      (path +:+ "/outcome", "refused only closes an operation before mutation"));
    (bool_decide (o = Some OInterrupted) && negb (interrupted && ckpt_pre_mutation c),
      (path +:+ "/outcome", "interrupted only closes an operation interrupted before mutation"));
    (interrupted && ckpt_pre_mutation c && negb (bool_decide (o = Some OInterrupted)),
      (path +:+ "/outcome",
       "an interruption before mutation changed nothing, so it closes the operation with outcome interrupted"));
    (interrupted && negb (ckpt_pre_mutation c) && negb (bool_decide (cause_of c = Some Abandoned)),
      (path +:+ "/cause",
       "after mutation a trap records recovery_required with cause interrupted; an interrupted record after mutation is only abandoned (no trap ran)"));
    (bool_decide (o = Some OManual) && negb (bool_decide (s = RecoveryRequired)),
      (path +:+ "/outcome", "manual only closes a recovery_required operation"));
    (needs_error && negb (is_some (error c)),
      (path +:+ "/error", "a " +:+ error_as_name a +:+ " record carries an error"));
    (is_some (error c) && negb needs_error && negb as_interrupted,
      (path +:+ "/error", "only refused, recovered, recovery_required and interrupted records carry an error"));
    (is_some problem, (path +:+ "/error/code", default EmptyString problem));
    (bool_decide (s = RecoveryRequired) &&
       negb (eqb (bool_decide (cause_of c = Some CInterrupted))
                 (match error c with Some e => bool_decide (code_of e = INTERRUPTED) | None => false end)),
      (path +:+ "/error/code", "recovery_required uses INTERRUPTED exactly when its cause is interrupted"))
  ]%string.

(** *** [_is_release]: [0.4.7] or [1.2.3-rc.1], at most 64 characters *)

Definition release_pattern : Regex.re :=
  let number := Regex.plus (Regex.Chr Regex.digit) in
  let dot := Regex.lit "." in
  let tail := Regex.Seq (Regex.lit "-")
                (Regex.plus (Regex.Chr (fun c => Regex.alnum c || Regex.one_of ".-" c))) in
  Regex.Seq number (Regex.Seq dot (Regex.Seq number (Regex.Seq dot (Regex.Seq number (Regex.opt tail))))).

Definition is_release (version : string) : bool :=
  Regex.fullmatch release_pattern version && (Z.of_nat (String.length version) <=? 64).

Definition resolved (a : action) : bool :=
  match a with Install | Update | Downgrade => true | _ => false end.

(** *** [_journal_rules] *)

(** The rules one record must satisfy after [prev]; [attempts] counts the
    recoveries entered before it. *)
Definition follow_rules (k : kind) (a : action) (i : Z) (prev c : checkpoint) (attempts : Z)
    : option refusal :=
  let path := ("/checkpoints/" +:+ pretty i)%string in
  let source := state prev in
  let s := state c in
  let repeats := bool_decide (source = s) in
  let enters := bool_decide (s = Recovering) && negb (bool_decide (source = Recovering)) in
  let progress := is_some (step c) && progress_state s in
  let closing := bool_decide (outcome_of c = Some ORefused) || bool_decide (outcome_of c = Some OManual) in
  first_failure [
    (is_some (outcome_of prev),
      (path, "the operation was closed by an outcome at record " +:+ pretty (i - 1)%Z +:+ "; nothing may follow"));
    ((sequence c <=? sequence prev)%Z, (path +:+ "/sequence", "sequences must increase"));
    (bool_decide (s = Interrupted) && negb (bool_decide (ckpt c = Some source)),
      (path +:+ "/checkpoint",
       "the last durable checkpoint is " +:+ state_name source +:+ ", not "
         +:+ match ckpt c with Some x => state_name x | None => EmptyString end));
    (bool_decide (outcome_of c = Some OManual) && negb (bool_decide (source = RecoveryRequired)),
      (path +:+ "/outcome", "manual closes an operation on a record that repeats its recovery_required record"));
    (enters && (max_recovery_attempts <? attempts + 1)%Z,
      (path +:+ "/state",
       "recovery attempts exhausted (at most " +:+ pretty max_recovery_attempts
         +:+ " per operation); close it with outcome manual once resolved by hand"));
    (repeats && progress && is_some (step prev),
      (path +:+ "/state",
       "a later " +:+ state_name s
         +:+ " step replaces the earlier stepped record in place; it is not appended"));
    (repeats && negb progress && negb closing,
      (path +:+ "/state", state_name source +:+ " -> " +:+ state_name s +:+ " repeats a state without a step"));
    (negb repeats && negb (is_transition k source s),
      (path +:+ "/state",
       state_name source +:+ " -> " +:+ state_name s +:+ " is not a " +:+ kind_name k +:+ " transition"));
    (negb repeats && bool_decide (source = Verified) && bool_decide (s = Applying)
       && negb (bool_decide (a = Install)),
      (path +:+ "/state", "verified -> applying skips the recovery point, which only an install may do"))
  ]%string.

Definition enters_recovery (prev c : checkpoint) : bool :=
  bool_decide (state c = Recovering) && negb (bool_decide (state prev = Recovering)).

(** The loop over the records after the first. *)
Fixpoint records_rules (k : kind) (a : action) (i : Z) (prev : checkpoint) (attempts : Z)
    (cs : list checkpoint) : option refusal :=
  match cs with
  | [] => None
  | c :: cs =>
      orelse (checkpoint_rules c ("/checkpoints/" +:+ pretty i))
        (orelse (follow_rules k a i prev c attempts)
          (records_rules k a (i + 1) c (if enters_recovery prev c then attempts + 1 else attempts) cs))
  end.

(** The rules on the journal's own members, before its records. *)
Definition head_rules (j : journal) (c0 : checkpoint) : option refusal :=
  let k := kind_of j in
  let unresolved :=
    match k, target j with
    | Transaction, Some t => resolved (action_of j) && negb (is_release (version t))
    | _, _ => false
    end in
  first_failure [
    (negb (bool_decide (state c0 = initial k)),
      ("/checkpoints/0/state",
       "a " +:+ match k with Legacy => "legacy record" | Transaction => "transaction" end
         +:+ " starts at " +:+ state_name (initial k)));
    (bool_decide (k = Transaction) && negb (is_some (plan_digest j)),
      ("/plan_digest", "a transaction binds its plan_digest"));
    (bool_decide (k = Legacy) && is_some (plan_digest j),
      ("/plan_digest", "a legacy record has no plan_digest"));
    ((generation j <? Z.of_nat (List.length (checkpoints j)))%Z,
      ("/generation", "generation counts durable writes and cannot be below the number of checkpoints"));
    (unresolved,
      ("/target/version",
       "a " +:+ action_name (action_of j) +:+ " transaction targets a resolved release, named like 0.4.7"))
  ]%string.

Definition is_recovery_saved (c : checkpoint) : bool := bool_decide (state c = RecoverySaved).

Definition recovery_rule (j : journal) : option refusal :=
  if existsb is_recovery_saved (checkpoints j) && negb (is_some (recovery j))
  then Some ("/recovery", "a journal past recovery_saved references its recovery point")
  else None.

Definition journal_rules (j : journal) : option refusal :=
  match checkpoints j with
  | [] => Some ("/checkpoints", "must have at least 1 item(s)")
  | c0 :: cs =>
      orelse (head_rules j c0)
        (orelse (checkpoint_rules c0 "/checkpoints/0")
          (orelse (records_rules (kind_of j) (action_of j) 1 c0 0 cs) (recovery_rule j)))
  end.

(** *** [last], [finished], [in_progress] *)

Definition last_record (j : journal) : option checkpoint := list.last (checkpoints j).

Definition finished (j : journal) : bool :=
  match last_record j with Some c => is_some (outcome_of c) | None => false end.

Definition in_progress (j : journal) : bool :=
  negb (finished j) &&
  match last_record j with
  | Some c => negb (bool_decide (state c = RecoveryRequired)) && negb (bool_decide (state c = Interrupted))
  | None => false
  end.

(** *** The rules as a specification *)

(** What one record looks like, state by state. *)
Definition record_shape (c : checkpoint) : Prop :=
  match state c with
  | Planned | Staged | Verified | RecoverySaved =>
      step c = None /\ cause_of c = None /\ ckpt c = None /\
      (outcome_of c = None /\ error c = None \/
       outcome_of c = Some ORefused /\
       exists e, error c = Some e /\ code_of e <> RECOVERED /\ code_of e <> INTERRUPTED)
  | Applying | Checking | Recovering =>
      cause_of c = None /\ ckpt c = None /\ outcome_of c = None /\ error c = None
  | Committed =>
      step c = None /\ cause_of c = None /\ ckpt c = None /\
      outcome_of c = Some OCommitted /\ error c = None
  | Recovered =>
      step c = None /\ cause_of c = None /\ ckpt c = None /\
      outcome_of c = Some ORecovered /\ exists e, error c = Some e /\ code_of e = RECOVERED
  | RecoveryRequired =>
      step c = None /\ ckpt c = None /\ (outcome_of c = None \/ outcome_of c = Some OManual) /\
      exists x e, cause_of c = Some x /\ x <> Abandoned /\ error c = Some e /\
        code_of e = match x with CInterrupted => INTERRUPTED | _ => MANUAL end
  | Interrupted =>
      step c = None /\
      (exists s, ckpt c = Some s /\
        if pre_mutation s
        then outcome_of c = Some OInterrupted /\
             (cause_of c = Some CInterrupted \/ cause_of c = Some Abandoned)
        else outcome_of c = None /\ cause_of c = Some Abandoned) /\
      (forall e, error c = Some e -> code_of e = INTERRUPTED)
  end.

(** How a record may follow another one. *)
Definition follows (k : kind) (a : action) (prev c : checkpoint) : Prop :=
  outcome_of prev = None /\ sequence prev < sequence c /\
  (state c = Interrupted -> ckpt c = Some (state prev)) /\
  (outcome_of c = Some OManual -> state prev = RecoveryRequired) /\
  (state prev = state c /\
     (step c <> None /\ step prev = None \/ outcome_of c = Some ORefused \/ outcome_of c = Some OManual) \/
   state prev <> state c /\ state c ∈ transitions k (state prev) /\
     (state prev = Verified -> state c = Applying -> a = Install)).

(** A legal continuation of a journal whose last record is the first argument
    and that has entered recovery the given number of times. *)
Inductive history (k : kind) (a : action) : checkpoint -> Z -> list checkpoint -> Prop :=
| history_end prev n : history k a prev n []
| history_next prev n c cs :
    record_shape c -> follows k a prev c ->
    (enters_recovery prev c = true -> n + 1 <= max_recovery_attempts) ->
    history k a c (if enters_recovery prev c then n + 1 else n) cs ->
    history k a prev n (c :: cs).

Definition journal_ok (j : journal) : Prop :=
  exists c0 cs,
    checkpoints j = c0 :: cs /\ state c0 = initial (kind_of j) /\
    (kind_of j = Transaction <-> plan_digest j <> None) /\
    Z.of_nat (length (checkpoints j)) <= generation j /\
    (forall t, kind_of j = Transaction -> resolved (action_of j) = true -> target j = Some t ->
       is_release (version t) = true) /\
    record_shape c0 /\ history (kind_of j) (action_of j) c0 0 cs /\
    ((exists c, c ∈ checkpoints j /\ state c = RecoverySaved) -> recovery j <> None).

Lemma first_failure_none rules :
  first_failure rules = None <-> Forall (fun r => r.1 = false) rules.
Proof.
  induction rules as [| [[] r] rules IH]; simpl.
  - split; [constructor | done].
  - split; [done |]. intros H. by inversion H.
  - rewrite IH. split; [by constructor | intros H; by inversion H].
Qed.

#[local] Ltac case_shape :=
  match goal with
  | H : _ /\ _ |- _ => destruct H
  | H : _ \/ _ |- _ => destruct H
  | H : exists _, _ |- _ => destruct H
  | H : if pre_mutation ?s then _ else _ |- _ => destruct (pre_mutation s) eqn:?
  | x : cause |- _ => destruct x; try done
  | H : code_of ?e <> _ |- _ => destruct e as [[] ?]; simpl in *; try done; clear H
  | H : code_of ?e = _ |- _ => destruct e as [[] ?]; simpl in *; try done; clear H
  | H : _ = Some _ |- _ => subst
  | H : forall e, ?o = Some e -> _ |- _ => destruct o; [specialize (H _ eq_refl) | clear H]
  end.

Lemma checkpoint_rules_exact c path : checkpoint_rules c path = None <-> record_shape c.
Proof.
  unfold checkpoint_rules. rewrite first_failure_none, !Forall_cons, Forall_nil.
  destruct c as [n s at_ p x k o e]; unfold record_shape, ckpt_pre_mutation; simpl.
  split.
  - destruct s, o as [[] |]; intros H; cbn in H; destruct_and? H; try done;
      destruct p; try done; destruct x as [[] |]; try done; destruct k as [q |]; try done;
      try (destruct (pre_mutation q) eqn:Eq; try done);
      destruct e as [[[] r] |]; try done; try naive_solver;
      (split; [done | split; [exists q; rewrite Eq; naive_solver | naive_solver]]).
  - destruct s; intros H; repeat case_shape; subst; try destruct p; simpl;
      rewrite ?Heqb; split_and?; vm_compute; done.
Qed.

Lemma is_some_false {A} (o : option A) : is_some o = false <-> o = None.
Proof. by destruct o. Qed.

Lemma step_progress c : record_shape c -> step c <> None -> progress_state (state c) = true.
Proof. unfold record_shape. destruct (state c); naive_solver. Qed.

Lemma guard_false (P : Prop) `{Decision P} b : bool_decide P && b = false <-> (P -> b = false).
Proof. case_bool_decide; simpl; tauto. Qed.

Lemma negb_decide_false (P : Prop) `{Decision P} : negb (bool_decide P) = false <-> P.
Proof. by rewrite negb_false_iff, bool_decide_eq_true. Qed.

Lemma closing_no_step c :
  record_shape c -> outcome_of c = Some ORefused \/ outcome_of c = Some OManual -> step c = None.
Proof. unfold record_shape. destruct (state c); naive_solver. Qed.

Lemma repeat_exact c prev :
  record_shape c ->
  (is_some (step c) && progress_state (state c) && is_some (step prev) = false /\
   negb (is_some (step c) && progress_state (state c)) &&
     negb (bool_decide (outcome_of c = Some ORefused) || bool_decide (outcome_of c = Some OManual)) = false) <->
  (step c <> None /\ step prev = None \/ outcome_of c = Some ORefused \/ outcome_of c = Some OManual).
Proof.
  intros Hc. pose proof (step_progress c Hc) as Hp. pose proof (closing_no_step c Hc) as Hs.
  destruct (step c) as [x |]; simpl.
  - rewrite Hp by done; simpl. rewrite is_some_false. naive_solver.
  - rewrite negb_false_iff, orb_true_iff, !bool_decide_eq_true. naive_solver.
Qed.

Lemma follow_rules_exact k a i prev c n :
  record_shape c ->
  follow_rules k a i prev c n = None <->
  follows k a prev c /\ (enters_recovery prev c = true -> n + 1 <= max_recovery_attempts).
Proof.
  intros Hc. pose proof (repeat_exact c prev Hc) as Hrep.
  unfold follow_rules, follows, is_transition.
  rewrite first_failure_none, !Forall_cons, Forall_nil; simpl.
  fold (enters_recovery prev c). generalize max_recovery_attempts; intros R.
  assert (enters_recovery prev c && (R <? n + 1) = false <->
          (enters_recovery prev c = true -> n + 1 <= R)) as Hent
    by (destruct (enters_recovery prev c); simpl; rewrite ?Z.ltb_ge; naive_solver).
  rewrite Hent, is_some_false, Z.leb_gt, !guard_false, !negb_decide_false by done.
  destruct (decide (state prev = state c)) as [E | E].
  - rewrite !(bool_decide_eq_true_2 (state prev = state c)) by done; simpl. naive_solver.
  - rewrite !(bool_decide_eq_false_2 (state prev = state c)) by done; simpl.
    rewrite <- andb_assoc, !guard_false, !negb_decide_false. naive_solver.
Qed.

Lemma orelse_none a b : orelse a b = None <-> a = None /\ b = None.
Proof. destruct a; simpl; naive_solver. Qed.

Lemma records_rules_exact k a i prev n cs :
  records_rules k a i prev n cs = None <-> history k a prev n cs.
Proof.
  revert i prev n; induction cs as [| c cs IH]; intros i prev n; simpl; [by split; [constructor |] |].
  rewrite !orelse_none, checkpoint_rules_exact, IH. split.
  - intros (Hc & Hf & Hh). apply follow_rules_exact in Hf as [Hf Hn]; [by constructor | done].
  - intros H. inversion H; subst. by rewrite follow_rules_exact.
Qed.

Lemma head_rules_exact j c0 :
  head_rules j c0 = None <->
  state c0 = initial (kind_of j) /\ (kind_of j = Transaction <-> plan_digest j <> None) /\
  Z.of_nat (length (checkpoints j)) <= generation j /\
  (forall t, kind_of j = Transaction -> resolved (action_of j) = true -> target j = Some t ->
     is_release (version t) = true).
Proof.
  unfold head_rules. rewrite first_failure_none, !Forall_cons, Forall_nil; simpl.
  rewrite negb_decide_false, Z.ltb_ge, !guard_false, negb_false_iff, is_some_false.
  destruct (kind_of j), (plan_digest j), (target j), (resolved (action_of j)); simpl;
    rewrite ?negb_false_iff; naive_solver.
Qed.

Lemma recovery_rule_exact j :
  recovery_rule j = None <->
  ((exists c, c ∈ checkpoints j /\ state c = RecoverySaved) -> recovery j <> None).
Proof.
  unfold recovery_rule.
  assert (existsb is_recovery_saved (checkpoints j) = true <->
          exists c, c ∈ checkpoints j /\ state c = RecoverySaved) as H.
  { rewrite existsb_exists. setoid_rewrite bool_decide_eq_true. by setoid_rewrite list_elem_of_In. }
  destruct (existsb _ _), (recovery j); simpl; naive_solver.
Qed.

Lemma journal_rules_spec j : journal_rules j = None <-> journal_ok j.
Proof.
  unfold journal_rules, journal_ok.
  destruct (checkpoints j) as [| c0 cs] eqn:Ej; [split; [done | naive_solver] |].
  rewrite !orelse_none, head_rules_exact, checkpoint_rules_exact, records_rules_exact, recovery_rule_exact, Ej.
  naive_solver.
Qed.

(** C4: the journal rules accept exactly the legal operation histories: the
    records start at the kind's initial state, every record has the shape its
    state demands, each one follows its predecessor by the transition table (or
    repeats it by a first step or a closing outcome), sequences increase,
    nothing follows an outcome, recovery is entered at most three times, only an
    install applies without a saved recovery point, and a journal past
    recovery_saved references its point. *)
Theorem journal_rules_exact j : journal_rules j = None <-> journal_ok j.
Proof. apply journal_rules_spec. Qed.

End Contract.
