(* ===== verification/LifecycleSchema.v ===== *)
(** The journal schema of the lifecycle contract on typed documents
    ([deploy/scripts/lifecycle-state.py]: [_real_date], [_timestamp_format],
    [FORMATS], the [operation-journal] schema that [_check] walks, [_size_check],
    [_assert_valid] and [validate_document] for a journal).  A closed string set
    is an inductive type, so only the checks that can still fail remain; each
    gives the path and the reason [_check] reports. *)
From S2P Require Import Prelude Sha256 Json Regex Canonical LifecycleContract.
Open Scope Z_scope.

Module Schema.
Import Regex Contract.

(** *** Dates and formats *)

Definition real_date (year month day : Z) : bool :=
  if (year <? 1) || negb ((1 <=? month) && (month <=? 12)) || (day <? 1) then false
  else
    let leap := (year mod 4 =? 0) && (negb (year mod 100 =? 0) || (year mod 400 =? 0)) in
    let days := [31; if leap then 29 else 28; 31; 30; 31; 30; 31; 31; 30; 31; 30; 31] in
    match days !! Z.to_nat (month - 1) with Some d => day <=? d | None => false end.

(** [int(s[a:b])] of a digit string. *)
Fixpoint digits (acc : Z) (s : string) : Z :=
  match s with EmptyString => acc | String c s => digits (10 * acc + (Prelude.code c - 48)) s end.

Definition int_at (s : string) (a b : nat) : Z := digits 0 (substring a (b - a) s).

Definition timestamp_format (s : string) : bool :=
  real_date (int_at s 0 4) (int_at s 5 7) (int_at s 8 10) &&
  (int_at s 11 13 <=? 23) && (int_at s 14 16 <=? 59) && (int_at s 17 19 <=? 59).

Definition operation_id_format (s : string) : bool :=
  real_date (int_at s 3 7) (int_at s 7 9) (int_at s 9 11).

(** *** Patterns *)

Definition seqs (l : list re) : re := foldr Seq Eps l.
Definition alts (l : list re) : re := foldr Alt Empty l.
Definition ds (n : nat) : re := exactly n (Chr digit).

Definition timestamp_pattern : re :=
  seqs [ds 4; lit "-"; ds 2; lit "-"; ds 2; lit "T"; ds 2; lit ":"; ds 2; lit ":"; ds 2;
        opt (Seq (lit ".") (between 1 6 (Chr digit))); lit "Z"].

Definition operation_id_pattern : re := seqs [word "op-"; ds 8; lit "-"; between 3 9 (Chr digit)].

Definition hex (c : ascii) : bool := digit c || range 97 102 c.
Definition digest_pattern : re := Seq (word "sha256:") (exactly 64 (Chr hex)).

Definition step_pattern : re :=
  Seq (Chr lower) (up_to 63 (Chr (fun c => lower c || digit c || Ascii.eqb c "_"))).

Definition control (c : ascii) : bool := range 0 31 c || range 127 159 c.
Definition control_but_tab_newline (c : ascii) : bool := range 0 8 c || range 11 31 c || range 127 159 c.

(** The four shapes of a credential. *)
Definition letter (c : ascii) : bool := lower c || upper c.
Definition url_part : re := Star (Chr (fun c => negb (one_of "/?#@ " c) && negb (range 0 31 c))).
Definition credential_shapes : list re :=
  [ seqs [Chr letter; Star (Chr (fun c => alnum c || one_of "+.-" c)); word "://"; url_part; lit ":"; url_part; lit "@"];
    seqs [word "-----BEGIN "; Star (Chr (fun c => upper c || digit c || Ascii.eqb c " ")); word "PRIVATE KEY-----"];
    seqs [alts [word "Bearer"; word "bearer"; word "BEARER"]; lit " ";
          exactly 8 (Chr (fun c => alnum c || one_of "._~+/=-" c))];
    seqs [alts [seqs [Chr (one_of "Pp"); word "ass"; alts [word "word"; word "wd"]];
                Seq (word "PASS") (alts [word "WORD"; word "WD"]);
                Seq (Chr (one_of "Ss")) (word "ecret"); word "SECRET";
                Seq (Chr (one_of "Tt")) (word "oken"); word "TOKEN";
                seqs [Chr (one_of "Aa"); word "pi"; opt (lit "_"); Chr (one_of "Kk"); word "ey"];
                seqs [word "API"; opt (lit "_"); word "KEY"];
                seqs [Chr (one_of "Vv"); word "ault_"; Chr (one_of "Kk"); word "ey"]; word "VAULT_KEY"];
          opt (lit " "); Chr (one_of "=:"); opt (lit " ");
          Chr (fun c => negb (Ascii.eqb c " ") && negb (range 0 31 c))] ].

Definition credential_shaped (s : string) : bool := existsb (fun r => search r s) credential_shapes.

(** *** Members *)

Definition refuse_if (b : bool) (path reason : string) : option refusal :=
  if b then Some (path, reason) else None.

Definition no_match (pattern : string) : string := "does not match the pattern " +:+ pattern.

Definition check_digest (path s : string) : option refusal :=
  refuse_if (negb (fullmatch digest_pattern s)) path (no_match "^sha256:[0-9a-f]{64}$").

Definition check_timestamp (path s : string) : option refusal :=
  orelse
    (refuse_if (negb (fullmatch timestamp_pattern s)) path
       (no_match "^[0-9]{4}-[0-9]{2}-[0-9]{2}T[0-9]{2}:[0-9]{2}:[0-9]{2}(?:\.[0-9]{1,6})?Z$"))
    (refuse_if (negb (timestamp_format s)) path "is not a real calendar date and time").

Definition check_operation_id (path s : string) : option refusal :=
  orelse (refuse_if (negb (fullmatch operation_id_pattern s)) path (no_match "^op-[0-9]{8}-[0-9]{3,9}$"))
         (refuse_if (negb (operation_id_format s)) path "is not a real calendar date and time").

Definition check_installed_version (path s : string) : option refusal :=
  orelse (refuse_if (bool_decide (s = EmptyString)) path "must be at least 1 characters")
    (orelse (refuse_if (64 <? Z.of_nat (String.length s)) path "must be at most 64 characters")
       (refuse_if (negb (str_forallb (fun c => negb (control c)) s)) path "contains a control character")).

Definition check_brief_text (path s : string) : option refusal :=
  orelse (refuse_if (256 <? Z.of_nat (String.length s)) path "must be at most 256 characters")
    (orelse (refuse_if (negb (str_forallb (fun c => negb (control_but_tab_newline c)) s)) path
               "contains a control character other than tab or newline")
       (refuse_if (credential_shaped s) path
          "looks like a credential (a URL password, private key, bearer token or secret assignment); redact it")).

Definition check_option {A} (f : A -> option refusal) (o : option A) : option refusal :=
  match o with Some x => f x | None => None end.

Definition check_min (least : Z) (path : string) (z : Z) : option refusal :=
  refuse_if (z <? least) path ("must be at least " +:+ pretty least).

Definition check_one_of (options : list string) (path s : string) : option refusal :=
  refuse_if (negb (bool_decide (s ∈ options))) path
    ("must be one of " +:+ Json.join ", " (map Canonical.js options)).

Fixpoint check_all (l : list (option refusal)) : option refusal :=
  match l with [] => None | r :: l => orelse r (check_all l) end.

Definition check_release (path : string) (r : release) : option refusal :=
  check_all [check_installed_version (path +:+ "/version") (version r);
             check_option (check_digest (path +:+ "/artifact_digest")) (artifact_digest r)].

Definition check_recovery_ref (path : string) (r : recovery_ref) : option refusal :=
  check_all [check_operation_id (path +:+ "/operation_id") (ref_operation r);
             check_digest (path +:+ "/manifest_digest") (manifest_digest r)].

Definition evidence_checks : list string :=
  ["signature"; "provenance"; "digest"; "archive"; "compatibility"; "recovery_point"; "health"; "version";
   "schema"; "identity"].

Definition check_evidence (path : string) (e : evidence) : option refusal :=
  check_all [check_one_of evidence_checks (path +:+ "/check") (Contract.check e);
             check_one_of ["passed"; "failed"; "skipped"] (path +:+ "/result") (check_result e);
             check_option (check_brief_text (path +:+ "/detail")) (detail e)].

Definition check_record (path : string) (c : checkpoint) : option refusal :=
  check_all [check_min 1 (path +:+ "/sequence") (sequence c);
             check_timestamp (path +:+ "/at") (at_ c);
             check_option (fun s => refuse_if (negb (fullmatch step_pattern s)) (path +:+ "/step")
                                      (no_match "^[a-z][a-z0-9_]{0,63}$")) (step c);
             check_option (fun e => check_brief_text (path +:+ "/error/reason") (reason_of e)) (error c)].

Definition check_items {A} (f : string -> A -> option refusal) (path : string) (l : list A) : option refusal :=
  check_all (Canonical.enumerate (fun i x => f (path +:+ "/" +:+ pretty i) x) 0 l).

Definition check_journal (j : journal) : option refusal :=
  check_all [
    check_operation_id "/operation_id" (operation_id j);
    check_min 1 "/generation" (generation j);
    check_option (check_digest "/plan_digest") (plan_digest j);
    check_option (check_digest "/identity_digest") (identity_digest j);
    check_option (check_release "/source") (source j);
    check_option (check_release "/target") (target j);
    check_option (check_recovery_ref "/recovery") (recovery j);
    refuse_if (16 <? Z.of_nat (length (evidences j))) "/evidence" "must have at most 16 items";
    check_items check_evidence "/evidence" (evidences j);
    check_timestamp "/started_at" (started_at j);
    check_timestamp "/updated_at" (updated_at j);
    refuse_if (bool_decide (checkpoints j = [])) "/checkpoints" "must have at least 1 item(s)";
    refuse_if (32 <? Z.of_nat (length (checkpoints j))) "/checkpoints" "must have at most 32 items";
    check_items check_record "/checkpoints" (checkpoints j)
  ].

(** *** The document and its size *)

Import Json.

Definition opt_json {A} (f : A -> json) (o : option A) : json := match o with Some x => f x | None => JNull end.
Definition member {A} (k : string) (f : A -> json) (o : option A) : list (string * json) :=
  match o with Some x => [(k, f x)] | None => [] end.

Definition adapter_name (a : adapter) : string :=
  match a with Native => "native" | Mono => "mono" | Package => "package" | Proxmox => "proxmox" end.

Definition code_name (c : Contract.code) : string :=
  match c with
  | USAGE => "USAGE" | UNSUPPORTED => "UNSUPPORTED" | NETWORK => "NETWORK" | TRUST => "TRUST"
  | PERMISSION => "PERMISSION" | PREFLIGHT => "PREFLIGHT" | RECOVERED => "RECOVERED" | MANUAL => "MANUAL"
  | LOCKED => "LOCKED" | INTERRUPTED => "INTERRUPTED"
  end.

Definition record_json (c : checkpoint) : json :=
  JObj ([("sequence", JInt (sequence c)); ("state", JStr (state_name (state c))); ("at", JStr (at_ c))]
        ++ member "step" JStr (step c)
        ++ member "cause" (fun x => JStr (cause_name x)) (cause_of c)
        ++ member "checkpoint" (fun s => JStr (state_name s)) (ckpt c)
        ++ member "outcome" (fun o => JStr (outcome_name o)) (outcome_of c)
        ++ member "error" (fun e => JObj [("code", JStr (code_name (code_of e))); ("reason", JStr (reason_of e))])
             (error c)).

Definition release_json (r : release) : json :=
  JObj [("version", JStr (version r)); ("artifact_digest", opt_json JStr (artifact_digest r))].

Definition journal_json (j : journal) : json :=
  JObj [("schema_version", JInt 1); ("operation_id", JStr (operation_id j));
        ("kind", JStr (kind_name (kind_of j))); ("action", JStr (action_name (action_of j)));
        ("adapter", JStr (adapter_name (adapter_of j))); ("generation", JInt (generation j));
        ("plan_digest", opt_json JStr (plan_digest j)); ("identity_digest", opt_json JStr (identity_digest j));
        ("source", opt_json release_json (source j)); ("target", opt_json release_json (target j));
        ("recovery", opt_json (fun r => JObj [("operation_id", JStr (ref_operation r));
                                              ("manifest_digest", JStr (manifest_digest r))]) (recovery j));
        ("evidence", JList (map (fun e => JObj [("check", JStr (Contract.check e)); ("result", JStr (check_result e));
                                                ("detail", opt_json JStr (detail e))]) (evidences j)));
        ("started_at", JStr (started_at j)); ("updated_at", JStr (updated_at j));
        ("checkpoints", JList (map record_json (checkpoints j)))].

Definition journal_max_bytes : Z := 65536.

Definition size_check (size : Z) : option refusal :=
  refuse_if (journal_max_bytes <? size) EmptyString
    (pretty size +:+ " bytes; a journal is at most " +:+ pretty journal_max_bytes +:+ " bytes").

(** [validate_document("journal", j)]: [None] when it is valid, else the first
    refusal. *)
Definition validate_document (j : journal) : option refusal :=
  match Canonical.canonicalize (journal_json j) with
  | Err e => Some e
  | Ok t =>
      orelse (size_check (Z.of_nat (String.length (Canonical.utf8 t))))
        (orelse (check_journal j) (journal_rules j))
  end.

Definition valid_operation_id (s : string) : bool :=
  fullmatch operation_id_pattern s && operation_id_format s.

Lemma validate_rules j : validate_document j = None -> journal_rules j = None.
Proof. unfold validate_document. case_match; [| done]. rewrite !orelse_none. tauto. Qed.

Lemma validate_check j : validate_document j = None -> check_journal j = None.
Proof. unfold validate_document. case_match; [| done]. rewrite !orelse_none. tauto. Qed.

#[export] Hint Resolve validate_rules validate_check : cb.

End Schema.
