(* ===== verification/Breaker.v ===== *)
(** The circuit breaker of outbound integration calls
    ([apps/backend/src/app/core/circuit_breaker.py]). *)
From S2P Require Import Prelude.
Open Scope Z_scope.

Module CircuitBreaker.

(** The value of [self._state]. *)
Inductive bstate := Closed | Open_ | HalfOpen.

#[export] Instance bstate_eq_dec : EqDecision bstate.
Proof. solve_decision. Defined.

(** A [CircuitBreaker] object.  [time.monotonic] readings and the durations
    are integers of one unit (the clock's nanosecond). *)
Record breaker := Breaker {
  failure_threshold : Z;
  failure_window : Z;
  open_duration : Z;
  failures : Z;
  first_failure_time : Z;
  state : bstate;
  open_until : Z
}.

(** [__init__]. *)
Definition new_breaker (threshold window duration : Z) : breaker :=
  Breaker threshold window duration 0 0 Closed 0.

Definition with_state (b : breaker) (s : bstate) : breaker :=
  Breaker (failure_threshold b) (failure_window b) (open_duration b)
    (failures b) (first_failure_time b) s (open_until b).

(** [is_open]: the answer and the object after the call. *)
Definition is_open (now : Z) (b : breaker) : bool * breaker :=
  match state b with
  | Closed => (false, b)
  | Open_ => if open_until b <=? now then (false, with_state b HalfOpen) else (true, b)
  | HalfOpen => (false, b)
  end.

Definition record_success (b : breaker) : breaker :=
  Breaker (failure_threshold b) (failure_window b) (open_duration b)
    0 (first_failure_time b) Closed (open_until b).

Definition record_failure (now : Z) (b : breaker) : breaker :=
  if decide (state b = HalfOpen) then
    Breaker (failure_threshold b) (failure_window b) (open_duration b)
      (failures b) (first_failure_time b) Open_ (now + open_duration b)
  else
    let first := if failures b =? 0 then now else first_failure_time b in
    let n := failures b + 1 in
    if failure_threshold b <=? n then
      if now - first <=? failure_window b then
        Breaker (failure_threshold b) (failure_window b) (open_duration b)
          n first Open_ (now + open_duration b)
      else
        Breaker (failure_threshold b) (failure_window b) (open_duration b)
          1 now (state b) (open_until b)
    else
      Breaker (failure_threshold b) (failure_window b) (open_duration b)
        n first (state b) (open_until b).

(** *** The registry of breakers and the guarded call

    [_breakers] is a [cachetools.TTLCache]: its membership test, assignment and
    lookup are parameters.  Breakers are shared objects, so the cache maps a key
    to an object identifier and [heap] holds the objects. *)
Section Registry.
Context {C : Type}.
Context (cache_in : C -> Z -> string -> bool).
Context (cache_set : C -> Z -> string -> nat -> C).
Context (cache_get : C -> Z -> string -> option nat).

Record world := World { heap : gmap nat breaker; next_id : nat; cache : C }.

(** [get_breaker]; [None] is the [KeyError] of an entry the cache dropped. *)
Definition get_breaker (w : world) (now : Z) (key : string) (threshold window duration : Z)
    : world * option nat :=
  let w' :=
    if cache_in (cache w) now key then w
    else World (<[next_id w := new_breaker threshold window duration]> (heap w))
           (S (next_id w)) (cache_set (cache w) now key (next_id w)) in
  (w', cache_get (cache w') now key).

(** [call_with_circuit_breaker], the call started at [t0]; [coro] is what the
    awaited coroutine did: [Some r] returned [r], [None] raised, at time [t1].
    The result is the returned value, whether the coroutine was awaited at all,
    and the world after the call. *)
Definition call_with_circuit_breaker {T : Type} (w : world) (key : string)
    (threshold window duration t0 t1 : Z) (coro : option T) (fallback : T)
    : option (T * bool * world) :=
  let '(w1, oid) := get_breaker w t0 key threshold window duration in
  i ← oid;
  b ← heap w1 !! i;
  let '(skip, b') := is_open t0 b in
  let put b := World (<[i := b]> (heap w1)) (next_id w1) (cache w1) in
  if skip : bool then Some (fallback, false, put b')
  else match coro with
       | Some r => Some (r, true, put (record_success b'))
       | None => Some (fallback, true, put (record_failure t1 b'))
       end.

End Registry.
Arguments World {C}.
Arguments heap {C}.
Arguments next_id {C}.
Arguments cache {C}.

(** *** Concurrent callers of one breaker

    Each guarded call takes the breaker's lock twice: for [is_open], and after
    the awaited coroutine for [record_success] or [record_failure].  Between
    the two any number of other calls may run. *)
Record machine := Machine { brk : breaker; in_flight : nat; clock : Z }.

Inductive step : machine -> machine -> Prop :=
| step_skip m t b' :
    clock m <= t -> is_open t (brk m) = (true, b') ->
    step m (Machine b' (in_flight m) t)
| step_admit m t b' :
    clock m <= t -> is_open t (brk m) = (false, b') ->
    step m (Machine b' (S (in_flight m)) t)
| step_success m t k :
    clock m <= t -> in_flight m = S k ->
    step m (Machine (record_success (brk m)) k t)
| step_failure m t k :
    clock m <= t -> in_flight m = S k ->
    step m (Machine (record_failure t (brk m)) k t).

Definition start (threshold window duration t : Z) : machine :=
  Machine (new_breaker threshold window duration) 0 t.

Definition reachable (threshold window duration : Z) (m : machine) : Prop :=
  exists t, rtc step (start threshold window duration t) m.

(** What every reachable breaker satisfies. *)
Definition wf (threshold window duration : Z) (m : machine) : Prop :=
  let b := brk m in
  failure_threshold b = threshold /\ failure_window b = window /\ open_duration b = duration /\
  0 <= failures b /\
  (state b = Closed -> failures b < threshold) /\
  (0 < failures b -> first_failure_time b <= clock m) /\
  (state b <> Closed -> 0 < failures b /\ open_until b <= clock m + duration).

(** *** Lemmas *)

Lemma step_wf threshold window duration m m' :
  1 <= threshold -> 0 <= window -> 0 <= duration ->
  wf threshold window duration m -> step m m' -> wf threshold window duration m'.
Proof.
  intros Ht Hw Hd (E1 & E2 & E3 & E4 & E5 & E6 & E7) Hs.
  destruct m as [[th wi du n f st ou] k c]; simpl in *; subst.
  inv Hs; simpl in *.
  - destruct st; unfold is_open in *; simpl in *; try congruence.
    case_match; simplify_eq. repeat split; simpl; intuition lia.
  - destruct st; unfold is_open in *; simpl in *; [| case_match |]; simplify_eq;
      repeat split; simpl; intuition (try congruence; try lia).
  - repeat split; simpl; intuition (try congruence; try lia).
  - unfold record_failure; simpl. case_decide; simpl; subst.
    { repeat split; simpl; intuition (try congruence; try lia). }
    destruct (Z.eqb_spec n 0); subst; simpl;
      repeat (case_match; reflect_bools; simpl);
      destruct st; repeat split; simpl; intuition (try congruence; try lia).
Qed.

Lemma fold_failures_below b t0 ts :
  state b = Closed -> 0 < failures b -> first_failure_time b = t0 ->
  failures b + Z.of_nat (length ts) < failure_threshold b ->
  foldl (fun b t => record_failure t b) b ts =
  Breaker (failure_threshold b) (failure_window b) (open_duration b)
    (failures b + Z.of_nat (length ts)) t0 Closed (open_until b).
Proof.
  revert b; induction ts as [| t ts IH]; intros b Hs Hn Hf Hlt; simpl in *.
  - destruct b; simpl in *; subst. by rewrite Z.add_0_r.
  - assert (record_failure t b =
      Breaker (failure_threshold b) (failure_window b) (open_duration b)
        (failures b + 1) t0 Closed (open_until b)) as ->.
    { unfold record_failure. rewrite Hs. case_decide; [congruence|].
      destruct (Z.eqb_spec (failures b) 0); [lia|].
      destruct (Z.leb_spec (failure_threshold b) (failures b + 1)); [lia|]. by subst. }
    rewrite IH; simpl; try done; try lia. f_equal; lia.
Qed.

Lemma record_first_failure t threshold window duration :
  2 <= threshold ->
  record_failure t (new_breaker threshold window duration) =
  Breaker threshold window duration 1 t Closed 0.
Proof.
  intros. unfold record_failure, new_breaker; simpl.
  by destruct (Z.leb_spec threshold (0 + 1)); [lia |].
Qed.

Lemma is_open_before t b :
  state b = Open_ -> t < open_until b -> is_open t b = (true, b).
Proof.
  intros Hs Ht. unfold is_open. rewrite Hs.
  by destruct (Z.leb_spec (open_until b) t); [lia |].
Qed.

(** Successive [is_open] queries of one breaker. *)
Definition queries (ts : list Z) (b : breaker) : list bool * breaker :=
  foldl (fun '(rs, b) t => let '(r, b') := is_open t b in (rs ++ [r], b')) ([], b) ts.

Lemma queries_app rs ts b :
  foldl (fun '(rs, b) t => let '(r, b') := is_open t b in (rs ++ [r], b')) (rs, b) ts =
  (rs ++ fst (queries ts b), snd (queries ts b)).
Proof.
  unfold queries. revert rs b.
  induction ts as [| t ts IH]; intros rs b; simpl; [by rewrite app_nil_r |].
  destruct (is_open t b) as [r b'] eqn:E.
  rewrite (IH (rs ++ [r])), (IH [r]). simpl. by rewrite <- app_assoc.
Qed.

(** *** Theorems *)

(** C3: In every state reachable by concurrent guarded calls the
    counters are consistent: a closed circuit holds fewer failures than its
    threshold, a failure count is backed by a first-failure time in the past,
    and an open circuit never stays open longer than the open duration. *)
Theorem reachable_wf threshold window duration m :
  1 <= threshold -> 0 <= window -> 0 <= duration ->
  reachable threshold window duration m -> wf threshold window duration m.
Proof.
  intros Ht Hw Hd [t H].
  remember (start threshold window duration t) as m0.
  assert (wf threshold window duration m0) as H0.
  { subst. repeat split; simpl; intuition (try congruence; try lia). }
  clear Heqm0. induction H; eauto using step_wf.
Qed.

(** A burst of exactly [failure_threshold] failures that fits
    in the failure window opens a fresh circuit, until [open_duration] after the
    last of them. *)
Theorem burst_opens t0 ts tl window duration :
  let n := Z.of_nat (length ts) + 2 in
  tl - t0 <= window ->
  let b := foldl (fun b t => record_failure t b) (new_breaker n window duration) (t0 :: ts ++ [tl]) in
  state b = Open_ /\ open_until b = tl + duration.
Proof.
  simpl. intros Hw. rewrite record_first_failure by lia. rewrite foldl_app.
  rewrite (fold_failures_below _ t0 ts) by (simpl; try done; lia). simpl.
  unfold record_failure; simpl.
  destruct (Z.eqb_spec (1 + Z.of_nat (length ts)) 0); [lia|].
  destruct (Z.leb_spec (Z.of_nat (length ts) + 2) (1 + Z.of_nat (length ts) + 1)); [| lia].
  simpl. destruct (Z.leb_spec (tl - t0) window); [done | lia].
Qed.

(** Fewer failures than the threshold never open a fresh
    circuit, however they are spaced, and the counter counts them exactly. *)
Theorem few_failures_stay_closed threshold window duration ts :
  Z.of_nat (length ts) < threshold ->
  let b := foldl (fun b t => record_failure t b) (new_breaker threshold window duration) ts in
  state b = Closed /\ failures b = Z.of_nat (length ts).
Proof.
  intros Hlt. destruct ts as [| t0 ts]; [done |].
  change (foldl _ _ (t0 :: ts)) with
    (foldl (fun b t => record_failure t b)
       (record_failure t0 (new_breaker threshold window duration)) ts).
  rewrite length_cons in *. destruct (Z.eq_dec threshold 1); [lia |].
  rewrite record_first_failure by lia.
  rewrite (fold_failures_below _ t0 ts) by (simpl; try done; lia). simpl. split; [done | lia].
Qed.

(** Once a failure has opened the circuit at time [t], every
    query before [t + open_duration] is answered "open" and leaves the breaker
    as it is: calls fail fast for the whole open period. *)
Theorem open_circuit_fails_fast t b ts :
  state (record_failure t b) = Open_ -> state b <> Open_ ->
  (forall t', t' ∈ ts -> t' < t + open_duration b) ->
  queries ts (record_failure t b) = (replicate (length ts) true, record_failure t b).
Proof.
  intros Ho Hn Hts.
  assert (open_until (record_failure t b) = t + open_duration b) as Hu.
  { revert Ho. unfold record_failure. case_decide; [done |].
    repeat case_match; simpl; congruence. }
  induction ts as [| t' ts IH]; [done |].
  unfold queries; simpl. rewrite is_open_before; [| done | rewrite Hu; apply Hts; left].
  rewrite queries_app, IH; [done | intros; apply Hts; by right].
Qed.

(** When the open period is over the next query moves the
    circuit to half-open and lets the call through; the trial's success closes
    the circuit with no failures counted, and its failure re-opens it for
    another full period. *)
Theorem half_open_trial t t' b :
  state b = Open_ -> open_until b <= t ->
  let '(skip, b') := is_open t b in
  skip = false /\ state b' = HalfOpen /\
  (state (record_success b') = Closed /\ failures (record_success b') = 0) /\
  (state (record_failure t' b') = Open_ /\
   open_until (record_failure t' b') = t' + open_duration b).
Proof.
  intros Hs Ht. unfold is_open. rewrite Hs.
  destruct (Z.leb_spec (open_until b) t); [| lia].
  unfold record_failure, with_state; simpl. done.
Qed.

(** The failure window is anchored at the first counted
    failure and does not slide: with a threshold of 3 and a window of 60, the
    failures at 59, 61 and 62 lie within three time units, yet the circuit
    stays closed because the failure at 0 anchored the window and the one at
    61 restarted the count. *)
Theorem window_does_not_slide :
  state (foldl (fun b t => record_failure t b) (new_breaker 3 60 90) [0; 59; 61; 62]) = Closed.
Proof. reflexivity. Qed.

(** Half-open admits every concurrent caller, not one: a
    state is reachable in which two calls are in flight past a half-open
    circuit. *)
Theorem half_open_admits_two :
  exists m, reachable 1 60 90 m /\ state (brk m) = HalfOpen /\ in_flight m = 2%nat.
Proof.
  exists (Machine (Breaker 1 60 90 1 0 HalfOpen 90) 2 90). split; [| done].
  exists 0. unfold start.
  eapply rtc_l. { apply (step_admit _ 0); [done | reflexivity]. }
  eapply rtc_l. { by eapply (step_failure _ 0). }
  eapply rtc_l. { apply (step_admit _ 90); [done | reflexivity]. }
  eapply rtc_l. { apply (step_admit _ 90); [done | reflexivity]. }
  apply rtc_refl.
Qed.

(** *** Instances of the theorems *)

Lemma reachable_wf_witness :
  wf 1 60 90 (Machine (Breaker 1 60 90 1 0 Open_ 90) 0 0).
Proof.
  apply reachable_wf; [lia .. |]. exists 0. unfold start.
  eapply rtc_l. { apply (step_admit _ 0); [done | reflexivity]. }
  eapply rtc_l. { by eapply (step_failure _ 0). }
  apply rtc_refl.
Defined.

Lemma burst_opens_witness :
  state (foldl (fun b t => record_failure t b) (new_breaker 3 60 90) [0; 10; 60]) = Open_ /\
  open_until (foldl (fun b t => record_failure t b) (new_breaker 3 60 90) [0; 10; 60]) = 150.
Proof. apply (burst_opens 0 [10] 60 60 90). lia. Defined.

Lemma open_circuit_fails_fast_witness :
  queries [1; 50; 89] (record_failure 0 (new_breaker 1 60 90)) =
  ([true; true; true], record_failure 0 (new_breaker 1 60 90)).
Proof.
  apply (open_circuit_fails_fast 0 (new_breaker 1 60 90) [1; 50; 89]); [done | done |].
  intros t' H. rewrite !elem_of_cons, elem_of_nil in H. simpl. lia.
Defined.

Lemma half_open_trial_witness :
  let '(skip, b') := is_open 90 (Breaker 1 60 90 1 0 Open_ 90) in
  skip = false /\ state b' = HalfOpen /\
  (state (record_success b') = Closed /\ failures (record_success b') = 0) /\
  (state (record_failure 95 b') = Open_ /\ open_until (record_failure 95 b') = 95 + 90).
Proof. apply (half_open_trial 90 95 (Breaker 1 60 90 1 0 Open_ 90)); simpl; [done | lia]. Defined.

End CircuitBreaker.
