(* ===== verification/LifecycleJournal.v ===== *)
(** What an accepted operation journal guarantees, and what may be appended to
    one: consequences of [journal_rules] ([deploy/scripts/lifecycle-state.py],
    [_journal_rules]) for the histories that can be recorded. *)
From S2P Require Import Prelude Regex LifecycleContract.
Open Scope Z_scope.

Module Journal.
Import Contract.

(** *** Walking a history *)

Definition last_of (prev : checkpoint) (cs : list checkpoint) : checkpoint := default prev (list.last cs).

Lemma last_of_cons prev c cs : last_of prev (c :: cs) = last_of c cs.
Proof. unfold last_of. rewrite last_cons. by destruct (list.last cs). Qed.

Lemma history_snoc k a prev n cs c :
  history k a prev n cs -> record_shape c -> follows k a (last_of prev cs) c ->
  enters_recovery (last_of prev cs) c = false ->
  history k a prev n (cs ++ [c]).
Proof.
  intros H Hc. induction H as [prev n | prev n d cs Hd Hf Hn H IH]; intros Hfol He; simpl.
  - unfold last_of in *; simpl in *. constructor; [done | done | congruence | constructor].
  - rewrite last_of_cons in Hfol, He. constructor; auto.
Qed.

(** Every record of a history follows the one before it. *)
Lemma history_split k a prev n l1 c l2 :
  history k a prev n (l1 ++ c :: l2) ->
  record_shape c /\ follows k a (last_of prev l1) c /\ exists m, history k a c m l2.
Proof.
  revert prev n; induction l1 as [| d l1 IH]; intros prev n H; simpl in H; inversion H; subst.
  - eauto.
  - rewrite last_of_cons. eauto.
Qed.

Lemma history_shapes k a prev n cs : history k a prev n cs -> Forall record_shape cs.
Proof. induction 1; by constructor. Qed.

Lemma history_sequences k a prev n cs :
  history k a prev n cs -> StronglySorted Z.lt (sequence <$> prev :: cs).
Proof.
  induction 1 as [prev n | prev n c cs Hc Hf Hn H IH]; simpl in *.
  - repeat constructor.
  - constructor; [done |]. destruct Hf as (_ & Hs & _). inversion IH as [| ? ? _ Hall]; subst.
    constructor; [done |]. eapply Forall_impl; [exact Hall |]. intros x Hx; simpl in Hx. lia.
Qed.

(** *** An accepted journal *)

Lemma accepted_records j :
  journal_rules j = None ->
  exists c0 cs, checkpoints j = c0 :: cs /\ record_shape c0 /\ state c0 = initial (kind_of j) /\
    history (kind_of j) (action_of j) c0 0 cs /\ Z.of_nat (length (checkpoints j)) <= generation j.
Proof. intros (c0 & cs & H)%journal_rules_spec. exists c0, cs. tauto. Qed.

Lemma accepted_last j :
  journal_rules j = None ->
  exists c0 cs, checkpoints j = c0 :: cs /\ last_record j = Some (last_of c0 cs).
Proof.
  intros (c0 & cs & Ej & _)%accepted_records. exists c0, cs. split; [done |].
  unfold last_record, last_of. rewrite Ej, last_cons. by destruct (list.last cs).
Qed.

Lemma accepted_split j l1 c l2 :
  journal_rules j = None -> checkpoints j = l1 ++ c :: l2 ->
  record_shape c /\ exists m, history (kind_of j) (action_of j) c m l2.
Proof.
  intros (c0 & cs & Ej & Hc & _ & H & _)%accepted_records E. rewrite Ej in E.
  destruct l1 as [| d l1]; simplify_eq/=; [eauto |].
  apply history_split in H. tauto.
Qed.

Lemma accepted_shapes j : journal_rules j = None -> Forall record_shape (checkpoints j).
Proof.
  intros (c0 & cs & -> & Hc & _ & H & _)%accepted_records. constructor; [done |].
  by eapply history_shapes.
Qed.

Lemma accepted_sorted j :
  journal_rules j = None -> StronglySorted Z.lt (sequence <$> checkpoints j).
Proof. intros (c0 & cs & -> & _ & _ & H & _)%accepted_records. by eapply history_sequences. Qed.

(** An outcome is on the last record or nowhere. *)
Lemma outcome_is_last j l1 c l2 :
  journal_rules j = None -> checkpoints j = l1 ++ c :: l2 -> outcome_of c <> None -> l2 = [].
Proof.
  intros Hj E Ho. destruct (accepted_split j l1 c l2 Hj E) as (_ & m & H).
  destruct l2 as [| d l2]; [done |]. inversion H as [| ? ? ? ? ? Hf]; subst. by destruct Hf.
Qed.

(** in an accepted journal the sequence numbers strictly increase, an
    operation is finished exactly when some record carries an outcome, and that
    record is the last one. *)
Theorem accepted_journal_is_linear j :
  journal_rules j = None ->
  StronglySorted Z.lt (sequence <$> checkpoints j) /\
  (finished j = true <-> exists c, c ∈ checkpoints j /\ outcome_of c <> None) /\
  (forall l1 c l2, checkpoints j = l1 ++ c :: l2 -> outcome_of c <> None -> l2 = []).
Proof.
  intros Hj. split; [by apply accepted_sorted |]. split; [| intros; by eapply outcome_is_last].
  destruct (accepted_last j Hj) as (c0 & cs & Ej & El). unfold finished. rewrite El. split.
  - intros Ho. exists (last_of c0 cs). split; [| by destruct (outcome_of _)].
    by apply last_Some_elem_of; rewrite <- El.
  - intros (c & Hin & Ho). apply list_elem_of_split in Hin as (l1 & l2 & E).
    assert (l2 = []) as -> by by eapply outcome_is_last.
    unfold last_record in El. rewrite E, last_snoc in El. injection El as ->.
    by destruct (outcome_of _).
Qed.

(** *** The recovery point comes before the first change *)

(** A record that shows the host may have been changed. *)
Definition past_mutation (c : checkpoint) : bool :=
  match state c with
  | Planned | Staged | Verified | RecoverySaved => false
  | Interrupted => match ckpt c with Some s => negb (pre_mutation s) | None => true end
  | _ => true
  end.

Lemma follows_past_mutation a prev c :
  a <> Install -> record_shape prev -> record_shape c -> follows Transaction a prev c ->
  past_mutation c = true -> past_mutation prev = true \/ state prev = RecoverySaved.
Proof.
  unfold past_mutation, record_shape, follows.
  intros Ha Hp Hc (Ho & _ & Hi & _ & [[E _] | (E & Ht & Hv)]) Hm.
  - rewrite E. destruct (state c) eqn:Es; try done; try (by left). left. rewrite E in Hp.
    destruct Hp as (_ & (s & Es' & Hs) & _). rewrite Es'. destruct (pre_mutation s); [| done].
    destruct Hs; congruence.
  - destruct (state prev) eqn:Ep; try (by right); try (by left).
    1-3: simpl in Ht; set_unfold in Ht; destruct_or? Ht; rewrite Ht in *; try done;
      solve [ by rewrite Hi in Hm | by destruct (Ha (Hv eq_refl eq_refl)) ].
    + left. destruct Hp as (_ & (s & Es' & Hs) & _). rewrite Es'. destruct (pre_mutation s); [| done].
      destruct Hs; congruence.
Qed.

Lemma history_recovery_saved a prev n cs c :
  a <> Install -> record_shape prev -> past_mutation prev = false -> state prev <> RecoverySaved ->
  history Transaction a prev n cs ->
  forall l1 l2, cs = l1 ++ c :: l2 -> past_mutation c = true ->
  exists r, r ∈ l1 /\ state r = RecoverySaved.
Proof.
  intros Ha Hp Hm Hr H. induction H as [prev n | prev n d cs Hd Hf Hn H IH]; intros l1 l2 E Hc.
  - by destruct l1.
  - destruct l1 as [| d' l1]; simplify_eq/=.
    + destruct (follows_past_mutation a prev c); try done. congruence.
    + destruct (decide (state d' = RecoverySaved)) as [Ed | Ed]; [set_solver |].
      destruct (past_mutation d') eqn:Em.
      * destruct (follows_past_mutation a prev d'); try done. congruence.
      * destruct (IH Hd eq_refl Ed l1 l2 eq_refl Hc) as (r & Hin & Hs). set_solver.
Qed.

(** a transaction other than an install never shows a change to the host
    before its recovery point: in an accepted journal every record at or past
    applying is preceded by a recovery_saved record, and the journal references
    the recovery point. *)
Theorem no_change_before_recovery_point j l1 c l2 :
  journal_rules j = None -> kind_of j = Transaction -> action_of j <> Install ->
  checkpoints j = l1 ++ c :: l2 -> past_mutation c = true ->
  (exists r, r ∈ l1 /\ state r = RecoverySaved) /\ recovery j <> None.
Proof.
  intros Hj Hk Ha E Hc.
  assert (exists r, r ∈ l1 /\ state r = RecoverySaved) as (r & Hin & Hr).
  { destruct (accepted_records j Hj) as (c0 & cs & Ej & Hc0 & Hs & H & _).
    rewrite Hk in Hs, H; simpl in Hs. rewrite Ej in E.
    destruct l1 as [| d l1]; simplify_eq/=; [by unfold past_mutation in Hc; rewrite Hs in Hc |].
    destruct (history_recovery_saved (action_of j) d 0 (l1 ++ c :: l2) c) with (l1 := l1) (l2 := l2)
      as (r & Hin & Hr); try done; [by unfold past_mutation; rewrite Hs | by rewrite Hs |].
    set_solver. }
  split; [by exists r |]. apply journal_rules_spec in Hj as (? & ? & _ & _ & _ & _ & _ & _ & _ & Hrec).
  apply Hrec. exists r. rewrite E. set_solver.
Qed.

(** *** The record limit never refuses a legal record *)

(** How many records can still follow [prev], with [n] recoveries entered. *)
Definition potential (prev : checkpoint) (n : Z) : Z :=
  let left := 4 * (max_recovery_attempts - n) in
  let unstepped := match step prev with Some _ => 0 | None => 1 end in
  match outcome_of prev with
  | Some _ => 0
  | None =>
      left + match state prev with
             | Planned => 10 | Staged => 9 | Verified => 8 | RecoverySaved => 7
             | Applying => 5 + unstepped | Checking => 3 + unstepped | Recovering => 3 + unstepped
             | Interrupted => 2 | RecoveryRequired => 1 | Committed | Recovered => 0
             end
  end.

Lemma follows_potential k a prev c n :
  record_shape prev -> record_shape c -> follows k a prev c ->
  n <= max_recovery_attempts ->
  (enters_recovery prev c = true -> n + 1 <= max_recovery_attempts) ->
  potential c (if enters_recovery prev c then n + 1 else n) + 1 <= potential prev n.
Proof.
  unfold follows, potential, enters_recovery, max_recovery_attempts.
  intros Hp Hc (Ho & _ & _ & Hman & Hs) Hn He. rewrite Ho.
  destruct Hs as [[E Hr] | (E & Ht & _)].
  - rewrite E in *. unfold record_shape in Hc, Hp. rewrite E in Hp.
    destruct (state c) eqn:Es; simpl; destruct (step c), (step prev), (outcome_of c) as [[] |]; try lia;
      naive_solver lia.
  - unfold record_shape in Hc, Hp.
    destruct k, (state prev) eqn:Ep; simpl in Ht; set_unfold in Ht; try done; destruct_or? Ht;
      rewrite Ht in *; simpl in *; destruct (step c), (step prev), (outcome_of c); try specialize (He eq_refl); try lia;
      naive_solver lia.
Qed.

Lemma history_bounded k a prev n cs :
  record_shape prev -> 0 <= n <= max_recovery_attempts -> history k a prev n cs ->
  Z.of_nat (length cs) <= Z.max 0 (potential prev n).
Proof.
  intros Hp Hn H. induction H as [prev n | prev n c cs Hc Hf He H IH]; simpl length; [lia |].
  pose proof (follows_potential k a prev c n Hp Hc Hf ltac:(lia) He) as Hpot.
  assert (0 <= (if enters_recovery prev c then n + 1 else n) <= max_recovery_attempts) as Hn'
    by (destruct (enters_recovery prev c); [specialize (He eq_refl) |]; lia).
  specialize (IH Hc Hn'). assert (0 <= potential c (if enters_recovery prev c then n + 1 else n)).
  { unfold potential. destruct (outcome_of c), (state c), (step c); lia. }
  lia.
Qed.

Definition max_records : Z := 23.

Lemma accepted_length j :
  journal_rules j = None -> Z.of_nat (length (checkpoints j)) <= max_records.
Proof.
  intros (c0 & cs & -> & Hc & Hs & H & _)%accepted_records.
  apply history_bounded in H; [| done | unfold max_recovery_attempts; lia].
  unfold potential, max_recovery_attempts in H. simpl length. unfold max_records.
  destruct (outcome_of c0), (kind_of j), (step c0); simpl in Hs; rewrite ?Hs in H; lia.
Qed.

(** The longest history: every step stepped once, three recoveries that each
    fail after an abandoned run, then a manual close. *)
Definition longest : list checkpoint :=
  let plain n s := Checkpoint n s "2026-01-01T00:00:00Z" None None None None None in
  let stepped n s := Checkpoint n s "2026-01-01T00:00:00Z" (Some "step") None None None None in
  let cut n s := Checkpoint n Interrupted "2026-01-01T00:00:00Z" None (Some Abandoned) (Some s) None None in
  let failed n o := Checkpoint n RecoveryRequired "2026-01-01T00:00:00Z" None (Some RecoveryFailed) None o
                      (Some (Error MANUAL "failed")) in
  [plain 1 Planned; plain 2 Staged; plain 3 Verified; plain 4 RecoverySaved;
   plain 5 Applying; stepped 6 Applying; plain 7 Checking; stepped 8 Checking; cut 9 Checking; failed 10 None;
   plain 11 Recovering; stepped 12 Recovering; cut 13 Recovering; failed 14 None;
   plain 15 Recovering; stepped 16 Recovering; cut 17 Recovering; failed 18 None;
   plain 19 Recovering; stepped 20 Recovering; cut 21 Recovering; failed 22 None;
   failed 23 (Some OManual)].

Definition longest_journal : journal :=
  Journal "op-20260101-001" Transaction Update Native 23 (Some "sha256:00") None None None
    (Some (RecoveryRef "op-20260101-001" "sha256:00")) [] "2026-01-01T00:00:00Z" "2026-01-01T00:00:00Z" longest.

(** the journal rules alone bound an operation to 23 records, and a legal
    journal of 23 records exists; the schema's limit of 32 records therefore
    never refuses a record the rules allow. *)
Theorem records_bounded :
  (forall j, journal_rules j = None -> (length (checkpoints j) <= 23)%nat) /\
  (exists j, journal_rules j = None /\ length (checkpoints j) = 23%nat).
Proof.
  split.
  - intros j Hj%accepted_length. unfold max_records in Hj. lia.
  - exists longest_journal. split; vm_compute; reflexivity.
Qed.

Lemma accepted_journal_is_linear_witness : StronglySorted Z.lt (sequence <$> longest).
Proof. apply (accepted_journal_is_linear longest_journal). vm_compute. reflexivity. Defined.

Lemma no_change_before_recovery_point_witness :
  exists r, r ∈ take 4 longest /\ state r = RecoverySaved.
Proof.
  destruct (longest !! 4%nat) as [c |] eqn:E; [| discriminate].
  apply (no_change_before_recovery_point longest_journal (take 4 longest) c (drop 5 longest)).
  - vm_compute. reflexivity.
  - reflexivity.
  - discriminate.
  - injection E as <-. reflexivity.
  - injection E as <-. reflexivity.
Defined.

End Journal.
