(* ===== verification/LifecycleStore.v ===== *)
(** The native lifecycle state utility ([deploy/scripts/lifecycle-state.py]):
    the operation directories, the sequence counter, reconciliation, the history
    index, retention and the five request handlers.

    The tree is the directory [private/operations]: one entry per name, an
    operation's directory holding its [sequence] counter (the raw text) and its
    [journal.json].  A durable write takes its fate from a script: it is done,
    or it raises [OSError] before or after the rename took effect.  A killed
    process is a script that fails from some point on.  The handlers take the
    outcome of [_locked_tree] (the operation the host lock is bound to, or the
    refusal), the clock's stamp and the random suffix as arguments.
    [redact_text] and [display_name] only shape messages; they are parameters. *)
From S2P Require Import Prelude Sha256 Json Regex Canonical LifecycleContract LifecycleSchema LifecycleJournal.
Open Scope Z_scope.

Module Store.
Import Contract Schema.

(** *** Errors *)

Record state_error := StateError { err_code : Contract.code; message : string; lines : list string }.

(** [EXIT]. *)
Definition exit_status (c : Contract.code) : Z :=
  match c with
  | USAGE => 2 | UNSUPPORTED => 3 | NETWORK => 4 | TRUST => 5 | PERMISSION => 6 | PREFLIGHT => 7
  | RECOVERED => 8 | MANUAL => 9 | LOCKED => 10 | INTERRUPTED => 130
  end.

(** *** The tree *)

Inductive file := NoFile | BadFile (reason : string) (unsupported : bool) | JournalFile (j : journal).

Record opdir := OpDir { counter : option string; journal_file : file }.

Inductive entry := NotDirectory (reason : string) | Directory (d : opdir).

Abbreviation tree := (gmap string entry).

Record record := Record_ {
  name : string;
  record_journal : option journal;
  reason : string;
  unsupported : bool
}.

Definition bad_record (n r : string) (u : bool) : record := Record_ n None r u.

(** The size of the raw bytes, which the code checks before it parses them, is
    not looked at: a journal within its own bounds stays below it. *)
Definition read_record (t : tree) (n : string) : record :=
  if negb (valid_operation_id n) then bad_record n "is not an operation directory" false
  else match t !! n with
  | None => bad_record n "cannot be opened as a directory (No such file or directory)" false
  | Some (NotDirectory r) => bad_record n r false
  | Some (Directory d) =>
      match journal_file d with
      | NoFile => bad_record n "has no journal" false
      | BadFile r u => bad_record n ("journal " +:+ r) u
      | JournalFile j =>
          match validate_document j with
          | Some (EmptyString, r) => bad_record n ("journal " +:+ r) false
          | Some (p, r) => bad_record n ("journal " +:+ p +:+ ": " +:+ r) false
          | None =>
              if String.eqb (operation_id j) n then Record_ n (Some j) EmptyString false
              else bad_record n ("journal names another operation (" +:+ operation_id j +:+ ")") false
          end
      end
  end.

Definition hidden (n : string) : bool := String.prefix "." n.
Definition staging (n : string) : bool := String.prefix ".new-" n.

(** [sorted(os.listdir(operations))]. *)
Definition listdir (t : tree) : list string := py_sorted String.leb (map fst (map_to_list t)).

Definition read_records (t : option tree) : list record :=
  match t with
  | None => []
  | Some t => map (read_record t) (List.filter (fun n => negb (hidden n)) (listdir t))
  end.

(** *** The sequence counter *)

Definition counter_pattern : Regex.re :=
  Regex.Seq (Regex.Chr (Regex.range 49 57)) (Regex.up_to 15 (Regex.Chr Regex.digit)).

Definition read_counter (d : opdir) : Z :=
  match counter d with
  | Some raw => if Regex.fullmatch counter_pattern raw then digits 0 raw else 0
  | None => 0
  end.

Definition durable_sequence (j : journal) : Z := foldr (fun c m => Z.max (sequence c) m) 0 (checkpoints j).

Definition next_sequence (d : opdir) (j : journal) : Z := Z.max (read_counter d) (durable_sequence j) + 1.

(** *** Events *)

Inductive event_body :=
| PhaseEvent (phase status : string) (duration_ms : option Z)
| ProgressEvent (phase : string) (done : Z) (total : option Z) (unit_ : string)
| CheckpointEvent (s : st) (gen : Z)
| DiagnosticEvent (level message : string) (code_ : option Contract.code).

Record event := Event { ev_operation : string; ev_sequence : Z; ev_at : string; ev_body : event_body }.

Import Json.

Definition event_json (e : event) : json :=
  let common t := [("schema_version", JInt 1); ("operation_id", JStr (ev_operation e));
                   ("sequence", JInt (ev_sequence e)); ("at", JStr (ev_at e)); ("source", JStr "native");
                   ("type", JStr t)] in
  JObj match ev_body e with
       | PhaseEvent p s d => common "phase" ++ [("phase", JStr p); ("status", JStr s)] ++ member "duration_ms" JInt d
       | ProgressEvent p d t u =>
           common "progress" ++ [("phase", JStr p); ("done", JInt d); ("total", opt_json JInt t); ("unit", JStr u)]
       | CheckpointEvent s g => common "checkpoint" ++ [("state", JStr (state_name s)); ("generation", JInt g)]
       | DiagnosticEvent l m c =>
           common "diagnostic" ++ [("level", JStr l); ("message", JStr m)]
             ++ member "code" (fun c => JStr (code_name c)) c
       end.

Definition phases : list string :=
  ["preflight"; "resolve"; "download"; "verify"; "stage"; "backup"; "stop"; "apply"; "migrate"; "start";
   "health"; "commit"; "recover"; "remove"; "cleanup"].
Definition statuses : list string := ["started"; "completed"; "failed"; "skipped"].

Definition check_message (path s : string) : option refusal :=
  orelse (refuse_if (900 <? Z.of_nat (String.length s)) path "must be at most 900 characters")
    (orelse (refuse_if (negb (str_forallb (fun c => negb (control_but_tab_newline c)) s)) path
               "contains a control character other than tab or newline")
       (refuse_if (credential_shaped s) path
          "looks like a credential (a URL password, private key, bearer token or secret assignment); redact it")).

(** The event schema and [_event_rules] on a native event. *)
Definition check_event (e : event) : option refusal :=
  check_all ([check_operation_id "/operation_id" (ev_operation e); check_min 1 "/sequence" (ev_sequence e);
              check_timestamp "/at" (ev_at e)] ++
    match ev_body e with
    | PhaseEvent p s d =>
        [check_one_of phases "/phase" p; check_one_of statuses "/status" s; check_option (check_min 0 "/duration_ms") d;
         refuse_if (is_some d && negb (bool_decide (s ∈ ["completed"; "failed"]))) "/duration_ms"
           "a duration belongs to a completed or failed phase"]
    | ProgressEvent p d t u =>
        [check_one_of phases "/phase" p; check_min 0 "/done" d; check_option (check_min 0 "/total") t;
         check_one_of ["bytes"; "steps"] "/unit" u;
         refuse_if (match t with Some t => t <? d | None => false end) "/done" "done exceeds total"]
    | CheckpointEvent s g => [check_min 1 "/generation" g]
    | DiagnosticEvent l m c => [check_one_of ["info"; "warning"; "error"] "/level" l; check_message "/message" m]
    end).

Definition validate_event (e : event) : option refusal :=
  match Canonical.canonicalize (event_json e) with
  | Err r => Some r
  | Ok t =>
      let size := Z.of_nat (String.length (Canonical.utf8 t)) in
      orelse (refuse_if (4096 <? size) EmptyString
                (pretty size +:+ " bytes; an event is at most 4096 bytes")) (check_event e)
  end.

(** *** Requests *)

Record recovery_members := RecoveryMembers { m_recovery_operation : option string; m_recovery_digest : option string }.
Record evidence_members := EvidenceMembers {
  m_check : option string; m_result : option string; m_detail : option string }.

Record begin_request := BeginRequest {
  b_kind : kind; b_action : action; b_adapter : adapter;
  b_plan_digest : option string; b_identity_digest : option string;
  b_source_version : option string; b_source_digest : option string;
  b_target_version : option string; b_target_digest : option string;
  b_recovery : recovery_members; b_evidence : evidence_members }.

Record checkpoint_request := CheckpointRequest {
  c_operation : string; c_expected_generation : Z; c_state : st;
  c_step : option string; c_cause : option cause; c_outcome : option outcome;
  c_error_code : option Contract.code; c_error_reason : option string;
  c_recovery : recovery_members; c_evidence : evidence_members }.

Inductive event_type := TPhase | TProgress | TDiagnostic.

Record emit_request := EmitRequest {
  e_operation : string; e_type : event_type;
  e_phase : option string; e_status : option string; e_duration : option Z; e_done : option Z; e_total : option Z;
  e_unit : option string; e_level : option string; e_message : option string; e_code : option Contract.code }.

(** *** The world a handler runs in *)

(** The fate of one durable write. *)
Inductive io := Done | Fail (landed : bool) (detail : string).

Inductive index_entry :=
| Summary (j : journal) (c : checkpoint)
| Inspection (shown : option string) (why : string).

Record world := World {
  operations : option tree;
  history : option (list index_entry);
  emitted : list event;
  script : list io
}.

Definition set_operations (t : option tree) (w : world) : world := World t (history w) (emitted w) (script w).
Definition set_history (h : list index_entry) (w : world) : world :=
  World (operations w) (Some h) (emitted w) (script w).
Definition emit (e : event) (w : world) : world :=
  World (operations w) (history w) (emitted w ++ [e]) (script w).

(** State passing with [StateError]. *)
Definition M (A : Type) : Type := world -> result state_error A * world.

Definition ret {A} (a : A) : M A := fun w => (Ok a, w).
Definition bind {A B} (m : M A) (k : A -> M B) : M B := fun w =>
  match m w with (Ok a, w') => k a w' | (Err e, w') => (Err e, w') end.
Notation "'let!' x := m 'in' k" := (bind m (fun x => k))
  (at level 10, x pattern, m at level 100, k at level 200).

Definition throw {A} (e : state_error) : M A := fun w => (Err e, w).
Definition raise {A} (c : Contract.code) (m : string) : M A := throw (StateError c m []).
Definition get : M world := fun w => (Ok w, w).
Definition modify (f : world -> world) : M unit := fun w => (Ok tt, f w).
Definition lift {A} (r : result state_error A) : M A := fun w => (r, w).

(** One write: [None] when it succeeded, the [OSError]'s detail otherwise; the
    effect is applied when the write is done or has landed. *)
Definition attempt (effect : world -> world) : M (option string) := fun w =>
  match script w with
  | [] => (Ok None, effect w)
  | Done :: s => (Ok None, effect (World (operations w) (history w) (emitted w) s))
  | Fail landed d :: s =>
      let w' := World (operations w) (history w) (emitted w) s in
      (Ok (Some d), if landed then effect w' else w')
  end.

Definition write_failure (what detail : string) : state_error :=
  StateError PREFLIGHT
    ("cannot record " +:+ what +:+ " durably (" +:+ detail
       +:+ "); nothing was acknowledged, so stop before the next change") [].

(** A write whose failure is reported as [_write_failure]. *)
Definition write_or_fail (what : string) (effect : world -> world) : M unit :=
  let! d := attempt effect in
  match d with None => ret tt | Some d => throw (write_failure what d) end.

Definition update_opdir (n : string) (f : opdir -> opdir) (w : world) : world :=
  match operations w with
  | None => w
  | Some t => match t !! n with
              | Some (Directory d) => set_operations (Some (<[n := Directory (f d)]> t)) w
              | _ => w
              end
  end.

Definition write_counter (n : string) (seq : Z) : world -> world :=
  update_opdir n (fun d => OpDir (Some (pretty seq)) (journal_file d)).

Definition write_journal (n : string) (j : journal) : world -> world :=
  update_opdir n (fun d => OpDir (counter d) (JournalFile j)).

(** The two writes of a durable record: the counter, then the journal. *)
Definition write_record (what n : string) (seq : Z) (j : journal) : M unit :=
  let! _ := write_or_fail what (write_counter n seq) in
  write_or_fail what (write_journal n j).

Definition find_opdir (t : tree) (n : string) : option opdir :=
  match t !! n with Some (Directory d) => Some d | _ => None end.

Section Handlers.
Variable redact_text : string -> Z -> string.
Variable display_name : string -> string.

(** *** Building documents from requests *)

Definition usage {A} (m : string) : result state_error A := Err (StateError USAGE m []).

Definition contract_broken (r : refusal) : state_error :=
  StateError USAGE ("the record would break the lifecycle contract: " +:+ r.1 +:+ ": " +:+ r.2) [].

Definition version_of (key : string) (k : kind) (v : option string) : result state_error (option string) :=
  match v with
  | None => Ok None
  | Some s =>
      match check_installed_version EmptyString s with
      | None => Ok (Some s)
      | Some _ =>
          match k with
          | Legacy => Ok None
          | Transaction => usage (key +:+ " is not an installed version (1-64 characters, no control character)")
          end
      end
  end.

Definition evidence_of (m : evidence_members) : result state_error (option evidence) :=
  match m_check m, m_result m, m_detail m with
  | None, None, None => Ok None
  | Some c, Some r, d => Ok (Some (Evidence c r ((fun d => redact_text d 256) <$> d)))
  | _, _, _ => usage "evidence needs evidence_check and evidence_result"
  end.

Definition recovery_of (m : recovery_members) : result state_error (option recovery_ref) :=
  match m_recovery_operation m, m_recovery_digest m with
  | None, None => Ok None
  | Some o, Some d => Ok (Some (RecoveryRef o d))
  | _, _ => usage "a recovery reference needs recovery_operation_id and recovery_manifest_digest"
  end.

Definition release_of (v d : option string) : option release := (fun v => Release v d) <$> v.

Definition valid_or_usage (j : journal) : result state_error unit :=
  match validate_document j with None => Ok tt | Some r => Err (contract_broken r) end.

Definition checkpoint_event (j : journal) : result state_error event :=
  match last_record j with
  | None => usage EmptyString
  | Some c =>
      let e := Event (operation_id j) (sequence c) (at_ c) (CheckpointEvent (state c) (generation j)) in
      match validate_event e with None => Ok e | Some r => Err (contract_broken r) end
  end.

(** *** [_next_journal] *)

(** The record a checkpoint request describes. *)
Definition next_entry (seq : Z) (now : string) (prev : checkpoint) (r : checkpoint_request)
    : result state_error checkpoint :=
  let mk e := Checkpoint seq (c_state r) now (c_step r) (c_cause r)
                (if bool_decide (c_state r = Interrupted) then Some (state prev) else None) (c_outcome r) e in
  match c_error_code r, c_error_reason r with
  | None, None => Ok (mk None)
  | Some c, Some m => Ok (mk (Some (Error c (redact_text m 256))))
  | _, _ => usage "an error needs error_code and error_reason"
  end.

(** A later step replaces the stepped record it continues. *)
Definition stepped (prev c : checkpoint) : bool :=
  is_some (step c) && is_some (step prev) && bool_decide (state prev = state c).

Definition put_record (cs : list checkpoint) (prev c : checkpoint) : list checkpoint :=
  if stepped prev c then removelast cs ++ [c] else cs ++ [c].

Definition merge_recovery (j : journal) (wanted : option recovery_ref) : result state_error (option recovery_ref) :=
  match wanted with
  | None => Ok (recovery j)
  | Some w =>
      match recovery j with
      | Some r => if bool_decide (r = w) then Ok (Some w)
                  else usage (operation_id j +:+ " references another recovery point already")
      | None => Ok (Some w)
      end
  end.

(** [dict(journal, checkpoints=..., generation=+1, updated_at=..., ...)]. *)
Definition advance (j : journal) (cs : list checkpoint) (now : string) (rec : option recovery_ref)
    (evs : list evidence) : journal :=
  Journal (operation_id j) (kind_of j) (action_of j) (adapter_of j) (generation j + 1) (plan_digest j)
    (identity_digest j) (source j) (target j) rec evs (started_at j) now cs.

Definition next_journal (d : opdir) (j : journal) (r : checkpoint_request) (now : string)
    : result state_error (journal * checkpoint) :=
  match last_record j with
  | None => usage EmptyString
  | Some prev =>
      c ← next_entry (next_sequence d j) now prev r;
      wanted ← recovery_of (c_recovery r);
      rec ← merge_recovery j wanted;
      item ← evidence_of (c_evidence r);
      let updated := advance j (put_record (checkpoints j) prev c) now rec
                       (evidences j ++ match item with Some e => [e] | None => [] end) in
      _ ← valid_or_usage updated;
      Ok (updated, c)
  end.

(** *** The history index and retention *)

Definition stamp_le (x y : string * string) : bool :=
  if String.eqb x.1 y.1 then String.leb x.2 y.2 else String.leb x.1 y.1.

Definition started_key (j : journal) : string * string := (started_at j, operation_id j).
Definition updated_key (j : journal) : string * string := (updated_at j, operation_id j).

(** [sorted(..., key=key, reverse=True)]. *)
Definition newest_first (key : journal -> string * string) : list journal -> list journal :=
  py_sorted (fun x y => stamp_le (key y) (key x)).

Definition journals (rs : list record) : list journal := omap record_journal rs.

Definition summary (j : journal) : list index_entry :=
  match last_record j with Some c => [Summary j c] | None => [] end.

Definition file_name_ok (n : string) : bool :=
  negb (bool_decide (n = EmptyString)) && (Z.of_nat (String.length n) <=? 255) &&
  str_forallb (fun c => negb (Ascii.eqb c "/") && negb (control c)) n.

Definition inspection (r : record) : index_entry :=
  let shown := display_name (name r) in
  Inspection (if String.eqb shown (name r) && file_name_ok (name r) then Some (name r) else None)
    (redact_text (shown +:+ ": " +:+ reason r) 256).

Definition index_limit : Z := 100.

Definition index_entries (rs : list record) : list index_entry :=
  let js := journals rs in
  (newest_first started_key (List.filter (fun j => negb (finished j)) js) ≫= summary)
  ++ map inspection (List.filter (fun r => negb (is_some (record_journal r))) rs)
  ++ (newest_first updated_key (List.filter finished js) ≫= summary).

(** The index members that a validated journal does not already guarantee. *)
Definition check_index (es : list index_entry) : option refusal :=
  check_items (fun p e => match e with Inspection _ why => check_brief_text (p +:+ "/reason") why | _ => None end)
    "/operations" es.

Definition build_index (rs : list record) : result state_error (list index_entry * Z) :=
  let es := index_entries rs in
  let kept := take (Z.to_nat index_limit) es in
  match check_index kept with
  | Some r => Err (contract_broken r)
  | None => Ok (kept, Z.max 0 (Z.of_nat (length es) - index_limit))
  end.

(** [write_index]: the write's failure detail, or how many entries it left out. *)
Definition write_index (rs : list record) : M (result string Z) :=
  match build_index rs with
  | Err e => throw e
  | Ok (es, omitted) =>
      let! d := attempt (set_history es) in
      ret match d with None => Ok omitted | Some d => Err d end
  end.

(** [_index_quietly]: a failure only warns. *)
Definition index_quietly (rs : list record) : M (list string) := fun w =>
  match write_index rs w with
  | (Err e, w') => (Ok ["history.json was not updated (" +:+ message e +:+ "); the journals are intact"], w')
  | (Ok (Err d), w') => (Ok ["history.json was not updated (" +:+ d +:+ "); the journals are intact"], w')
  | (Ok (Ok omitted), w') =>
      (Ok (if omitted =? 0 then []
           else ["history.json lists the first " +:+ pretty (Z.of_nat (length rs) - omitted) +:+ " operations"]), w')
  end.

Definition ref_text (r : recovery_ref) : string := ref_operation r +:+ ":" +:+ manifest_digest r.

Definition committed_key_le (x y : journal) : bool := stamp_le (updated_key x) (updated_key y).

Definition closed_committed (j : journal) : bool :=
  match last_record j with Some c => bool_decide (outcome_of c = Some OCommitted) | None => false end.

Definition held_ref (j : journal) : list string := match recovery j with Some r => [ref_text r] | None => [] end.

(** Protected references, releasable ones, and whether the answer is complete;
    the reported lists are the sorted sets. *)
Definition retention (rs : list record) : gset string * gset string * bool :=
  let held := List.filter (fun j => is_some (recovery j)) (journals rs) in
  let unfinished := List.filter (fun j => negb (finished j)) held ≫= held_ref in
  let committed := py_sorted committed_key_le (List.filter closed_committed held) in
  let newest := match list.last committed with Some j => held_ref j | None => [] end in
  let protected : gset string := list_to_set (unfinished ++ newest) in
  let complete := forallb (fun r => is_some (record_journal r)) rs in
  let releasable := if complete then list_to_set (held ≫= held_ref) ∖ protected else ∅ in
  (protected, releasable, complete).

(** *** Reconciliation *)

(** The record [_abandon] appends. *)
Definition abandon_entry (seq : Z) (now : string) (prev : checkpoint) : checkpoint :=
  Checkpoint seq Interrupted now None (Some Abandoned) (Some (state prev))
    (if pre_mutation (state prev) then Some OInterrupted else None) None.

Definition abandoned (d : opdir) (j : journal) (now : string) (prev : checkpoint) : journal :=
  advance j (checkpoints j ++ [abandon_entry (next_sequence d j) now prev]) now (recovery j) (evidences j).

Definition abandon (r : record) (j : journal) (now : string) : M (record * option string) :=
  let! w := get in
  match last_record j, operations w ≫= fun t => find_opdir t (name r) with
  | Some prev, Some d =>
      let updated := abandoned d j now prev in
      match validate_document updated with
      | Some _ =>
          ret (r, Some (name r +:+ ": its process is gone, and its journal has no legal interrupted record"))
      | None =>
          let! _ := write_record ("the interruption of " +:+ name r) (name r) (next_sequence d j) updated in
          ret (Record_ (name r) (Some updated) EmptyString false, None)
      end
  | _, _ => ret (r, Some (name r +:+ ": cannot record its interruption (No such file or directory)"))
  end.

(** One record of the loop: abandon it when it is in progress and not the
    operation the lock is bound to. *)
Definition reconcile_one (r : record) (bound now : string) : M (record * option string) :=
  match record_journal r with
  | Some j => if negb (String.eqb (name r) bound) && in_progress j then abandon r j now else ret (r, None)
  | None => ret (r, None)
  end.

Fixpoint reconcile (rs : list record) (bound now : string) : M (list record * list string) :=
  match rs with
  | [] => ret ([], [])
  | r :: rs =>
      let! (r', warning) := reconcile_one r bound now in
      let! (rs', warnings) := reconcile rs bound now in
      ret (r' :: rs', match warning with Some m => m :: warnings | None => warnings end)
  end.

(** *** The handlers *)

Definition open_operations (path : string) : M tree :=
  let! w := get in
  match operations w with
  | Some t => ret t
  | None =>
      let! d := attempt (set_operations (Some ∅)) in
      match d with
      | None => ret ∅
      | Some d => raise PREFLIGHT ("cannot create " +:+ path +:+ ": " +:+ d)
      end
  end.

Definition warning_lines (ws : list string) : list string := map (fun m => "warning=" +:+ redact_text m 900) ws.

(** [re.fullmatch("op-" + day + "-([0-9]{3,9})", name)]: the number, when it matches. *)
Definition day_number (day n : string) : option Z :=
  if Regex.fullmatch (seqs [Regex.word "op-"; Regex.word day; Regex.lit "-";
                            Regex.between 3 9 (Regex.Chr Regex.digit)]) n
  then Some (digits 0 (substring (4 + String.length day) (String.length n) n)) else None.

Definition today_ids (names : list string) (day : string) : Z :=
  foldr (fun n m => match day_number day n with Some k => Z.max m k | None => m end) 0 names.

(** [f"{number:03d}"]. *)
Definition pad3 (z : Z) : string :=
  if z <? 10 then "00" +:+ pretty z else if z <? 100 then "0" +:+ pretty z else pretty z.

(** [stamp[:10].replace("-", "")]. *)
Definition day_of (now : string) : string :=
  substring 0 4 now +:+ substring 5 2 now +:+ substring 8 2 now.

Definition initial_journal (r : begin_request) (op now : string) : result state_error journal :=
  source ← version_of "source_version" (b_kind r) (b_source_version r);
  target ← version_of "target_version" (b_kind r) (b_target_version r);
  rec ← recovery_of (b_recovery r);
  item ← evidence_of (b_evidence r);
  let j := Journal op (b_kind r) (b_action r) (b_adapter r) 1 (b_plan_digest r) (b_identity_digest r)
             (release_of source (b_source_digest r)) (release_of target (b_target_digest r)) rec
             (match item with Some e => [e] | None => [] end) now now
             [Checkpoint 1 (initial (b_kind r)) now None None None None None] in
  _ ← valid_or_usage j;
  Ok j.

Definition remove_staging (t : tree) : tree := filter (fun kv => staging kv.1 = false) t.

Definition unfinished_transaction (r : record) : bool :=
  match record_journal r with
  | Some j => bool_decide (kind_of j = Transaction) && negb (finished j)
  | None => false
  end.

Definition map_tree (f : tree -> tree) (w : world) : world := set_operations (f <$> operations w) w.

(** Durable steps in order; the first failure runs [undo] and raises. *)
Fixpoint run_steps (undo : world -> world) (fail : string -> state_error) (l : list (world -> world)) : M unit :=
  match l with
  | [] => ret tt
  | f :: l =>
      let! d := attempt f in
      match d with
      | None => run_steps undo fail l
      | Some d => let! _ := modify undo in throw (fail d)
      end
  end.

(** The staged directory and its writes, then the rename into place; a failure
    removes the staging directory. *)
Definition stage (staged op : string) (j : journal) : M unit :=
  run_steps (map_tree (delete staged)) (write_failure ("operation " +:+ op))
    [map_tree (<[staged := Directory (OpDir None NoFile)]>);
     write_counter staged 1;
     write_journal staged j;
     map_tree (fun t => match t !! staged with
                        | Some e => <[op := e]> (delete staged t)
                        | None => t
                        end)].

(** Refuse while an operation is unfinished, else allocate the identifier, write
    the first durable record and emit its event. *)
Definition begin_operation (r : begin_request) (rs : list record) (warnings : list string) (now suffix : string)
    : M (string * list string) :=
  let blocking := map name (List.filter unfinished_transaction rs) in
  let doubtful := List.filter (fun r => negb (is_some (record_journal r))) rs in
  let transaction := bool_decide (b_kind r = Transaction) && negb (bool_decide (doubtful = [])) in
  let blocking := if transaction then blocking ++ map (fun r => display_name (name r)) doubtful else blocking in
  let warnings :=
    (if transaction then warnings
     else warnings ++ map (fun r => display_name (name r) +:+ " requires inspection: " +:+ reason r) doubtful)
    ++ omap (fun r => match record_journal r with
                      | Some j => if bool_decide (kind_of j = Legacy) && negb (finished j)
                                  then Some (name r +:+ " (" +:+ action_name (action_of j) +:+ ") is unfinished")
                                  else None
                      | None => None
                      end) rs in
  match blocking with
  | _ :: _ =>
      let! _ := index_quietly rs in
      throw (StateError MANUAL
               ("an unfinished lifecycle operation must be reconciled first: "
                  +:+ Json.join ", " (take 5 blocking)) (warning_lines warnings))
  | [] =>
      let! w := get in
      let number := today_ids (match operations w with Some t => listdir t | None => [] end) (day_of now) + 1 in
      if 999999999 <? number then raise PREFLIGHT "no operation ID is left for today"
      else
      let op := "op-" +:+ day_of now +:+ "-" +:+ pad3 number in
      let! j := lift (initial_journal r op now) in
      let! e := lift (checkpoint_event j) in
      let! _ := stage (".new-" +:+ suffix) op j in
      let! _ := modify (emit e) in
      let! more := index_quietly (rs ++ [Record_ op (Some j) EmptyString false]) in
      ret (op, warning_lines (warnings ++ more))
  end.

Definition handle_begin (r : begin_request) (path : string) (lock : result state_error string)
    (earlier now suffix : string) : M (string * list string) :=
  let! bound := lift lock in
  if negb (String.eqb bound EmptyString)
  then raise USAGE ("the host lock is bound to " +:+ bound +:+ " already; one lock holds one operation")
  else
  let! _ := open_operations path in
  let! _ := modify (map_tree remove_staging) in
  let! w := get in
  let! (rs, warnings) := reconcile (read_records (operations w)) bound earlier in
  begin_operation r rs warnings now suffix.

(** The record of the operation the lock is bound to, as the writers read it. *)
Definition bound_journal (op bound : string) : M (journal * opdir) :=
  if negb (String.eqb bound op)
  then raise USAGE ("the host lock is bound to "
         +:+ (if String.eqb bound EmptyString then "no operation" else bound) +:+ ", not " +:+ op)
  else
  let! w := get in
  match operations w with
  | None => raise USAGE ("no operation " +:+ op +:+ " exists")
  | Some t =>
      match t !! op with
      | None => raise USAGE ("no operation " +:+ op +:+ " exists")
      | Some _ =>
          let r := read_record t op in
          match record_journal r, find_opdir t op with
          | Some j, Some d => ret (j, d)
          | _, _ => raise (if unsupported r then UNSUPPORTED else MANUAL)
                      (op +:+ " requires inspection: " +:+ redact_text (reason r) 256)
          end
      end
  end.

Definition stale (op : string) (at_generation expected : Z) : state_error :=
  StateError MANUAL
    (op +:+ " is at generation " +:+ pretty at_generation +:+ ", not " +:+ pretty expected
       +:+ ": another writer recorded a checkpoint since, so this one is stale; inspect it before changing anything") [].

Definition handle_checkpoint (r : checkpoint_request) (lock : result state_error string) (now : string)
    : M (journal * list string) :=
  let op := c_operation r in
  let! bound := lift lock in
  let! (j, d) := bound_journal op bound in
  if negb (c_expected_generation r =? generation j) then throw (stale op (generation j) (c_expected_generation r))
  else
  let! (updated, c) := lift (next_journal d j r now) in
  let! e := lift (checkpoint_event updated) in
  let! _ := write_record ("the " +:+ state_name (state c) +:+ " checkpoint of " +:+ op) op (sequence c) updated in
  let! _ := modify (emit e) in
  let! w := get in
  let! warnings :=
    index_quietly (map (fun x => if String.eqb (name x) op then Record_ op (Some updated) EmptyString false else x)
                     (read_records (operations w))) in
  ret (updated, warning_lines warnings).

(** The first member given that the event type does not take. *)
Fixpoint extra (l : list (string * bool)) : option string :=
  match l with [] => None | (k, true) :: _ => Some k | _ :: l => extra l end.

(** [_emitted_event]: the members each event type takes. *)
Definition emitted_event (r : emit_request) (seq : Z) (now : string) : result state_error event :=
  let refuse type k := usage (k +:+ " is not a member of a " +:+ type +:+ " event") in
  let mk b :=
    let e := Event (e_operation r) seq now b in
    match validate_event e with
    | None => Ok e
    | Some x => usage ("the event would break the lifecycle contract: " +:+ x.1 +:+ ": " +:+ x.2)
    end in
  match e_type r with
  | TPhase =>
      match extra [("done", is_some (e_done r)); ("total", is_some (e_total r)); ("unit", is_some (e_unit r));
                   ("level", is_some (e_level r)); ("message", is_some (e_message r)); ("code", is_some (e_code r))] with
      | Some k => refuse "phase" k
      | None =>
           match e_phase r, e_status r with
           | Some p, Some s => mk (PhaseEvent p s (e_duration r))
           | None, _ => usage "a phase event needs phase"
           | _, None => usage "a phase event needs status"
           end
      end
  | TProgress =>
      match extra [("status", is_some (e_status r)); ("duration_ms", is_some (e_duration r)); ("level", is_some (e_level r));
                   ("message", is_some (e_message r)); ("code", is_some (e_code r))] with
      | Some k => refuse "progress" k
      | None =>
           match e_phase r, e_done r, e_unit r with
           | Some p, Some d, Some u => mk (ProgressEvent p d (e_total r) u)
           | None, _, _ => usage "a progress event needs phase"
           | _, None, _ => usage "a progress event needs done"
           | _, _, None => usage "a progress event needs unit"
           end
      end
  | TDiagnostic =>
      match extra [("phase", is_some (e_phase r)); ("status", is_some (e_status r)); ("duration_ms", is_some (e_duration r));
                   ("done", is_some (e_done r)); ("total", is_some (e_total r)); ("unit", is_some (e_unit r))] with
      | Some k => refuse "diagnostic" k
      | None =>
           match e_level r, e_message r with
           | Some l, Some m => mk (DiagnosticEvent l (redact_text m 900) (e_code r))
           | None, _ => usage "a diagnostic event needs level"
           | _, None => usage "a diagnostic event needs message"
           end
      end
  end.

Definition handle_emit (r : emit_request) (lock : result state_error string) (now : string) : M Z :=
  let op := e_operation r in
  let! bound := lift lock in
  let! (j, d) := bound_journal op bound in
  let! e := lift (emitted_event r (next_sequence d j) now) in
  let! _ := write_or_fail ("event sequence " +:+ pretty (ev_sequence e) +:+ " of " +:+ op)
              (write_counter op (ev_sequence e)) in
  let! _ := modify (emit e) in
  ret (ev_sequence e).

Record listing := Listing {
  l_operations : Z; l_omitted : Z; l_unfinished : list string; l_inspection : list string;
  l_protected : gset string; l_releasable : gset string; l_complete : bool; l_warnings : list string }.

Definition unfinished_record (r : record) : bool :=
  match record_journal r with Some j => negb (finished j) | None => false end.

Definition handle_list (path : string) (lock : result state_error string) (now : string) : M listing :=
  let! bound := lift lock in
  let! _ := open_operations path in
  let! w := get in
  let! (rs, warnings) := reconcile (read_records (operations w)) bound now in
  let! index := write_index rs in
  match index with
  | Err d => throw (write_failure "history.json" d)
  | Ok omitted =>
      let '(protected, releasable, complete) := retention rs in
      ret (Listing (Z.of_nat (length rs)) omitted (map name (List.filter unfinished_record rs))
             (map (fun r => display_name (name r)) (List.filter (fun r => negb (is_some (record_journal r))) rs))
             protected releasable complete (warning_lines warnings))
  end.

(** [_status]: the lock's owner record gives the live process and its operation. *)
Inductive status := SFinished | SUnfinished | SRunning | SAbandoned.

Definition status_of (owner : option string) (alive : bool) (j : journal) : status :=
  if finished j then SFinished
  else if negb (in_progress j) then SUnfinished
  else if alive && bool_decide (owner = Some (operation_id j)) then SRunning else SAbandoned.

(** What [inspect] reports: the status, the state shown and the journal. *)
Definition handle_inspect (op : string) (owner : option string) (alive : bool)
    : M (status * string * journal) :=
  let! w := get in
  match operations w with
  | None => raise USAGE ("no operation " +:+ op +:+ " exists")
  | Some t =>
      match t !! op with
      | None => raise USAGE ("no operation " +:+ op +:+ " exists")
      | Some _ =>
          let r := read_record t op in
          match record_journal r with
          | None =>
              let why := redact_text (reason r) 256 in
              throw (StateError (if unsupported r then UNSUPPORTED else MANUAL)
                       (op +:+ " requires inspection: " +:+ why) ["inspection_required=yes"; "reason=" +:+ why])
          | Some j =>
              let s := status_of owner alive j in
              ret (s, match s, last_record j with
                      | SAbandoned, _ => "interrupted"
                      | _, Some c => state_name (state c)
                      | _, None => EmptyString
                      end, j)
          end
      end
  end.

(** *** Serving requests *)

Inductive request :=
| RBegin (r : begin_request) (earlier now suffix : string)
| RCheckpoint (r : checkpoint_request) (now : string)
| REmit (r : emit_request) (now : string)
| RList (now : string)
| RInspect (op : string) (owner : option string) (alive : bool).

Definition void {A} (m : M A) : M unit := let! _ := m in ret tt.

Definition handle (path : string) (q : request) (lock : result state_error string) : M unit :=
  match q with
  | RBegin r earlier now suffix => void (handle_begin r path lock earlier now suffix)
  | RCheckpoint r now => void (handle_checkpoint r lock now)
  | REmit r now => void (handle_emit r lock now)
  | RList now => void (handle_list path lock now)
  | RInspect op owner alive => void (handle_inspect op owner alive)
  end.

(** [run]: the exit status and the world after it. *)
Definition run (path : string) (q : request) (lock : result state_error string) (w : world) : Z * world :=
  match handle path q lock w with
  | (Ok _, w') => (0, w')
  | (Err e, w') => (exit_status (err_code e), w')
  end.

End Handlers.
End Store.
