(* ===== verification/LifecycleNumbers.v ===== *)
(** Numbers as the lifecycle tree writes and reads them: the counter file and
    the operation number ([deploy/scripts/lifecycle-state.py], [_read_counter],
    [_today_ids] and the operation name of [handle_begin]). *)
From S2P Require Import Prelude Sha256 Json Regex Canonical LifecycleContract LifecycleSchema LifecycleStore.
Open Scope Z_scope.

Module Numbers.
Import Schema Store.

Lemma code_pretty_N_char (d : N) : (d < 10)%N -> Prelude.code (pretty_N_char d) = 48 + Z.of_N d.
Proof.
  intros H. assert (d = 0 \/ d = 1 \/ d = 2 \/ d = 3 \/ d = 4 \/ d = 5 \/ d = 6 \/ d = 7 \/ d = 8 \/ d = 9)%N
    as Hd by lia. destruct_or! Hd; subst; reflexivity.
Qed.

Lemma digits_pretty_N_go x s : digits 0 (pretty_N_go x s) = digits (Z.of_N x) s.
Proof.
  revert s. induction (N.lt_wf_0 x) as [x _ IH]; intros s.
  destruct (decide (x = 0)%N) as [-> |]; [done |].
  rewrite pretty_N_go_step by lia. rewrite IH by (apply N.div_lt; lia). simpl.
  rewrite code_pretty_N_char by (apply N.mod_lt; lia). f_equal.
  rewrite N2Z.inj_div, N2Z.inj_mod. pose proof (Z.div_mod (Z.of_N x) 10). lia.
Qed.

Lemma pretty_pos (n : Z) : 0 < n -> pretty n = pretty_N_go (Z.to_N n) EmptyString.
Proof.
  intros H. destruct n as [| p | p]; try lia. unfold pretty, pretty_Z, pretty, pretty_positive, pretty, pretty_N.
  by case_decide.
Qed.

Lemma digits_pretty n : 0 < n -> digits 0 (pretty n) = n.
Proof. intros H. rewrite pretty_pos, digits_pretty_N_go by done. simpl. lia. Qed.

(** A positive number's text: a digit other than 0, then digits. *)
Lemma pretty_N_go_shape k x s :
  (0 < x < 10 ^ N.of_nat (S k))%N ->
  exists c r, pretty_N_go x s = String c (r +:+ s) /\ Regex.range 49 57 c = true /\
    str_forallb Regex.digit r = true /\ (String.length r <= k)%nat.
Proof.
  revert x s; induction k as [| k IH]; intros x s Hx.
  - rewrite pretty_N_go_step by lia. simpl in Hx. rewrite N.div_small, N.mod_small by lia.
    exists (pretty_N_char x), EmptyString. rewrite pretty_N_go_0. split_and!; try done.
    unfold Regex.range. rewrite code_pretty_N_char by lia. apply andb_true_iff. lia.
  - rewrite pretty_N_go_step by lia. destruct (decide (x < 10)%N) as [Hs | Hs].
    + rewrite N.div_small, N.mod_small by lia.
      exists (pretty_N_char x), EmptyString. rewrite pretty_N_go_0. split_and!; try done; [| simpl; lia].
      unfold Regex.range. rewrite code_pretty_N_char by lia. apply andb_true_iff. lia.
    + destruct (IH (x `div` 10)%N (String (pretty_N_char (x `mod` 10)) s)) as (c & r & E & Hc & Hr & Hl).
      { split; [apply N.div_str_pos; lia |]. apply N.Div0.div_lt_upper_bound.
        replace (N.of_nat (S (S k))) with (N.succ (N.of_nat (S k))) in Hx by lia.
        rewrite N.pow_succ_r' in Hx. lia. }
      exists c, (r +:+ String (pretty_N_char (x `mod` 10)) EmptyString). rewrite E.
      split_and!; [| done | |].
      * by rewrite <- str_app_assoc.
      * clear - Hr. induction r as [| d r IH]; simpl in *.
        -- rewrite andb_true_r. unfold Regex.digit, Regex.range.
           rewrite code_pretty_N_char by (apply N.mod_lt; lia). apply andb_true_iff.
           generalize (N.mod_lt x 10 ltac:(lia)). generalize (x `mod` 10)%N. intros; lia.
        -- apply andb_true_iff in Hr as [-> Hr]. by apply IH.
      * rewrite str_length_app. simpl. lia.
Qed.

Lemma pretty_shape k n :
  0 < n < 10 ^ Z.of_nat (S k) ->
  exists c r, pretty n = String c r /\ Regex.range 49 57 c = true /\
    str_forallb Regex.digit r = true /\ (String.length r <= k)%nat.
Proof.
  intros Hn. rewrite pretty_pos by lia.
  destruct (pretty_N_go_shape k (Z.to_N n) EmptyString) as (c & r & E & H).
  { split; [lia |]. apply N2Z.inj_lt. rewrite N2Z.inj_pow, Z2N.id by lia.
    replace (Z.of_N (N.of_nat (S k))) with (Z.of_nat (S k)) by lia. simpl (Z.of_N 10). lia. }
  exists c, r. rewrite E. split; [| done]. f_equal. clear. induction r; simpl; congruence.
Qed.

(** What [write_atomic(op_fd, "sequence", ...)] stores, [_read_counter] returns. *)
Lemma counter_roundtrip n f : 0 < n < 10 ^ 16 -> read_counter (OpDir (Some (pretty n)) f) = n.
Proof.
  intros Hn. unfold read_counter; cbn [counter].
  destruct (pretty_shape 15 n) as (c & r & E & Hc & Hr & Hl); [done |].
  replace (Regex.fullmatch counter_pattern (pretty n)) with true; [apply digits_pretty; lia |].
  symmetry. apply Regex.fullmatch_correct. rewrite E. apply Regex.lang_cons; [done |].
  by apply Regex.lang_up_to.
Qed.

(** *** Operation numbers *)

Lemma digits_bound a s :
  0 <= a -> str_forallb Regex.digit s = true -> digits a s < (a + 1) * 10 ^ Z.of_nat (String.length s).
Proof.
  revert a; induction s as [| c s IH]; intros a Ha Hs; cbn [digits str_forallb String.length] in *; [lia |].
  apply andb_true_iff in Hs as [Hc Hs]. unfold Regex.digit, Regex.range in Hc. apply andb_true_iff in Hc.
  specialize (IH (10 * a + (Prelude.code c - 48)) ltac:(lia) Hs).
  rewrite Nat2Z.inj_succ, Z.pow_succ_r by lia.
  assert (0 < 10 ^ Z.of_nat (String.length s)) by (apply Z.pow_pos_nonneg; lia). nia.
Qed.

Lemma digit_of_nonzero c : Regex.range 49 57 c = true -> Regex.digit c = true.
Proof. unfold Regex.digit, Regex.range. rewrite !andb_true_iff. lia. Qed.

(** The text of a number below [10^9]. *)
Lemma pretty_digits n :
  0 < n <= 999999999 ->
  str_forallb Regex.digit (pretty n) = true /\ (1 <= String.length (pretty n) <= 9)%nat.
Proof.
  intros Hn. destruct (pretty_shape 8 n) as (c & r & -> & Hc & Hr & Hl); [lia |].
  simpl. rewrite (digit_of_nonzero c Hc), Hr. split; [done | lia].
Qed.

Lemma pretty_length_ge n k :
  0 < n <= 999999999 -> 10 ^ Z.of_nat k <= n -> (k < String.length (pretty n))%nat.
Proof.
  intros Hn Hk. destruct (pretty_digits n Hn) as [Hd _].
  pose proof (digits_bound 0 (pretty n) ltac:(lia) Hd) as Hb. rewrite digits_pretty in Hb by lia.
  apply Nat2Z.inj_lt. apply (Z.pow_lt_mono_r_iff 10); lia.
Qed.

Lemma pretty_length_le n k :
  0 < n < 10 ^ Z.of_nat (S k) -> (String.length (pretty n) <= S k)%nat.
Proof. intros Hn. destruct (pretty_shape k n Hn) as (c & r & -> & _ & _ & Hl). simpl. lia. Qed.

Lemma pad3_digits n :
  0 < n <= 999999999 ->
  str_forallb Regex.digit (pad3 n) = true /\ (3 <= String.length (pad3 n) <= 9)%nat /\ digits 0 (pad3 n) = n.
Proof.
  intros Hn. unfold pad3. destruct (pretty_digits n Hn) as [Hd Hl].
  destruct (n <? 10) eqn:E1; [| destruct (n <? 100) eqn:E2].
  - pose proof (pretty_length_le n 0 ltac:(lia)). cbn. rewrite Hd, digits_pretty by lia.
    split_and!; done || lia.
  - pose proof (pretty_length_le n 1 ltac:(lia)). pose proof (pretty_length_ge n 1 Hn ltac:(lia)).
    cbn. rewrite Hd, digits_pretty by lia. split_and!; done || lia.
  - pose proof (pretty_length_ge n 2 Hn ltac:(lia)). rewrite digits_pretty by lia. split_and!; done || lia.
Qed.

Lemma substring_drop x y n : (String.length y <= n)%nat -> substring (String.length x) n (x +:+ y) = y.
Proof.
  intros Hn. induction x as [| c x IH]; simpl; [| done].
  revert n Hn; induction y as [| c y IH]; intros [| n] Hn; simpl in *; try done; [lia |].
  by rewrite IH by lia.
Qed.

Definition op_name (day : string) (n : Z) : string := "op-" +:+ day +:+ "-" +:+ pad3 n.

Lemma day_number_op_name day n : 0 < n <= 999999999 -> day_number day (op_name day n) = Some n.
Proof.
  intros Hn. destruct (pad3_digits n Hn) as (Hd & Hl & Hv). unfold day_number.
  assert (Regex.fullmatch (seqs [Regex.word "op-"; Regex.word day; Regex.lit "-";
            Regex.between 3 9 (Regex.Chr Regex.digit)]) (op_name day n) = true) as ->.
  { apply Regex.fullmatch_correct. unfold op_name.
    apply (Regex.lang_seq _ _ "op-"); [apply Regex.lang_word |].
    apply (Regex.lang_seq _ _ day); [apply Regex.lang_word |].
    apply (Regex.lang_seq _ _ "-"); [apply Regex.lang_lit |].
    replace (pad3 n) with (pad3 n +:+ EmptyString) by (generalize (pad3 n); induction s; simpl; congruence).
    apply (Regex.lang_seq _ _ (pad3 n) EmptyString); [| constructor]. by apply Regex.lang_between. }
  unfold op_name. f_equal.
  replace ("op-" +:+ day +:+ "-" +:+ pad3 n) with (("op-" +:+ day +:+ "-") +:+ pad3 n)
    by (simpl; by rewrite <- !str_app_assoc).
  replace (4 + String.length day)%nat with (String.length ("op-" +:+ day +:+ "-"))
    by (rewrite !str_length_app; simpl; lia).
  rewrite substring_drop by (rewrite !str_length_app; lia). done.
Qed.

Lemma today_ids_ge names day n k :
  n ∈ names -> day_number day n = Some k -> k <= today_ids names day.
Proof.
  intros Hin E. induction Hin as [n names | n m names _ IH]; simpl.
  - rewrite E. lia.
  - specialize (IH E). destruct (day_number day m); lia.
Qed.

Lemma today_ids_nonneg names day : 0 <= today_ids names day.
Proof. induction names as [| n names IH]; simpl; [lia |]. destruct (day_number day n); lia. Qed.

(** The number [handle_begin] takes names no existing entry. *)
Lemma op_name_fresh names day :
  today_ids names day + 1 <= 999999999 -> op_name day (today_ids names day + 1) ∉ names.
Proof.
  intros Hle Hin. pose proof (today_ids_nonneg names day).
  pose proof (today_ids_ge names day _ _ Hin (day_number_op_name day (today_ids names day + 1) ltac:(lia))). lia.
Qed.

End Numbers.
