(* ===== verification/LifecycleInvariant.v ===== *)
(** The invariant of the lifecycle state tree ([deploy/scripts/lifecycle-state.py]):
    every request, with any of its writes failing, leaves every operation's
    journal valid, at most one transaction unfinished, and the event sequences
    of an operation increasing. *)
From S2P Require Import Prelude Sha256 Json Regex Canonical LifecycleContract LifecycleSchema LifecycleJournal.
From S2P Require Import LifecycleStore LifecycleNumbers.
Open Scope Z_scope.

Module Invariant.
Import Contract Schema Store Numbers.

(** *** Safe sequences *)

Lemma valid_sequence_safe j c :
  validate_document j = None -> c ∈ checkpoints j -> sequence c <= Canonical.MAX_SAFE.
Proof.
  unfold validate_document.
  destruct (Canonical.canonicalize (journal_json j)) as [t |] eqn:E; [| done]. intros _ Hc.
  enough (Z.abs (sequence c) <= Canonical.MAX_SAFE) by lia.
  eapply Canonical.canonical_safe; [exact E |].
  apply (Canonical.contains_member _ _ "checkpoints" (Json.JList (map record_json (checkpoints j)))).
  - set_solver.
  - apply (Canonical.contains_item _ _ (record_json c)).
    + apply list_elem_of_In, in_map. by apply list_elem_of_In.
    + apply (Canonical.contains_member _ _ "sequence" (Json.JInt (sequence c))); [| constructor].
      simpl. set_solver.
Qed.

Lemma valid_journal_id j : validate_document j = None -> valid_operation_id (operation_id j) = true.
Proof.
  intros H%validate_check. unfold check_journal in H. cbn [check_all] in H.
  apply orelse_none in H as [H _]. unfold check_operation_id in H. apply orelse_none in H as [H1 H2].
  unfold refuse_if in H1, H2. unfold valid_operation_id.
  destruct (Regex.fullmatch _ _), (operation_id_format _); done.
Qed.

Lemma valid_id_visible n : valid_operation_id n = true -> hidden n = false.
Proof.
  unfold valid_operation_id. intros [H _]%andb_true_iff. destruct n as [| c s]; [done |].
  unfold hidden. cbn [String.prefix]. destruct (ascii_dec "." c) as [<- |]; [| done]. exfalso.
  assert (forall s, Regex.fullmatch Regex.Empty s = false) as He by (intros x; induction x; done).
  change (Regex.fullmatch Regex.Empty s = true) in H. by rewrite He in H.
Qed.

#[local] Opaque validate_document.

(** *** The invariant *)

Definition operation_at (o : option tree) (n : string) (d : opdir) (j : journal) : Prop :=
  exists t, o = Some t /\ t !! n = Some (Directory d) /\ journal_file d = JournalFile j.

Definition level (d : opdir) (j : journal) : Z := Z.max (read_counter d) (durable_sequence j).

Definition open_transaction (j : journal) : Prop := kind_of j = Transaction /\ finished j = false.

Record store_ok (o : option tree) (es : list event) : Prop := {
  ok_entries t n e : o = Some t -> t !! n = Some e -> hidden n = false ->
    exists d j, e = Directory d /\ journal_file d = JournalFile j /\
      validate_document j = None /\ operation_id j = n;
  ok_unique n m d d' j j' : hidden n = false -> hidden m = false ->
    operation_at o n d j -> operation_at o m d' j' ->
    open_transaction j -> open_transaction j' -> n = m;
  ok_levels e : e ∈ es -> hidden (ev_operation e) = false /\
    exists d j, operation_at o (ev_operation e) d j /\ ev_sequence e <= level d j;
  ok_increasing l1 e l2 e' l3 : es = l1 ++ e :: l2 ++ e' :: l3 ->
    ev_operation e = ev_operation e' -> ev_sequence e < ev_sequence e'
}.

Lemma operation_at_inj o n d d' j j' :
  operation_at o n d j -> operation_at o n d' j' -> d = d' /\ j = j'.
Proof. intros (t & -> & Ht & Hj) (t' & [= <-] & Ht' & Hj'). rewrite Ht in Ht'. simplify_eq. split; congruence. Qed.

Lemma store_ok_valid o es n d j :
  store_ok o es -> hidden n = false -> operation_at o n d j ->
  validate_document j = None /\ operation_id j = n.
Proof.
  intros Hok Hn (t & -> & Ht & Hj).
  destruct (ok_entries _ _ Hok t n _ eq_refl Ht Hn) as (d' & j' & [= <-] & Hj' & Hv & Hid).
  simplify_eq. by replace j with j' by congruence.
Qed.

(** *** Sequences *)

Lemma durable_sequence_ge j c : c ∈ checkpoints j -> sequence c <= durable_sequence j.
Proof.
  unfold durable_sequence. intros H. induction H as [c l | c x l H IH]; simpl; [lia | lia].
Qed.


Lemma next_sequence_level d j : next_sequence d j = level d j + 1.
Proof. done. Qed.

Lemma durable_nonneg j : 0 <= durable_sequence j.
Proof. unfold durable_sequence. induction (checkpoints j); simpl; lia. Qed.

Lemma level_counter seq f j :
  0 < seq <= Canonical.MAX_SAFE -> durable_sequence j <= seq ->
  level (OpDir (Some (pretty seq)) f) j = seq.
Proof.
  intros Hs Hd. unfold level. rewrite counter_roundtrip; [lia |].
  unfold Canonical.MAX_SAFE in Hs. lia.
Qed.

(** *** Effects on one operation *)

Definition touched (n : string) (d : opdir) (t : tree) : tree := <[n := Directory d]> t.

Lemma operation_at_touched t n d m e j :
  operation_at (Some (touched n d t)) m e j ->
  n = m /\ e = d /\ journal_file d = JournalFile j \/ n <> m /\ operation_at (Some t) m e j.
Proof.
  intros (t' & [= <-] & Ht & Hj). unfold touched in Ht. destruct (decide (n = m)) as [-> | Hne].
  - rewrite lookup_insert_eq in Ht. simplify_eq. by left.
  - rewrite lookup_insert_ne in Ht by done. right. split; [done |]. by exists t.
Qed.

(** Replacing an operation's directory keeps the invariant when the journal is
    valid, its level does not drop, and it does not reopen a transaction. *)
Lemma touch_ok t es n d d' j j' :
  store_ok (Some t) es -> hidden n = false -> operation_at (Some t) n d j ->
  journal_file d' = JournalFile j' -> validate_document j' = None -> operation_id j' = n ->
  (open_transaction j' -> open_transaction j) -> level d j <= level d' j' ->
  store_ok (Some (touched n d' t)) es.
Proof.
  intros Hok Hn Hat Hj' Hv Hid Hopen Hlevel. split.
  - intros t' m e [= <-] Hm Hh. unfold touched in Hm. destruct (decide (n = m)) as [-> | Hne].
    + rewrite lookup_insert_eq in Hm. simplify_eq. by exists d', j'.
    + rewrite lookup_insert_ne in Hm by done. by apply (ok_entries _ _ Hok t m e).
  - intros m1 m2 e1 e2 j1 j2 H1 H2 A1 A2 O1 O2.
    apply operation_at_touched in A1 as [(<- & -> & E1) | (N1 & A1)];
      apply operation_at_touched in A2 as [(<- & -> & E2) | (N2 & A2)]; try done.
    + apply (ok_unique _ _ Hok n m2 d e2 j j2); try done. apply Hopen. congruence.
    + apply (ok_unique _ _ Hok m1 n e1 d j1 j); try done. apply Hopen. congruence.
    + by apply (ok_unique _ _ Hok m1 m2 e1 e2 j1 j2).
  - intros ev Hev. destruct (ok_levels _ _ Hok ev Hev) as (Hh & e & k & Hat' & Hle). split; [done |].
    destruct (decide (n = ev_operation ev)) as [-> | Hne].
    + destruct (operation_at_inj _ _ _ _ _ _ Hat Hat') as [<- <-]. exists d', j'. split; [| lia].
      exists (touched (ev_operation ev) d' t). unfold touched. by rewrite lookup_insert_eq.
    + exists e, k. split; [| done]. destruct Hat' as (t' & [= <-] & Ht & Hk).
      exists (touched n d' t). unfold touched. by rewrite lookup_insert_ne.
  - apply (ok_increasing _ _ Hok).
Qed.

(** Changing hidden names only keeps it. *)
Lemma hidden_ok t t' es :
  store_ok (Some t) es -> (forall n, hidden n = false -> t' !! n = t !! n) -> store_ok (Some t') es.
Proof.
  intros Hok Heq.
  assert (forall n d j, hidden n = false -> operation_at (Some t') n d j <-> operation_at (Some t) n d j) as Hat.
  { intros n d j Hn. split; intros (u & [= <-] & Hu & Hj); [exists t | exists t']; split_and!; try done;
      [rewrite <- Heq by done | rewrite Heq by done]; done. }
  split.
  - intros u n e [= <-] Hu Hn. rewrite Heq in Hu by done. by apply (ok_entries _ _ Hok t n e).
  - intros n m d d' j j' Hn Hm A A'. apply Hat in A; [| done]. apply Hat in A'; [| done].
    by apply (ok_unique _ _ Hok n m d d').
  - intros ev Hev. destruct (ok_levels _ _ Hok ev Hev) as (Hh & d & j & A & Hle). split; [done |].
    exists d, j. by rewrite Hat.
  - apply (ok_increasing _ _ Hok).
Qed.

(** A fresh operation keeps it when no transaction is open. *)
Lemma add_ok t es n d j :
  store_ok (Some t) es -> hidden n = false -> t !! n = None ->
  journal_file d = JournalFile j -> validate_document j = None -> operation_id j = n ->
  (forall m e k, hidden m = false -> operation_at (Some t) m e k -> ~ open_transaction k) ->
  store_ok (Some (touched n d t)) es.
Proof.
  intros Hok Hn Hnone Hj Hv Hid Hclosed. split.
  - intros t' m e [= <-] Hm Hh. unfold touched in Hm. destruct (decide (n = m)) as [-> | Hne].
    + rewrite lookup_insert_eq in Hm. simplify_eq. by exists d, j.
    + rewrite lookup_insert_ne in Hm by done. by apply (ok_entries _ _ Hok t m e).
  - intros m1 m2 e1 e2 j1 j2 H1 H2 A1 A2 O1 O2.
    apply operation_at_touched in A1 as [(<- & -> & E1) | (N1 & A1)];
      apply operation_at_touched in A2 as [(<- & -> & E2) | (N2 & A2)]; try done.
    + by destruct (Hclosed m2 e2 j2 H2 A2).
    + by destruct (Hclosed m1 e1 j1 H1 A1).
    + by apply (ok_unique _ _ Hok m1 m2 e1 e2 j1 j2).
  - intros ev Hev. destruct (ok_levels _ _ Hok ev Hev) as (Hh & e & k & (t' & [= <-] & Ht & Hk) & Hle).
    split; [done |]. exists e, k. split; [| done]. exists (touched n d t). unfold touched.
    rewrite lookup_insert_ne; [done |]. congruence.
  - apply (ok_increasing _ _ Hok).
Qed.

(** An event above every earlier one of its operation, within its level. *)
Lemma emit_ok o es e d j :
  store_ok o es -> hidden (ev_operation e) = false -> operation_at o (ev_operation e) d j ->
  ev_sequence e <= level d j ->
  (forall e', e' ∈ es -> ev_operation e' = ev_operation e -> ev_sequence e' < ev_sequence e) ->
  store_ok o (es ++ [e]).
Proof.
  intros Hok Hh Hat Hle Hlt. split.
  - apply (ok_entries _ _ Hok).
  - apply (ok_unique _ _ Hok).
  - intros ev [Hev | ->%list_elem_of_singleton]%elem_of_app; [by apply (ok_levels _ _ Hok) |].
    split; [done |]. by exists d, j.
  - intros l1 a l2 b l3 E Hop. destruct l3 as [| c l3 _] using rev_ind.
    + replace (l1 ++ a :: l2 ++ [b]) with ((l1 ++ a :: l2) ++ [b]) in E by by rewrite <- app_assoc.
      apply app_inj_tail in E as [-> ->]. apply Hlt; [set_solver | done].
    + replace (l1 ++ a :: l2 ++ b :: l3 ++ [c]) with ((l1 ++ a :: l2 ++ b :: l3) ++ [c]) in E
        by (rewrite <- !app_assoc; simpl; by rewrite <- !app_assoc).
      apply app_inj_tail in E as [-> _]. by apply (ok_increasing _ _ Hok l1 a l2 b l3).
Qed.

(** *** Writes *)

Definition same (w w' : world) : Prop := operations w' = operations w /\ emitted w' = emitted w.

Lemma attempt_inv f w r w' :
  attempt f w = (r, w') ->
  exists w0 o, same w w0 /\ r = Ok o /\ (w' = f w0 \/ w' = w0 /\ o <> None).
Proof.
  unfold attempt. destruct (script w) as [| [| [] d] s]; intros [= <- <-].
  - exists w, None. split_and!; [done | done | by left].
  - eexists (World _ _ _ s), None. split_and!; [by split | done | by left].
  - eexists (World _ _ _ s), (Some d). split_and!; [by split | done | by left].
  - eexists (World _ _ _ s), (Some d). split_and!; [by split | done | by right].
Qed.

Lemma write_or_fail_inv what f w r w' :
  write_or_fail what f w = (r, w') ->
  exists w0, same w w0 /\ (w' = f w0 \/ w' = w0 /\ r <> Ok tt).
Proof.
  unfold write_or_fail, bind. destruct (attempt f w) as [r0 w1] eqn:E.
  apply attempt_inv in E as (w0 & o & Hs & -> & Hw). intros H. exists w0. split; [done |].
  destruct o; simpl in H; injection H as <- <-; naive_solver.
Qed.

Lemma update_opdir_at n f d j w :
  operation_at (operations w) n d j ->
  exists t, operations w = Some t /\ operations (update_opdir n f w) = Some (touched n (f d) t) /\
    emitted (update_opdir n f w) = emitted w.
Proof.
  intros (t & Ew & Ht & Hj). exists t. unfold update_opdir. rewrite Ew, Ht. by split_and!.
Qed.

(** Only the entry [n] may differ. *)
Definition only_changed (n : string) (o o' : option tree) : Prop :=
  exists t t', o = Some t /\ o' = Some t' /\ (forall m, m <> n -> t' !! m = t !! m) /\ is_Some (t' !! n).

Lemma only_changed_touched n d t : only_changed n (Some t) (Some (touched n d t)).
Proof.
  exists t, (touched n d t). unfold touched. split_and!; try done.
  - intros m Hm. by rewrite lookup_insert_ne.
  - rewrite lookup_insert_eq. by eexists.
Qed.

Lemma only_changed_trans n o1 o2 o3 : only_changed n o1 o2 -> only_changed n o2 o3 -> only_changed n o1 o3.
Proof.
  intros (t1 & t2 & -> & -> & H1 & _) (t & t3 & [= <-] & -> & H2 & Hs). exists t1, t3. split_and!; try done.
  intros m Hm. by rewrite H2, H1.
Qed.

Lemma only_changed_refl n o d j : operation_at o n d j -> only_changed n o o.
Proof. intros (t & -> & Ht & _). by exists t, t. Qed.

(** One write to an operation's directory, whatever becomes of it. *)
Lemma write_op_ok what n f d j j' w r w' :
  store_ok (operations w) (emitted w) -> hidden n = false -> operation_at (operations w) n d j ->
  journal_file (f d) = JournalFile j' -> validate_document j' = None -> operation_id j' = n ->
  (open_transaction j' -> open_transaction j) -> level d j <= level (f d) j' ->
  write_or_fail what (update_opdir n f) w = (r, w') ->
  store_ok (operations w') (emitted w') /\ emitted w' = emitted w /\
  only_changed n (operations w) (operations w') /\
  (operation_at (operations w') n (f d) j' \/ r <> Ok tt).
Proof.
  intros Hok Hn Hat Hj Hv Hid Hopen Hlevel E. apply write_or_fail_inv in E as (w0 & [Ho Hem] & Hw).
  rewrite <- Ho in Hat.
  destruct (update_opdir_at n f d j w0 Hat) as (t & Et & Eo & Ee).
  destruct Hw as [-> | [-> Hr]].
  - rewrite Eo, Ee, Hem, <- Ho, Et. split_and!; [| done | apply only_changed_touched |].
    + eapply (touch_ok t (emitted w) n d (f d) j j'); try done; congruence.
    + left. exists (touched n (f d) t). unfold touched. by rewrite lookup_insert_eq.
  - rewrite Ho, Hem in *. split_and!; try done; [by eapply only_changed_refl | by right].
Qed.

(** What a record's two writes leave, whatever becomes of them. *)
Lemma write_record_ok what n seq j' d j w r w' :
  store_ok (operations w) (emitted w) -> hidden n = false -> operation_at (operations w) n d j ->
  seq = next_sequence d j -> validate_document j' = None -> operation_id j' = n ->
  (exists c, c ∈ checkpoints j' /\ sequence c = seq) -> (open_transaction j' -> open_transaction j) ->
  write_record what n seq j' w = (r, w') ->
  store_ok (operations w') (emitted w') /\ emitted w' = emitted w /\
  only_changed n (operations w) (operations w') /\
  (r = Ok tt -> operation_at (operations w') n (OpDir (Some (pretty seq)) (JournalFile j')) j').
Proof.
  intros Hok Hn Hat Eseq Hv Hid (c & Hc & Ec) Hopen.
  destruct (store_ok_valid _ _ _ _ _ Hok Hn Hat) as [Hvj Hidj].
  rewrite next_sequence_level in Eseq. pose proof (durable_nonneg j) as Hdn.
  assert (durable_sequence j <= seq) as Hd by (unfold level in Eseq; lia).
  assert (0 < seq <= Canonical.MAX_SAFE) as Hs.
  { pose proof (valid_sequence_safe j' c Hv Hc). unfold level in Eseq. lia. }
  assert (journal_file d = JournalFile j) as Hj by by destruct Hat as (? & _ & _ & Hj).
  unfold write_record, bind. destruct (write_or_fail what (write_counter n seq) w) as [r1 w1] eqn:E1.
  apply (write_op_ok what n _ d j j) in E1 as (Hok1 & Em1 & Hch1 & Hat1); try done;
    [| rewrite level_counter; lia].
  destruct r1 as [[] |]; [| intros [= <- <-]; by split_and!].
  destruct Hat1 as [Hat1 |]; [| done]. intros E2.
  apply (write_op_ok what n _ (OpDir (Some (pretty seq)) (journal_file d)) j j') in E2 as (Hok2 & Em2 & Hch2 & Hat2); try done.
  - split_and!; [done | congruence | by eapply only_changed_trans | naive_solver].
  - rewrite level_counter by done. pose proof (durable_sequence_ge j' c Hc). unfold level. lia.
Qed.

(** *** Reading *)

Lemma read_record_name t n : name (read_record t n) = n.
Proof. unfold read_record, bad_record. repeat case_match; done. Qed.

Lemma read_record_ext t t' n : t !! n = t' !! n -> read_record t n = read_record t' n.
Proof. intros E. unfold read_record. by rewrite E. Qed.

Lemma read_record_Some t n j :
  record_journal (read_record t n) = Some j ->
  exists d, t !! n = Some (Directory d) /\ journal_file d = JournalFile j /\
    validate_document j = None /\ operation_id j = n /\ valid_operation_id n = true.
Proof.
  unfold read_record. destruct (valid_operation_id n) eqn:En; [| done]. simpl.
  destruct (t !! n) as [[| d] |] eqn:Et; try done. destruct (journal_file d) as [| | j'] eqn:Ej; try done.
  destruct (validate_document j') as [[[| ? ?] r] |] eqn:Ev; try done.
  destruct (String.eqb_spec (operation_id j') n) as [E |]; [| done].
  intros [= <-]. by exists d.
Qed.

Lemma read_record_good t n d j :
  t !! n = Some (Directory d) -> journal_file d = JournalFile j -> validate_document j = None ->
  operation_id j = n -> read_record t n = Record_ n (Some j) EmptyString false.
Proof.
  intros Et Ej Hv <-. unfold read_record. rewrite (valid_journal_id j Hv), Et, Ej, Hv. simpl.
  by rewrite String.eqb_refl.
Qed.

(** *** Reconciliation *)

Lemma in_progress_open j : in_progress j = true -> finished j = false.
Proof. unfold in_progress. by destruct (finished j). Qed.

Lemma abandon_ok t n j now w r w' :
  store_ok (operations w) (emitted w) -> operations w = Some t ->
  record_journal (read_record t n) = Some j -> in_progress j = true ->
  abandon (read_record t n) j now w = (r, w') ->
  store_ok (operations w') (emitted w') /\ emitted w' = emitted w /\
  exists t', operations w' = Some t' /\ (forall m, m <> n -> t' !! m = t !! m) /\ is_Some (t' !! n) /\
    (forall rec warning, r = Ok (rec, warning) -> rec = read_record t' n).
Proof.
  intros Hok Et Hr Hp. pose proof (read_record_Some t n j Hr) as (d & En & Ej & Hv & Hid & Hvid).
  pose proof (valid_id_visible n Hvid) as Hh.
  assert (operation_at (operations w) n d j) as Hat by (exists t; by rewrite Et).
  unfold abandon, bind, get. rewrite read_record_name.
  replace (operations w ≫= fun t => find_opdir t n) with (Some d) by (rewrite Et; simpl; unfold find_opdir; by rewrite En).
  assert (forall rw, rw.1 = read_record t n -> (Ok rw, w) = (r, w') ->
    store_ok (operations w') (emitted w') /\ emitted w' = emitted w /\
    exists t', operations w' = Some t' /\ (forall m, m <> n -> t' !! m = t !! m) /\ is_Some (t' !! n) /\
      (forall rec warning, r = Ok (rec, warning) -> rec = read_record t' n)) as Hunchanged.
  { intros [rec0 warn0] E [= <- <-]. split_and!; try done. exists t. simpl in E. subst rec0.
    split_and!; try done. naive_solver. }
  destruct (last_record j) as [prev |]; [| by apply Hunchanged].
  destruct (validate_document (abandoned d j now prev)) eqn:Hva; [by apply Hunchanged |].
  destruct (write_record _ _ _ _ w) as [r1 w1] eqn:E1.
  apply (write_record_ok _ n _ _ d j) in E1 as (Hok1 & Em1 & (t0 & t1 & E0 & E1' & Hm & Hs) & Hat1); try done.
  - rewrite Et in E0. injection E0 as <-. destruct r1 as [[] |]; intros [= <- <-]; split_and!; try done; exists t1;
      split_and!; try done.
    intros rec warning [= <- _]. destruct (Hat1 eq_refl) as (t2 & E2 & Ht2 & Hj2).
    rewrite E1' in E2. injection E2 as <-. symmetry. by eapply read_record_good.
  - exists (abandon_entry (next_sequence d j) now prev). split; [| done]. simpl. set_solver.
  - intros [Hk _]. split; [done | by apply in_progress_open].
Qed.

(** [t'] differs from [t] at most in the entries of [ns], which both have. *)
Definition changed_within (ns : list string) (t t' : tree) : Prop :=
  (forall m, m ∉ ns -> t' !! m = t !! m) /\ (forall m, is_Some (t' !! m) <-> is_Some (t !! m)).

Lemma reconcile_one_ok t n bound now w r w' :
  store_ok (operations w) (emitted w) -> operations w = Some t -> is_Some (t !! n) ->
  reconcile_one (read_record t n) bound now w = (r, w') ->
  store_ok (operations w') (emitted w') /\ emitted w' = emitted w /\
  exists t', operations w' = Some t' /\ changed_within [n] t t' /\
    (forall rec warning, r = Ok (rec, warning) -> rec = read_record t' n).
Proof.
  intros Hok Et Hn. unfold reconcile_one.
  assert ((Ok (read_record t n, None), w) = (r, w') ->
    store_ok (operations w') (emitted w') /\ emitted w' = emitted w /\
    exists t', operations w' = Some t' /\ changed_within [n] t t' /\
      (forall rec warning, r = Ok (rec, warning) -> rec = read_record t' n)) as Hskip.
  { intros [= <- <-]. split_and!; try done. exists t. split_and!; try done. naive_solver. }
  destruct (record_journal (read_record t n)) as [j |] eqn:Ej; [| done].
  destruct (negb _ && in_progress j) eqn:Ep; [| done]. apply andb_true_iff in Ep as [_ Ep].
  intros E. apply (abandon_ok t n j) in E as (Hok' & Em & t' & Et' & Hm & Hs & Hr); try done.
  split_and!; try done. exists t'. split_and!; try done. split.
  - intros m Hne. apply Hm. set_solver.
  - intros m. destruct (decide (m = n)) as [-> | Hne]; [done |]. by rewrite Hm.
Qed.

Lemma reconcile_ok ns t bound now w r w' :
  store_ok (operations w) (emitted w) -> operations w = Some t -> NoDup ns ->
  (forall n, n ∈ ns -> is_Some (t !! n)) ->
  reconcile (map (read_record t) ns) bound now w = (r, w') ->
  store_ok (operations w') (emitted w') /\ emitted w' = emitted w /\
  exists t', operations w' = Some t' /\ changed_within ns t t' /\
    (forall rs warnings, r = Ok (rs, warnings) -> rs = map (read_record t') ns).
Proof.
  revert t w r w'; induction ns as [| n ns IH]; intros t w r w' Hok Et Hnd Hin; cbn [map reconcile].
  - intros [= <- <-]. split_and!; try done. exists t. split_and!; try done. naive_solver.
  - unfold bind at 1.
    destruct (reconcile_one (read_record t n) bound now w) as [r1 w1] eqn:E1.
    apply NoDup_cons in Hnd as [Hnn Hnd].
    apply reconcile_one_ok with (t := t) in E1 as (Hok1 & Em1 & t1 & Et1 & [Hm1 Hs1] & Hr1); try done;
      [| apply Hin; set_solver].
    destruct r1 as [[rec1 warn1] | e1].
    2:{ intros [= <- <-]. split_and!; try done. exists t1. split_and!; try done. split; [| done].
        intros m Hm. apply Hm1. set_solver. }
    assert (map (read_record t) ns = map (read_record t1) ns) as ->.
    { apply map_ext_in. intros m Hm%list_elem_of_In. apply read_record_ext. symmetry. apply Hm1. set_solver. }
    unfold bind at 1. destruct (reconcile (map (read_record t1) ns) bound now w1) as [r2 w2] eqn:E2.
    apply IH in E2 as (Hok2 & Em2 & t2 & Et2 & [Hm2 Hs2] & Hr2); try done.
    2:{ intros m Hm. apply Hs1, Hin. set_solver. }
    assert (changed_within (n :: ns) t t2) as Hch.
    { split; [| intros m; by rewrite Hs2]. intros m Hm. rewrite Hm2, Hm1; set_solver. }
    destruct r2 as [[rs2 warns2] | e2]; intros [= <- <-]; (split_and!; [done | congruence |]); exists t2;
      split_and!; try done.
    intros rs ws [= <- _]. cbn [map]. rewrite (Hr2 rs2 warns2 eq_refl), (Hr1 rec1 warn1 eq_refl). f_equal.
    apply read_record_ext. symmetry. by apply Hm2.
Qed.

(** *** A new operation *)

Lemma run_steps_cons undo fail f l w r w' :
  run_steps undo fail (f :: l) w = (r, w') ->
  exists w0, same w w0 /\
    (run_steps undo fail l (f w0) = (r, w') \/ r <> Ok tt /\ (w' = undo (f w0) \/ w' = undo w0)).
Proof.
  cbn [run_steps]. unfold bind at 1. destruct (attempt f w) as [r0 w1] eqn:E.
  apply attempt_inv in E as (w0 & o & Hs & -> & Hw). intros H. exists w0. split; [done |].
  destruct o as [d |]; [right | left; naive_solver]. cbn in H. injection H as <- <-. naive_solver.
Qed.

(** The trees a begin passes through before the rename differ from [t] in the
    staging directory only. *)
Definition staging_at (s : string) (t : tree) (o : option tree) : Prop :=
  exists t', o = Some t' /\ forall m, m <> s -> t' !! m = t !! m.

Lemma emitted_update n f w : emitted (update_opdir n f w) = emitted w.
Proof. unfold update_opdir. by repeat case_match. Qed.

Lemma staging_update s f t w :
  staging_at s t (operations w) -> staging_at s t (operations (update_opdir s f w)).
Proof.
  intros (t' & E & Hm). unfold update_opdir. rewrite E.
  destruct (t' !! s) as [[|] |] eqn:Es; simpl; rewrite ?E; eexists; split; try done.
  intros m Hne. by rewrite lookup_insert_ne, Hm.
Qed.

Lemma staging_undo s t w :
  staging_at s t (operations w) -> staging_at s t (operations (map_tree (delete s) w)).
Proof.
  intros (t' & E & Hm). unfold map_tree. simpl. rewrite E. eexists. split; [done |].
  intros m Hne. by rewrite lookup_delete_ne, Hm.
Qed.

Lemma staging_ok s t o es : hidden s = true -> store_ok (Some t) es -> staging_at s t o -> store_ok o es.
Proof. intros Hs Hok (t' & -> & Hm). apply (hidden_ok t); [done |]. intros n Hn. apply Hm. congruence. Qed.

(** One step on the staging directory. *)
Lemma staging_step s fail f l t w r w' :
  staging_at s t (operations w) -> (forall w0, emitted (f w0) = emitted w0) ->
  (forall w0, staging_at s t (operations w0) -> staging_at s t (operations (f w0))) ->
  run_steps (map_tree (delete s)) fail (f :: l) w = (r, w') ->
  (r <> Ok tt /\ staging_at s t (operations w') /\ emitted w' = emitted w) \/
  (exists w0, same w w0 /\ run_steps (map_tree (delete s)) fail l (f w0) = (r, w')).
Proof.
  intros Hst Hem Hf H. apply run_steps_cons in H as (w0 & [Eo Ee] & H). rewrite <- Eo in Hst.
  destruct H as [H | (Hr & Hw)]; [right; by exists w0 | left]. split; [done |].
  destruct Hw as [-> | ->]; (split; [by eauto using staging_undo |]); unfold map_tree; cbn [emitted set_operations];
    rewrite ?Hem; congruence.
Qed.

(** The steps before the rename: either the staging directory holds the record,
    or the run failed and only the staging directory may differ. *)
Lemma stage_prefix s j fail last_step t w r w' :
  operations w = Some t ->
  run_steps (map_tree (delete s)) fail
    [map_tree (<[s := Directory (OpDir None NoFile)]>); write_counter s 1; write_journal s j; last_step] w = (r, w') ->
  (r <> Ok tt /\ staging_at s t (operations w') /\ emitted w' = emitted w) \/
  (exists w3, operations w3 = Some (<[s := Directory (OpDir (Some "1") (JournalFile j))]> t) /\
     emitted w3 = emitted w /\ run_steps (map_tree (delete s)) fail [last_step] w3 = (r, w')).
Proof.
  intros Et H. assert (staging_at s t (operations w)) as H0 by (rewrite Et; by exists t).
  assert (forall e w0, staging_at s t (operations w0) -> staging_at s t (operations (map_tree <[s := e]> w0))) as Hins.
  { intros e w0 (t' & E & Hm). unfold map_tree; simpl. rewrite E. eexists; split; [done |].
    intros m Hne. by rewrite lookup_insert_ne, Hm. }
  apply (staging_step s fail _ _ t) in H as [? | (w0 & [Eo0 Em0] & H)]; [by left | | done | done | apply Hins].
  assert (staging_at s t (operations (map_tree <[s := Directory (OpDir None NoFile)]> w0))) as H1
    by (apply Hins; by rewrite Eo0).
  apply (staging_step s fail _ _ t) in H as [(? & ? & Em) | (w1 & [Eo1 Em1] & H)];
    [left; split_and!; [done | done | by rewrite Em] | | done | intros; apply emitted_update | intros; by apply staging_update].
  assert (staging_at s t (operations (write_counter s 1 w1))) as H2 by (apply staging_update; by rewrite Eo1).
  apply (staging_step s fail _ _ t) in H as [(? & ? & Em) | (w2 & [Eo2 Em2] & H)];
    [left; split_and!; [done | done | rewrite Em; etrans; [apply emitted_update | by rewrite Em1]] | | done
    | intros; apply emitted_update | intros; by apply staging_update].
  right. exists (write_journal s j w2). split_and!; [| | done].
  - unfold write_journal, write_counter, update_opdir, map_tree in *. cbn [operations set_operations] in *.
    rewrite Eo1, Eo0, Et in Eo2. cbn in Eo2. rewrite lookup_insert_eq in Eo2. cbn in Eo2.
    rewrite Eo2, lookup_insert_eq. cbn. by rewrite !insert_insert_eq.
  - etrans; [apply emitted_update |]. rewrite Em2. etrans; [apply emitted_update | by rewrite Em1].
Qed.

Lemma stage_ok s op j t w r w' :
  store_ok (operations w) (emitted w) -> operations w = Some t -> hidden s = true -> hidden op = false ->
  t !! op = None -> validate_document j = None -> operation_id j = op ->
  (forall m e k, hidden m = false -> operation_at (Some t) m e k -> ~ open_transaction k) ->
  stage s op j w = (r, w') ->
  store_ok (operations w') (emitted w') /\ emitted w' = emitted w /\
  (r = Ok tt -> operation_at (operations w') op (OpDir (Some "1") (JournalFile j)) j).
Proof.
  intros Hok Et Hs Hop Hnone Hv Hid Hclosed H. rewrite Et in Hok.
  assert (s <> op) as Hne by congruence.
  apply (stage_prefix s j _ _ t) in H as [(Hr & Hst & Em) | (w3 & E3 & Em3 & H)]; [| | done].
  { rewrite Em. split_and!; [by eapply staging_ok | done | done]. }
  set (d := OpDir (Some "1") (JournalFile j)) in *.
  assert (store_ok (Some (touched op d (delete s t))) (emitted w)) as Hok'.
  { apply (add_ok _ _ op d j); try done; [| by rewrite lookup_delete_ne |].
    - eapply hidden_ok; [exact Hok |]. intros n Hn. apply lookup_delete_ne. congruence.
    - intros m e k Hm (t' & [= <-] & Ht & Hk). apply (Hclosed m e k Hm). exists t.
      rewrite lookup_delete_ne in Ht by congruence. done. }
  apply run_steps_cons in H as (w4 & [Eo4 Em4] & H). rewrite E3 in Eo4. rewrite Em3 in Em4.
  assert (delete s (touched op d (delete s t)) = touched op d (delete s t)) as Hdel.
  { unfold touched. rewrite delete_insert_ne by done. by rewrite delete_delete_eq. }
  unfold map_tree in H. rewrite Eo4 in H. cbn [fmap option_fmap option_map operations set_operations] in H.
  rewrite lookup_insert_eq, delete_insert_eq in H. fold (touched op d (delete s t)) in H.
  destruct H as [H | (Hr & [-> | ->])].
  - injection H as <- <-. simpl. rewrite Em4. split_and!; try done.
    intros _. eexists. split_and!; [done | | done]. apply lookup_insert_eq.
  - simpl. rewrite Em4, Hdel. by split_and!.
  - simpl. rewrite Em4. split_and!; try done. eapply hidden_ok; [exact Hok |].
    intros n Hn. rewrite lookup_delete_ne by congruence. done.
Qed.

(** *** The handlers keep the invariant *)

Definition world_ok (w : world) : Prop := store_ok (operations w) (emitted w).

Definition keeps {A} (m : M A) : Prop := forall w, world_ok w -> world_ok (m w).2.

Lemma same_ok w w' : same w w' -> world_ok w -> world_ok w'.
Proof. intros [E1 E2]. unfold world_ok. by rewrite E1, E2. Qed.

(** Earlier events of an operation lie below its next sequence. *)
Lemma events_below_next w n d j e :
  world_ok w -> operation_at (operations w) n d j -> e ∈ emitted w -> ev_operation e = n ->
  ev_sequence e < next_sequence d j.
Proof.
  intros Hok Hat He <-. destruct (ok_levels _ _ Hok e He) as (_ & d' & j' & Hat' & Hle).
  destruct (operation_at_inj _ _ _ _ _ _ Hat Hat') as [<- <-]. rewrite next_sequence_level. lia.
Qed.

Section Handlers.
Variable redact_text : string -> Z -> string.
Variable display_name : string -> string.

Abbreviation write_index := (write_index redact_text display_name).
Abbreviation index_quietly := (index_quietly redact_text display_name).

Lemma write_index_same rs w : same w (write_index rs w).2.
Proof.
  unfold Store.write_index. destruct (build_index _ _ rs) as [[es omitted] | e]; [| done]. unfold bind.
  destruct (attempt (set_history es) w) as [r w1] eqn:E.
  apply attempt_inv in E as (w0 & o & [E1 E2] & -> & [-> | [-> _]]); by split.
Qed.

Lemma index_quietly_same rs w : same w (index_quietly rs w).2 /\ exists l, (index_quietly rs w).1 = Ok l.
Proof.
  unfold Store.index_quietly. pose proof (write_index_same rs w) as Hs.
  destruct (write_index rs w) as [[[omitted | d] | e] w1]; simpl in *; eauto.
Qed.

Lemma open_operations_ok path w r w' :
  world_ok w -> open_operations path w = (r, w') ->
  world_ok w' /\ emitted w' = emitted w /\ (forall t, r = Ok t -> operations w' = Some t).
Proof.
  intros Hok. unfold open_operations, bind, get. destruct (operations w) as [t |] eqn:Et.
  { intros [= <- <-]. split_and!; [done | done | naive_solver]. }
  assert (emitted w = []) as Hem.
  { destruct (emitted w) as [| e es] eqn:Ee; [done |].
    destruct (ok_levels _ _ Hok e) as (_ & d & j & (t & Ho & _) & _); [rewrite Ee; set_solver | congruence]. }
  assert (store_ok (Some ∅) []) as Hempty.
  { split.
    - intros t n e [= <-] Ht. by rewrite lookup_empty in Ht.
    - intros n m d d' j j' _ _ (t & [= <-] & Ht & _). by rewrite lookup_empty in Ht.
    - intros e He. by apply elem_of_nil in He.
    - intros [| ? ?]; done. }
  destruct (attempt _ w) as [r1 w1] eqn:E.
  apply attempt_inv in E as (w0 & o & [E1 E2] & -> & Hw).
  assert (world_ok w1 /\ emitted w1 = emitted w) as [Hok1 Hem1].
  { destruct Hw as [-> | [-> _]]; (split; [| done]); unfold world_ok; simpl; rewrite ?E1, ?Et, E2, Hem; [done |].
    rewrite <- Et, <- Hem. apply Hok. }
  destruct o as [d |]; intros [= <- <-]; split_and!; try done.
  intros t [= <-]. by destruct Hw as [-> | [-> ?]].
Qed.

(** *** [checkpoint] *)

Lemma bound_journal_ok op bound w r w' :
  bound_journal redact_text op bound w = (r, w') ->
  w' = w /\ forall j d, r = Ok (j, d) ->
    operation_at (operations w) op d j /\ validate_document j = None /\ operation_id j = op /\ hidden op = false.
Proof.
  unfold bound_journal, bind, get. destruct (negb _); [by intros [= <- <-] |].
  destruct (operations w) as [t |] eqn:Et; [| by intros [= <- <-]].
  destruct (t !! op) as [e |] eqn:Eop; [| by intros [= <- <-]].
  destruct (record_journal (read_record t op)) as [j |] eqn:Ej; [| by intros [= <- <-]].
  destruct (read_record_Some _ _ _ Ej) as (d & Ed & Ejf & Hv & Hid & Hvid).
  unfold find_opdir. rewrite Ed. intros [= <- <-]. split; [done |]. intros j' d' [= <- <-].
  split_and!; try done; [by exists t | by apply valid_id_visible].
Qed.

Lemma last_put_record cs prev c : list.last (put_record cs prev c) = Some c.
Proof. unfold put_record. destruct (stepped prev c); apply last_snoc. Qed.

Lemma next_journal_ok d j q now j' c :
  next_journal redact_text d j q now = Ok (j', c) ->
  validate_document j' = None /\ operation_id j' = operation_id j /\ kind_of j' = kind_of j /\
  generation j' = generation j + 1 /\ sequence c = next_sequence d j /\ last_record j' = Some c /\
  exists prev, last_record j = Some prev /\ checkpoints j' = put_record (checkpoints j) prev c.
Proof.
  unfold next_journal. destruct (last_record j) as [prev |] eqn:El; [| done].
  unfold mbind, result_bind.
  destruct (next_entry _ _ _ _ _) as [c' |] eqn:Ec; [| done].
  destruct (recovery_of _) as [wanted |]; [| done]. destruct (merge_recovery j wanted) as [rec |]; [| done].
  destruct (evidence_of _ _) as [item |]; [| done].
  unfold valid_or_usage. destruct (validate_document _) eqn:Ev; [done |]. intros [= <- <-].
  split_and!; try done.
  - unfold next_entry in Ec. destruct (c_error_code q), (c_error_reason q); simplify_eq; done.
  - apply last_put_record.
  - by exists prev.
Qed.

Lemma next_journal_open d j q now j' c :
  validate_document j = None -> next_journal redact_text d j q now = Ok (j', c) -> finished j = false.
Proof.
  intros Hv H. apply next_journal_ok in H as (Hv' & _ & _ & _ & _ & _ & prev & El & Ec).
  unfold finished. rewrite El. destruct (outcome_of prev) as [o |] eqn:Eo; [exfalso | done].
  apply validate_rules in Hv, Hv'. unfold last_record in El. apply last_Some in El as [l El].
  unfold put_record in Ec. destruct (stepped prev c) eqn:Es.
  - apply andb_true_iff in Es as [[_ Es]%andb_true_iff _].
    destruct (Journal.accepted_split j l prev [] Hv El) as [Hshape _].
    apply step_progress in Hshape as Hp; [| by destruct (step prev)].
    unfold record_shape in Hshape. destruct (state prev); try done; naive_solver.
  - rewrite El, <- app_assoc in Ec. simpl in Ec.
    by pose proof (Journal.outcome_is_last j' l prev [c] Hv' Ec ltac:(by rewrite Eo)).
Qed.

Lemma checkpoint_event_ok j e c :
  checkpoint_event j = Ok e -> last_record j = Some c ->
  ev_operation e = operation_id j /\ ev_sequence e = sequence c.
Proof.
  unfold checkpoint_event. intros H El. rewrite El in H. destruct (validate_event _); [done |]. by injection H as <-.
Qed.

(** What a successful checkpoint does, and that no outcome breaks the tree. *)
Lemma handle_checkpoint_ok q lock now w r w' :
  world_ok w -> handle_checkpoint redact_text display_name q lock now w = (r, w') ->
  world_ok w' /\
  forall j' warnings, r = Ok (j', warnings) ->
  exists d j c d' e,
    lock = Ok (c_operation q) /\ operation_at (operations w) (c_operation q) d j /\
    generation j = c_expected_generation q /\ next_journal redact_text d j q now = Ok (j', c) /\
    operation_at (operations w') (c_operation q) d' j' /\
    only_changed (c_operation q) (operations w) (operations w') /\
    emitted w' = emitted w ++ [e] /\ ev_operation e = c_operation q /\ ev_sequence e = sequence c.
Proof.
  intros Hok. unfold handle_checkpoint. set (op := c_operation q).
  unfold bind at 1. unfold lift at 1. destruct lock as [bound | e0]; [| by intros [= <- <-]].
  unfold bind at 1. destruct (bound_journal redact_text op bound w) as [r0 w0] eqn:Eb.
  assert (forall j d, r0 = Ok (j, d) -> bound = op) as Hbound.
  { intros j d ->. unfold bound_journal in Eb. by destruct (String.eqb_spec bound op). }
  apply bound_journal_ok in Eb as [-> Hb]. destruct r0 as [[j d] | e0]; [| by intros [= <- <-]].
  destruct (Hb j d eq_refl) as (Hat & Hv & Hid & Hh). specialize (Hbound j d eq_refl).
  destruct (Z.eqb_spec (c_expected_generation q) (generation j)) as [Eg |]; simpl; [| by intros [= <- <-]].
  unfold bind at 1. unfold lift at 1.
  destruct (next_journal redact_text d j q now) as [[j' c] | e0] eqn:En; [| by intros [= <- <-]].
  pose proof (next_journal_ok _ _ _ _ _ _ En) as (Hv' & Hid' & Hk' & Hg' & Hc & Hl' & prev & Hl & Hcs).
  pose proof (next_journal_open _ _ _ _ _ _ Hv En) as Hf.
  assert (c ∈ checkpoints j') as Hin by (apply last_Some_elem_of; exact Hl').
  unfold bind at 1. unfold lift at 1. destruct (checkpoint_event j') as [e | e0] eqn:Ee; [| by intros [= <- <-]].
  destruct (checkpoint_event_ok _ _ _ Ee Hl') as [Eop Eseq]. rewrite Hid', Hid in Eop.
  unfold bind at 1. destruct (write_record _ op (sequence c) j' w) as [r1 w1] eqn:Ew.
  apply (write_record_ok _ op _ j' d j) in Ew as (Hok1 & Em1 & Hch1 & Hat1); try done.
  2: congruence. 2: by exists c. 2: (intros [? _]; split; [congruence | done]).
  destruct r1 as [[] | e1]; [| by intros [= <- <-]]. specialize (Hat1 eq_refl).
  unfold bind at 1, modify at 1. unfold bind at 1, get at 1.
  assert (world_ok (emit e w1)) as Hok2.
  { unfold world_ok; simpl. eapply emit_ok; [exact Hok1 | by rewrite Eop | by rewrite Eop | |].
    - rewrite Eseq. unfold level. pose proof (durable_sequence_ge j' c Hin). lia.
    - intros e' He' Ho'. rewrite Eseq, Hc. rewrite Em1 in He'. apply (events_below_next w op d j); try done. congruence. }
  unfold bind at 1.
  match goal with |- context [index_quietly ?rs (emit e w1)] =>
    destruct (index_quietly_same rs (emit e w1)) as [Hsame [l El]];
    destruct (index_quietly rs (emit e w1)) as [r2 w2] end.
  simpl in El, Hsame. subst r2. intros [= <- <-]. split; [by eapply same_ok |].
  intros j'' ws [= <- _]. destruct Hsame as [Es1 Es2].
  exists d, j, c, (OpDir (Some (pretty (sequence c))) (JournalFile j')), e.
  rewrite Es1, Es2. simpl. rewrite Em1. split_and!; try done. congruence.
Qed.

Lemma emitted_event_ok q seq now e :
  emitted_event redact_text q seq now = Ok e ->
  ev_operation e = e_operation q /\ ev_sequence e = seq /\ validate_event e = None.
Proof.
  unfold emitted_event, usage. intros H.
  repeat match type of H with
  | context [match ?x with _ => _ end] => destruct x eqn:?; try discriminate
  end; injection H as <-; done.
Qed.

Lemma validate_event_safe e : validate_event e = None -> ev_sequence e <= Canonical.MAX_SAFE.
Proof.
  unfold validate_event. destruct (Canonical.canonicalize (event_json e)) as [t |] eqn:E; [| done]. intros _.
  enough (Z.abs (ev_sequence e) <= Canonical.MAX_SAFE) by lia.
  eapply Canonical.canonical_safe; [exact E |].
  apply (Canonical.contains_member _ _ "sequence" (Json.JInt (ev_sequence e))); [| constructor].
  destruct (ev_body e); do 2 apply list_elem_of_further; apply list_elem_of_here.
Qed.

Lemma handle_emit_ok q lock now w : world_ok w -> world_ok (handle_emit redact_text q lock now w).2.
Proof.
  intros Hok. unfold handle_emit. set (op := e_operation q).
  unfold bind at 1. unfold lift at 1. destruct lock as [bound | e0]; [| done].
  unfold bind at 1. destruct (bound_journal redact_text op bound w) as [r0 w0] eqn:Eb.
  apply bound_journal_ok in Eb as [-> Hb]. destruct r0 as [[j d] | e0]; [| done].
  destruct (Hb j d eq_refl) as (Hat & Hv & Hid & Hh).
  unfold bind at 1. unfold lift at 1.
  destruct (emitted_event redact_text q (next_sequence d j) now) as [e | e0] eqn:En; [| done].
  apply emitted_event_ok in En as (Eop & Eseq & Hsafe%validate_event_safe).
  assert (journal_file d = JournalFile j) as Hjf by by destruct Hat as (? & _ & _ & ?).
  assert (0 < ev_sequence e /\ durable_sequence j <= ev_sequence e /\ level d j <= ev_sequence e) as (Hpos & Hdur & Hlv).
  { rewrite Eseq, next_sequence_level. unfold level. pose proof (durable_nonneg j). lia. }
  unfold bind at 1. destruct (write_or_fail _ (write_counter op (ev_sequence e)) w) as [r1 w1] eqn:Ew.
  apply (write_op_ok _ op _ d j j) in Ew as (Hok1 & Em1 & _ & Hat1); try done;
    [| rewrite level_counter; lia].
  destruct r1 as [[] | e1]; [| done]. destruct Hat1 as [Hat1 | ?]; [| done].
  unfold bind at 1, modify at 1. simpl. unfold world_ok; simpl.
  eapply emit_ok; [exact Hok1 | by rewrite Eop | by rewrite Eop | rewrite level_counter; lia |].
  intros e' He' Ho'. rewrite Eseq. rewrite Em1 in He'. apply (events_below_next w op d j); try done. by rewrite Ho'.
Qed.

(** *** [list] *)

Lemma listdir_elem t n : n ∈ listdir t <-> is_Some (t !! n).
Proof.
  unfold listdir. rewrite py_sorted_perm, list_elem_of_In, in_map_iff. split.
  - intros ([m e] & <- & Hin). apply list_elem_of_In, elem_of_map_to_list in Hin. by eexists.
  - intros [e He]. exists (n, e). split; [done |]. by apply list_elem_of_In, elem_of_map_to_list.
Qed.

Lemma listdir_NoDup t : NoDup (listdir t).
Proof. unfold listdir. rewrite py_sorted_perm. apply NoDup_fst_map_to_list. Qed.

Definition visible (t : tree) : list string := List.filter (fun n => negb (hidden n)) (listdir t).

Lemma visible_elem t n : n ∈ visible t <-> is_Some (t !! n) /\ hidden n = false.
Proof.
  unfold visible. rewrite list_elem_of_In, filter_In, <- list_elem_of_In, listdir_elem, negb_true_iff. done.
Qed.

Lemma visible_NoDup t : NoDup (visible t).
Proof. apply NoDup_ListNoDup, List.NoDup_filter, NoDup_ListNoDup, listdir_NoDup. Qed.

(** Reconciling what was just read: what it returns is what the tree now holds. *)
Lemma reconcile_read t bound now w r w' :
  world_ok w -> operations w = Some t ->
  reconcile (read_records (operations w)) bound now w = (r, w') ->
  world_ok w' /\ emitted w' = emitted w /\
  exists t', operations w' = Some t' /\ changed_within (visible t) t t' /\
    (forall rs warnings, r = Ok (rs, warnings) -> rs = map (read_record t') (visible t)).
Proof.
  intros Hok Et. rewrite Et. cbn [read_records]. intros E.
  apply (reconcile_ok (visible t) t) in E; try done; [apply visible_NoDup |].
  intros n Hn%visible_elem. tauto.
Qed.

Lemma handle_list_ok path lock now w : world_ok w -> world_ok (handle_list redact_text display_name path lock now w).2.
Proof.
  intros Hok. unfold handle_list. unfold bind at 1. unfold lift at 1. destruct lock as [bound | e0]; [| done].
  unfold bind at 1. destruct (open_operations path w) as [r0 w0] eqn:E0.
  apply open_operations_ok in E0 as (Hok0 & Em0 & Ho0); [| done].
  destruct r0 as [t | e0]; [| done]. specialize (Ho0 t eq_refl).
  unfold bind at 1, get at 1. unfold bind at 1.
  destruct (reconcile _ bound now w0) as [r1 w1] eqn:E1.
  apply (reconcile_read t) in E1 as (Hok1 & Em1 & _); [| done | done].
  destruct r1 as [[rs ws] | e1]; [| done].
  unfold bind at 1. pose proof (write_index_same rs w1) as Hs.
  destruct (write_index rs w1) as [[[omitted | d] | e2] w2]; simpl in Hs; simpl;
    by eapply same_ok.
Qed.

(** *** [begin] *)

Lemma initial_journal_ok q op now j :
  initial_journal redact_text q op now = Ok j ->
  validate_document j = None /\ operation_id j = op /\ kind_of j = b_kind q /\ generation j = 1 /\
  finished j = false /\ exists c, checkpoints j = [c] /\ sequence c = 1 /\ state c = initial (b_kind q).
Proof.
  unfold initial_journal, mbind, result_bind. intros H.
  destruct (version_of _ _ _) as [s |]; [| done]. destruct (version_of _ _ _) as [t |]; [| done].
  destruct (recovery_of _) as [rec |]; [| done]. destruct (evidence_of _ _) as [item |]; [| done].
  unfold valid_or_usage in H. destruct (validate_document _) eqn:Ev; [done |]. injection H as <-.
  split_and!; try done. by eexists.
Qed.

Lemma remove_staging_lookup t n : hidden n = false -> remove_staging t !! n = t !! n.
Proof.
  intros Hn. unfold remove_staging. assert (staging n = false) as Hs.
  { destruct (staging n) eqn:E; [| done]. unfold staging, hidden in *. exfalso.
    destruct n as [| c s]; [done |]. cbn [String.prefix] in *.
    destruct (ascii_dec "." c); [by destruct s | done]. }
  destruct (t !! n) as [e |] eqn:Et.
  - apply map_lookup_filter_Some. by split.
  - apply map_lookup_filter_None. by left.
Qed.

(** No unfinished transaction was read, so the tree has none. *)
Lemma read_all_closed t ns :
  (forall n, is_Some (t !! n) -> hidden n = false -> n ∈ ns) ->
  List.filter unfinished_transaction (map (read_record t) ns) = [] ->
  forall es, store_ok (Some t) es ->
  forall m e k, hidden m = false -> operation_at (Some t) m e k -> ~ open_transaction k.
Proof.
  intros Hns Hf es Hok m e k Hm Hat [Hk Hfin].
  destruct (store_ok_valid _ _ _ _ _ Hok Hm Hat) as [Hv Hid]. destruct Hat as (t' & [= <-] & Ht & Hj).
  assert (read_record t m ∈ List.filter unfinished_transaction (map (read_record t) ns)) as Hin.
  { apply list_elem_of_In, filter_In. split.
    - apply in_map, list_elem_of_In, Hns; [by eexists | done].
    - rewrite (read_record_good t m e k Ht Hj Hv Hid). unfold unfinished_transaction; simpl.
      by rewrite Hk, Hfin. }
  rewrite Hf in Hin. by apply elem_of_nil in Hin.
Qed.

Lemma begin_operation_ok q rs warnings now suffix t ns w r w' :
  world_ok w -> operations w = Some t -> rs = map (read_record t) ns ->
  (forall n, is_Some (t !! n) -> hidden n = false -> n ∈ ns) ->
  begin_operation redact_text display_name q rs warnings now suffix w = (r, w') ->
  world_ok w' /\
  forall op ws, r = Ok (op, ws) ->
  exists d j e,
    hidden op = false /\ t !! op = None /\
    operation_at (operations w') op d j /\ kind_of j = b_kind q /\ generation j = 1 /\ finished j = false /\
    emitted w' = emitted w ++ [e] /\ ev_operation e = op /\ ev_sequence e = 1.
Proof.
  intros Hok Et Ers Hns. unfold begin_operation.
  set (blocking := if _ && _ then _ else _). destruct blocking as [| b bs] eqn:Eb; subst blocking.
  2:{ unfold bind. destruct (index_quietly_same rs w) as [Hs [l El]].
      destruct (index_quietly rs w) as [r1 w1]; simpl in *; subst r1. intros [= <- <-]. split; [by eapply same_ok | done]. }
  assert (List.filter unfinished_transaction rs = []) as Hf.
  { destruct (_ && _) in Eb; [apply app_eq_nil in Eb as [Eb _] |]; by apply map_eq_nil in Eb. }
  unfold bind at 1, get at 1. rewrite Et. fold (op_name (day_of now) (today_ids (listdir t) (day_of now) + 1)).
  set (op := op_name _ _). destruct (999999999 <? _) eqn:En; [by intros [= <- <-] |].
  assert (t !! op = None) as Hfresh.
  { apply eq_None_not_Some. intros Hs. apply (op_name_fresh (listdir t) (day_of now)); [lia |]. by apply listdir_elem. }
  unfold bind at 1. unfold lift at 1. destruct (initial_journal redact_text q op now) as [j | e0] eqn:Ej; [| by intros [= <- <-]].
  apply initial_journal_ok in Ej as (Hv & Hid & Hk & Hg & Hfin & c & Hcs & Hc1 & _).
  assert (hidden op = false) as Hh by (rewrite <- Hid; by apply valid_id_visible, valid_journal_id).
  unfold bind at 1. unfold lift at 1. destruct (checkpoint_event j) as [e | e0] eqn:Ee; [| by intros [= <- <-]].
  assert (last_record j = Some c) as Hl by (unfold last_record; by rewrite Hcs).
  destruct (checkpoint_event_ok _ _ _ Ee Hl) as [Eop Eseq]. rewrite Hid in Eop. rewrite Hc1 in Eseq.
  unfold bind at 1. destruct (stage _ op j w) as [r1 w1] eqn:Es.
  rewrite Ers in Hf. pose proof (read_all_closed t ns Hns Hf (emitted w)) as Hclosed.
  apply (stage_ok _ op j t) in Es as (Hok1 & Em1 & Hat1); try done.
  2:{ apply Hclosed. unfold world_ok in Hok. by rewrite <- Et. }
  destruct r1 as [[] | e1]; [| by intros [= <- <-]]. specialize (Hat1 eq_refl).
  unfold bind at 1, modify at 1.
  assert (world_ok (emit e w1)) as Hok2.
  { unfold world_ok; simpl. eapply emit_ok; [exact Hok1 | by rewrite Eop | by rewrite Eop | |].
    - rewrite Eseq. unfold level. pose proof (durable_sequence_ge j c ltac:(rewrite Hcs; set_solver)). lia.
    - intros e' He' Ho'. exfalso. rewrite Em1 in He'. destruct (ok_levels _ _ Hok e' He') as (_ & d' & j' & (t' & Et' & Ht' & _) & _).
      rewrite Et in Et'. injection Et' as <-. rewrite Ho', Eop in Ht'. congruence. }
  unfold bind at 1.
  match goal with |- context [index_quietly ?l (emit e w1)] =>
    destruct (index_quietly_same l (emit e w1)) as [Hsame [l' El]];
    destruct (index_quietly l (emit e w1)) as [r2 w2] end.
  simpl in El, Hsame. subst r2. intros [= <- <-]. split; [by eapply same_ok |].
  intros op' ws [= <- _]. destruct Hsame as [Es1 Es2].
  exists (OpDir (Some "1") (JournalFile j)), j, e. rewrite Es1, Es2. simpl. rewrite Em1. by split_and!.
Qed.

(** What a successful begin does, and that no outcome breaks the tree. *)
Lemma handle_begin_ok q path lock earlier now suffix w r w' :
  world_ok w -> handle_begin redact_text display_name q path lock earlier now suffix w = (r, w') ->
  world_ok w' /\
  forall op warnings, r = Ok (op, warnings) ->
  exists d j e,
    lock = Ok EmptyString /\ hidden op = false /\
    (forall t, operations w = Some t -> t !! op = None) /\
    operation_at (operations w') op d j /\ kind_of j = b_kind q /\ generation j = 1 /\ finished j = false /\
    emitted w' = emitted w ++ [e] /\ ev_operation e = op /\ ev_sequence e = 1.
Proof.
  intros Hok. unfold handle_begin. unfold bind at 1. unfold lift at 1. destruct lock as [bound | e0]; [| by intros [= <- <-]].
  destruct (String.eqb_spec bound EmptyString) as [-> |]; simpl; [| by intros [= <- <-]].
  unfold bind at 1. destruct (open_operations path w) as [r0 w0] eqn:E0.
  assert (forall t, operations w = Some t -> forall t0, r0 = Ok t0 -> t0 = t) as Hsame.
  { intros t Et t0 ->. unfold open_operations, bind, get in E0. rewrite Et in E0. by injection E0 as <- _. }
  apply open_operations_ok in E0 as (Hok0 & Em0 & Ho0); [| done].
  destruct r0 as [t | e0]; [| by intros [= <- <-]]. specialize (Ho0 t eq_refl).
  unfold bind at 1, modify at 1. set (w1 := map_tree remove_staging w0).
  assert (operations w1 = Some (remove_staging t)) as Ho1 by (unfold w1, map_tree; simpl; by rewrite Ho0).
  assert (world_ok w1) as Hok1.
  { unfold world_ok in *. rewrite Ho1. rewrite Ho0 in Hok0. apply (hidden_ok t); [done | apply remove_staging_lookup]. }
  unfold bind at 1, get at 1. unfold bind at 1.
  destruct (reconcile _ EmptyString earlier w1) as [r2 w2] eqn:E2.
  apply (reconcile_read (remove_staging t)) in E2 as (Hok2 & Em2 & t2 & Ho2 & [Hch2 Hs2] & Hrs); [| done | done].
  destruct r2 as [[rs ws] | e2]; [| by intros [= <- <-]]. specialize (Hrs rs ws eq_refl).
  intros E. eapply begin_operation_ok in E as [Hok3 Hres]; [| exact Hok2 | exact Ho2 | exact Hrs |].
  2:{ intros n Hn Hh. apply visible_elem. split; [by apply Hs2 | done]. }
  split; [done |]. intros op ws' Er. destruct (Hres op ws' Er) as (d & j & e & Hh & Hnone & Hat & H).
  exists d, j, e. rewrite <- Em0. replace (emitted w0) with (emitted w2) by (rewrite Em2; done).
  split_and!; try done; try tauto. intros t' Et'. rewrite <- (Hsame t' Et' t eq_refl).
  rewrite <- (remove_staging_lookup t op Hh). apply eq_None_not_Some. intros Hn%Hs2.
  by apply eq_None_not_Some in Hnone.
Qed.

End Handlers.
End Invariant.
