(* ===== verification/LifecycleTheorems.v ===== *)
(** The guarantees of the native lifecycle state utility
    ([deploy/scripts/lifecycle-state.py]): what is true of the state tree after
    any requests with any failing writes, and what each request does. *)
From S2P Require Import Prelude Sha256 Json Regex Canonical LifecycleContract LifecycleSchema LifecycleJournal.
From S2P Require Import LifecycleStore LifecycleNumbers LifecycleInvariant.
Open Scope Z_scope.

Module StoreTheorems.
Import Contract Schema Store Invariant.

Lemma validate_intro j t :
  Canonical.canonicalize (journal_json j) = Ok t ->
  Z.of_nat (String.length (Canonical.utf8 t)) <= journal_max_bytes ->
  check_journal j = None -> journal_rules j = None -> validate_document j = None.
Proof.
  intros Ht Hs Hc Hr. unfold validate_document. rewrite Ht. unfold size_check, refuse_if.
  destruct (journal_max_bytes <? _) eqn:E; [lia |]. simpl. by rewrite Hc, Hr.
Qed.

#[local] Opaque validate_document.

Section Theorems.
Variable redact_text : string -> Z -> string.
Variable display_name : string -> string.

Abbreviation run := (run redact_text display_name).

(** *** Reachable trees *)

Definition with_script (s : list io) (w : world) : world := World (operations w) (history w) (emitted w) s.

(** One invocation of the utility, with any lock outcome and any fate of its
    writes; a killed process is a script whose writes fail from some point on. *)
Inductive invocation : world -> world -> Prop :=
| invoke q path lock s w : invocation w (run path q lock (with_script s w)).2.

Definition fresh_host : world := World None None [] [].

Definition reachable (w : world) : Prop := rtc invocation fresh_host w.

Lemma run_ok path q lock w : world_ok w -> world_ok (run path q lock w).2.
Proof.
  intros Hok. unfold Store.run.
  assert (world_ok (handle redact_text display_name path q lock w).2) as H.
  { destruct q as [q earlier now suffix | q now | q now | now | op owner alive]; unfold handle, void, bind.
    - destruct (handle_begin _ _ q path lock earlier now suffix w) as [r w'] eqn:E.
      apply handle_begin_ok in E as [H _]; [| done]. by destruct r.
    - destruct (handle_checkpoint _ _ q lock now w) as [r w'] eqn:E.
      apply handle_checkpoint_ok in E as [H _]; [| done]. by destruct r.
    - pose proof (handle_emit_ok redact_text q lock now w Hok) as H.
      by destruct (handle_emit redact_text q lock now w) as [[] w'].
    - pose proof (handle_list_ok redact_text display_name path lock now w Hok) as H.
      by destruct (handle_list redact_text display_name path lock now w) as [[] w'].
    - unfold handle_inspect, bind, get, raise, throw, ret. cbn zeta.
      destruct (operations w) as [t |]; [| done]. destruct (t !! op); [| done].
      by destruct (record_journal _). }
  by destruct (handle _ _ path q lock w) as [[] w'].
Qed.

Lemma fresh_host_ok : world_ok fresh_host.
Proof.
  split; simpl.
  - done.
  - intros n m d d' j j' _ _ (t & ? & _). done.
  - intros e He. by apply elem_of_nil in He.
  - by intros [].
Qed.

Lemma reachable_ok w : reachable w -> world_ok w.
Proof.
  unfold reachable. generalize fresh_host_ok. generalize fresh_host. intros w0 Hok H.
  induction H as [| x y z Hxy _ IH]; [done |]. apply IH. destruct Hxy. by apply run_ok.
Qed.

(** C5: whatever requests ran and whichever of their writes failed or were cut
    short, every entry of private/operations reads back as a valid journal
    under its own name, and at most one transaction is unfinished. *)
Theorem reachable_tree_sound w t :
  reachable w -> operations w = Some t ->
  (forall n e, t !! n = Some e -> hidden n = false ->
     exists j, read_record t n = Record_ n (Some j) EmptyString false /\ validate_document j = None) /\
  (forall n m j k,
     record_journal (read_record t n) = Some j -> record_journal (read_record t m) = Some k ->
     open_transaction j -> open_transaction k -> n = m).
Proof.
  intros Hok%reachable_ok Et. split.
  - intros n e Hn Hh. destruct (ok_entries _ _ Hok t n e Et Hn Hh) as (d & j & -> & Hj & Hv & Hid).
    exists j. split; [by eapply read_record_good | done].
  - intros n m j k Hj Hk Oj Ok.
    destruct (read_record_Some _ _ _ Hj) as (d & Hd & Hdj & _ & _ & Hn%valid_id_visible).
    destruct (read_record_Some _ _ _ Hk) as (e & He & Hek & _ & _ & Hm%valid_id_visible).
    eapply (ok_unique _ _ Hok n m d e j k); try done; by exists t.
Qed.

(** the sequence numbers of an operation's checkpoint and progress events
    strictly increase over all invocations, through failed writes and crashes:
    a sequence is never spent twice. *)
Theorem sequences_never_reused w l1 e l2 e' l3 :
  reachable w -> emitted w = l1 ++ e :: l2 ++ e' :: l3 ->
  ev_operation e = ev_operation e' -> ev_sequence e < ev_sequence e'.
Proof. intros Hok%reachable_ok. apply (ok_increasing _ _ Hok). Qed.

(** a lost or damaged counter cannot repeat a durable sequence: the next
    sequence lies above every sequence the journal records, whatever the counter
    file holds. *)
Theorem next_sequence_fresh d j c :
  c ∈ checkpoints j -> sequence c < next_sequence d j /\ read_counter d < next_sequence d j.
Proof.
  intros Hc%durable_sequence_ge. rewrite next_sequence_level. unfold level. lia.
Qed.

(** *** [checkpoint] *)

(** a checkpoint that names another generation than the durable one is
    refused with MANUAL (exit status 9) and changes nothing. *)
Theorem stale_checkpoint_refused path q now w d j :
  operation_at (operations w) (c_operation q) d j -> validate_document j = None ->
  operation_id j = c_operation q -> c_expected_generation q <> generation j ->
  run path (RCheckpoint q now) (Ok (c_operation q)) w = (9, w).
Proof.
  intros (t & Et & Ht & Hj) Hv Hid Hg. unfold Store.run, handle, void, handle_checkpoint, bound_journal, bind, lift, get.
  rewrite String.eqb_refl. cbn beta iota delta [negb]. rewrite Et, Ht. cbn zeta.
  rewrite (read_record_good t _ d j Ht Hj Hv Hid). cbn beta iota delta [record_journal]. unfold find_opdir. rewrite Ht. unfold ret.
  destruct (Z.eqb_spec (c_expected_generation q) (generation j)); [done |]. done.
Qed.

(** an acknowledged checkpoint was durable before its event went out: the
    lock was bound to the operation, the caller had seen the current generation,
    the generation moved up by one, the record is the journal's last one (it
    replaces the earlier record only as a later step of the same state), earlier
    records are kept, and no other operation changed. *)
Theorem checkpoint_commits q lock now w j' warnings w' :
  world_ok w ->
  handle_checkpoint redact_text display_name q lock now w = (Ok (j', warnings), w') ->
  exists d j c d' e,
    lock = Ok (c_operation q) /\
    operation_at (operations w) (c_operation q) d j /\ generation j = c_expected_generation q /\
    operation_at (operations w') (c_operation q) d' j' /\ generation j' = generation j + 1 /\
    last_record j' = Some c /\ state c = c_state q /\
    (checkpoints j' = checkpoints j ++ [c] \/
     exists cs prev, checkpoints j = cs ++ [prev] /\ checkpoints j' = cs ++ [c] /\
       step prev <> None /\ step c <> None /\ state prev = state c) /\
    only_changed (c_operation q) (operations w) (operations w') /\
    emitted w' = emitted w ++ [e] /\ ev_sequence e = sequence c.
Proof.
  intros Hok E. apply handle_checkpoint_ok in E as [_ Hres]; [| done].
  destruct (Hres j' warnings eq_refl) as (d & j & c & d' & e & Hlock & Hat & Hg & Hn & Hat' & Hch & Hem & _ & Hseq).
  pose proof (next_journal_ok _ _ _ _ _ _ _ Hn) as (_ & _ & _ & Hg' & _ & Hl' & prev & Hl & Hcs).
  assert (state c = c_state q) as Hstate.
  { unfold next_journal in Hn. rewrite Hl in Hn. unfold mbind, result_bind, next_entry, valid_or_usage in Hn.
    repeat (case_match; simplify_eq); done. }
  exists d, j, c, d', e. split_and!; try done. unfold put_record in Hcs.
  destruct (stepped prev c) eqn:Es; [right | by left].
  unfold last_record in Hl. apply last_Some in Hl as [cs Ecs]. exists cs, prev.
  rewrite Ecs, removelast_last in Hcs. unfold stepped in Es. apply andb_true_iff in Es as [[E1 E2]%andb_true_iff E3].
  apply bool_decide_eq_true in E3. split_and!; try done; [by destruct (step prev) | by destruct (step c)].
Qed.

(** *** [begin] *)

(** an acknowledged begin allocated a fresh operation: the lock was bound to
    none, no entry had that name, its journal is durable at generation 1 in the
    kind's initial state, and its first event has sequence 1. *)
Theorem begin_allocates q path lock earlier now suffix w op warnings w' :
  world_ok w ->
  handle_begin redact_text display_name q path lock earlier now suffix w = (Ok (op, warnings), w') ->
  exists d j e,
    lock = Ok EmptyString /\ (forall t, operations w = Some t -> t !! op = None) /\
    operation_at (operations w') op d j /\ kind_of j = b_kind q /\ generation j = 1 /\ finished j = false /\
    emitted w' = emitted w ++ [e] /\ ev_operation e = op /\ ev_sequence e = 1.
Proof.
  intros Hok E. apply handle_begin_ok in E as [_ H]; [| done].
  destruct (H op warnings eq_refl) as (d & j & e & Hres). exists d, j, e. tauto.
Qed.

End Theorems.

(** *** Reconciliation *)

Lemma check_all_none l : check_all l = None <-> Forall (fun r => r = None) l.
Proof.
  induction l as [| r l IH]; simpl; [by split; [constructor |] |].
  rewrite orelse_none, IH, Forall_cons. done.
Qed.

Lemma enumerate_snoc {A B} (f : Z -> A -> B) i l x :
  Canonical.enumerate f i (l ++ [x]) = Canonical.enumerate f i l ++ [f (i + Z.of_nat (length l)) x].
Proof.
  revert i; induction l as [| y l IH]; intros i; cbn [app Canonical.enumerate].
  - by rewrite Z.add_0_r.
  - rewrite IH. replace (i + 1 + Z.of_nat (length l)) with (i + Z.of_nat (length (y :: l))) by (simpl length; lia). done.
Qed.

(** The states of a legacy record: it starts at applying and never goes back. *)
Definition legacy_state (s : st) : bool :=
  match s with Planned | Staged | Verified | RecoverySaved => false | _ => true end.

Lemma history_legacy a prev n cs :
  Contract.history Legacy a prev n cs -> legacy_state (state prev) = true ->
  legacy_state (state (Journal.last_of prev cs)) = true.
Proof.
  induction 1 as [prev n | prev n c cs Hc Hf Hn H IH]; intros Hp; [done |].
  rewrite Journal.last_of_cons. apply IH. destruct Hf as (_ & _ & _ & _ & [[<- _] | (_ & Ht & _)]); [done |].
  destruct (state prev); simpl in Ht; set_unfold in Ht; try done; destruct_or? Ht; by rewrite Ht.
Qed.

Lemma interrupted_reachable j prev :
  journal_rules j = None -> in_progress j = true -> last_record j = Some prev ->
  Interrupted ∈ transitions (kind_of j) (state prev) /\ outcome_of prev = None /\ state prev <> Interrupted.
Proof.
  intros Hj Hp Hl. unfold in_progress, finished in Hp. rewrite Hl in Hp.
  apply andb_true_iff in Hp as [Ho [H1 H2]%andb_true_iff].
  rewrite negb_true_iff, bool_decide_eq_false in H1, H2.
  assert (outcome_of prev = None) as Ho' by by destruct (outcome_of prev).
  destruct (Journal.accepted_last j Hj) as (c0 & cs & Ej & El). rewrite Hl in El. injection El as ->.
  destruct (Journal.accepted_records j Hj) as (c0' & cs' & Ej' & Hc0 & Hs & H & _).
  rewrite Ej in Ej'. injection Ej' as <- <-.
  assert (record_shape (Journal.last_of c0 cs)) as Hshape.
  { pose proof (Journal.accepted_shapes j Hj) as Hall. rewrite Forall_forall in Hall. apply Hall.
    by apply last_Some_elem_of. }
  assert (kind_of j = Legacy -> legacy_state (state (Journal.last_of c0 cs)) = true) as Hleg.
  { intros Hk. rewrite Hk in H, Hs. eapply history_legacy; [exact H |]. by rewrite Hs. }
  unfold record_shape in Hshape.
  split_and!; [| done | done].
  destruct (kind_of j), (state (Journal.last_of c0 cs)); simpl; try set_solver; naive_solver.
Qed.

Lemma abandoned_rules d j now prev :
  journal_rules j = None -> in_progress j = true -> last_record j = Some prev ->
  journal_rules (abandoned d j now prev) = None.
Proof.
  intros Hj Hp Hl. destruct (interrupted_reachable j prev Hj Hp Hl) as (Ht & Ho & Hne).
  apply journal_rules_spec in Hj as (c0 & cs & Ej & Hs & Hpd & Hg & Hr & Hc0 & Hh & Hrec).
  assert (prev = Journal.last_of c0 cs) as Ep.
  { unfold last_record in Hl. rewrite Ej, last_cons in Hl. unfold Journal.last_of. by destruct (list.last cs); injection Hl. }
  apply journal_rules_spec. set (entry := abandon_entry (next_sequence d j) now prev).
  exists c0, (cs ++ [entry]). cbn. rewrite Ej. cbn [app].
  split_and!; try done.
  - rewrite Ej in Hg. simpl length in *. rewrite length_app. simpl. lia.
  - apply Journal.history_snoc; try done; rewrite <- ?Ep.
    + unfold record_shape; cbn. split_and!; [done | | naive_solver]. exists (state prev). split; [done |].
      destruct (pre_mutation (state prev)); naive_solver.
    + split_and!; cbn; try done.
      * rewrite next_sequence_level. unfold level.
        pose proof (durable_sequence_ge j prev (last_Some_elem_of _ _ Hl)). lia.
      * by destruct (pre_mutation (state prev)).
      * right. split_and!; done.
  - intros (c & Hc & Es). apply Hrec. exists c. split; [| done]. rewrite Ej.
    apply elem_of_cons in Hc as [-> | Hc]; [set_solver |].
    apply elem_of_app in Hc as [Hc | ->%list_elem_of_singleton]; [set_solver | done].
Qed.

Lemma abandoned_check d j now prev :
  check_journal j = None -> journal_rules (abandoned d j now prev) = None ->
  check_timestamp "/updated_at" now = None -> check_journal (abandoned d j now prev) = None.
Proof.
  unfold check_journal. rewrite !check_all_none, !Forall_cons, Forall_nil. cbn.
  intros (H1 & H2 & H3 & H4 & H5 & H6 & H7 & H8 & H9 & H10 & H11 & H12 & H13 & H14 & _) Hr Hnow.
  assert (forall path, check_timestamp path now = None) as Hts.
  { intros path. revert Hnow. unfold check_timestamp, refuse_if.
    by destruct (Regex.fullmatch timestamp_pattern now), (timestamp_format now). }
  apply Journal.accepted_length in Hr. unfold Journal.max_records in Hr. cbn in Hr.
  split_and!; try done.
  - unfold check_min, refuse_if in *. destruct (generation j <? 1) eqn:E; [done |].
    by destruct (Z.ltb_spec (generation j + 1) 1); [lia |].
  - unfold refuse_if. rewrite bool_decide_eq_false_2; [done |]. by destruct (checkpoints j).
  - unfold refuse_if. by destruct (Z.ltb_spec 32 (Z.of_nat (length (checkpoints j ++ [abandon_entry (next_sequence d j) now prev])))); [lia |].
  - unfold check_items in *. rewrite enumerate_snoc, check_all_none, Forall_app. split; [by rewrite check_all_none in H14 |].
    constructor; [| done]. unfold check_record, abandon_entry. cbn. rewrite Hts. cbn.
    unfold check_min, refuse_if. rewrite next_sequence_level. unfold level. pose proof (durable_nonneg j).
    by destruct (Z.ltb_spec (Z.max (read_counter d) (durable_sequence j) + 1) 1); [lia |].
Qed.

(** an operation whose process is gone can always be settled: for every
    valid in-progress journal the interrupted record that reconciliation appends
    is legal, whatever its state and kind, provided the clock's stamp is a real
    date and the journal still fits its 65536 bytes. *)
Theorem abandonment_is_legal d j now prev t :
  validate_document j = None -> in_progress j = true -> last_record j = Some prev ->
  check_timestamp "/updated_at" now = None ->
  Canonical.canonicalize (journal_json (abandoned d j now prev)) = Ok t ->
  Z.of_nat (String.length (Canonical.utf8 t)) <= journal_max_bytes ->
  validate_document (abandoned d j now prev) = None.
Proof.
  intros Hv Hp Hl Hnow Ht Hs.
  assert (journal_rules (abandoned d j now prev) = None) as Hr
    by (apply abandoned_rules; [by apply validate_rules | done | done]).
  apply (validate_intro _ t); try done. apply abandoned_check; [by apply validate_check | done | done].
Qed.

Lemma abandoned_settled d j now prev : in_progress (abandoned d j now prev) = false.
Proof.
  unfold in_progress, last_record. cbn. rewrite last_snoc. cbn. by rewrite !andb_false_r.
Qed.

Lemma reconcile_one_settles r bound now w r' w' :
  reconcile_one r bound now w = (Ok (r', None), w') ->
  name r' = name r /\
  forall j, record_journal r' = Some j -> name r' = bound \/ in_progress j = false.
Proof.
  unfold reconcile_one. destruct (record_journal r) as [j |] eqn:Ej.
  2:{ intros [= <- <-]. split; [done |]. congruence. }
  destruct (String.eqb_spec (name r) bound) as [Eb | Nb]; simpl.
  { intros [= <- <-]. split; [done |]. by left. }
  destruct (in_progress j) eqn:Ep.
  - unfold abandon, bind, get. destruct (last_record j) as [prev |]; [| done].
    destruct (operations w ≫= _) as [d |]; [| done]. destruct (validate_document _); [done |].
    destruct (write_record _ _ _ _ w) as [[] w1]; [| done]. intros [= <- <-]. split; [done |].
    intros j' [= <-]. right. apply abandoned_settled.
  - intros [= <- <-]. split; [done |]. intros j' E. right. congruence.
Qed.

(** reconciliation that finishes without a warning leaves no operation in
    progress other than the one the lock is bound to, and keeps every record
    under its name. *)
Theorem reconcile_settles rs bound now w rs' w' :
  reconcile rs bound now w = (Ok (rs', []), w') ->
  map name rs' = map name rs /\
  forall r j, r ∈ rs' -> record_journal r = Some j -> name r = bound \/ in_progress j = false.
Proof.
  revert w rs' w'; induction rs as [| r rs IH]; intros w rs' w'; cbn [reconcile].
  { intros [= <- <-]. split; [done |]. intros r j Hr. by apply elem_of_nil in Hr. }
  unfold bind. destruct (reconcile_one r bound now w) as [[[r1 warn] | e] w1] eqn:E1; [| done].
  destruct (reconcile rs bound now w1) as [[[rs2 ws2] | e] w2] eqn:E2; [| done].
  intros H. injection H as <- Ew <-. destruct warn as [m |]; [done |]. subst ws2.
  apply reconcile_one_settles in E1 as [En H1]. apply IH in E2 as [Ens H2].
  split; [simpl; congruence |]. intros x j Hx Hj. apply elem_of_cons in Hx as [-> | Hx]; eauto.
Qed.

(** *** Retention *)

Lemma stamp_le_total x y : stamp_le x y = true \/ stamp_le y x = true.
Proof.
  unfold stamp_le. rewrite (String.eqb_sym y.1 x.1). destruct (String.eqb_spec x.1 y.1); apply String.leb_total.
Qed.

Lemma stamp_le_trans x y z : stamp_le x y = true -> stamp_le y z = true -> stamp_le x z = true.
Proof.
  unfold stamp_le. destruct (String.eqb_spec x.1 y.1) as [E1 | N1], (String.eqb_spec y.1 z.1) as [E2 | N2];
    destruct (String.eqb_spec x.1 z.1) as [E3 | N3]; try congruence; try (by rewrite E1 in *); try (by rewrite E2 in *);
    try apply leb_trans.
  intros H1 H2. rewrite <- E3 in H2. destruct N1. by apply String.leb_antisym.
Qed.

Lemma held_ref_elem x j : x ∈ held_ref j <-> exists r, recovery j = Some r /\ x = ref_text r.
Proof. unfold held_ref. destruct (recovery j); set_solver. Qed.

Lemma held_elem js x (P : journal -> bool) :
  x ∈ (List.filter P (List.filter (fun j => is_some (recovery j)) js) ≫= held_ref) <->
  exists j r, j ∈ js /\ P j = true /\ recovery j = Some r /\ x = ref_text r.
Proof.
  rewrite list_elem_of_bind. setoid_rewrite held_ref_elem. setoid_rewrite list_elem_of_In.
  setoid_rewrite filter_In. setoid_rewrite filter_In. split.
  - intros (j & (r & Hr & ->) & ((Hin & _) & HP)). by exists j, r.
  - intros (j & r & Hin & HP & Hr & ->). exists j. split; [by exists r |]. rewrite Hr. done.
Qed.

Lemma journals_elem rs j : j ∈ journals rs <-> exists r, r ∈ rs /\ record_journal r = Some j.
Proof. unfold journals. rewrite list_elem_of_omap. done. Qed.

(** retention never lets go of a reference that is still needed: every
    reference an unfinished operation holds is protected and not releasable; so
    is one recorded by a committed operation no older than any other committed
    one; only references that some record holds are released, and none at all
    while a record requires inspection. *)
Theorem retention_safe rs protected releasable complete :
  retention rs = (protected, releasable, complete) ->
  (forall j r, j ∈ journals rs -> finished j = false -> recovery j = Some r ->
     ref_text r ∈ protected /\ ref_text r ∉ releasable) /\
  (forall j r, j ∈ journals rs -> closed_committed j = true -> recovery j = Some r ->
     exists k s, k ∈ journals rs /\ closed_committed k = true /\ recovery k = Some s /\
       stamp_le (updated_key j) (updated_key k) = true /\
       ref_text s ∈ protected /\ ref_text s ∉ releasable) /\
  (forall x, x ∈ releasable -> exists j r, j ∈ journals rs /\ recovery j = Some r /\ x = ref_text r) /\
  (complete = true <-> forall r, r ∈ rs -> record_journal r <> None) /\
  (complete = false -> releasable = ∅).
Proof.
  unfold retention. set (held := List.filter (fun j => is_some (recovery j)) (journals rs)).
  set (committed := py_sorted committed_key_le (List.filter closed_committed held)).
  set (newest := match list.last committed with Some j => held_ref j | None => [] end).
  intros [= <- <- <-]. set (P := list_to_set _ : gset string).
  assert (forall x, x ∈ (if forallb (fun r => is_some (record_journal r)) rs
                         then list_to_set (held ≫= held_ref) ∖ P else ∅) -> x ∉ P) as Hdisj
    by (intros x; destruct (forallb _ _); set_solver).
  split_and!.
  - intros j r Hj Hf Hr. enough (ref_text r ∈ P) as HP by (split; [done | intros Hx; by apply (Hdisj _ Hx)]).
    unfold P. apply elem_of_list_to_set, elem_of_app. left. apply held_elem. exists j, r. by rewrite Hf.
  - intros j r Hj Hc Hr.
    assert (j ∈ List.filter closed_committed held) as Hin.
    { apply list_elem_of_In, filter_In. split; [| done]. apply filter_In.
      split; [by apply list_elem_of_In | by rewrite Hr]. }
    destruct (list.last committed) as [k |] eqn:Ek.
    2:{ apply last_None in Ek. unfold committed in Ek. assert (j ∈ committed) as Hx by (unfold committed; by rewrite py_sorted_perm).
        unfold committed in Hx. rewrite Ek in Hx. by apply elem_of_nil in Hx. }
    assert (k ∈ List.filter closed_committed held) as Hk.
    { rewrite <- (py_sorted_perm committed_key_le). by apply last_Some_elem_of. }
    pose proof (py_sorted_last_max committed_key_le (fun x y => stamp_le_total _ _)
                  (fun x y z => stamp_le_trans _ _ _) _ j k Hin Ek) as Hle.
    apply list_elem_of_In, filter_In in Hk as [[Hkin Hks]%filter_In Hkc].
    destruct (recovery k) as [s |] eqn:Es; [| done]. exists k, s.
    enough (ref_text s ∈ P) as HP.
    { split_and!; try done; [by apply list_elem_of_In | intros Hx; by apply (Hdisj _ Hx)]. }
    unfold P, newest. apply elem_of_list_to_set, elem_of_app. right. apply held_ref_elem. by exists s.
  - intros x Hx. destruct (forallb _ _); [| set_solver]. apply elem_of_difference in Hx as [Hx _].
    apply elem_of_list_to_set, list_elem_of_bind in Hx as (j & (r & Hr & ->)%held_ref_elem & Hj).
    exists j, r. split_and!; try done. apply list_elem_of_In, filter_In in Hj as [Hj _]. by apply list_elem_of_In.
  - rewrite forallb_forall. setoid_rewrite <- list_elem_of_In.
    split; intros H r Hr; specialize (H r Hr); by destruct (record_journal r).
  - intros ->. done.
Qed.

(** *** A concrete host

    An update transaction is begun, staged, emits a progress event, and a later
    stale writer tries again. *)

Definition plain (s : string) (n : Z) : string := s.
Definition shown (s : string) : string := s.

Definition digest0 : string := "sha256:0000000000000000000000000000000000000000000000000000000000000000".
Definition no_recovery : recovery_members := RecoveryMembers None None.
Definition no_evidence : evidence_members := EvidenceMembers None None None.

Definition demo_begin : begin_request :=
  BeginRequest Transaction Update Native (Some digest0) None (Some "0.4.6") None (Some "0.4.7") None no_recovery no_evidence.

Definition demo_op : string := "op-20260102-001".

Definition demo_checkpoint (g : Z) : checkpoint_request :=
  CheckpointRequest demo_op g Staged None None None None None no_recovery no_evidence.

Definition demo_emit : emit_request :=
  EmitRequest demo_op TProgress (Some "download") None None (Some 1) (Some 3) (Some "steps") None None None.

Definition at_time : string := "2026-01-02T03:04:05.000000Z".
Definition root : string := "/var/lib/circuitbreaker-lifecycle/private/operations".

Definition demo1 : world :=
  (run plain shown root (RBegin demo_begin at_time at_time "aa") (Ok EmptyString) (with_script [] fresh_host)).2.
Definition demo2 : world :=
  (run plain shown root (RCheckpoint (demo_checkpoint 1) at_time) (Ok demo_op) (with_script [] demo1)).2.
Definition demo3 : world :=
  (run plain shown root (REmit demo_emit at_time) (Ok demo_op) (with_script [] demo2)).2.

Lemma demo1_reachable : reachable plain shown demo1.
Proof. apply rtc_once. constructor. Qed.
Lemma demo2_reachable : reachable plain shown demo2.
Proof. eapply rtc_r; [exact demo1_reachable |]. constructor. Qed.
Lemma demo3_reachable : reachable plain shown demo3.
Proof. eapply rtc_r; [exact demo2_reachable |]. constructor. Qed.

Example demo_runs :
  map (fun e => (ev_operation e, ev_sequence e)) (emitted demo3) = [(demo_op, 1); (demo_op, 2); (demo_op, 3)].
Proof. vm_compute. reflexivity. Qed.

Definition tree_of (w : world) : tree := default ∅ (operations w).
Definition event_at (w : world) (i : nat) : event :=
  default (Event EmptyString 0 EmptyString (CheckpointEvent Planned 0)) (emitted w !! i).

Lemma reachable_tree_sound_witness :
  exists j, read_record (tree_of demo2) demo_op = Record_ demo_op (Some j) EmptyString false /\
    validate_document j = None.
Proof.
  destruct (reachable_tree_sound plain shown demo2 (tree_of demo2) demo2_reachable) as [H _];
    [vm_compute; reflexivity |].
  destruct (tree_of demo2 !! demo_op) as [e |] eqn:E; [| exfalso; revert E; vm_compute; discriminate].
  apply (H demo_op e E). vm_compute. reflexivity.
Defined.

Lemma sequences_never_reused_witness : ev_sequence (event_at demo3 1) < ev_sequence (event_at demo3 2).
Proof.
  apply (sequences_never_reused plain shown demo3 [event_at demo3 0] (event_at demo3 1) [] (event_at demo3 2) []
           demo3_reachable); vm_compute; reflexivity.
Defined.

Definition demo_journal (w : world) : journal :=
  default Journal.longest_journal (record_journal (read_record (tree_of w) demo_op)).
Definition demo_dir (w : world) : opdir := default (OpDir None NoFile) (find_opdir (tree_of w) demo_op).

Lemma next_sequence_fresh_witness : 1 < next_sequence (OpDir None NoFile) (demo_journal demo1).
Proof.
  assert (exists c, c ∈ checkpoints (demo_journal demo1) /\ sequence c = 1) as (c & Hc & <-).
  { destruct (checkpoints (demo_journal demo1)) as [| c cs] eqn:E; [exfalso; revert E; vm_compute; discriminate |].
    exists c. split; [apply list_elem_of_here |].
    transitivity (default 0 (sequence <$> (checkpoints (demo_journal demo1) !! 0%nat))); [by rewrite E |].
    vm_compute. reflexivity. }
  apply (next_sequence_fresh (OpDir None NoFile) (demo_journal demo1) c Hc).
Defined.

Lemma demo_operation_at w :
  is_some (record_journal (read_record (tree_of w) demo_op)) = true -> is_some (operations w) = true ->
  operation_at (operations w) demo_op (demo_dir w) (demo_journal w) /\
  validate_document (demo_journal w) = None /\ operation_id (demo_journal w) = demo_op.
Proof.
  unfold demo_journal, demo_dir, tree_of. destruct (operations w) as [t |]; [simpl | done].
  destruct (record_journal (read_record t demo_op)) as [j |] eqn:E; [intros _ _ | done].
  destruct (read_record_Some _ _ _ E) as (d & Hd & Hj & Hv & Hid & _). unfold find_opdir. rewrite Hd. simpl.
  split_and!; try done. by exists t.
Qed.

Lemma stale_checkpoint_refused_witness :
  run plain shown root (RCheckpoint (demo_checkpoint 1) at_time) (Ok demo_op) demo2 = (9, demo2).
Proof.
  destruct (demo_operation_at demo2) as (Hat & Hv & Hid); [vm_compute; reflexivity | vm_compute; reflexivity |].
  apply (stale_checkpoint_refused plain shown root (demo_checkpoint 1) at_time demo2 (demo_dir demo2) (demo_journal demo2)
           Hat Hv Hid).
  vm_compute. discriminate.
Defined.

Lemma checkpoint_commits_witness :
  exists d j c d' e,
    operation_at (operations demo1) demo_op d j /\ generation j = 1 /\
    operation_at (operations demo2) demo_op d' (demo_journal demo2) /\
    last_record (demo_journal demo2) = Some c /\ state c = Staged /\
    emitted demo2 = emitted demo1 ++ [e].
Proof.
  destruct (checkpoint_commits plain shown (demo_checkpoint 1) (Ok demo_op) at_time (with_script [] demo1)
              (demo_journal demo2) [] demo2) as (d & j & c & d' & e & H).
  - exact (reachable_ok plain shown demo1 demo1_reachable).
  - vm_compute. reflexivity.
  - exists d, j, c, d', e. destruct H as (_ & H1 & H2 & H3 & _ & H4 & H5 & _ & _ & H6 & _).
    exact (conj H1 (conj H2 (conj H3 (conj H4 (conj H5 H6))))).
Defined.

Lemma begin_allocates_witness :
  exists d j e, operation_at (operations demo1) demo_op d j /\ generation j = 1 /\
    emitted demo1 = [e] /\ ev_sequence e = 1.
Proof.
  destruct (begin_allocates plain shown demo_begin root (Ok EmptyString) at_time at_time "aa" (with_script [] fresh_host)
              demo_op [] demo1) as (d & j & e & H).
  - exact fresh_host_ok.
  - vm_compute. reflexivity.
  - exists d, j, e. destruct H as (_ & _ & H1 & _ & H2 & _ & H3 & _ & H4).
    exact (conj H1 (conj H2 (conj H3 H4))).
Defined.

Definition demo_prev : checkpoint :=
  default (Checkpoint 0 Planned EmptyString None None None None None) (last_record (demo_journal demo2)).
Definition demo_text : string :=
  match Canonical.canonicalize (journal_json (abandoned (demo_dir demo2) (demo_journal demo2) at_time demo_prev)) with
  | Ok t => t
  | Err _ => EmptyString
  end.

Lemma abandonment_is_legal_witness :
  validate_document (abandoned (demo_dir demo2) (demo_journal demo2) at_time demo_prev) = None.
Proof.
  apply (abandonment_is_legal (demo_dir demo2) (demo_journal demo2) at_time demo_prev demo_text);
    try (vm_compute; reflexivity). vm_compute. discriminate.
Defined.

Definition demo_reconciled : list record * world :=
  match reconcile (read_records (operations demo2)) EmptyString at_time demo2 with
  | (Ok (rs, _), w) => (rs, w)
  | (Err _, w) => ([], w)
  end.

Lemma reconcile_settles_witness : map name demo_reconciled.1 = [demo_op].
Proof.
  destruct (reconcile_settles (read_records (operations demo2)) EmptyString at_time demo2 demo_reconciled.1
              demo_reconciled.2) as [H _]; [vm_compute; reflexivity |].
  rewrite H. vm_compute. reflexivity.
Defined.

Definition holding : record :=
  Record_ (operation_id Journal.longest_journal)
    (Some (advance Journal.longest_journal (take 10 Journal.longest) at_time (recovery Journal.longest_journal) []))
    EmptyString false.

Lemma retention_safe_witness :
  (retention [holding]).1.1 = {["op-20260101-001:sha256:00"]} /\
  "op-20260101-001:sha256:00" ∈ (retention [holding]).1.1.
Proof.
  split; [vm_compute; reflexivity |].
  destruct (retention [holding]) as [[p q] c] eqn:E.
  destruct (retention_safe [holding] p q c E) as [H _].
  destruct (H (default Journal.longest_journal (record_journal holding))
              (RecoveryRef "op-20260101-001" "sha256:00")) as [Hp _]; [| vm_compute; reflexivity | reflexivity |].
  - simpl. apply list_elem_of_here.
  - exact Hp.
Defined.

End StoreTheorems.
