(* ===== verification/Rbac.v ===== *)
(** Role and scope gates ([core/rbac.py]) and token scopes
    ([core/token_scopes.py]).  A user row is a record; [scopes_list] is what its
    [scopes] column decodes to ([None] when it is empty, not JSON or not a list).
    The gates take the request's authenticated user id, its token scopes, the
    user table and the clock. *)
From S2P Require Import Prelude.
Open Scope Z_scope.

Module Rbac.

Record user := User {
  uid : Z;
  role : option string;
  is_admin : bool;
  is_superuser : bool;
  scopes_list : option (list string);
  locked_until : option Z;
  demo_expires : option Z
}.

(** An [HTTPException]: its status. *)
Inductive denial := Status (code : Z) (detail : string).

Definition ROLE_HIERARCHY (r : string) : option Z :=
  if String.eqb r "viewer" then Some 0
  else if String.eqb r "editor" then Some 1
  else if String.eqb r "admin" then Some 2
  else if String.eqb r "demo" then Some 0 else None.

Definition rank (r : string) : Z := default 0 (ROLE_HIERARCHY r).
Definition valid_role (r : string) : bool := match ROLE_HIERARCHY r with Some _ => true | None => false end.

Definition editor_writes : list string :=
  ["write:hardware"; "write:services"; "write:networks"; "write:clusters"; "write:external"; "write:compute";
   "write:storage"; "write:misc"; "write:docs"; "write:graph"; "write:layout"].

Definition ROLE_DEFAULT_SCOPES (r : string) : list string :=
  if String.eqb r "editor" then "read:*" :: editor_writes
  else if String.eqb r "admin" then ["read:*"; "write:*"; "delete:*"; "admin:*"]
  else ["read:*"].

Definition ROLE_SCOPE_REQUIREMENT (r : string) : string * string :=
  if String.eqb r "viewer" || String.eqb r "demo" then ("read", "*")
  else if String.eqb r "editor" then ("write", "*") else ("admin", "*").

Definition service_user : user :=
  User 0 (Some "admin") true true (Some (ROLE_DEFAULT_SCOPES "admin")) None None.

Definition effective_role (u : user) : string :=
  let r := match role u with
           | Some r => if String.eqb r EmptyString then (if is_admin u then "admin" else "viewer") else r
           | None => if is_admin u then "admin" else "viewer"
           end in
  if valid_role (lower r) then lower r else "viewer".

(** [{str(x).strip() for x in l if str(x).strip()}]. *)
Definition cleaned (l : list string) : list string :=
  List.filter (fun s => negb (String.eqb s EmptyString)) (map strip l).

Definition explicit_scopes (u : user) : list string :=
  match scopes_list u with Some l => cleaned l | None => [] end.

Definition effective_scopes (u : user) : list string :=
  ROLE_DEFAULT_SCOPES (effective_role u) ++ explicit_scopes u.

Definition mem (s : string) (l : list string) : bool := bool_decide (s ∈ l).

Definition scope (action resource : string) : string := action +:+ ":" +:+ resource.

Definition group (resource : string) : option string :=
  match split_on "/" resource with g :: _ :: _ => Some g | _ => None end.

Definition has_scope (scopes : list string) (action resource : string) : bool :=
  mem (scope action resource) scopes || mem (scope action "*") scopes || mem (scope "*" resource) scopes
  || mem "*:*" scopes
  || match group resource with Some g => mem (scope action g) scopes | None => false end.

(** A request: the authenticated user, and the scopes of its token if it has one. *)
Record request := Request { user_id : option Z; token_scopes : option (list string) }.

Definition request_token_scopes (q : request) : option (list string) := cleaned <$> token_scopes q.

Definition is_demo_expired (u : user) (now : Z) : bool :=
  match demo_expires u with Some e => e <=? now | None => false end.

Definition is_locked (u : user) (now : Z) : bool :=
  match locked_until u with Some t => now <? t | None => false end.

Definition lowest (roles : list string) : string :=
  match py_sorted (fun x y => rank x <=? rank y) roles with r :: _ => r | [] => "admin" end.

Definition min_rank (roles : list string) : option Z :=
  match roles with [] => None | r :: rs => Some (foldr (fun r m => Z.min (rank r) m) (rank r) rs) end.

Definition authentication_required : denial := Status 401 "Authentication required".
Definition user_not_found : denial := Status 401 "User not found".
Definition insufficient : denial := Status 403 "Insufficient permissions".
Definition locked : denial :=
  Status 423 "Account locked due to failed login attempts. Contact an administrator.".
Definition demo_expired : denial := Status 401 "Demo session expired".

Section Gates.
Variable users : Z -> option user.
Variable now : Z.

Definition require_role (roles : list string) (q : request) : result denial user :=
  match user_id q with
  | None => Err authentication_required
  | Some id =>
      let '(action, resource) := ROLE_SCOPE_REQUIREMENT (lowest roles) in
      let refused_by_token :=
        match request_token_scopes q, roles with
        | Some ts, _ :: _ => negb (has_scope ts action resource)
        | _, _ => false
        end in
      if refused_by_token then Err insufficient
      else if id =? 0 then Ok service_user
      else match users id with
      | None => Err user_not_found
      | Some u =>
          if is_locked u now then Err locked
          else if String.eqb (effective_role u) "demo" && is_demo_expired u now then Err demo_expired
          else if is_superuser u then Ok u
          else match min_rank roles with
               | None => Ok u
               | Some m => if rank (effective_role u) <? m then Err insufficient else Ok u
               end
      end
  end.

Definition require_scope (action resource : string) (q : request) : result denial user :=
  match user_id q with
  | None => Err authentication_required
  | Some id =>
      let ts := request_token_scopes q in
      if id =? 0 then
        match ts with
        | Some ts => if has_scope ts action resource then Ok service_user else Err insufficient
        | None => Ok service_user
        end
      else match users id with
      | None => Err user_not_found
      | Some u =>
          if is_locked u now then Err locked
          else if String.eqb (effective_role u) "demo" && is_demo_expired u now then Err demo_expired
          else match ts with
               | Some ts => if has_scope ts action resource then Ok u else Err insufficient
               | None =>
                   if is_superuser u then Ok u
                   else if has_scope (effective_scopes u) action resource then Ok u else Err insufficient
               end
      end
  end.
End Gates.

(** *** [token_scopes] *)

Definition GRANTABLE_SCOPES : list string := ["read:*"; "write:*"; "delete:*"; "admin:*"; "write:telemetry"; "*:*"].

Definition validate_scopes (scopes : list string) : result string (list string) :=
  let clean := cleaned scopes in
  if bool_decide (clean = []) then Err "At least one scope is required."
  else
    let unknown := py_sorted String.leb (dedup (List.filter (fun s => negb (mem s GRANTABLE_SCOPES)) clean)) in
    if bool_decide (unknown = []) then Ok (py_sorted String.leb (dedup clean))
    else Err ("Unknown scope(s): " +:+ String.concat ", " unknown +:+ ". Valid scopes: "
                +:+ String.concat ", " (py_sorted String.leb GRANTABLE_SCOPES) +:+ ".").

(** *** What a granted token can do *)

Definition actions : list string := ["read"; "write"; "delete"; "admin"].

Lemma grantable_scope a x :
  a ∈ actions -> scope a x ∈ GRANTABLE_SCOPES -> x = "*" \/ a = "write" /\ x = "telemetry".
Proof.
  unfold actions, GRANTABLE_SCOPES, scope. intros Ha Hx. set_unfold in Ha. set_unfold in Hx.
  destruct_or! Ha; subst a; simpl in Hx; destruct_or! Hx; simplify_eq; auto.
Qed.

Lemma grantable_star x : scope "*" x ∈ GRANTABLE_SCOPES -> x = "*".
Proof. unfold GRANTABLE_SCOPES, scope. intros Hx. set_unfold in Hx. simpl in Hx. destruct_or! Hx; by simplify_eq. Qed.

Lemma mem_true s l : mem s l = true <-> s ∈ l.
Proof. apply bool_decide_eq_true. Qed.

Lemma mem_false s l : mem s l = false <-> s ∉ l.
Proof. apply bool_decide_eq_false. Qed.

Lemma validated_grantable raw ts s : validate_scopes raw = Ok ts -> s ∈ ts -> s ∈ GRANTABLE_SCOPES.
Proof.
  unfold validate_scopes. destruct (bool_decide (cleaned raw = [])); [done |].
  case_bool_decide as Hu; [| done]. intros [= <-] Hs. rewrite py_sorted_perm, dedup_elem in Hs.
  destruct (mem s GRANTABLE_SCOPES) eqn:E; [by apply mem_true |].
  assert (s ∈ py_sorted String.leb (dedup (List.filter (fun s => negb (mem s GRANTABLE_SCOPES)) (cleaned raw)))) as Hin.
  { rewrite py_sorted_perm, dedup_elem. apply list_elem_of_In, filter_In. split; [by apply list_elem_of_In | by rewrite E]. }
  rewrite Hu in Hin. by apply elem_of_nil in Hin.
Qed.

(** a validated token has exactly the power its scopes name: for every
    action the gates use, it is granted a resource only through the unrestricted
    scope, the wildcard of that very action, or (for writes) the telemetry
    scope; no combination of grantable scopes adds up to more. *)
Theorem validated_token_power raw ts a r :
  validate_scopes raw = Ok ts -> a ∈ actions ->
  has_scope ts a r = true <->
  "*:*" ∈ ts \/ scope a "*" ∈ ts \/
  (a = "write" /\ "write:telemetry" ∈ ts /\ (r = "telemetry" \/ group r = Some "telemetry")).
Proof.
  intros Hv Ha. pose proof (fun s => validated_grantable raw ts s Hv) as Hg.
  unfold has_scope. rewrite !orb_true_iff, !mem_true. split.
  - intros [[[[H | H] | H] | H] | H].
    + destruct (grantable_scope a r Ha (Hg _ H)) as [-> | [-> ->]]; auto 6.
    + auto.
    + pose proof (grantable_star r (Hg _ H)) as ->. by left.
    + by left.
    + destruct (group r) as [g |]; [| done]. apply mem_true in H.
      destruct (grantable_scope a g Ha (Hg _ H)) as [-> | [-> ->]]; auto 6.
  - intros [H | [H | (-> & H & [-> | Hr])]]; auto. right. rewrite Hr. by apply mem_true.
Qed.

Lemma validated_token_power_witness :
  has_scope ["read:*"; "write:telemetry"] "write" "telemetry" = true /\
  has_scope ["read:*"; "write:telemetry"] "write" "hardware" = false.
Proof.
  split.
  - apply (validated_token_power [" read:*"; "write:telemetry"]);
      [vm_compute; reflexivity | set_solver | right; right; split_and!; [done | set_solver | by left]].
  - apply not_true_is_false. intros H.
    apply (validated_token_power [" read:*"; "write:telemetry"]) in H; [| vm_compute; reflexivity | set_solver].
    destruct H as [H | [H | (_ & _ & [H | H])]]; try (vm_compute in H; discriminate); set_unfold in H; naive_solver.
Defined.

(** *** What passing a gate means *)

Lemma min_rank_reached roles m : min_rank roles = Some m -> exists r, r ∈ roles /\ rank r = m.
Proof.
  destruct roles as [| r rs]; [done |]. intros [= <-].
  induction rs as [| x rs IH]; simpl; [exists r; set_solver |].
  destruct IH as (y & Hy & E). destruct (Z.min_dec (rank x) (foldr (fun r m => Z.min (rank r) m) (rank r) rs)) as [-> | ->].
  - exists x. set_solver.
  - exists y. split; [set_solver | done].
Qed.

(** The user a gate lets through. *)
Definition in_good_standing (users : Z -> option user) (now : Z) (q : request) (u : user) : Prop :=
  (user_id q = Some 0 /\ u = service_user) \/
  (exists id, user_id q = Some id /\ id <> 0 /\ users id = Some u /\ is_locked u now = false /\
     (effective_role u = "demo" -> is_demo_expired u now = false)).

(** C7: whoever passes a gate is authenticated, exists, is not locked out and not
    an expired demo user.  On the role gate the rank of the effective role
    reaches an accepted role, unless the user is a superuser or the service
    account, and a scoped token must in addition grant the scope that stands for
    the lowest accepted role.  On the scope gate a scoped token must itself grant
    the permission, and is then all that is asked; without one the effective
    scopes must grant it, unless the user is a superuser or the service account.
    The gates do not look at [is_active]. *)
Theorem gates_sound users now roles a r q u :
  (require_role users now roles q = Ok u -> roles <> [] ->
     in_good_standing users now q u /\
     (forall ts, token_scopes q = Some ts ->
        has_scope (cleaned ts) (ROLE_SCOPE_REQUIREMENT (lowest roles)).1 (ROLE_SCOPE_REQUIREMENT (lowest roles)).2 = true) /\
     (u = service_user \/ is_superuser u = true \/ exists x, x ∈ roles /\ rank x <= rank (effective_role u))) /\
  (require_scope users now a r q = Ok u ->
     in_good_standing users now q u /\
     (forall ts, token_scopes q = Some ts -> has_scope (cleaned ts) a r = true) /\
     (token_scopes q = None -> u = service_user \/ is_superuser u = true \/ has_scope (effective_scopes u) a r = true)).
Proof.
  unfold require_role, require_scope, in_good_standing, request_token_scopes. split.
  - intros H Hne. destruct (user_id q) as [id |]; [| done].
    destruct (ROLE_SCOPE_REQUIREMENT (lowest roles)) as [act res]; simpl.
    destruct roles as [| r0 rs]; [done |].
    assert (forall ts, token_scopes q = Some ts -> has_scope (cleaned ts) act res = true) as Htok.
    { intros ts Ets. rewrite Ets in H. simpl in H. by destruct (has_scope (cleaned ts) act res). }
    destruct (match cleaned <$> token_scopes q with Some ts => negb (has_scope ts act res) | None => false end); [done |].
    destruct (Z.eqb_spec id 0) as [-> | Hid]; [naive_solver |].
    destruct (users id) as [v |] eqn:Ev; [| done]. destruct (is_locked v now) eqn:El; [done |].
    destruct (String.eqb_spec (effective_role v) "demo"); simpl in H;
      destruct (is_demo_expired v now) eqn:Ed; try done;
      destruct (is_superuser v) eqn:Es; try (naive_solver);
      destruct (Z.ltb_spec (rank (effective_role v)) (foldr (fun r m => Z.min (rank r) m) (rank r0) rs)); try done;
      destruct (min_rank_reached (r0 :: rs) _ eq_refl) as (x & Hx & Ex); injection H as <-; naive_solver lia.
  - intros H. destruct (user_id q) as [n |]; [| done].
    destruct (n =? 0) eqn:E0; [apply Z.eqb_eq in E0; subst n | apply Z.eqb_neq in E0].
    { destruct (token_scopes q) as [ts |]; simpl in H; [destruct (has_scope _ _ _) eqn:Eh; [| done] |]; naive_solver. }
    destruct (users n) as [v |] eqn:Ev; [| done]. destruct (is_locked v now) eqn:El; [done |].
    destruct (String.eqb_spec (effective_role v) "demo"); simpl in H;
      destruct (is_demo_expired v now) eqn:Ed; try done;
      (destruct (token_scopes q) as [ts |]; simpl in H;
         [destruct (has_scope (cleaned ts) a r) eqn:Eh; [| done]
         | destruct (is_superuser v) eqn:Es; [| destruct (has_scope (effective_scopes v) a r) eqn:Eh; [| done]]]);
      injection H as <-; naive_solver.
Qed.

Definition demo_editor : user := User 7 (Some "Editor") false false None None None.

Lemma gates_sound_witness :
  require_role (fun _ => Some demo_editor) 100 ["editor"] (Request (Some 7) None) = Ok demo_editor /\
  exists x, x ∈ ["editor"] /\ rank x <= rank (effective_role demo_editor).
Proof.
  split; [vm_compute; reflexivity |].
  destruct (gates_sound (fun _ => Some demo_editor) 100 ["editor"] "read" "*" (Request (Some 7) None) demo_editor) as [H _].
  destruct H as (_ & _ & [H | [H | H]]); [vm_compute; reflexivity | done | done | done | done].
Defined.

End Rbac.
