(* ===== verification/Health.v ===== *)
(** The health contract and the write gate ([core/health.py],
    [core/server_state.py], [core/write_admission.py]).

    [current_health] suspends while it probes, so it is two functions: [enter]
    runs up to the probe and either answers from the cache or leaves a probe in
    flight; [leave] runs when the probe's checks have arrived.  A process is a
    step relation over these, the lifecycle changes and the requests waiting for
    their probe.  Times are milliseconds of the monotonic clock. *)
From S2P Require Import Prelude.
Open Scope Z_scope.

Module Health.

Inductive lifecycle := LStarting | LReady | LStopping.
Inductive health_state := STARTING | READY | DEGRADED | NOT_READY | STOPPING.

#[export] Instance lifecycle_eq_dec : EqDecision lifecycle. Proof. solve_decision. Defined.
#[export] Instance health_state_eq_dec : EqDecision health_state. Proof. solve_decision. Defined.

(** What the probe reported: whether each dependency answered "ok". *)
Record checks := Checks { db_ok : bool; redis_ok : bool }.

Record snapshot := Snapshot {
  state : health_state;
  taken_under : lifecycle;
  seen : checks;
  degraded : list string;
  writes_permitted : bool;
  reason : option string;
  observed_at : Z
}.

Definition CACHE_TTL : Z := 2000.

Definition failed_required (c : checks) : list string := if db_ok c then [] else ["db"].
Definition failed_optional (c : checks) : list string := if redis_ok c then [] else ["redis"].

Definition classify (l : lifecycle) (c : checks) (now : Z) : snapshot :=
  let mk s w r := Snapshot s l c (failed_optional c) w r now in
  match l with
  | LStopping => mk STOPPING false (Some "server is draining")
  | LStarting => mk STARTING false (Some "server is still starting up")
  | LReady =>
      match failed_required c with
      | _ :: _ => mk NOT_READY false
                    (Some ("required dependency unavailable: " +:+ String.concat ", " (failed_required c)))
      | [] =>
          match failed_optional c with
          | _ :: _ => mk DEGRADED true
                        (Some ("optional dependency unavailable: " +:+ String.concat ", " (failed_optional c)))
          | [] => Snapshot READY l c [] true None now
          end
      end
  end.

(** The module's variables. *)
Record process := Process {
  current : lifecycle;
  cached : option snapshot;
  probe_started_at : option Z;
  gate_armed : bool
}.

(** [_cache_is_fresh]; [None] is an infinite age. *)
Definition cache_is_fresh (s : snapshot) (max_age : option Z) (now : Z) (l : lifecycle) : bool :=
  bool_decide (taken_under s = l) &&
  match max_age with Some a => now - observed_at s <? a | None => true end.

(** [current_health] up to its probe: an answer, or the lifecycle the probe's
    verdict will be classified under. *)
Definition enter (ttl now : Z) (p : process) : (snapshot + lifecycle) * process :=
  let l := current p in
  let probe := (inr l, Process (current p) (cached p) (Some now) (gate_armed p)) in
  match cached p with
  | None => probe
  | Some s =>
      if cache_is_fresh s (Some ttl) now l then (inl s, p)
      else
        let in_flight := match probe_started_at p with Some t => now - t <? ttl | None => false end in
        if (0 <? ttl) && in_flight && cache_is_fresh s None now l then (inl s, p) else probe
  end.

(** The rest of [current_health]. *)
Definition leave (l : lifecycle) (c : checks) (now : Z) (p : process) : snapshot * process :=
  let s := classify l c now in (s, Process (current p) (Some s) None (gate_armed p)).

(** A probe that raises clears the in-flight mark. *)
Definition leave_raising (p : process) : process := Process (current p) (cached p) None (gate_armed p).

Definition set_state (l : lifecycle) (p : process) : process :=
  Process l (cached p) (probe_started_at p) (gate_armed p).
Definition arm (p : process) : process := Process (current p) (cached p) (probe_started_at p) true.
Definition disarm (p : process) : process := Process (current p) (cached p) (probe_started_at p) false.
Definition reset_cache (p : process) : process := Process (current p) None None (gate_armed p).

(** *** The write gate *)

Definition to_upper (c : ascii) : ascii :=
  let n := code c in if (97 <=? n) && (n <=? 122) then ascii_of_nat (Z.to_nat (n - 32)) else c.

Definition mutating_methods : list string := ["POST"; "PUT"; "PATCH"; "DELETE"].
Definition exempt_paths : list string := ["/api/v1/livez"; "/api/v1/readyz"; "/api/v1/startupz"; "/api/v1/health"].

Record http_request := HttpRequest { is_http : bool; method : string; path : string }.

(** Whether the request has to wait for the health verdict. *)
Definition guarded (q : http_request) : bool :=
  is_http q && bool_decide (str_map to_upper (method q) ∈ mutating_methods) &&
  startswith "/api/" (path q) && negb (bool_decide (path q ∈ exempt_paths)).

Inductive response := Forward | Rejected (status : Z) (error_code detail : string).

Definition state_value (s : health_state) : string :=
  match s with
  | STARTING => "starting" | READY => "ready" | DEGRADED => "degraded" | NOT_READY => "not_ready"
  | STOPPING => "stopping"
  end.

Definition rejection (s : snapshot) : response :=
  if bool_decide (state s = STOPPING)
  then Rejected 503 "SERVER_DRAINING" "Server is shutting down and is no longer accepting writes."
  else Rejected 503 "SERVICE_NOT_READY"
         ("Server cannot serve writes safely: " +:+ default (state_value (state s)) (reason s) +:+ ".").

(** The middleware once it has its verdict. *)
Definition write_gate (s : snapshot) (armed : bool) : response :=
  if writes_permitted s then Forward
  else if (bool_decide (state s = STARTING) || bool_decide (state s = STOPPING)) && negb armed then Forward
  else rejection s.

(** [WriteAdmissionMiddleware.__call__] once the verdict is there, if the request
    has to wait for one. *)
Definition middleware (q : http_request) (s : snapshot) (armed : bool) : response :=
  if guarded q then write_gate s armed else Forward.

(** *** A process *)

(** A waiting request holds the lifecycle its probe will be classified under. *)
Record world := World { proc : process; waiting : list lifecycle }.

Inductive step : world -> world -> Prop :=
| step_lifecycle l w : step w (World (set_state l (proc w)) (waiting w))
| step_arm w : step w (World (arm (proc w)) (waiting w))
| step_disarm w : step w (World (disarm (proc w)) (waiting w))
| step_reset w : step w (World (reset_cache (proc w)) (waiting w))
| step_answer ttl now s w : (enter ttl now (proc w)).1 = inl s -> step w (World (enter ttl now (proc w)).2 (waiting w))
| step_probe ttl now l w : (enter ttl now (proc w)).1 = inr l ->
    step w (World (enter ttl now (proc w)).2 (l :: waiting w))
| step_leave c now w l1 l l2 : waiting w = l1 ++ l :: l2 -> step w (World (leave l c now (proc w)).2 (l1 ++ l2))
| step_raise w l1 l l2 : waiting w = l1 ++ l :: l2 -> step w (World (leave_raising (proc w)) (l1 ++ l2)).

Definition initial : world := World (Process LStarting None None false) [].

Definition reachable (w : world) : Prop := rtc step initial w.

(** Every cached verdict is one [classify] gave. *)
Definition cache_ok (p : process) : Prop :=
  match cached p with Some s => exists l c now, s = classify l c now | None => True end.

Lemma enter_cached ttl now p : cached (enter ttl now p).2 = cached p.
Proof. unfold enter. destruct (cached p) eqn:E; [| done]. by repeat case_match. Qed.

Lemma step_cache_ok w w' : step w w' -> cache_ok (proc w) -> cache_ok (proc w').
Proof.
  destruct 1; simpl; try done; unfold cache_ok; rewrite ?enter_cached; try done. intros _. simpl. eauto.
Qed.

Lemma reachable_cache_ok w : reachable w -> cache_ok (proc w).
Proof.
  unfold reachable. assert (cache_ok (proc initial)) as H0 by done. revert H0. generalize initial. intros w0 H0 H.
  induction H as [| x y z Hxy _ IH]; [done |]. by apply IH, (step_cache_ok x).
Qed.

Lemma classify_under l c now : taken_under (classify l c now) = l.
Proof. unfold classify, failed_required, failed_optional. destruct l, c as [[] []]; done. Qed.

Lemma enter_answer ttl now p s :
  (enter ttl now p).1 = inl s -> cached p = Some s /\ taken_under s = current p.
Proof.
  unfold enter. destruct (cached p) as [s' |] eqn:E; [| done].
  destruct (cache_is_fresh s' (Some ttl) now (current p)) eqn:E1.
  - intros [= <-]. split; [done |]. unfold cache_is_fresh in E1. apply andb_true_iff in E1 as [E1 _].
    by apply bool_decide_eq_true in E1.
  - destruct (_ && _) eqn:E2; [| done]. intros [= <-]. split; [done |].
    apply andb_true_iff in E2 as [_ E2]. unfold cache_is_fresh in E2. apply andb_true_iff in E2 as [E2 _].
    by apply bool_decide_eq_true in E2.
Qed.

Lemma enter_probe ttl now p l : (enter ttl now p).1 = inr l -> l = current p.
Proof. unfold enter. repeat case_match; simplify_eq; naive_solver. Qed.

Lemma classify_permits l c now : writes_permitted (classify l c now) = true <-> l = LReady /\ db_ok c = true.
Proof. unfold classify, failed_required, failed_optional. destruct l, c as [[] []]; simpl; naive_solver. Qed.

Lemma gate_forwards l c now : write_gate (classify l c now) true = Forward <-> l = LReady /\ db_ok c = true.
Proof.
  unfold write_gate. rewrite <- (classify_permits l c now). destruct (writes_permitted (classify l c now)); [done |].
  rewrite andb_false_r. unfold rejection. by destruct (bool_decide _).
Qed.

Definition draining : response :=
  Rejected 503 "SERVER_DRAINING" "Server is shutting down and is no longer accepting writes.".

(** C8: draining is immediate for requests that arrive after it.  In any reachable
    process whose lifecycle is stopping, a guarded request (a mutating method on
    a path under /api/ that is not a health path) that asks for its verdict now
    is answered 503 SERVER_DRAINING if the gate is armed when the verdict
    arrives, whether the verdict is the cached one or that of its own probe with
    every dependency green, and is forwarded if the gate is not armed.  A guarded
    request that was already waiting for its probe is decided by the lifecycle
    under which that probe began: with the gate armed it is forwarded exactly
    when that was ready and the database answers.  Other requests are forwarded
    whatever the state. *)
Theorem drain_rejects_writes w q ttl now c later armed :
  reachable w -> current (proc w) = LStopping ->
  let s := match (enter ttl now (proc w)).1 with
           | inl s => s
           | inr l => (leave l c later (enter ttl now (proc w)).2).1
           end in
  (guarded q = true ->
     middleware q s armed = (if armed then draining else Forward) /\
     forall l, l ∈ waiting w -> middleware q (leave l c later (proc w)).1 true = Forward <-> l = LReady /\ db_ok c = true) /\
  (guarded q = false -> forall s', middleware q s' armed = Forward).
Proof.
  intros Hok%reachable_cache_ok Hl s. unfold middleware.
  split; [intros -> | by intros ->]. split.
  - assert (exists c' n, s = classify LStopping c' n) as (c' & n & ->); [| by destruct armed]. subst s.
    destruct (enter ttl now (proc w)).1 as [s | l] eqn:E.
    + apply enter_answer in E as [Ec Eu]. unfold cache_ok in Hok. rewrite Ec in Hok.
      destruct Hok as (l & c' & n & ->). rewrite classify_under, Hl in Eu. subst l. eauto.
    + apply enter_probe in E as ->. rewrite Hl. eauto.
  - intros l _. apply gate_forwards.
Qed.

(** a write is let through exactly when the verdict allows it: with the gate
    armed, a verdict classified under lifecycle [l] with checks [c] admits writes
    if and only if the process was ready and the database answered; the loss of
    Redis alone never closes the gate, and a closed gate always answers 503. *)
Theorem gate_exact l c now :
  (write_gate (classify l c now) true = Forward <-> l = LReady /\ db_ok c = true) /\
  (write_gate (classify l c now) true <> Forward ->
     exists code detail, write_gate (classify l c now) true = Rejected 503 code detail).
Proof.
  split; [apply gate_forwards |]. unfold write_gate. destruct (writes_permitted _); [done |].
  rewrite andb_false_r. unfold rejection. destruct (bool_decide _); eauto.
Qed.

(** A process that cached a green verdict an hour ago, with one probe in flight. *)
Definition hour_old : world :=
  World (Process LReady (Some (classify LReady (Checks true true) 0)) (Some 3600000) true) [LReady].

Lemma hour_old_reachable : reachable hour_old.
Proof.
  eapply rtc_l; [apply (step_lifecycle LReady) |]. eapply rtc_l; [apply step_arm |].
  eapply rtc_l; [apply (step_probe CACHE_TTL 0 LReady); vm_compute; reflexivity |].
  eapply rtc_l; [apply (step_leave (Checks true true) 0 _ [] LReady []); reflexivity |].
  eapply rtc_l; [apply (step_probe CACHE_TTL 3600000 LReady); vm_compute; reflexivity |].
  apply rtc_refl.
Qed.

(** the cache age does not bound how old an admitted write's verdict may be:
    in a reachable process a write that arrives half a second after another
    request's probe began is admitted on a verdict more than an hour old, although
    the cache lifetime is two seconds. *)
Theorem stale_verdict_admits_write :
  exists w now s,
    reachable w /\ (enter CACHE_TTL now (proc w)).1 = inl s /\ write_gate s true = Forward /\
    now - observed_at s > 1800 * CACHE_TTL.
Proof.
  exists hour_old, 3600500, (classify LReady (Checks true true) 0).
  split_and!; [apply hour_old_reachable | vm_compute; reflexivity.. |]. vm_compute. reflexivity.
Qed.

(** A stopping process with one request still waiting for a probe begun while it
    was ready. *)
Definition stopping : world := World (Process LStopping None (Some 0) true) [LReady].

Lemma stopping_reachable : reachable stopping.
Proof.
  eapply rtc_l; [apply (step_lifecycle LReady) |]. eapply rtc_l; [apply step_arm |].
  eapply rtc_l; [apply (step_probe CACHE_TTL 0 LReady); vm_compute; reflexivity |].
  eapply rtc_l; [apply (step_lifecycle LStopping) |]. apply rtc_refl.
Qed.

Definition a_write : http_request := HttpRequest true "post" "/api/v1/hardware".

Lemma drain_rejects_writes_witness :
  middleware a_write (classify LStopping (Checks true true) 5) true = draining /\
  middleware a_write (classify LReady (Checks true true) 5) true = Forward.
Proof.
  destruct (drain_rejects_writes stopping a_write CACHE_TTL 1 (Checks true true) 5 true stopping_reachable eq_refl) as [H _].
  destruct (H eq_refl) as [H1 H2]. split; [exact H1 |]. apply (H2 LReady); [by left | done].
Defined.

End Health.
