(* ===== verification/Impact.v ===== *)
(** Outage impact ([services/intelligence/dependency_edges.py] and
    [services/intelligence/dependency_graph.py]): the dependency edges loaded
    from the inventory tables, the adjacency they give, and the bounded
    breadth-first traversal with its evidence paths. *)
From S2P Require Import Prelude Json.
Open Scope Z_scope.

Module Impact.

Definition key : Type := string * Z.

Inductive edge_type := Hosting | Dependency | Connectivity | InferredDependency.
Inductive provenance := Confirmed | Inferred.

#[export] Instance edge_type_eq_dec : EqDecision edge_type. Proof. solve_decision. Defined.
#[export] Instance provenance_eq_dec : EqDecision provenance. Proof. solve_decision. Defined.

Record edge := Edge {
  provider : key;
  dependent : key;
  type_of : edge_type;
  source_kind : string;
  source_id : Z;
  provenance_of : provenance;
  label : option string
}.

Definition identity (e : edge) : string :=
  source_kind e +:+ ":" +:+ pretty (source_id e) +:+ ":" +:+
  (provider e).1 +:+ ":" +:+ pretty (provider e).2 +:+ ":" +:+ (dependent e).1 +:+ ":" +:+ pretty (dependent e).2.

(** *** The inventory tables the loader reads *)

Record compute_row := ComputeRow { cu_id : Z; cu_hardware : option Z }.
Record service_row := ServiceRow { sv_id : Z; sv_hardware : option Z; sv_compute : option Z }.
Record dependency_row := DependencyRow { dp_id : Z; dp_on : Z; dp_service : Z; dp_kind : option string }.
Record storage_row := StorageRow { sg_id : Z; sg_hardware : option Z }.
Record storage_link := StorageLink {
  sl_id : Z; sl_storage : Z; sl_service : Z; sl_purpose : option string; sl_kind : option string }.
Record link_row := LinkRow { ln_id : Z; ln_from : Z; ln_to : Z; ln_kind : option string }.

Record tables := Tables {
  compute_units : list compute_row;
  services : list service_row;
  service_dependencies : list dependency_row;
  storages : list storage_row;
  service_storages : list storage_link;
  hardware_connections : list link_row;
  hardware_networks : list link_row;   (** [ln_from] is the network, [ln_to] the hardware *)
  compute_networks : list link_row     (** [ln_from] is the network, [ln_to] the compute unit *)
}.

(** Python's [a or b] on optional text. *)
Definition or_text (a : option string) (b : string) : string :=
  match a with Some s => if String.eqb s EmptyString then b else s | None => b end.

Definition hosting (kind : string) (p d : string) (host : option Z) (id : Z) (l : string) : list edge :=
  match host with
  | Some h => [Edge (p, h) (d, id) Hosting kind id Confirmed (Some l)]
  | None => []
  end.

Definition identity_le (x y : edge) : bool := String.leb (identity x) (identity y).

Definition dependency_edges (t : tables) : list edge :=
  py_sorted identity_le (
    (compute_units t ≫= fun c => hosting "compute_units.hardware_id" "hardware" "compute_unit" (cu_hardware c) (cu_id c) "hosted by")
    ++ (services t ≫= fun s =>
          hosting "services.hardware_id" "hardware" "service" (sv_hardware s) (sv_id s) "runs on"
          ++ hosting "services.compute_id" "compute_unit" "service" (sv_compute s) (sv_id s) "runs on")
    ++ map (fun d => Edge ("service", dp_on d) ("service", dp_service d) Dependency "service_dependencies" (dp_id d)
                       Confirmed (Some (or_text (dp_kind d) "depends on"))) (service_dependencies t)
    ++ (storages t ≫= fun s => hosting "storage.hardware_id" "hardware" "storage" (sg_hardware s) (sg_id s) "hosted by")
    ++ map (fun l => Edge ("storage", sl_storage l) ("service", sl_service l) Dependency "service_storage" (sl_id l)
                       Confirmed (Some (or_text (sl_purpose l) (or_text (sl_kind l) "uses storage"))))
         (service_storages t)).

Definition connectivity_edges (t : tables) : list edge :=
  let net p d kind (r : link_row) := Edge (p, ln_from r) (d, ln_to r) Connectivity kind (ln_id r) Confirmed in
  py_sorted identity_le (
    map (fun r => net "hardware" "hardware" "hardware_connections" r (ln_kind r)) (hardware_connections t)
    ++ map (fun r => net "network" "hardware" "hardware_networks" r (Some "network membership")) (hardware_networks t)
    ++ map (fun r => net "network" "compute_unit" "compute_networks" r (Some "network membership")) (compute_networks t)).

(** *** [build_impact_adjacency] *)

Definition usable (include_inferred : bool) (e : edge) : bool :=
  negb (bool_decide (type_of e = Connectivity)) &&
  negb (bool_decide (provenance_of e = Inferred) && negb include_inferred).

(** The first edge of each identity. *)
Fixpoint first_of_identity (seen : list string) (es : list edge) : list edge :=
  match es with
  | [] => []
  | e :: es =>
      if bool_decide (identity e ∈ seen) then first_of_identity seen es
      else e :: first_of_identity (identity e :: seen) es
  end.

Definition key_le (x y : key) : bool := if String.eqb x.1 y.1 then x.2 <=? y.2 else String.leb x.1 y.1.

Definition edge_le (x y : edge) : bool :=
  if bool_decide (dependent x = dependent y) then identity_le x y else key_le (dependent x) (dependent y).

Definition considered (include_inferred : bool) (es : list edge) : list edge :=
  first_of_identity [] (List.filter (usable include_inferred) es).

(** [adjacency.get(provider, [])]. *)
Definition outgoing (include_inferred : bool) (es : list edge) (p : key) : list edge :=
  py_sorted edge_le (List.filter (fun e => bool_decide (provider e = p)) (considered include_inferred es)).

(** *** The traversal *)

Record limits := Limits { max_nodes : Z; max_depth : Z; max_edges : Z }.

Record search := Search {
  visited : gset key;
  predecessor : gmap key edge;
  depth_by_key : gmap key Z;
  queue : list key;
  used_edges : list edge;
  examined : Z;
  truncation : option string
}.

Definition truncate (why : string) (s : search) : search :=
  Search (visited s) (predecessor s) (depth_by_key s) (queue s) (used_edges s) (examined s) (Some why).

(** The loop over one provider's outgoing edges; a limit breaks it. *)
Fixpoint expand (lim : limits) (depth : Z) (out : list edge) (s : search) : search :=
  match out with
  | [] => s
  | e :: out =>
      let s := Search (visited s) (predecessor s) (depth_by_key s) (queue s) (used_edges s) (examined s + 1) (truncation s) in
      if max_edges lim <? examined s then truncate "edge_limit" s
      else if bool_decide (dependent e ∈ visited s) then expand lim depth out s
      else if max_nodes lim <=? Z.of_nat (size (visited s)) - 1 then truncate "node_limit" s
      else expand lim depth out
             (Search ({[dependent e]} ∪ visited s) (<[dependent e := e]> (predecessor s))
                (<[dependent e := depth + 1]> (depth_by_key s)) (queue s ++ [dependent e])
                (used_edges s ++ [e]) (examined s) (truncation s))
  end.

(** [while queue and truncation_reason is None]; [None] when the fuel runs out. *)
Fixpoint traverse (lim : limits) (adj : key -> list edge) (fuel : nat) (s : search) : option search :=
  match queue s, truncation s with
  | p :: q, None =>
      match fuel with
      | O => None
      | S fuel =>
          let s := Search (visited s) (predecessor s) (depth_by_key s) q (used_edges s) (examined s) None in
          let depth := default 0 (depth_by_key s !! p) in
          let out := adj p in
          if (max_depth lim <=? depth) && negb (bool_decide (out = [])) then Some (truncate "depth_limit" s)
          else traverse lim adj fuel (expand lim depth out s)
      end
  | _, _ => Some s
  end.

Definition start (root : key) : search := Search {[root]} ∅ {[root := 0]} [root] [] 0 None.

(** [_path_for]: the reversed walk along the predecessors. *)
Fixpoint path_back (pred : gmap key edge) (root : key) (fuel : nat) (k : key) : list edge :=
  match fuel with
  | O => []
  | S fuel =>
      if bool_decide (k = root) then []
      else match pred !! k with None => [] | Some e => e :: path_back pred root fuel (provider e) end
  end.

Definition path_for (pred : gmap key edge) (root k : key) : list edge :=
  rev (path_back pred root (S (size pred)) k).

(** The three refusals: [ValueError] for an unknown type or a limit that is not
    positive, [NotFoundError]. *)
Inductive failure := UnknownAssetType (ty : string) | LimitNotPositive | AssetNotFound.

(** A row of one of the four asset tables, as [_resolve_many] reads it; an
    absent attribute is [None]. *)
Record asset_row := AssetRow { row_name : string; row_status : option string; row_telemetry : option string }.

Record asset_ref := AssetRef { asset_key : key; asset_name : string; asset_status : option string }.

Definition valid_asset_types : list string := ["hardware"; "compute_unit"; "service"; "storage"].

Record impact_path := ImpactPath { path_asset : asset_ref; path_edges : list edge; path_provenance : provenance }.

Record blast_radius := BlastRadius {
  root_asset : asset_ref;
  impacted_hardware : list asset_ref;
  impacted_compute_units : list asset_ref;
  impacted_services : list asset_ref;
  impacted_storage : list asset_ref;
  total_impact_count : Z;
  summary : string;
  paths : list impact_path;
  result_edges : list edge;
  connectivity : list edge;
  completeness : string;
  truncation_reason : option string;
  result_limits : limits;
  inferred_available : bool
}.

Definition all_impacted (r : blast_radius) : list asset_ref :=
  impacted_hardware r ++ impacted_compute_units r ++ impacted_services r ++ impacted_storage r.

Definition asset_le (x y : asset_ref) : bool := key_le (asset_key x) (asset_key y).

Definition of_type (ty : string) (refs : list asset_ref) : list asset_ref :=
  List.filter (fun r => String.eqb (asset_key r).1 ty) refs.

(** [f"{count} {label}{'s' if count != 1 else ''}"], for the non-empty groups. *)
Definition part (label : string) (refs : list asset_ref) : list string :=
  match refs with
  | [] => []
  | _ => [pretty (Z.of_nat (length refs)) +:+ " " +:+ label +:+ (if (length refs =? 1)%nat then "" else "s")]
  end.

Definition summary_of (name : string) (truncated : bool) (hw cu sv sg : list asset_ref) : string :=
  let suffix := if truncated then " Results are truncated." else "" in
  match (part "VM" cu ++ part "service" sv ++ part "downstream device" hw ++ part "storage item" sg)%list with
  | [] => "No confirmed downstream dependencies were found for " +:+ name +:+ "." +:+ suffix
  | parts => "Potential impact if " +:+ name +:+ " is unavailable: " +:+ String.concat ", " parts
             +:+ " affected." +:+ suffix
  end.

Definition is_inferred (e : edge) : bool := bool_decide (provenance_of e = Inferred).

Section Radius.
(** The rows of the four asset tables. *)
Variable rows : gmap key asset_row.
Variable t : tables.

(** [_resolve_many] at one key. *)
Definition resolve (k : key) : option asset_ref :=
  if bool_decide (k.1 ∈ valid_asset_types)
  then (fun r => AssetRef k (row_name r)
                   (match row_status r with Some x => if String.eqb x "" then row_telemetry r else Some x
                                       | None => row_telemetry r end)) <$> rows !! k
  else None.

Definition resolve_many (ks : list key) : list asset_ref := omap resolve ks.

Definition report (root : asset_ref) (deps : list edge) (lim : limits) (s : search) : blast_radius :=
  let rk := asset_key root in
  let impacted := py_sorted asset_le (resolve_many (elements (visited s ∖ {[rk]}))) in
  let refs := map asset_key impacted in
  let affected k := bool_decide (k ∈ refs) || bool_decide (k = rk) in
  let hw := of_type "hardware" impacted in
  let cu := of_type "compute_unit" impacted in
  let sv := of_type "service" impacted in
  let sg := of_type "storage" impacted in
  let truncated := match truncation s with None => false | Some _ => true end in
  BlastRadius root hw cu sv sg (Z.of_nat (length impacted))
    (summary_of (asset_name root) truncated hw cu sv sg)
    (map (fun a => let path := path_for (predecessor s) rk (asset_key a) in
                   ImpactPath a path (if existsb is_inferred path then Inferred else Confirmed)) impacted)
    (List.filter (fun e => bool_decide (dependent e ∈ refs)) (used_edges s))
    (List.filter (fun e => affected (provider e) || affected (dependent e)) (connectivity_edges t))
    (if truncated then "truncated" else "complete") (truncation s) lim
    (existsb is_inferred deps).

(** Every provider and dependent is popped at most once. *)
Definition enough_fuel (es : list edge) : nat := S (length es).

Definition calculate_blast_radius (root : key) (include_inferred : bool) (lim : limits) :
    result failure (option blast_radius) :=
  if negb (bool_decide (root.1 ∈ valid_asset_types)) then Err (UnknownAssetType root.1)
  else if Z.min (max_nodes lim) (Z.min (max_depth lim) (max_edges lim)) <? 1
  then Err LimitNotPositive
  else match resolve root with
       | None => Err AssetNotFound
       | Some r =>
           let es := dependency_edges t in
           Ok (report r es lim <$> traverse lim (outgoing include_inferred es) (enough_fuel es) (start root))
       end.
End Radius.

(** The edges lead from [a] to [b], each starting where the one before it ends. *)
Fixpoint chain (a : key) (l : list edge) (b : key) : Prop :=
  match l with
  | [] => a = b
  | e :: l => provider e = a /\ chain (dependent e) l b
  end.

Lemma chain_snoc a l e b : chain a (l ++ [e]) b <-> chain a l (provider e) /\ dependent e = b.
Proof. revert a; induction l as [| f l IH]; intros a; simpl; [naive_solver |]. rewrite IH. naive_solver. Qed.

(** *** The breadth-first invariant *)

Section Traversal.
Variables (lim : limits) (adj : key -> list edge) (root : key) (es : list edge).
Hypothesis adj_provider : forall k e, e ∈ adj k -> provider e = k.
Hypothesis adj_edges : forall k e, e ∈ adj k -> e ∈ es.
Hypothesis limits_positive : 0 < max_nodes lim /\ 0 < max_depth lim.

(** What holds of a search throughout, [d] being the depth of the node in hand. *)
Record sound (d : Z) (s : search) : Prop := {
  so_root : root ∈ visited s /\ depth_by_key s !! root = Some 0 /\ predecessor s !! root = None;
  so_depth : forall k, k ∈ visited s <-> is_Some (depth_by_key s !! k);
  so_pred : forall k e, predecessor s !! k = Some e ->
    dependent e = k /\ e ∈ adj (provider e) /\
    exists n, depth_by_key s !! provider e = Some n /\ depth_by_key s !! k = Some (n + 1);
  so_visited : forall k, k ∈ visited s -> k = root \/ is_Some (predecessor s !! k);
  so_queue : forall k, k ∈ queue s -> k ∈ visited s;
  so_bound : forall k n, depth_by_key s !! k = Some n -> 0 <= n <= max_depth lim /\ n <= d + 1;
  so_front : forall k n, k ∈ queue s -> depth_by_key s !! k = Some n -> d <= n;
  so_sorted : StronglySorted (fun a b => forall m n,
    depth_by_key s !! a = Some m -> depth_by_key s !! b = Some n -> m <= n) (queue s);
  so_size : Z.of_nat (size (visited s)) <= max_nodes lim + 1
}.

(** Outside the queue every edge leads to a visited node one level further at
    most, except the edges still [pending]. *)
Definition expanded (pending : edge -> Prop) (s : search) : Prop :=
  forall k n e, k ∈ visited s -> k ∉ queue s -> depth_by_key s !! k = Some n -> e ∈ adj k ->
    pending e \/ exists m, depth_by_key s !! dependent e = Some m /\ m <= n + 1.

(** How many nodes can still be popped. *)
Definition remaining (s : search) : nat :=
  (length (queue s) + size (list_to_set (map dependent es) ∖ visited s))%nat.

Definition push (d : Z) (e : edge) (s : search) : search :=
  Search ({[dependent e]} ∪ visited s) (<[dependent e := e]> (predecessor s))
    (<[dependent e := d + 1]> (depth_by_key s)) (queue s ++ [dependent e])
    (used_edges s ++ [e]) (examined s) (truncation s).

Lemma depth_kept d s e k n : sound d s -> dependent e ∉ visited s ->
  depth_by_key s !! k = Some n -> depth_by_key (push d e s) !! k = Some n.
Proof.
  intros Hs Hnew Hk. simpl. rewrite lookup_insert_ne; [done |]. intros <-.
  apply Hnew, (so_depth _ _ Hs). eauto.
Qed.

Lemma depth_old d s e k n : dependent e <> k ->
  depth_by_key (push d e s) !! k = Some n -> depth_by_key s !! k = Some n.
Proof. intros Hne. simpl. by rewrite lookup_insert_ne. Qed.

Lemma sorted_mono (R R' : key -> key -> Prop) l :
  (forall a b, a ∈ l -> b ∈ l -> R a b -> R' a b) -> StronglySorted R l -> StronglySorted R' l.
Proof.
  intros H; induction 1 as [| y l Hl IH Hy]; constructor.
  - apply IH. intros a b Ha Hb. apply H; by apply list_elem_of_further.
  - rewrite Forall_forall in Hy |- *. intros b Hb. apply H; [apply list_elem_of_here | by apply list_elem_of_further | by apply Hy].
Qed.

Lemma push_sound d s e : sound d s -> dependent e ∉ visited s -> e ∈ adj (provider e) ->
  depth_by_key s !! provider e = Some d -> d < max_depth lim ->
  Z.of_nat (size (visited s)) <= max_nodes lim -> sound d (push d e s).
Proof.
  intros Hs Hnew He Hp Hd Hsize. pose proof (so_root _ _ Hs) as (R1 & R2 & R3).
  assert (dependent e <> root) as Hroot by (intros E; by rewrite E in Hnew).
  assert (dependent e <> provider e) as Hself.
  { intros E. apply Hnew. rewrite E. apply (so_depth _ _ Hs). eauto. }
  assert (0 <= d) as Hd0 by (apply (so_bound _ _ Hs) in Hp; lia).
  constructor.
  - simpl. rewrite !lookup_insert_ne by done. set_solver.
  - intros k. simpl. rewrite elem_of_union, elem_of_singleton, (so_depth _ _ Hs), lookup_insert_is_Some.
    destruct (decide (dependent e = k)); naive_solver.
  - intros k f. simpl. destruct (decide (dependent e = k)) as [<- | Hne].
    + rewrite lookup_insert_eq. intros [= <-]. split_and!; [done | done |].
      exists d. rewrite lookup_insert_ne by done. by rewrite lookup_insert_eq.
    + rewrite lookup_insert_ne by done. intros (E1 & E2 & n & E3 & E4)%(so_pred _ _ Hs).
      split_and!; [done | done |]. exists n. split; by apply (depth_kept d s e _ _ Hs Hnew).
  - intros k [->%elem_of_singleton | Hk]%elem_of_union; simpl.
    + right. rewrite lookup_insert_eq. eauto.
    + apply (so_visited _ _ Hs) in Hk as [-> | Hk]; [by left | right]. rewrite lookup_insert_is_Some.
      destruct (decide (dependent e = k)); naive_solver.
  - intros k [Hk%(so_queue _ _ Hs) | ->%list_elem_of_singleton]%elem_of_app; set_solver.
  - intros k n. destruct (decide (dependent e = k)) as [<- | Hne].
    + simpl. rewrite lookup_insert_eq. intros [= <-]. lia.
    + intros Hk%depth_old; [| done]. by apply (so_bound _ _ Hs) in Hk.
  - intros k n Hk. destruct (decide (dependent e = k)) as [<- | Hne].
    + simpl. rewrite lookup_insert_eq. intros [= <-]. lia.
    + intros Hn%depth_old; [| done]. apply elem_of_app in Hk as [Hk | ->%list_elem_of_singleton]; [| done].
      by apply (so_front _ _ Hs k).
  - simpl. apply sorted_snoc.
    + eapply sorted_mono; [| exact (so_sorted _ _ Hs)]. intros a b Ha%(so_queue _ _ Hs) Hb%(so_queue _ _ Hs) H m n Hm Hn.
      apply H; [apply (depth_old d _ e) in Hm | apply (depth_old d _ e) in Hn]; try done; by intros <-.
    + apply Forall_forall. intros a Ha%(so_queue _ _ Hs) m n Hm. rewrite lookup_insert_eq. intros [= <-].
      apply (depth_old d _ e) in Hm; [| by intros <-]. apply (so_bound _ _ Hs) in Hm. lia.
  - simpl. rewrite size_union, size_singleton by set_solver. lia.
Qed.

Lemma push_remaining d s e : e ∈ es -> dependent e ∉ visited s -> remaining (push d e s) = remaining s.
Proof.
  intros He Hnew. unfold remaining. simpl. rewrite length_app. simpl.
  set (U := list_to_set (map dependent es) : gset key).
  assert (dependent e ∈ U) as HU.
  { unfold U. apply elem_of_list_to_set, list_elem_of_fmap. eauto. }
  assert (size (U ∖ visited s) = S (size (U ∖ ({[dependent e]} ∪ visited s)))) as ->; [| lia].
  assert (U ∖ visited s ≡ {[dependent e]} ∪ (U ∖ ({[dependent e]} ∪ visited s))) as ->.
  { intros x. destruct (decide (x = dependent e)); set_solver. }
  rewrite size_union, size_singleton by set_solver. lia.
Qed.

(** The counters and the verdict do not matter to the invariant. *)
Lemma sound_frame d s x y z :
  sound d s -> sound d (Search (visited s) (predecessor s) (depth_by_key s) (queue s) x y z).
Proof. intros []. by constructor. Qed.

Lemma push_expanded d s e (pending : edge -> Prop) : sound d s -> dependent e ∉ visited s ->
  depth_by_key s !! provider e = Some d ->
  expanded (fun f => f = e \/ pending f) s -> expanded pending (push d e s).
Proof.
  intros Hs Hnew Hp Hx k n f Hk Hq Hn Hf. simpl in Hk, Hq. rewrite elem_of_app, list_elem_of_singleton in Hq.
  assert (k ∈ visited s) as Hk' by set_solver.
  assert (depth_by_key s !! k = Some n) as Hn' by (apply (depth_old d s e); naive_solver).
  destruct (Hx k n f) as [[-> | Hf'] | (m & Hm & Hle)]; [set_solver | set_solver | done | done | | by left | right].
  - right. exists (d + 1). simpl. rewrite lookup_insert_eq. split; [done |].
    rewrite (adj_provider _ _ Hf) in Hp. naive_solver lia.
  - exists m. split; [| done]. by apply (depth_kept d s e).
Qed.

Lemma expand_sound d p out s (pending : edge -> Prop) :
  sound d s -> depth_by_key s !! p = Some d -> (out <> [] -> d < max_depth lim) ->
  (forall e, e ∈ out -> e ∈ adj p) -> truncation s = None ->
  sound d (expand lim d out s) /\ remaining (expand lim d out s) = remaining s /\
  (truncation (expand lim d out s) = None -> expanded (fun e => e ∈ out \/ pending e) s ->
   expanded pending (expand lim d out s)).
Proof.
  revert s. induction out as [| e out IH]; intros s Hs Hp Hd Hout Ht; simpl.
  { split_and!; [done | done |]. intros _ Hx k n f Hk Hq Hn Hf. destruct (Hx k n f) as [[? | ?] | ?]; try done; [set_solver | by left | by right]. }
  assert (d < max_depth lim) as Hd' by by apply Hd.
  assert (e ∈ adj p) as He by (apply Hout, list_elem_of_here).
  pose proof (adj_provider _ _ He) as Ep. rewrite <- Ep in He, Hp.
  destruct (Z.ltb_spec (max_edges lim) (examined s + 1)) as [_ | _].
  { split_and!; [by apply (sound_frame d s) | done | done]. }
  set (s1 := Search (visited s) (predecessor s) (depth_by_key s) (queue s) (used_edges s) (examined s + 1) (truncation s)).
  assert (sound d s1) as Hs1 by by apply (sound_frame d s).
  case_bool_decide as Hin.
  { destruct (IH s1) as (H1 & H2 & H3); [done | by rewrite <- Ep | done | set_solver | done |].
    split_and!; [done | done |]. intros Ht' Hx. apply H3; [done |]. intros k n f Hk Hq Hn Hf.
    destruct (Hx k n f) as [[Hf' | Hf'] | Hf']; try done; [| by left; right | by right].
    apply elem_of_cons in Hf' as [-> | Hf']; [right | by left; left].
    apply (so_depth _ _ Hs) in Hin as [m Hm]. exists m. split; [done |].
    rewrite (adj_provider _ _ Hf) in Hp. simpl in Hn. simplify_eq.
    destruct (so_bound _ _ Hs _ _ Hm). lia. }
  destruct (Z.leb_spec (max_nodes lim) (Z.of_nat (size (visited s)) - 1)) as [_ | Hn].
  { split_and!; [by apply (sound_frame d s) | done | done]. }
  assert (sound d (push d e s1)) as Hs2 by (apply push_sound; simpl; try done; lia).
  destruct (IH (push d e s1)) as (H1 & H2 & H3); [done | | done | set_solver | done |].
  { rewrite <- Ep. by apply (depth_kept d s1). }
  split_and!; [done | | ].
  - etransitivity; [exact H2 |]. by apply (push_remaining d s1); [apply (adj_edges (provider e)) |].
  - intros Ht' Hx. apply H3; [done |]. apply push_expanded; [done | done | done |].
    intros k n f Hk Hq Hkn Hf. destruct (Hx k n f) as [[Hf' | Hf'] | Hf']; try done; [| by left; right; right | by right].
    left. apply elem_of_cons in Hf' as [-> | Hf']; [by left | by right; left].
Qed.

(** Popping the head of the queue. *)
Lemma pop_sound d s p q : sound d s -> queue s = p :: q ->
  exists n, depth_by_key s !! p = Some n /\
    sound n (Search (visited s) (predecessor s) (depth_by_key s) q (used_edges s) (examined s) None).
Proof.
  intros Hs E. assert (p ∈ visited s) as Hp by (apply (so_queue _ _ Hs); rewrite E; apply list_elem_of_here).
  pose proof Hp as [n Hn]%(so_depth _ _ Hs). exists n. split; [done |].
  assert (d <= n) as Hdn by (eapply (so_front _ _ Hs p); [rewrite E; apply list_elem_of_here | done]).
  pose proof (so_sorted _ _ Hs) as Hsort. rewrite E in Hsort. inversion Hsort as [| ? ? Hsort' Hall]; subst.
  rewrite Forall_forall in Hall. destruct Hs as [H1 H2 H3 H4 H5 H6 H7 H8 H9].
  constructor; simpl; try done.
  - intros k Hk. apply H5. rewrite E. by apply list_elem_of_further.
  - intros k m Hk. destruct (H6 k m Hk). lia.
  - intros k m Hk Hm. by apply (Hall k Hk).
Qed.

Lemma traverse_stopped fuel s why : truncation s = Some why -> traverse lim adj fuel s = Some s.
Proof. intros E. destruct s as [v pr de [| k q] u x tr]; simpl in E; rewrite E; by destruct fuel. Qed.

Definition settled (s : search) : Prop :=
  (exists d, sound d s) /\ (truncation s = None -> queue s = [] /\ expanded (fun _ => False) s).

Lemma traverse_settles fuel d s :
  sound d s -> truncation s = None -> expanded (fun _ => False) s -> (remaining s <= fuel)%nat ->
  exists s', traverse lim adj fuel s = Some s' /\ settled s'.
Proof.
  revert d s. induction fuel as [| fuel IH]; intros d s Hs Ht Hx Hfuel.
  - exists s. unfold remaining in Hfuel. destruct (queue s) eqn:E; [| simpl in Hfuel; lia].
    unfold traverse. rewrite E. split; [done |]. split; [by exists d | done].
  - simpl. rewrite Ht. destruct (queue s) as [| p q] eqn:E; [exists s; split; [done |]; split; [by exists d | done] |].
    destruct (pop_sound d s p q Hs E) as (n & Hn & Hs'). rewrite Hn. simpl.
    destruct (_ && _) eqn:Edepth; [eexists; split; [done |]; split; [exists n; by destruct Hs' | done] |].
    set (s0 := Search (visited s) (predecessor s) (depth_by_key s) q (used_edges s) (examined s) None) in *.
    destruct (expand_sound n p (adj p) s0 (fun _ => False)) as (H1 & H2 & H3); [done | done | | done | done |].
    { intros Hne. rewrite bool_decide_eq_false_2 in Edepth by done. simpl in Edepth. reflect_bools. destruct Edepth; [lia | done]. }
    assert (remaining s = S (remaining s0)) as Hrem by (unfold remaining; simpl; rewrite E; simpl; lia).
    destruct (truncation (expand lim n (adj p) s0)) as [s1 |] eqn:Et.
    { exists (expand lim n (adj p) s0). split; [| split; [by exists n | by rewrite Et]].
      by apply (traverse_stopped fuel _ s1). }
    apply (IH n); [done | done | | lia]. apply H3; [done |].
    intros k m f Hk Hq Hm Hf. destruct (decide (k = p)) as [-> | Hne]; [by left; left |].
    destruct (Hx k m f) as [[] | ?]; try done; [| by right]. rewrite E. set_solver.
Qed.

Lemma start_sound : sound 0 (start root).
Proof using limits_positive.
  clear adj_provider adj_edges es.
  assert (size (visited (start root)) = 1%nat) as Hsize by exact (size_singleton (C := gset key) root).
  constructor; [simpl .. | rewrite Hsize; lia].
  - split_and!; [set_solver | by rewrite lookup_singleton_eq | done].
  - intros k. rewrite elem_of_singleton. destruct (decide (k = root)) as [-> | Hne].
    + rewrite lookup_singleton_eq. naive_solver.
    + rewrite lookup_singleton_ne by done. split; [done | by intros []].
  - intros k e He. by rewrite lookup_empty in He.
  - intros k Hk. left. set_solver.
  - set_solver.
  - intros k n [<- <-]%lookup_singleton_Some. lia.
  - intros k n _ [<- <-]%lookup_singleton_Some. lia.
  - repeat constructor.
Qed.

Lemma start_expanded : expanded (fun _ => False) (start root).
Proof using. clear. intros k n e Hk Hq. simpl in *. set_solver. Qed.

Lemma start_remaining : (remaining (start root) <= enough_fuel es)%nat.
Proof using.
  clear.
  unfold remaining, enough_fuel. change (length (queue (start root))) with 1%nat. apply le_n_S.
  trans (size (list_to_set (map dependent es) : gset key)); [apply subseteq_size; set_solver |].
  rewrite <- (length_map dependent es). apply size_list_to_set_le.
Qed.

(** *** Evidence paths *)

(** A node at depth [n] has [n] distinct ancestors, all with a predecessor. *)
Lemma ancestors d s n k : sound d s -> depth_by_key s !! k = Some (Z.of_nat n) ->
  exists l, NoDup l /\ length l = n /\ forall x, x ∈ l -> is_Some (predecessor s !! x) /\
    exists m, depth_by_key s !! x = Some m /\ m <= Z.of_nat n.
Proof using.
  clear adj_provider adj_edges limits_positive.
  intros Hs. revert k; induction n as [| n IH]; intros k Hk.
  { exists []. split_and!; [constructor | done | set_solver]. }
  assert (is_Some (predecessor s !! k)) as [e He].
  { destruct (so_visited _ _ Hs k) as [-> |]; [apply (so_depth _ _ Hs); eauto | | done].
    destruct (so_root _ _ Hs) as (_ & E & _). rewrite E in Hk. by simplify_eq. }
  destruct (so_pred _ _ Hs _ _ He) as (_ & _ & m & Hm & Hk'). rewrite Hk in Hk'. simplify_eq.
  replace m with (Z.of_nat n) in Hm by lia. destruct (IH _ Hm) as (l & Hnd & Hlen & Hl).
  exists (k :: l). split_and!; [| simpl; lia |].
  - constructor; [| done]. intros (_ & j & Hj & Hle)%Hl. rewrite Hk in Hj. simplify_eq. lia.
  - intros x [-> | Hx]%elem_of_cons; [eauto with lia |]. destruct (Hl x Hx) as (? & j & ? & ?). eauto with lia.
Qed.

Lemma depth_le_size d s k n : sound d s -> depth_by_key s !! k = Some n -> (Z.to_nat n <= size (predecessor s))%nat.
Proof using.
  clear adj_provider adj_edges limits_positive.
  intros Hs Hk. destruct (so_bound _ _ Hs _ _ Hk) as [Hn _].
  destruct (ancestors d s (Z.to_nat n) k Hs) as (l & Hnd & <- & Hl); [by rewrite Z2Nat.id by lia |].
  rewrite <- (size_dom (predecessor s)), <- (size_list_to_set (C := gset key) l Hnd).
  apply subseteq_size. intros x Hx%elem_of_list_to_set. by apply elem_of_dom, Hl.
Qed.

Lemma path_back_chain d s fuel k n : sound d s -> depth_by_key s !! k = Some n -> (Z.to_nat n < fuel)%nat ->
  chain root (rev (path_back (predecessor s) root fuel k)) k /\
  Z.of_nat (length (path_back (predecessor s) root fuel k)) = n /\
  forall e, e ∈ path_back (predecessor s) root fuel k -> e ∈ adj (provider e).
Proof using.
  clear adj_provider adj_edges limits_positive.
  intros Hs. revert k n; induction fuel as [| fuel IH]; intros k n Hk Hn; [lia |]. simpl.
  destruct (so_root _ _ Hs) as (_ & Hroot & _). case_bool_decide as E.
  { subst. rewrite Hk in Hroot. simplify_eq. split_and!; [done | done | set_solver]. }
  destruct (so_visited _ _ Hs k) as [| [e He]]; [apply (so_depth _ _ Hs); eauto | done |]. rewrite He.
  destruct (so_pred _ _ Hs _ _ He) as (<- & Hadj & m & Hm & Hk'). rewrite Hk in Hk'. simplify_eq.
  destruct (so_bound _ _ Hs _ _ Hm) as [Hm0 _].
  destruct (IH _ _ Hm) as (H1 & H2 & H3); [lia |]. simpl. split_and!.
  - by apply chain_snoc.
  - lia.
  - intros f [-> | Hf]%elem_of_cons; [done | by apply H3].
Qed.

Lemma path_for_chain d s k n : sound d s -> depth_by_key s !! k = Some n ->
  chain root (path_for (predecessor s) root k) k /\
  Z.of_nat (length (path_for (predecessor s) root k)) = n /\
  forall e, e ∈ path_for (predecessor s) root k -> e ∈ adj (provider e).
Proof using.
  clear adj_provider adj_edges limits_positive.
  intros Hs Hk. unfold path_for. pose proof (depth_le_size d s k n Hs Hk) as Hle.
  destruct (path_back_chain d s (S (size (predecessor s))) k n Hs Hk) as (H1 & H2 & H3); [lia |].
  rewrite length_rev. split_and!; [done | done |]. intros e He. apply H3. by rewrite list_elem_of_In, in_rev, <- list_elem_of_In.
Qed.

(** After a complete search every chain of edges stays inside the visited nodes
    and is no shorter than the recorded depth of its end. *)
Lemma complete_reach s l k : settled s -> truncation s = None ->
  chain root l k -> (forall e, e ∈ l -> e ∈ adj (provider e)) ->
  exists n, depth_by_key s !! k = Some n /\ n <= Z.of_nat (length l).
Proof using.
  clear adj_provider adj_edges limits_positive.
  intros [[d Hs] Hdone] Ht. destruct (Hdone Ht) as [Hq Hx]. revert k.
  induction l as [| e l IH] using rev_ind; intros k Hc Hl.
  { simpl in Hc. subst k. destruct (so_root _ _ Hs) as (_ & E & _). exists 0. by split. }
  apply chain_snoc in Hc as [Hc <-]. destruct (IH _ Hc) as (n & Hn & Hle); [set_solver |].
  destruct (Hx (provider e) n e) as [[] | (m & Hm & ?)]; [apply (so_depth _ _ Hs); eauto | | done | |].
  - rewrite Hq. set_solver.
  - apply Hl. set_solver.
  - exists m. split; [done |]. rewrite length_app. simpl. lia.
Qed.

End Traversal.

(** *** The edges the traversal considers *)

Definition no_colon (s : string) : bool := str_forallb (fun c => negb (Ascii.eqb c ":"%char)) s.

Definition plain (e : edge) : Prop :=
  no_colon (source_kind e) = true /\ no_colon (provider e).1 = true /\ no_colon (dependent e).1 = true.

Lemma pretty_no_colon (z : Z) : no_colon (pretty z) = true.
Proof. apply Json.pretty_Z_forallb; [| done]. intros d. unfold pretty_N_char. by repeat case_match. Qed.

Lemma colon_inj x y s t : no_colon x = true -> no_colon y = true ->
  x +:+ String ":" s = y +:+ String ":" t -> x = y /\ s = t.
Proof. intros Hx Hy E. apply (delimited_inj (fun c => Ascii.eqb c ":"%char)) in E as [-> [= ->]]; done. Qed.

(** Equal identities join the same two assets. *)
Lemma identity_ends e f : plain e -> plain f -> identity e = identity f ->
  provider e = provider f /\ dependent e = dependent f.
Proof.
  intros (E1 & E2 & E3) (F1 & F2 & F3). unfold identity. intros E.
  apply colon_inj in E as [_ E]; [| done | done].
  apply colon_inj in E as [_ E]; [| apply pretty_no_colon | apply pretty_no_colon].
  apply colon_inj in E as [Ep E]; [| done | done].
  apply colon_inj in E as [Ep' E]; [| apply pretty_no_colon | apply pretty_no_colon].
  apply colon_inj in E as [Ed Ed']; [| done | done].
  apply (inj pretty) in Ep', Ed'. destruct (provider e), (provider f), (dependent e), (dependent f). naive_solver.
Qed.

Lemma hosting_plain kind p d host id l e :
  no_colon kind && no_colon p && no_colon d = true -> e ∈ hosting kind p d host id l -> plain e.
Proof.
  intros H He. destruct host as [h |]; simpl in He; [| set_solver].
  apply list_elem_of_singleton in He as ->. unfold plain. simpl. reflect_bools. naive_solver.
Qed.

Lemma dependency_edges_plain t e : e ∈ dependency_edges t -> plain e.
Proof.
  unfold dependency_edges. rewrite py_sorted_perm, !elem_of_app.
  intros [(c & Hc & _)%list_elem_of_bind | [(c & Hc & _)%list_elem_of_bind | [(c & -> & _)%list_elem_of_fmap |
    [(c & Hc & _)%list_elem_of_bind | (c & -> & _)%list_elem_of_fmap]]]];
    try apply elem_of_app in Hc as [Hc | Hc]; try (eapply hosting_plain; [| exact Hc]); done.
Qed.

Lemma first_of_identity_elem seen es e : e ∈ first_of_identity seen es -> e ∈ es.
Proof.
  revert seen; induction es as [| f es IH]; intros seen; simpl; [done |].
  case_bool_decide; [intros ?%IH; set_solver |]. intros [-> | ?%IH]%elem_of_cons; set_solver.
Qed.

Lemma first_of_identity_covers seen es e : e ∈ es -> identity e ∉ seen ->
  exists f, f ∈ first_of_identity seen es /\ identity f = identity e.
Proof.
  revert seen; induction es as [| f es IH]; intros seen He Hs; [by apply elem_of_nil in He |]. simpl.
  apply elem_of_cons in He as [-> | He].
  - rewrite bool_decide_eq_false_2 by done. exists f. split; [apply list_elem_of_here | done].
  - case_bool_decide; [by apply IH |]. destruct (decide (identity e = identity f)) as [E | Hne].
    + exists f. split; [apply list_elem_of_here | done].
    + destruct (IH (identity f :: seen) He) as (g & Hg & Eg); [set_solver |].
      exists g. split; [by apply list_elem_of_further | done].
Qed.

Lemma outgoing_elem ii es k e : e ∈ outgoing ii es k <-> provider e = k /\ e ∈ considered ii es.
Proof.
  unfold outgoing. rewrite py_sorted_perm, list_elem_of_In, filter_In, <- list_elem_of_In, bool_decide_eq_true. tauto.
Qed.

(** The edges that carry impact. *)
Definition impact_edges (ii : bool) (t : tables) : list edge := List.filter (usable ii) (dependency_edges t).

Lemma impact_edges_elem ii t e : e ∈ impact_edges ii t -> e ∈ dependency_edges t.
Proof. unfold impact_edges. rewrite !list_elem_of_In, filter_In. tauto. Qed.

Lemma considered_elem ii t e : e ∈ considered ii (dependency_edges t) -> e ∈ impact_edges ii t.
Proof. apply first_of_identity_elem. Qed.

(** Dropping the repeated identities loses no connection. *)
Lemma considered_covers ii t e : e ∈ impact_edges ii t ->
  exists f, f ∈ considered ii (dependency_edges t) /\ provider f = provider e /\ dependent f = dependent e.
Proof.
  intros He. destruct (first_of_identity_covers [] _ e He) as (f & Hf & E); [set_solver |].
  exists f. split; [done |].
  apply identity_ends; [| | done]; apply (dependency_edges_plain t), (impact_edges_elem ii);
    [by apply (first_of_identity_elem [] _ f) | done].
Qed.

(** A chain of impact edges from the root to an asset. *)
Definition evidence (ii : bool) (t : tables) (root : key) (l : list edge) (k : key) : Prop :=
  chain root l k /\ forall e, e ∈ l -> e ∈ impact_edges ii t.

Lemma evidence_considered ii t root l k : evidence ii t root l k ->
  exists l', chain root l' k /\ length l' = length l /\
    forall e, e ∈ l' -> e ∈ outgoing ii (dependency_edges t) (provider e).
Proof.
  intros [Hc Hl]. revert root Hc; induction l as [| e l IH]; intros root Hc.
  { exists []. split_and!; [done | done | set_solver]. }
  simpl in Hc. destruct Hc as [<- Hc]. destruct (IH) with (root := dependent e) as (l' & Hc' & Hlen & Hl'); [set_solver | done |].
  destruct (considered_covers ii t e) as (f & Hf & Ep & Ed); [set_solver |].
  exists (f :: l'). simpl. rewrite Ep, Ed. split_and!; [done | done | by rewrite Hlen |].
  intros g [-> | Hg]%elem_of_cons; [by apply outgoing_elem | by apply Hl'].
Qed.

(** *** The report *)

Section Report.
Variables (rows : gmap key asset_row) (t : tables).

Lemma resolve_key k a : resolve rows k = Some a -> asset_key a = k /\ k.1 ∈ valid_asset_types.
Proof.
  unfold resolve. case_bool_decide; [| done]. destruct (rows !! k); simpl; [| done]. by intros [= <-].
Qed.

(** The assets of a report, in the order of the paths. *)
Definition affected_assets (root : key) (s : search) : list asset_ref :=
  py_sorted asset_le (resolve_many rows (elements (visited s ∖ {[root]}))).

Lemma affected_elem root s a : a ∈ affected_assets root s <->
  asset_key a <> root /\ asset_key a ∈ visited s /\ resolve rows (asset_key a) = Some a.
Proof.
  unfold affected_assets, resolve_many. rewrite py_sorted_perm, list_elem_of_omap. split.
  - intros (k & Hk & E). pose proof (resolve_key _ _ E) as [<- _]. set_solver.
  - intros (H1 & H2 & H3). exists (asset_key a). set_solver.
Qed.

Lemma by_type_perm l : (forall a, a ∈ l -> (asset_key a).1 ∈ valid_asset_types) ->
  of_type "hardware" l ++ of_type "compute_unit" l ++ of_type "service" l ++ of_type "storage" l ≡ₚ l.
Proof.
  induction l as [| a l IH]; intros H; [done |]. specialize (IH (fun b Hb => H b (list_elem_of_further _ _ _ Hb))).
  specialize (H a (list_elem_of_here _ _)). unfold valid_asset_types in H. unfold of_type in *. simpl.
  apply elem_of_cons in H as [-> | H]; [simpl; by rewrite IH |].
  apply elem_of_cons in H as [-> | H]; [simpl; rewrite <- Permutation_middle; by rewrite IH |].
  apply elem_of_cons in H as [-> | H].
  { simpl. rewrite <- Permutation_middle. rewrite app_assoc, <- Permutation_middle, <- app_assoc. by rewrite IH. }
  apply list_elem_of_singleton in H as ->. simpl.
  rewrite !app_assoc, <- Permutation_middle, <- !app_assoc. by rewrite IH.
Qed.

Lemma report_assets r deps lim s : all_impacted (report rows t r deps lim s) ≡ₚ affected_assets (asset_key r) s.
Proof.
  unfold all_impacted, report. simpl. apply by_type_perm. intros a (_ & _ & E)%affected_elem.
  by apply resolve_key in E as [_ ?].
Qed.

Lemma report_count r lim s adj d : sound lim adj (asset_key r) d s ->
  Z.of_nat (length (affected_assets (asset_key r) s)) <= max_nodes lim.
Proof.
  intros Hs. unfold affected_assets. rewrite (Permutation_length (py_sorted_perm _ _)).
  assert (forall ks, length (resolve_many rows ks) <= length ks)%nat as Hle.
  { induction ks as [| k ks IH]; simpl; [done |]. destruct (resolve rows k); simpl; lia. }
  pose proof (Hle (elements (visited s ∖ {[asset_key r]}))) as H1.
  change (length (elements (visited s ∖ {[asset_key r]}))) with (size (visited s ∖ {[asset_key r]})) in H1.
  pose proof (so_size _ _ _ _ _ Hs) as H2. destruct (so_root _ _ _ _ _ Hs) as (H3 & _).
  assert ({[asset_key r]} ⊆ visited s) as Hsub by set_solver. pose proof (subseteq_size _ _ Hsub) as H4.
  rewrite size_difference in H1 by done. rewrite size_singleton in H1, H4. lia.
Qed.

Lemma calculate_settles root r ii lim :
  resolve rows root = Some r -> 1 <= max_nodes lim -> 1 <= max_depth lim -> 1 <= max_edges lim ->
  exists s, calculate_blast_radius rows t root ii lim = Ok (Some (report rows t r (dependency_edges t) lim s)) /\
    settled lim (outgoing ii (dependency_edges t)) root s.
Proof.
  intros Hr H1 H2 H3. pose proof (resolve_key _ _ Hr) as [E Hty]. unfold calculate_blast_radius.
  rewrite bool_decide_eq_true_2 by done. cbn [negb]. rewrite (proj2 (Z.ltb_ge _ _)) by lia. rewrite Hr.
  destruct (traverse_settles lim (outgoing ii (dependency_edges t)) root (dependency_edges t)) with
    (fuel := enough_fuel (dependency_edges t)) (d := 0) (s := start root) as (s & Es & Hs).
  - intros k e He. by apply outgoing_elem in He as [-> _].
  - intros k e He. apply outgoing_elem in He as [_ He]. by apply (impact_edges_elem ii), considered_elem.
  - lia.
  - apply start_sound. lia.
  - done.
  - apply start_expanded.
  - apply start_remaining.
  - exists s. by rewrite Es.
Qed.

(** An evidence path is found for every visited node, and for no other when the
    search is complete. *)
Lemma visited_evidence ii lim root s k : settled lim (outgoing ii (dependency_edges t)) root s -> k ∈ visited s ->
  let path := path_for (predecessor s) root k in
  evidence ii t root path k /\ Z.of_nat (length path) <= max_depth lim /\
  (truncation s = None -> forall l, evidence ii t root l k -> (length path <= length l)%nat).
Proof.
  intros Hset Hk. pose proof Hset as [[d Hs] _].
  apply (so_depth _ _ _ _ _ Hs) in Hk as [n Hn]. destruct (so_bound _ _ _ _ _ Hs _ _ Hn) as [Hb _].
  destruct (path_for_chain _ _ _ d s k n Hs Hn) as (H1 & H2 & H3). simpl. split_and!; [| lia |].
  - split; [done |]. intros e He%H3. apply outgoing_elem in He as [_ He]. by apply considered_elem.
  - intros Ht l (l' & Hc & Hlen & Hl')%evidence_considered.
    destruct (complete_reach _ _ _ s l' k Hset Ht Hc Hl') as (m & Hm & Hle). rewrite Hn in Hm. simplify_eq. lia.
Qed.

Lemma evidence_visited ii lim root s l k : settled lim (outgoing ii (dependency_edges t)) root s ->
  truncation s = None -> evidence ii t root l k -> k ∈ visited s.
Proof.
  intros Hset Ht (l' & Hc & _ & Hl')%evidence_considered. pose proof Hset as [[d Hs] _].
  destruct (complete_reach _ _ _ s l' k Hset Ht Hc Hl') as (n & Hn & _). apply (so_depth _ _ _ _ _ Hs). eauto.
Qed.
End Report.

(** C9: The impact traversal always returns for a known asset and positive
    limits, and a report that is not truncated lists exactly the existing assets,
    other than the root, that a chain of usable dependency edges connects to the
    root. *)
Theorem blast_radius_exact rows t root r ii lim :
  resolve rows root = Some r -> 1 <= max_nodes lim -> 1 <= max_depth lim -> 1 <= max_edges lim ->
  exists b, calculate_blast_radius rows t root ii lim = Ok (Some b) /\
    (truncation_reason b = None -> forall a, a ∈ all_impacted b <->
       asset_key a <> root /\ resolve rows (asset_key a) = Some a /\
       exists l, evidence ii t root l (asset_key a)).
Proof.
  intros Hr H1 H2 H3. destruct (calculate_settles rows t root r ii lim Hr H1 H2 H3) as (s & E & Hs).
  eexists. split; [exact E |]. intros Ht a. pose proof (resolve_key _ _ _ Hr) as [Er _].
  rewrite report_assets, affected_elem, Er. split.
  - intros (Ha & Hv & Hres). split_and!; [done | done |]. eexists. by apply (visited_evidence t ii lim root s).
  - intros (Ha & Hres & l & Hl). split_and!; [done | | done]. by apply (evidence_visited t ii lim root s l).
Qed.

(** Every impacted asset of a report, truncated or not, carries one evidence
    path: a chain of usable dependency edges from the root to that asset, no
    longer than the depth limit and marked inferred exactly when one of its
    edges is; in a complete report it is a shortest such chain. The report
    lists at most the allowed number of assets. *)
Theorem evidence_paths rows t root ii lim b :
  calculate_blast_radius rows t root ii lim = Ok (Some b) ->
  map path_asset (paths b) ≡ₚ all_impacted b /\
  total_impact_count b = Z.of_nat (length (all_impacted b)) /\ total_impact_count b <= max_nodes lim /\
  forall p, p ∈ paths b ->
    let k := asset_key (path_asset p) in
    evidence ii t root (path_edges p) k /\ path_edges p <> [] /\
    Z.of_nat (length (path_edges p)) <= max_depth lim /\
    (path_provenance p = Inferred <-> exists e, e ∈ path_edges p /\ provenance_of e = Inferred) /\
    (truncation_reason b = None -> forall l, evidence ii t root l k -> (length (path_edges p) <= length l)%nat).
Proof.
  intros E. pose proof E as E'. unfold calculate_blast_radius in E'.
  destruct (negb _); [done |]. destruct (_ <? 1) eqn:Hlim; [done |]. reflect_bools.
  destruct (resolve rows root) as [r |] eqn:Hr; [| done]. clear E'.
  destruct (calculate_settles rows t root r ii lim Hr) as (s & E' & Hs); [lia .. |].
  rewrite E in E'. injection E' as ->. pose proof (resolve_key _ _ _ Hr) as [Er _].
  pose proof (report_assets rows t r (dependency_edges t) lim s) as Hperm.
  pose proof Hs as [[d Hd] _]. rewrite <- Er in Hd.
  split_and!.
  - rewrite Hperm. unfold report. simpl. rewrite map_map. simpl. by rewrite map_id.
  - simpl. by rewrite Hperm.
  - exact (report_count rows r lim s _ d Hd).
  - intros p Hp. unfold report in Hp. simpl in Hp. apply list_elem_of_fmap in Hp as (a & -> & Ha).
    apply (affected_elem rows) in Ha as (Hne & Hv & _). simpl. rewrite Er in *.
    destruct (visited_evidence t ii lim root s (asset_key a) Hs Hv) as (H1 & H2 & H3).
    split_and!; [done | | done | | done].
    + intros E0. destruct H1 as [Hc _]. rewrite E0 in Hc. by simpl in Hc.
    + destruct (existsb is_inferred _) eqn:Ex; split; try done.
      * intros _. apply existsb_exists in Ex as (e & He & Hi). exists e.
        rewrite list_elem_of_In. split; [done |]. by apply bool_decide_eq_true in Hi.
      * intros (e & He & Hi). rewrite list_elem_of_In in He.
        assert (existsb is_inferred (path_for (predecessor s) root (asset_key a)) = true) as Ht; [| congruence].
        apply existsb_exists. exists e. split; [done |]. by apply bool_decide_eq_true.
Qed.

(** A host with a virtual machine, a service on it and a service that depends on
    that one; the storage of another host is not affected. *)
Definition lab : tables :=
  Tables [ComputeRow 2 (Some 1)] [ServiceRow 3 None (Some 2); ServiceRow 4 None None]
    [DependencyRow 1 3 4 None] [StorageRow 7 (Some 9)] [] [LinkRow 1 1 9 None] [] [].

Definition lab_rows : gmap key asset_row :=
  list_to_map (map (fun k => (k, AssetRow "x" None None))
    [("hardware", 1); ("hardware", 9); ("compute_unit", 2); ("service", 3); ("service", 4); ("storage", 7)]).

Definition lab_limits : limits := Limits 500 12 5000.

Definition lab_report : blast_radius :=
  match calculate_blast_radius lab_rows lab ("hardware", 1) false lab_limits with
  | Ok (Some b) => b
  | _ => BlastRadius (AssetRef ("", 0) "" None) [] [] [] [] 0 "" [] [] [] "" None lab_limits false
  end.

Example lab_impact :
  (map asset_key (all_impacted lab_report), summary lab_report, truncation_reason lab_report) =
  ([("compute_unit", 2); ("service", 3); ("service", 4)],
   "Potential impact if x is unavailable: 1 VM, 2 services affected.", None).
Proof. vm_compute. reflexivity. Qed.

Lemma blast_radius_exact_witness : exists b,
  calculate_blast_radius lab_rows lab ("hardware", 1) false lab_limits = Ok (Some b).
Proof.
  destruct (blast_radius_exact lab_rows lab ("hardware", 1) (AssetRef ("hardware", 1) "x" None) false lab_limits)
    as (b & Hb & _); [vm_compute; reflexivity | vm_compute; discriminate .. | exists b; exact Hb].
Defined.

Lemma evidence_paths_witness : total_impact_count lab_report <= max_nodes lab_limits.
Proof.
  apply (evidence_paths lab_rows lab ("hardware", 1) false lab_limits lab_report). vm_compute. reflexivity.
Defined.

End Impact.
