(* ===== verification/Ip.v ===== *)
(** IP addresses and networks as [ipaddress] has them.  Containment, overlap and
    subnets are modelled on the integers; the text forms (whose IPv6 notation
    depends on the Python version) are the interface [IpText], of which
    [ExplodedText] is one instance: dotted quads, and IPv6 written out in full. *)
From S2P Require Import Prelude.
Open Scope Z_scope.

Module Ip.

Inductive version := V4 | V6.
#[export] Instance version_eq_dec : EqDecision version. Proof. solve_decision. Defined.

Definition width (v : version) : Z := match v with V4 => 32 | V6 => 128 end.

(** [azone] is the scope id of an IPv6 address ([fe80::1%eth0]). *)
Record address := Addr { aver : version; aval : Z; azone : option string }.
Record network := Net { nver : version; base : Z; prefixlen : Z }.

#[export] Instance network_eq_dec : EqDecision network. Proof. solve_decision. Defined.

Definition host_bits (n : network) : Z := width (nver n) - prefixlen n.

(** [a & netmask], [k] being the number of host bits. *)
Definition masked (k a : Z) : Z := Z.shiftl (Z.shiftr a k) k.

(** [network_address | hostmask]. *)
Definition broadcast (n : network) : Z := Z.lor (base n) (Z.ones (host_bits n)).

(** [address in network]. *)
Definition has (n : network) (v : version) (a : Z) : bool :=
  bool_decide (nver n = v) && (masked (host_bits n) a =? base n).

Definition contains (n : network) (a : address) : bool := has n (aver a) (aval a).

(** [left.overlaps(right)] and [inner.subnet_of(outer)] within one family. *)
Definition overlaps (l r : network) : bool :=
  has l (nver r) (base r) || has l (nver r) (broadcast r) || has r (nver l) (base l) || has r (nver l) (broadcast l).

Definition subnet_of (inner outer : network) : bool :=
  (base outer <=? base inner) && (broadcast inner <=? broadcast outer).

Definition wf (n : network) : Prop :=
  0 <= prefixlen n <= width (nver n) /\ 0 <= base n < 2 ^ width (nver n) /\ base n mod 2 ^ host_bits n = 0.

Definition in_range (v : version) (a : Z) : Prop := 0 <= a < 2 ^ width v.

(** *** Networks are intervals *)

Lemma host_bits_nonneg n : wf n -> 0 <= host_bits n.
Proof. unfold wf, host_bits. lia. Qed.

Lemma masked_sub k a : 0 <= k -> masked k a = a - a mod 2 ^ k.
Proof.
  intros Hk. unfold masked. rewrite Z.shiftl_mul_pow2, Z.shiftr_div_pow2 by done.
  pose proof (Z.div_mod a (2 ^ k)) as H. assert (0 < 2 ^ k) by lia. lia.
Qed.

Lemma broadcast_eq n : wf n -> broadcast n = base n + 2 ^ host_bits n - 1.
Proof.
  intros Hn. pose proof (host_bits_nonneg n Hn) as Hk. destruct Hn as (_ & Hb & Hm). unfold broadcast.
  assert (Z.land (base n) (Z.ones (host_bits n)) = 0) as Hd by (rewrite Z.land_ones by done; done).
  pose proof (Z.add_lor_land (base n) (Z.ones (host_bits n))) as H. rewrite Hd, Z.ones_equiv in H.
  rewrite Z.ones_equiv. lia.
Qed.

Lemma has_iff n v a : wf n -> has n v a = true <-> nver n = v /\ base n <= a <= broadcast n.
Proof.
  intros Hn. pose proof (host_bits_nonneg n Hn) as Hk. pose proof (broadcast_eq n Hn) as Hbc.
  destruct Hn as (_ & _ & Hm). unfold has. rewrite andb_true_iff, bool_decide_eq_true, Z.eqb_eq, masked_sub, Hbc by done.
  assert (0 < 2 ^ host_bits n) as Hp by lia. set (k := 2 ^ host_bits n) in *.
  apply and_iff_compat_l. split; [intros <-; pose proof (Z.mod_pos_bound a k Hp); lia |].
  intros Ha. assert (a mod k = a - base n) as ->; [| lia].
  replace a with ((a - base n) + base n / k * k) at 1; [rewrite Z.mod_add by lia; apply Z.mod_small; lia |].
  pose proof (Z.div_mod (base n) k ltac:(lia)). lia.
Qed.

Lemma contains_iff n a : wf n -> contains n a = true <-> nver n = aver a /\ base n <= aval a <= broadcast n.
Proof. apply has_iff. Qed.

Lemma broadcast_ge n : wf n -> base n <= broadcast n.
Proof. intros Hn. rewrite (broadcast_eq n Hn). pose proof (host_bits_nonneg n Hn). lia. Qed.

(** Overlap is having an address in common. *)
Lemma overlaps_iff l r : wf l -> wf r -> nver l = nver r ->
  overlaps l r = true <-> exists a, has l (nver l) a = true /\ has r (nver r) a = true.
Proof.
  intros Hl Hr Hv. unfold overlaps. rewrite !orb_true_iff, !has_iff, <- Hv by done.
  pose proof (broadcast_ge l Hl). pose proof (broadcast_ge r Hr).
  setoid_rewrite has_iff; [| done | done]. split.
  - intros [[[[_ H1] | [_ H1]] | [_ H1]] | [_ H1]];
      [exists (base r) | exists (broadcast r) | exists (base l) | exists (broadcast l)]; naive_solver lia.
  - intros (a & (_ & Ha1) & (_ & Ha2)). destruct (decide (base l <= base r)); [left; left; left | left; right]; naive_solver lia.
Qed.

Lemma subnet_of_iff inner outer : wf inner -> wf outer -> nver inner = nver outer ->
  subnet_of inner outer = true <-> forall a, has inner (nver inner) a = true -> has outer (nver outer) a = true.
Proof.
  intros Hi Ho Hv. unfold subnet_of. reflect_bools. setoid_rewrite has_iff; [| done | done].
  pose proof (broadcast_ge inner Hi). split; [naive_solver lia |].
  intros Ha. destruct (Ha (base inner)); [split; [done | lia] |]. destruct (Ha (broadcast inner)); [split; [done | lia] |]. lia.
Qed.

(** *** Text *)

(** [parse_ip] is [ipaddress.ip_address]; [parse_net] reads the text of a network
    without clearing its host bits; [str_ip] and [str_net] are [str]. *)
Class IpText := {
  parse_ip : string -> option address;
  parse_net : string -> option (version * Z * Z);
  str_ip : address -> string;
  str_net : network -> string
}.

Class IpTextLaws (T : IpText) : Prop := {
  parse_ip_range s a : parse_ip s = Some a -> in_range (aver a) (aval a);
  parse_net_range s v a p : parse_net s = Some (v, a, p) -> in_range v a /\ 0 <= p <= width v;
  parse_str_net n : wf n -> parse_net (str_net n) = Some (nver n, base n, prefixlen n);
  strip_str_net n : wf n -> strip (str_net n) = str_net n
}.

Section Networks.
Context `{IpTextLaws}.

(** [ipaddress.ip_network(s, strict)]; [None] is the [ValueError]. *)
Definition ip_network (strict : bool) (s : string) : option network :=
  match parse_net s with
  | None => None
  | Some (v, a, p) =>
      let b := masked (width v - p) a in
      if strict && negb (b =? a) then None else Some (Net v b p)
  end.

Lemma ip_network_wf strict s n : ip_network strict s = Some n -> wf n.
Proof.
  unfold ip_network. destruct (parse_net s) as [[[v a] p] |] eqn:E; [| done].
  apply parse_net_range in E as [Ha Hp]. destruct (_ && _); intros [= <-].
  unfold wf, host_bits, in_range in *. simpl. rewrite masked_sub by lia.
  assert (0 < 2 ^ (width v - p)) as Hpos by lia. pose proof (Z.mod_pos_bound a _ Hpos) as Hm.
  pose proof (Z.mod_le a (2 ^ (width v - p))) as Hle.
  split_and!; [lia | lia | lia | lia |]. rewrite Zminus_mod_idemp_r, Z.sub_diag. done.
Qed.

Lemma ip_network_str strict n : wf n -> ip_network strict (str_net n) = Some n.
Proof.
  intros Hn. unfold ip_network. rewrite parse_str_net by done. change (width (nver n) - prefixlen n) with (host_bits n).
  rewrite masked_sub by by apply host_bits_nonneg. destruct Hn as (_ & _ & ->). rewrite Z.sub_0_r, Z.eqb_refl.
  rewrite andb_false_r. by destruct n.
Qed.
End Networks.

(** *** An instance: dotted quads, and IPv6 written out in full *)

(** The [n] base-[b] digits of a number, most significant first. *)
Fixpoint digits (b : Z) (n : nat) (v : Z) : list Z :=
  match n with O => [] | S n => digits b n (v / b) ++ [v mod b] end.

Definition undigits (b : Z) (l : list Z) : Z := foldl (fun acc d => acc * b + d) 0 l.

Lemma undigits_digits b n v : 0 < b -> 0 <= v < b ^ Z.of_nat n -> undigits b (digits b n v) = v.
Proof.
  intros Hb. revert v; induction n as [| n IH]; intros v Hv; [simpl in *; unfold undigits; simpl; lia |].
  rewrite Nat2Z.inj_succ, Z.pow_succ_r in Hv by lia. simpl. unfold undigits in *. rewrite foldl_app. simpl.
  rewrite IH; [pose proof (Z.div_mod v b); lia |].
  split; [apply Z.div_pos; lia | apply Z.div_lt_upper_bound; lia].
Qed.

Lemma digits_range b n v d : 0 < b -> d ∈ digits b n v -> 0 <= d < b.
Proof.
  intros Hb. revert v; induction n as [| n IH]; intros v; simpl; [set_solver |].
  intros [Hd | ->%list_elem_of_singleton]%elem_of_app; [by apply (IH (v / b)) | by apply Z.mod_pos_bound].
Qed.

Lemma digits_length b n v : length (digits b n v) = n.
Proof. revert v; induction n as [| n IH]; intros v; simpl; [done |]. rewrite length_app, IH. simpl. lia. Qed.

Lemma undigits_range b l : 0 < b -> (forall d, d ∈ l -> 0 <= d < b) ->
  0 <= undigits b l < b ^ Z.of_nat (length l).
Proof.
  intros Hb. induction l as [| d l IH] using rev_ind; intros Hl; [unfold undigits; simpl; lia |].
  unfold undigits in *. rewrite foldl_app, length_app. simpl. rewrite Nat.add_1_r, Nat2Z.inj_succ, Z.pow_succ_r by lia.
  specialize (IH ltac:(set_solver)). specialize (Hl d ltac:(set_solver)). nia.
Qed.

(** The number below [n] whose text is [s]. *)
Definition number (txt : Z -> string) (n : Z) (s : string) : option Z :=
  List.find (fun k => String.eqb (txt k) s) (seqZ 0 n).

Lemma number_range txt n s k : number txt n s = Some k -> 0 <= k < n /\ txt k = s.
Proof. intros [H E]%find_some. apply list_elem_of_In, elem_of_seqZ in H. reflect_bools. split; [lia | done]. Qed.

Lemma number_txt txt n k : Inj (=) (=) txt -> 0 <= k < n -> number txt n (txt k) = Some k.
Proof.
  intros Hinj Hk. unfold number. destruct (List.find _ _) as [j |] eqn:E.
  - apply find_some in E as [_ E]. reflect_bools. by apply Hinj in E as ->.
  - pose proof (find_none _ _ E k) as H. simpl in H. rewrite String.eqb_refl in H.
    discriminate H. apply list_elem_of_In, elem_of_seqZ. lia.
Qed.

Definition hex4 (h : Z) : string :=
  string_of_list_ascii (map (fun d => ascii_of_nat (Z.to_nat (if d <? 10 then 48 + d else 87 + d))) (digits 16 4 h)).

Definition hex_digit_of (c : ascii) : option Z :=
  let n := code c in
  if (48 <=? n) && (n <=? 57) then Some (n - 48) else if (97 <=? n) && (n <=? 102) then Some (n - 87) else None.

Definition read_hex4 (s : string) : option Z :=
  ds ← mapM hex_digit_of (list_ascii_of_string s);
  if (length ds =? 4)%nat then Some (undigits 16 ds) else None.

Lemma hex_digit_read d : 0 <= d < 16 ->
  hex_digit_of (ascii_of_nat (Z.to_nat (if d <? 10 then 48 + d else 87 + d))) = Some d.
Proof.
  intros Hd.
  assert (forallb (fun d => bool_decide (hex_digit_of (ascii_of_nat (Z.to_nat (if d <? 10 then 48 + d else 87 + d))) = Some d))
    (seqZ 0 16) = true) as Hall by (vm_compute; reflexivity).
  rewrite forallb_forall in Hall. apply (bool_decide_eq_true _), Hall, list_elem_of_In, elem_of_seqZ. lia.
Qed.

Lemma read_hex4_hex4 h : 0 <= h < 65536 -> read_hex4 (hex4 h) = Some h.
Proof.
  intros Hh. unfold read_hex4, hex4. rewrite list_ascii_of_string_of_list_ascii.
  assert (mapM hex_digit_of (map (fun d => ascii_of_nat (Z.to_nat (if d <? 10 then 48 + d else 87 + d))) (digits 16 4 h))
          = Some (digits 16 4 h)) as ->.
  { apply mapM_Some. rewrite Forall2_fmap_l. apply Forall_Forall2_diag, Forall_forall. intros d Hd.
    by apply hex_digit_read, (digits_range 16 4 h). }
  cbn [mbind option_bind]. rewrite digits_length. cbn [Nat.eqb]. rewrite undigits_digits; [done | lia |]. simpl; lia.
Qed.

Section Groups.
Variables (sep : ascii) (txt : Z -> string) (rd : string -> option Z) (b : Z) (n : nat).
Hypothesis b_pos : 0 < b.
Hypothesis n_pos : n <> 0%nat.
Hypothesis txt_sep : forall d, 0 <= d < b -> str_forallb (fun c => negb (Ascii.eqb c sep)) (txt d) = true.
Hypothesis rd_txt : forall d, 0 <= d < b -> rd (txt d) = Some d.
Hypothesis rd_range : forall s d, rd s = Some d -> 0 <= d < b.

Definition groups (v : Z) : string := String.concat (String sep EmptyString) (map txt (digits b n v)).

Definition read_groups (s : string) : option Z :=
  ds ← mapM rd (split_on sep s);
  if (length ds =? n)%nat then Some (undigits b ds) else None.

Lemma read_groups_groups v : 0 <= v < b ^ Z.of_nat n -> read_groups (groups v) = Some v.
Proof using b_pos n_pos txt_sep rd_txt.
  intros Hv. unfold read_groups, groups. rewrite split_on_concat.
  - assert (mapM rd (map txt (digits b n v)) = Some (digits b n v)) as ->.
    { apply mapM_Some. rewrite Forall2_fmap_l. apply Forall_Forall2_diag, Forall_forall. intros d Hd.
      by apply rd_txt, (digits_range b n v). }
    cbn [mbind option_bind]. rewrite digits_length, Nat.eqb_refl. by rewrite undigits_digits.
  - intros E%(f_equal length). rewrite length_map, digits_length in E. done.
  - intros x (d & -> & Hd)%list_elem_of_fmap. by apply txt_sep, (digits_range b n v).
Qed.

Lemma read_groups_range s v : read_groups s = Some v -> 0 <= v < b ^ Z.of_nat n.
Proof using b_pos rd_range.
  clear n_pos txt_sep rd_txt txt. unfold read_groups. destruct (mapM rd (split_on sep s)) as [ds |] eqn:E; [| done]. cbn [mbind option_bind].
  destruct (Nat.eqb_spec (length ds) n) as [<- |]; [| done]. intros [= <-]. apply undigits_range; [done |].
  apply mapM_Some in E. intros d [i Hi]%list_elem_of_lookup. destruct (Forall2_lookup_r _ _ _ _ _ E Hi) as (x & _ & Hx).
  by apply (rd_range x).
Qed.
End Groups.

Definition ip_groups (v : version) (a : Z) : string :=
  match v with V4 => groups "." pretty 256 4 a | V6 => groups ":" hex4 65536 8 a end.

Definition read_hextet (s : string) : option Z :=
  match read_hex4 s with Some h => if (0 <=? h) && (h <? 65536) then Some h else None | None => None end.

Definition read_ip (s : string) : option (version * Z) :=
  match read_groups "." (number pretty 256) 256 4 s with
  | Some a => Some (V4, a)
  | None => pair V6 <$> read_groups ":" read_hextet 65536 8 s
  end.

Lemma digit_text (P : ascii -> bool) k n : (forallb (fun k => str_forallb P (pretty k)) (seqZ 0 n)) = true ->
  0 <= k < n -> str_forallb P (pretty k) = true.
Proof. intros H Hk. rewrite forallb_forall in H. apply H, list_elem_of_In, elem_of_seqZ. lia. Qed.

Lemma hex4_chars (P : ascii -> bool) h :
  forallb (fun d => P (ascii_of_nat (Z.to_nat (if d <? 10 then 48 + d else 87 + d)))) (seqZ 0 16) = true ->
  str_forallb P (hex4 h) = true.
Proof.
  intros H. rewrite forallb_forall in H. unfold hex4.
  assert (forall d, d ∈ digits 16 4 h -> 0 <= d < 16) as Hr by (intros d; by apply digits_range).
  induction (digits 16 4 h) as [| d l IH]; simpl; [done |]. rewrite IH by set_solver. rewrite andb_true_r.
  apply H, list_elem_of_In, elem_of_seqZ. specialize (Hr d (list_elem_of_here _ _)). lia.
Qed.

Lemma read_v4 a : in_range V4 a -> read_groups "." (number pretty 256) 256 4 (ip_groups V4 a) = Some a.
Proof.
  intros Ha. apply (read_groups_groups "." pretty); [lia | done | | | done].
  - intros d Hd. by apply (digit_text _ _ 256); [vm_compute |].
  - intros d Hd. apply number_txt; [apply _ | done].
Qed.

Lemma read_hextet_hex4 h : 0 <= h < 65536 -> read_hextet (hex4 h) = Some h.
Proof.
  intros Hh. unfold read_hextet. rewrite read_hex4_hex4 by done.
  destruct (Z.leb_spec 0 h), (Z.ltb_spec h 65536); done || lia.
Qed.

Lemma read_v6 a : in_range V6 a -> read_groups ":" read_hextet 65536 8 (ip_groups V6 a) = Some a.
Proof.
  intros Ha. apply (read_groups_groups ":" hex4); [lia | done | | | done].
  - intros d _. by apply hex4_chars.
  - apply read_hextet_hex4.
Qed.

Lemma read_groups_single sep rd b n s : (n <> 1)%nat -> str_forallb (fun c => negb (Ascii.eqb c sep)) s = true ->
  read_groups sep rd b n s = None.
Proof.
  intros Hn Hs. unfold read_groups. rewrite split_on_self by done. simpl.
  destruct (rd s); simpl; [| done]. by destruct n as [| [|]].
Qed.

Lemma concat_chars P sep l : str_forallb P sep = true -> (forall x, x ∈ l -> str_forallb P x = true) ->
  str_forallb P (String.concat sep l) = true.
Proof.
  intros Hs. induction l as [| x l IH]; intros Hl; [done |]. destruct l as [| y l]; [apply Hl, list_elem_of_here |].
  change (String.concat sep (x :: y :: l)) with (x +:+ sep +:+ String.concat sep (y :: l)).
  rewrite !str_forallb_app, Hs, IH, Hl; [done | apply list_elem_of_here |].
  intros z Hz. by apply Hl, list_elem_of_further.
Qed.

Lemma read_ip_groups v a : in_range v a -> read_ip (ip_groups v a) = Some (v, a).
Proof.
  intros Ha. unfold read_ip. destruct v.
  - by rewrite read_v4.
  - rewrite (read_groups_single "."), read_v6; [done | done | done |]. unfold ip_groups, groups.
    apply concat_chars; [done |]. intros x (d & -> & _)%list_elem_of_fmap. by apply hex4_chars.
Qed.

Lemma read_ip_range s v a : read_ip s = Some (v, a) -> in_range v a.
Proof.
  unfold read_ip. destruct (read_groups "." _ _ _ s) as [x |] eqn:E.
  - intros [= <- <-]. eapply (read_groups_range "." (number pretty 256) 256 4); [lia | | exact E].
    intros t d [Hd _]%number_range. lia.
  - destruct (read_groups ":" _ _ _ s) as [x |] eqn:E6; [| done]. intros [= <- <-].
    eapply (read_groups_range ":" read_hextet 65536 8); [lia | | exact E6].
    intros t d. unfold read_hextet. destruct (read_hex4 t); [| done].
    destruct (_ && _) eqn:Eb; [| done]. intros [= <-]. reflect_bools. lia.
Qed.

(** The prefix length defaults to the whole address. *)
Definition read_net (s : string) : option (version * Z * Z) :=
  match split_on "/" s with
  | [a] => '(v, x) ← read_ip a; Some (v, x, width v)
  | [a; p] => '(v, x) ← read_ip a; k ← number pretty (width v + 1) p; Some (v, x, k)
  | _ => None
  end.

#[export] Instance ExplodedText : IpText := {|
  parse_ip s := '(v, x) ← read_ip s; Some (Addr v x None);
  parse_net := read_net;
  str_ip a := ip_groups (aver a) (aval a) +:+ match azone a with Some z => "%" +:+ z | None => "" end;
  str_net n := ip_groups (nver n) (base n) +:+ "/" +:+ pretty (prefixlen n)
|}.

Lemma ip_groups_chars P v a :
  forallb P (list_ascii_of_string "0123456789abcdef.:") = true -> str_forallb P (ip_groups v a) = true.
Proof.
  intros HP. rewrite forallb_forall in HP. assert (forall c, bool_decide (c ∈ list_ascii_of_string "0123456789abcdef.:") = true -> P c = true) as HP'.
  { intros c Hc%bool_decide_eq_true. by apply HP, list_elem_of_In. }
  destruct v; unfold ip_groups, groups; (apply concat_chars; [cbn; by rewrite HP' |]);
    intros x (d & -> & Hd)%list_elem_of_fmap.
  - apply (str_forallb_impl (fun c => bool_decide (c ∈ list_ascii_of_string "0123456789abcdef.:"))); [done |].
    apply (digit_text _ _ 256); [by vm_compute | by apply (digits_range 256 4 a)].
  - apply (str_forallb_impl (fun c => bool_decide (c ∈ list_ascii_of_string "0123456789abcdef.:"))); [done |]. by apply hex4_chars.
Qed.

#[export] Instance ExplodedText_laws : IpTextLaws ExplodedText.
Proof.
  split.
  - intros s a. simpl. destruct (read_ip s) as [[v x] |] eqn:E; [| done]. intros [= <-]. by apply (read_ip_range s).
  - intros s v a p. simpl. unfold read_net. destruct (split_on "/" s) as [| x [| y [|]]]; try done.
    + destruct (read_ip x) as [[w z] |] eqn:E; [| done]. intros [= -> -> <-].
      split; [by apply (read_ip_range x) | destruct v; simpl; lia].
    + destruct (read_ip x) as [[w z] |] eqn:E; [| done]. cbn [mbind option_bind].
      destruct (number pretty (width w + 1) y) as [k |] eqn:Ek; [| done]. intros [= -> -> <-].
      apply number_range in Ek as [Ek _]. split; [by apply (read_ip_range x) | lia].
  - intros n (Hp & Hb & _). simpl. unfold read_net.
    rewrite split_on_app by by apply ip_groups_chars.
    rewrite split_on_self by (apply (digit_text _ _ 129); [by vm_compute | destruct (nver n); simpl in *; lia]).
    rewrite read_ip_groups by done. cbn [mbind option_bind].
    rewrite number_txt by (try apply _; lia). by destruct n.
  - intros n (Hp & _). cbn [str_net ExplodedText]. apply strip_id. rewrite !str_forallb_app, ip_groups_chars by done.
    rewrite (digit_text _ _ 129); [done | by vm_compute | destruct (nver n); simpl in *; lia].
Qed.

End Ip.
