(* ===== verification/AgentScope.v ===== *)
(** The agent network scope ([core/agent_scope.py]) and the scan target gate
    ([core/network_acl.py]): the effective scope derived from an agent's reported
    interfaces and its grant, the decision for one destination and for a whole
    prefix, and the checks on administrator input. *)
From S2P Require Import Prelude Sha256 Json Regex Ip.
Import Json Ip.
Open Scope Z_scope.

Module AgentScope.

(** The exceptions of these two modules. *)
Inductive py_error := TypeError | ValueError (m : string).

Definition REASON_IN_SCOPE : string := "in_scope".
Definition REASON_SPECIAL_USE : string := "special_use".
Definition REASON_EXCLUDED : string := "excluded_cidr".
Definition REASON_EMPTY_SCOPE : string := "empty_scope".
Definition REASON_OUT_OF_SCOPE : string := "out_of_scope".
Definition REASON_INVALID_DESTINATION : string := "invalid_destination".
Definition REASON_UNRESOLVED_HOSTNAME : string := "unresolved_hostname".
Definition REASON_PREFIX_TOO_WIDE : string := "prefix_too_wide".

Definition MIN_SCOPE_PREFIX (v : version) : Z := match v with V4 => 16 | V6 => 48 end.

Definition v4 (a b c d p : Z) : network := Net V4 (((a * 256 + b) * 256 + c) * 256 + d) p.

Definition ULA_V6 : network := Net V6 (0xfc00 * 2 ^ 112) 7.

Definition BLOCKED_NETWORKS : list network :=
  [v4 0 0 0 0 8; v4 127 0 0 0 8; v4 169 254 0 0 16; v4 224 0 0 0 4; v4 240 0 0 0 4;
   Net V6 0 128; Net V6 1 128; Net V6 (0xfe80 * 2 ^ 112) 10; Net V6 (0xff00 * 2 ^ 112) 8;
   Net V6 (0xfd00 * 2 ^ 112 + 0xec2 * 2 ^ 96 + 0x254) 128].

Definition RFC1918_NETWORKS : list network := [v4 10 0 0 0 8; v4 172 16 0 0 12; v4 192 168 0 0 16].

Record scope := Scope {
  networks : list string;
  direct_networks : list string;
  excluded_networks : list string;
  hostnames : list string;
  version : string
}.

Record decision := Decision { allowed : bool; reason : string; decided_by : option string }.

(** *** Python values *)

Definition get (k : string) (fs : list (string * json)) : json :=
  match List.find (fun f => String.eqb f.1 k) fs with Some f => f.2 | None => JNull end.

(** [for x in v or []]. *)
Definition iterate (v : json) : result py_error (list json) :=
  if falsy v then Ok [] else
  match v with
  | JList l => Ok l
  | JObj fs => Ok (map (fun f => JStr f.1) fs)
  | JStr s => Ok (map (fun c => JStr (String c EmptyString)) (list_ascii_of_string s))
  | _ => Err TypeError
  end.

Definition rstrip_dot (s : string) : string := rstrip_by (Ascii.eqb "."%char) s.

Definition endswith (suffix s : string) : bool :=
  let n := String.length suffix in let k := String.length s in
  (n <=? k)%nat && String.eqb (String.substring (k - n) n s) suffix.

Section Scope.
Context {T : IpText}.
(** [str] of a float or a container. *)
Variable repr_of : json -> string.

Definition py_str (v : json) : string :=
  match v with
  | JStr s => s
  | JInt z => pretty z
  | JBool true => "True"
  | JBool false => "False"
  | JNull => "None"
  | v => repr_of v
  end.

(** *** Administrator input *)

Definition normalize_scope_cidr (field : string) (value : json) : result py_error string :=
  match value with
  | JStr s =>
      match ip_network false (strip s) with
      | None => Err (ValueError (field +:+ " entry '" +:+ s +:+ "' is not a valid CIDR (example: 10.0.0.0/24)"))
      | Some net =>
          if prefixlen net =? 0
          then Err (ValueError (field +:+ " entry '" +:+ s
                 +:+ "' covers the whole address space; 0.0.0.0/0 and ::/0 are not allowed"))
          else Ok (str_net net)
      end
  | _ => Err (ValueError (field +:+ " entries must be strings"))
  end.

(** The order of [_sorted_networks]: version, address, prefix length. *)
Definition net_le (x y : network) : bool :=
  let rank v := match v with V4 => 4 | V6 => 6 end in
  if rank (nver x) =? rank (nver y)
  then if base x =? base y then prefixlen x <=? prefixlen y else base x <? base y
  else rank (nver x) <? rank (nver y).

Definition sort_networks (nets : list network) : list network := py_sorted net_le (remove_dups nets).

Definition sorted_networks (nets : list network) : list string := map str_net (sort_networks nets).

(** [ipaddress.ip_network(cidr)]: strict. *)
Definition strict_network (s : string) : result py_error network :=
  match ip_network true s with
  | Some n => Ok n
  | None => Err (ValueError (s +:+ " is not a network"))
  end.

Fixpoint try_map {A B} (f : A -> result py_error B) (l : list A) : result py_error (list B) :=
  match l with
  | [] => Ok []
  | x :: l => y ← f x; ys ← try_map f l; Ok (y :: ys)
  end.

Definition parsed (cidrs : list string) : result py_error (list network) := try_map strict_network cidrs.

Definition normalize_scope_cidrs (field : string) (values : json) : result py_error (list string) :=
  match values with
  | JList l =>
      nets ← try_map (fun v => s ← normalize_scope_cidr field v; strict_network s) l;
      Ok (sorted_networks nets)
  | _ => Err (ValueError (field +:+ " must be a list of CIDR strings"))
  end.

(** [_HOSTNAME_LABEL_RE.match]: its [$] also matches before a final newline. *)
Definition label_char (c : ascii) : bool := Regex.digit c || Regex.lower c.

Definition label_re : Regex.re :=
  Regex.Seq (Regex.Chr label_char)
    (Regex.opt (Regex.Seq (Regex.between 0 61 (Regex.Chr (fun c => label_char c || Ascii.eqb c "-"%char)))
                  (Regex.Chr label_char))).

Definition hostname_label (s : string) : bool :=
  Regex.fullmatch (Regex.Seq label_re (Regex.opt (Regex.lit "010"%char))) s.

Definition normalize_scope_hostname (field : string) (value : json) : result py_error string :=
  match value with
  | JStr s =>
      let name := rstrip_dot (lower (strip s)) in
      if String.eqb name EmptyString then Err (ValueError (field +:+ " entries must not be empty"))
      else if (253 <? String.length name)%nat
      then Err (ValueError (field +:+ " entry '" +:+ s +:+ "' is longer than 253 characters"))
      else
        let labels := if startswith "*." name then split_on "."%char (String.substring 2 (String.length name - 2) name)
                      else split_on "."%char name in
        if negb (forallb hostname_label labels)
        then Err (ValueError (field +:+ " entry '" +:+ s +:+ "' is not a hostname or '*.example.com' pattern"))
        else match parse_ip name with
             | None => Ok name
             | Some _ => Err (ValueError (field +:+ " entry '" +:+ s +:+ "' is an IP address; use additional_cidrs"))
             end
  | _ => Err (ValueError (field +:+ " entries must be strings"))
  end.

(** *** The effective scope *)

Definition parse_cidrs (v : json) : list network :=
  match v with
  | JList l => omap (fun x => match x with JStr s => ip_network false (strip s) | _ => None end) l
  | _ => []
  end.

Definition is_private_network (n : network) : bool :=
  match nver n with
  | V4 => existsb (subnet_of n) RFC1918_NETWORKS
  | V6 => subnet_of n ULA_V6
  end.

Definition excluded_interface (flags : list json) : bool :=
  existsb (fun f => bool_decide (lower (py_str f) ∈ ["loopback"; "pointtopoint"])) flags.

Fixpoint direct_of (facts : list json) : result py_error (list network) :=
  match facts with
  | [] => Ok []
  | JObj entry :: facts =>
      flags ← iterate (get "flags" entry);
      rest ← direct_of facts;
      Ok (if excluded_interface flags then rest
          else List.filter is_private_network (parse_cidrs (get "addrs" entry)) ++ rest)
  | _ :: facts => direct_of facts
  end.

Definition canonical_hostname (host : json) : string := rstrip_dot (lower (strip (py_str host))).

Definition scope_version (nets direct excluded hosts : list string) : string :=
  String.substring 0 16 (Sha256.hexdigest (String.concat "|"
    ["agent-scope/v1"; String.concat "," nets; String.concat "," direct; String.concat "," excluded; String.concat "," hosts])).

Definition derive_scope (facts : option (list json)) (config : option (list (string * json))) : result py_error scope :=
  let cfg := default [] config in
  let mode := match List.find (fun f => String.eqb f.1 "scope_mode") cfg with
              | Some f => f.2 | None => JStr "direct_private" end in
  direct ← (match mode with
            | JStr m => if String.eqb m "direct_private" then direct_of (default [] facts) else Ok []
            | _ => Ok []
            end);
  let additional := List.filter (fun n => 0 <? prefixlen n) (parse_cidrs (get "additional_cidrs" cfg)) in
  let excluded := parse_cidrs (get "excluded_cidrs" cfg) in
  hosts ← iterate (get "additional_hostnames" cfg);
  let nets := sorted_networks (direct ++ additional) in
  let dir := sorted_networks direct in
  let exc := sorted_networks excluded in
  let names := py_sorted String.leb (dedup (map canonical_hostname hosts)) in
  Ok (Scope nets dir exc names (scope_version nets dir exc names)).

(** *** Decisions *)

(** [_parse_address]: an IPv4-mapped IPv6 address is its IPv4 address. *)
Definition parse_address (s : string) : option address :=
  match parse_ip (strip s) with
  | Some a =>
      if bool_decide (aver a = V6) && (Z.shiftr (aval a) 32 =? 0xFFFF)
      then Some (Addr V4 (Z.land (aval a) 0xFFFFFFFF) None) else Some a
  | None => None
  end.

Definition is_directed_broadcast (n : network) (a : address) : bool :=
  bool_decide (nver n = V4) && (prefixlen n <=? 30) && bool_decide (aver a = V4) && (aval a =? broadcast n).

Definition evaluate_address (s : scope) (a : address) : result py_error decision :=
  let text := Some (str_ip a) in
  if existsb (fun n => contains n a) BLOCKED_NETWORKS then Ok (Decision false REASON_SPECIAL_USE text) else
  nets ← parsed (networks s);
  if existsb (fun n => is_directed_broadcast n a) nets then Ok (Decision false REASON_SPECIAL_USE text) else
  exc ← parsed (excluded_networks s);
  if existsb (fun n => contains n a) exc then Ok (Decision false REASON_EXCLUDED text) else
  match nets with
  | [] => Ok (Decision false REASON_EMPTY_SCOPE text)
  | _ => if existsb (fun n => contains n a) nets then Ok (Decision true REASON_IN_SCOPE text)
         else Ok (Decision false REASON_OUT_OF_SCOPE text)
  end.

(** The loop over a hostname's answers: the first refusal decides. *)
Fixpoint evaluate_answers (s : scope) (answers : list string) : result py_error decision :=
  match answers with
  | [] => Ok (Decision true REASON_IN_SCOPE None)
  | c :: answers =>
      match parse_address c with
      | None => Ok (Decision false REASON_INVALID_DESTINATION (Some c))
      | Some a =>
          d ← evaluate_address s a;
          if allowed d then evaluate_answers s answers else Ok d
      end
  end.

Definition evaluate (s : scope) (destination : string) (resolved : option (list string)) : result py_error decision :=
  let host := strip destination in
  if String.eqb host EmptyString then Ok (Decision false REASON_INVALID_DESTINATION None) else
  match parse_address host with
  | Some a => evaluate_address s a
  | None =>
      match resolved with
      | None | Some [] => Ok (Decision false REASON_UNRESOLVED_HOSTNAME None)
      | Some answers => evaluate_answers s answers
      end
  end.

(** [_overlaps] and [_contains_network]. *)
Definition overlaps_any (l r : network) : bool := bool_decide (nver l = nver r) && overlaps l r.
Definition contains_network (outer inner : network) : bool := bool_decide (nver outer = nver inner) && subnet_of inner outer.

Definition network_in_scope (s : scope) (cidr : string) : result py_error decision :=
  match ip_network false (strip cidr) with
  | None => Ok (Decision false REASON_INVALID_DESTINATION None)
  | Some n =>
      let text := Some (str_net n) in
      if prefixlen n <? MIN_SCOPE_PREFIX (nver n) then Ok (Decision false REASON_PREFIX_TOO_WIDE text) else
      if existsb (fun b => overlaps_any b n) BLOCKED_NETWORKS then Ok (Decision false REASON_SPECIAL_USE text) else
      exc ← parsed (excluded_networks s);
      if existsb (fun e => overlaps_any e n) exc then Ok (Decision false REASON_EXCLUDED text) else
      nets ← parsed (networks s);
      match nets with
      | [] => Ok (Decision false REASON_EMPTY_SCOPE text)
      | _ => if existsb (fun a => contains_network a n) nets then Ok (Decision true REASON_IN_SCOPE text)
             else Ok (Decision false REASON_OUT_OF_SCOPE text)
      end
  end.

(** [address_count]: [collapse_addresses] per family drops the networks inside
    others and merges siblings, which does not change the count. *)
Definition num_addresses (n : network) : Z := 2 ^ host_bits n.

Definition outermost (nets : list network) : list network :=
  let l := remove_dups nets in
  List.filter (fun n => negb (existsb (fun m => negb (bool_decide (m = n)) && contains_network m n) l)) l.

Definition covered (nets : list network) : Z := foldr Z.add 0 (map num_addresses (outermost nets)).

Definition address_count (cidrs : list string) : Z :=
  let nets := parse_cidrs (JList (map JStr cidrs)) in
  covered (List.filter (fun n => bool_decide (nver n = V4)) nets) + covered (List.filter (fun n => bool_decide (nver n = V6)) nets).

Definition hostname_is_approved (s : scope) (host : json) : bool :=
  let name := canonical_hostname host in
  existsb (fun p => if startswith "*." p then endswith (String.substring 1 (String.length p - 1) p) name
                    else String.eqb name p) (hostnames s).

(** *** The scan target gate *)

(** [json.loads]; [None] is its exception. *)
Variable loads : string -> option json.

Definition is_rfc1918 (cidr : string) : bool :=
  match ip_network false cidr with
  | None => false
  | Some n =>
      bool_decide (nver n = V4) &&
      existsb (fun r => has r (nver n) (base n) && has r (nver n) (broadcast n)) RFC1918_NETWORKS
  end.

(** [ipaddress.ip_network(v, strict=False)] of a JSON value: an integer is an
    address, anything else its text. *)
Definition network_of_value (v : json) : option network :=
  let of_int z := if (0 <=? z) && (z <? 2 ^ 32) then Some (Net V4 z 32)
                  else if (0 <=? z) && (z <? 2 ^ 128) then Some (Net V6 z 128) else None in
  match v with
  | JInt z => of_int z
  | JBool b => of_int (if b then 1 else 0)
  | v => ip_network false (py_str v)
  end.

Definition is_cidr_allowed (cidr : string) (allowed_networks : list json) : bool :=
  match ip_network false cidr with
  | None => false
  | Some target =>
      existsb (fun v => match network_of_value v with
                        | Some parent => bool_decide (nver target = nver parent) && subnet_of target parent
                        | None => false
                        end) allowed_networks
  end.

Definition is_ip_in_cidrs (ip_str cidrs_json : string) : result py_error bool :=
  let v := if String.eqb cidrs_json EmptyString then JList [] else default (JList []) (loads cidrs_json) in
  if falsy v then Ok true else
  match parse_ip ip_str with
  | None => Ok false
  | Some a =>
      cidrs ← iterate v;
      (fix any (l : list json) : result py_error bool :=
         match l with
         | [] => Ok false
         | c :: l =>
             match network_of_value c with
             | None => Err (ValueError "not a network")
             | Some n => if contains n a then Ok true else any l
             end
         end) cidrs
  end.

Definition parse_allowed_networks (raw : option string) : list json :=
  match raw with
  | None | Some EmptyString => []
  | Some raw => match loads raw with Some (JList l) => l | _ => [] end
  end.

(** The reasons of the 403. *)
Inductive refusal := AirGap | NotAllowed | PublicAddresses.

Definition validate_scan_target (cidr : string) (airgap_env airgap_db : bool) (allowed_networks_json : string) : result refusal () :=
  if String.eqb cidr "docker" then Ok ()
  else if airgap_env || airgap_db then Err AirGap
  else
    let allowed := parse_allowed_networks (Some allowed_networks_json) in
    if negb (match allowed with [] => true | _ => false end) && negb (is_cidr_allowed cidr allowed) then Err NotAllowed
    else if negb (is_rfc1918 cidr) then Err PublicAddresses
    else Ok ().
End Scope.

(** *** Blocked space, exclusions and the allow list *)

(** An address the scope lets an agent reach. *)
Definition permitted (nets exc : list network) (a : address) : Prop :=
  (forall b, b ∈ BLOCKED_NETWORKS -> contains b a = false) /\
  (forall n, n ∈ nets -> is_directed_broadcast n a = false) /\
  (forall e, e ∈ exc -> contains e a = false) /\
  exists n, n ∈ nets /\ contains n a = true.

Section Decisions.
Context {T : IpText} {L : IpTextLaws T}.

Lemma evaluate_address_exact s nets exc a :
  parsed (networks s) = Ok nets -> parsed (excluded_networks s) = Ok exc ->
  exists d, evaluate_address s a = Ok d /\ (allowed d = true <-> permitted nets exc a) /\
    (allowed d = false -> (forall b, b ∈ BLOCKED_NETWORKS -> contains b a = false) ->
     (forall e, e ∈ exc -> contains e a = false) -> (exists n, n ∈ nets /\ contains n a = true) ->
     reason d = REASON_SPECIAL_USE).
Proof.
  intros Hn He. unfold evaluate_address, permitted. rewrite Hn, He. cbn [mbind result_bind].
  destruct (existsb (fun n => contains n a) BLOCKED_NETWORKS) eqn:Eb.
  { eexists. split; [done |]. apply existsb_true in Eb as (b & Hb & Eb). split; [| done]. split; [done |].
    intros (H & _). by rewrite H in Eb. }
  destruct (existsb (fun n => is_directed_broadcast n a) nets) eqn:Ed.
  { eexists. split; [done |]. apply existsb_true in Ed as (n & Hin & Ed). split; [| done]. split; [done |].
    intros (_ & H & _). by rewrite H in Ed. }
  destruct (existsb (fun n => contains n a) exc) eqn:Ee.
  { eexists. split; [done |]. apply existsb_true in Ee as (n & Hin & Ee). split.
    - split; [done |]. intros (_ & _ & H & _). by rewrite H in Ee.
    - intros _ _ H. by rewrite H in Ee. }
  rewrite existsb_false in Eb, Ed, Ee.
  destruct nets as [| n0 nets].
  { eexists. split; [done |]. split; [| set_solver]. split; [done |]. intros (_ & _ & _ & n & Hin & _). by apply elem_of_nil in Hin. }
  destruct (existsb (fun n => contains n a) (n0 :: nets)) eqn:Ec; eexists; (split; [done |]).
  - apply existsb_true in Ec. split; [naive_solver | done].
  - rewrite existsb_false in Ec. split; [| intros _ _ _ (n & Hin & E); by rewrite Ec in E].
    split; [done |]. intros (_ & _ & _ & n & Hin & E). by rewrite Ec in E.
Qed.

(** The addresses a destination is judged by: itself when it is a literal, all
    the answers it resolved to otherwise. *)
Definition judged (destination : string) (resolved : option (list string)) : option (list address) :=
  match parse_address (strip destination) with
  | Some a => Some [a]
  | None => answers ← resolved; mapM parse_address answers
  end.

Lemma evaluate_answers_exact s nets exc answers :
  parsed (networks s) = Ok nets -> parsed (excluded_networks s) = Ok exc ->
  exists d, evaluate_answers s answers = Ok d /\
    (allowed d = true <-> exists l, mapM parse_address answers = Some l /\ Forall (permitted nets exc) l).
Proof.
  intros Hn He. induction answers as [| c answers (d & IH & Hd)]; simpl.
  { eexists. split; [done |]. split; [| done]. intros _. exists []. by split; [| constructor]. }
  destruct (parse_address c) as [a |] eqn:Ec.
  2: { eexists. split; [done |]. split; [done |]. intros (l & E & _). done. }
  destruct (evaluate_address_exact s nets exc a Hn He) as (da & Ea & Hda & _). rewrite Ea. cbn [mbind result_bind option_bind].
  destruct (allowed da) eqn:Eal.
  - exists d. split; [done |]. rewrite Hd. destruct (mapM parse_address answers) as [l |]; simpl; [| naive_solver].
    split; intros (l' & [= <-] & Hl); [exists (a :: l); split; [done |]; constructor; [by apply Hda | done] |].
    exists l. by inversion Hl.
  - exists da. split; [done |]. rewrite Eal. split; [done |]. intros (l & E & Hl).
    destruct (mapM parse_address answers) as [l0 |]; [| done]. injection E as <-. inversion Hl; subst. by apply Hda.
Qed.

Lemma evaluate_judged s nets exc destination resolved :
  parsed (networks s) = Ok nets -> parsed (excluded_networks s) = Ok exc ->
  strip destination <> EmptyString ->
  exists d, evaluate s destination resolved = Ok d /\
    (allowed d = true <->
     exists a l, judged destination resolved = Some (a :: l) /\ Forall (permitted nets exc) (a :: l)).
Proof.
  intros Hn He Hne. unfold evaluate, judged. rewrite (proj2 (String.eqb_neq _ _)) by done.
  destruct (parse_address (strip destination)) as [a |] eqn:Ea.
  { destruct (evaluate_address_exact s nets exc a Hn He) as (d & -> & Hd & _). exists d. split; [done |]. rewrite Hd.
    split; [intros H; exists a, []; split; [done | by apply Forall_singleton] |].
    intros (a' & l & [= <- <-] & Hl). by inversion Hl. }
  destruct resolved as [[| c answers] |].
  - eexists. split; [done |]. split; [done |]. by intros (a & l & E & _).
  - destruct (evaluate_answers_exact s nets exc (c :: answers) Hn He) as (d & E & Hd). exists d. split; [done |].
    rewrite Hd. split.
    + intros (l & El & Hl). cbn [mbind option_bind]. rewrite El. destruct l as [| a l]; [| by exists a, l].
      apply mapM_Some in El. by inversion El.
    + intros (a & l & El & Hl). by exists (a :: l).
  - eexists. split; [done |]. split; [done |]. by intros (a & l & E & _).
Qed.
(** A destination is allowed exactly when every address it is judged by (the
    literal, or each answer of the hostname, of which there is at least one) lies
    outside the special-use space, outside every excluded network, is no directed
    broadcast of a scope network and lies in a scope network. *)
Theorem evaluate_exact s nets exc destination resolved :
  parsed (networks s) = Ok nets -> parsed (excluded_networks s) = Ok exc ->
  strip destination <> EmptyString ->
  exists d, evaluate s destination resolved = Ok d /\
    (allowed d = true <->
     exists a l, judged destination resolved = Some (a :: l) /\ Forall (permitted nets exc) (a :: l)).
Proof. apply evaluate_judged. Qed.

Lemma try_map_ok {A B} (f : A -> result py_error B) l ys y :
  try_map f l = Ok ys -> y ∈ ys -> exists x, x ∈ l /\ f x = Ok y.
Proof.
  revert ys; induction l as [| x l IH]; intros ys; simpl; [intros [= <-]; set_solver |].
  destruct (f x) as [y' |] eqn:Ef; [| done]. cbn [mbind result_bind].
  destruct (try_map f l) as [ys' |]; [| done]. intros [= <-] [-> | Hy]%elem_of_cons.
  - exists x. split; [apply list_elem_of_here | done].
  - destruct (IH _ eq_refl Hy) as (z & Hz & E). exists z. split; [by apply list_elem_of_further | done].
Qed.

Lemma parsed_wf cidrs nets n : parsed cidrs = Ok nets -> n ∈ nets -> wf n.
Proof.
  intros H Hn. destruct (try_map_ok _ _ _ _ H Hn) as (c & _ & Hc). unfold strict_network in Hc.
  destruct (ip_network true c) eqn:E; simplify_eq. by apply (ip_network_wf true c).
Qed.

Definition wfb (n : network) : bool :=
  (0 <=? prefixlen n) && (prefixlen n <=? width (nver n)) && (0 <=? base n) && (base n <? 2 ^ width (nver n))
  && (base n mod 2 ^ host_bits n =? 0).

Lemma wfb_list l n : forallb wfb l = true -> n ∈ l -> wf n.
Proof.
  rewrite forallb_forall. intros H Hn%list_elem_of_In%H. unfold wfb in Hn. unfold wf. reflect_bools. naive_solver.
Qed.

Lemma blocked_wf n : n ∈ BLOCKED_NETWORKS -> wf n.
Proof. by apply wfb_list. Qed.

Lemma rfc1918_wf n : n ∈ RFC1918_NETWORKS -> wf n.
Proof. by apply wfb_list. Qed.

Lemma ula_wf : wf ULA_V6.
Proof. apply (wfb_list [ULA_V6]); [done | apply list_elem_of_here]. Qed.

(** A network that does not overlap another shares no address with it. *)
Lemma disjoint_networks l n a : wf l -> wf n -> overlaps_any l n = false -> contains n a = true -> contains l a = false.
Proof.
  intros Hl Hn Ho Ha. apply not_true_iff_false. intros Hla. apply not_true_iff_false in Ho. apply Ho.
  pose proof Ha as [E1 _]%contains_iff; [| done]. pose proof Hla as [E2 _]%contains_iff; [| done].
  unfold overlaps_any. rewrite bool_decide_eq_true_2 by congruence. apply overlaps_iff; [done | done | congruence |].
  exists (aval a). rewrite E1, E2. done.
Qed.

Lemma contained_network outer inner a : wf outer -> wf inner ->
  contains_network outer inner = true -> contains inner a = true -> contains outer a = true.
Proof.
  unfold contains_network. rewrite andb_true_iff, bool_decide_eq_true. intros Ho Hi [Ev Hs] Ha.
  pose proof Ha as [E _]%contains_iff; [| done]. unfold contains in *. rewrite <- E in *. rewrite <- Ev.
  by apply (proj1 (subnet_of_iff inner outer Hi Ho (eq_sym Ev)) Hs).
Qed.

(** A prefix the scope accepts is at least as narrow as the width limit, and
    every single address of it is allowed when judged on its own, except that a
    directed broadcast of a scope network stays refused as special use. *)
Theorem network_in_scope_covers s cidr d :
  network_in_scope s cidr = Ok d -> allowed d = true ->
  exists n, ip_network false (strip cidr) = Some n /\ MIN_SCOPE_PREFIX (nver n) <= prefixlen n /\
    forall a, contains n a = true ->
      exists da, evaluate_address s a = Ok da /\
        (allowed da = true \/
         reason da = REASON_SPECIAL_USE /\
         exists nets m, parsed (networks s) = Ok nets /\ m ∈ nets /\ is_directed_broadcast m a = true).
Proof.
  unfold network_in_scope. destruct (ip_network false (strip cidr)) as [n |] eqn:En; [| by intros [= <-]].
  pose proof (ip_network_wf _ _ _ En) as Hn. destruct (Z.ltb_spec (prefixlen n) (MIN_SCOPE_PREFIX (nver n))); [by intros [= <-] |].
  destruct (existsb _ BLOCKED_NETWORKS) eqn:Eb; [by intros [= <-] |].
  destruct (parsed (excluded_networks s)) as [exc |] eqn:Eexc; [| done]. cbn [mbind result_bind].
  destruct (existsb _ exc) eqn:Ee; [by intros [= <-] |].
  destruct (parsed (networks s)) as [nets |] eqn:Enets; [| done]. cbn [mbind result_bind].
  destruct (existsb (fun a => contains_network a n) nets) eqn:Ec; [| by destruct nets; intros [= <-]].
  intros _ _. exists n. split_and!; [done | done |]. intros a Ha.
  rewrite existsb_false in Eb, Ee. apply existsb_true in Ec as (m & Hm & Ec).
  destruct (evaluate_address_exact s nets exc a Enets Eexc) as (da & Eda & Hda & Href). exists da. split; [done |].
  assert (forall b, b ∈ BLOCKED_NETWORKS -> contains b a = false) as Hb.
  { intros b Hb. apply (disjoint_networks b n); [by apply blocked_wf | done | by apply Eb | done]. }
  assert (forall e, e ∈ exc -> contains e a = false) as He.
  { intros e He. apply (disjoint_networks e n); [by apply (parsed_wf _ _ _ Eexc) | done | by apply Ee | done]. }
  assert (contains m a = true) as Hma by (apply (contained_network m n); [by apply (parsed_wf _ _ _ Enets) | done .. ]).
  destruct (existsb (fun m => is_directed_broadcast m a) nets) eqn:Ed.
  - apply existsb_true in Ed as (x & Hx & Ex). right. destruct (allowed da) eqn:Eal.
    + destruct (proj1 Hda eq_refl) as (_ & H1 & _). by rewrite H1 in Ex.
    + split; [by apply Href; [| | | exists m] |]. by exists nets, x.
  - rewrite existsb_false in Ed. left. apply Hda. split_and!; [done | done | done | by exists m].
Qed.

(** *** Derived scopes *)

Lemma sort_networks_elem nets n : n ∈ sort_networks nets <-> n ∈ nets.
Proof. unfold sort_networks. by rewrite py_sorted_perm, elem_of_remove_dups. Qed.

Lemma strict_str n : wf n -> strict_network (str_net n) = Ok n.
Proof. intros Hn. unfold strict_network. by rewrite ip_network_str. Qed.

Lemma parsed_sorted nets : (forall n, n ∈ nets -> wf n) -> parsed (sorted_networks nets) = Ok (sort_networks nets).
Proof.
  intros H. unfold parsed, sorted_networks.
  assert (forall n, n ∈ sort_networks nets -> wf n) as Hw by (intros n Hn; by apply H, sort_networks_elem).
  induction (sort_networks nets) as [| n l IH]; [done |]. simpl.
  rewrite strict_str by (apply Hw, list_elem_of_here). cbn [mbind result_bind].
  rewrite IH; [done |]. intros m Hm. by apply Hw, list_elem_of_further.
Qed.

Lemma parse_cidrs_wf v n : n ∈ parse_cidrs v -> wf n.
Proof.
  destruct v; simpl; try set_solver. intros (x & _ & Hx)%list_elem_of_omap.
  destruct x; try done. by apply (ip_network_wf false (strip s)).
Qed.

Variable repr_of : json -> string.

(** A network of an interface in the agent's reported facts, other than a
    loopback or a point-to-point link. *)
Definition reported (facts : list json) (n : network) : Prop :=
  exists entry flags, JObj entry ∈ facts /\ iterate (get "flags" entry) = Ok flags /\ excluded_interface repr_of flags = false /\
    n ∈ parse_cidrs (get "addrs" entry).

Lemma direct_of_private facts nets n : direct_of repr_of facts = Ok nets -> n ∈ nets ->
  wf n /\ is_private_network n = true /\ reported facts n.
Proof.
  revert nets; induction facts as [| f facts IH]; intros nets; simpl; [intros [= <-]; set_solver |].
  assert (forall rest, direct_of repr_of facts = Ok rest -> n ∈ rest -> wf n /\ is_private_network n = true /\ reported (f :: facts) n) as Hrest.
  { intros rest Er Hn. destruct (IH rest Er Hn) as (H1 & H2 & e & fl & He & Hfl). split_and!; [done | done |]. exists e, fl. split; [by right | done]. }
  destruct f; try apply Hrest. destruct (iterate _) as [flags |] eqn:Ef; [| done]. cbn [mbind result_bind].
  destruct (direct_of repr_of facts) as [rest |]; [| done]. intros [= <-]. destruct (excluded_interface _ _) eqn:Ee; [by apply Hrest |].
  intros [Hn | Hn]%elem_of_app; [| by apply (Hrest rest)]. apply list_elem_of_In, filter_In in Hn as [Hn Hp]. apply list_elem_of_In in Hn.
  split_and!; [by apply (parse_cidrs_wf (get "addrs" fields)) | done |]. exists fields, flags. split; [by left | done].
Qed.

(** Private space of both families. *)
Definition private_address (a : address) : Prop :=
  (exists r, r ∈ RFC1918_NETWORKS /\ contains r a = true) \/ contains ULA_V6 a = true.

Lemma private_network_addresses n a : wf n -> is_private_network n = true -> contains n a = true -> private_address a.
Proof.
  intros Hn Hp Ha. unfold is_private_network in Hp. destruct (nver n) eqn:Ev.
  - apply existsb_true in Hp as (r & Hr & Hs). left. exists r. split; [done |].
    apply (contained_network r n); [by apply rfc1918_wf | done | | done]. unfold contains_network. rewrite Hs, andb_true_r.
    apply bool_decide_eq_true. unfold RFC1918_NETWORKS in Hr. rewrite Ev. set_solver.
  - right. apply (contained_network ULA_V6 n); [apply ula_wf | done | | done]. unfold contains_network.
    by rewrite Hp, Ev.
Qed.

(** The grant derives the directly connected networks. *)
Definition direct_mode (cfg : list (string * json)) : bool :=
  match List.find (fun f => String.eqb f.1 "scope_mode") cfg with
  | Some (_, JStr m) => String.eqb m "direct_private"
  | Some _ => false
  | None => true
  end.

Definition additional_of (cfg : list (string * json)) : list network :=
  List.filter (fun n => 0 <? prefixlen n) (parse_cidrs (get "additional_cidrs" cfg)).

(** An address inside what the grant gives an agent with these facts: outside the
    special-use space and every excluded network, and either in a private network
    of one of the agent's own interfaces, when the grant derives those, or in a
    network (not the default route) that the administrator added. *)
Definition granted (facts : list json) (cfg : list (string * json)) (x : address) : Prop :=
  (forall b, b ∈ BLOCKED_NETWORKS -> contains b x = false) /\
  (forall e, e ∈ parse_cidrs (get "excluded_cidrs" cfg) -> contains e x = false) /\
  (direct_mode cfg = true /\ private_address x /\ (exists n, reported facts n /\ is_private_network n = true /\ contains n x = true) \/
   exists n, n ∈ parse_cidrs (get "additional_cidrs" cfg) /\ 0 < prefixlen n /\ contains n x = true).

(** [derive_scope] in terms of its four dimensions. *)
Lemma derive_scope_eq facts config :
  derive_scope repr_of facts config =
  (let cfg := default [] config in
   direct ← (if direct_mode cfg then direct_of repr_of (default [] facts) else Ok []);
   hosts ← iterate (get "additional_hostnames" cfg);
   let nets := sorted_networks (direct ++ additional_of cfg) in
   let dir := sorted_networks direct in
   let exc := sorted_networks (parse_cidrs (get "excluded_cidrs" cfg)) in
   let names := py_sorted String.leb (dedup (map (canonical_hostname repr_of) hosts)) in
   Ok (Scope nets dir exc names (scope_version nets dir exc names))).
Proof.
  unfold derive_scope, direct_mode. destruct (List.find _ _) as [[k v] |]; [| done]. simpl. by destruct v.
Qed.

Lemma derived_direct_private cfg facts direct n :
  (if direct_mode cfg then direct_of repr_of facts else Ok []) = Ok direct -> n ∈ direct ->
  direct_mode cfg = true /\ wf n /\ is_private_network n = true /\ reported facts n.
Proof.
  destruct (direct_mode cfg); [| intros [= <-]; set_solver]. intros H Hn. split; [done |].
  by apply (direct_of_private facts direct n).
Qed.

Lemma additional_elem cfg n : n ∈ additional_of cfg <-> n ∈ parse_cidrs (get "additional_cidrs" cfg) /\ 0 < prefixlen n.
Proof. unfold additional_of. by rewrite list_elem_of_In, filter_In, <- list_elem_of_In, Z.ltb_lt. Qed.

(** What a derived scope allows. *)
Lemma derived_scope_bounded facts config s destination resolved :
  derive_scope repr_of facts config = Ok s ->
  exists d, evaluate s destination resolved = Ok d /\
    (allowed d = true ->
     exists a l, judged destination resolved = Some (a :: l) /\
       forall x, x ∈ a :: l -> granted (default [] facts) (default [] config) x).
Proof.
  rewrite derive_scope_eq. simpl. set (cfg := default [] config).
  destruct (if direct_mode cfg then _ else _) as [direct |] eqn:Ed; [| done]. cbn [mbind result_bind].
  destruct (iterate _) as [hosts |]; [| done]. cbn [mbind result_bind]. intros [= <-].
  set (s := Scope _ _ _ _ _). pose proof (fun n => derived_direct_private cfg _ _ n Ed) as Hdir.
  assert (parsed (networks s) = Ok (sort_networks (direct ++ additional_of cfg))) as Hn.
  { apply parsed_sorted. intros n [Hn | Hn]%elem_of_app; [by apply (Hdir n) |].
    apply additional_elem in Hn as [Hn _]. by apply parse_cidrs_wf in Hn. }
  assert (parsed (excluded_networks s) = Ok (sort_networks (parse_cidrs (get "excluded_cidrs" cfg)))) as He
    by (apply parsed_sorted; intros n; apply parse_cidrs_wf).
  destruct (decide (strip destination = EmptyString)) as [E | Hne].
  { eexists. unfold evaluate. rewrite E. simpl. split; [done |]. done. }
  destruct (evaluate_judged s _ _ destination resolved Hn He Hne) as (d & Ev & Hd). exists d. split; [done |].
  intros (a & l & Ej & Hall)%Hd. exists a, l. split; [done |]. rewrite Forall_forall in Hall.
  intros x (H1 & _ & H3 & n & Hin & Hx)%Hall. split_and!; [done | |].
  - intros e Hexc. by apply H3, sort_networks_elem.
  - apply sort_networks_elem, elem_of_app in Hin as [Hin | Hin].
    + left. destruct (Hdir n Hin) as (Hm & Hwf & Hp & Hrep). split_and!; [done | by apply (private_network_addresses n) | by exists n].
    + right. apply additional_elem in Hin as [Hin Hp]. by exists n.
Qed.

(** Whatever interfaces an agent reports, a destination its derived scope
    allows is judged by addresses that the grant gives the agent: outside the
    special-use space and every excluded network, and in a private network the
    agent reported of its own interfaces or in one, other than the default
    route, that the administrator added. Evaluation against a derived scope
    never raises. *)
Theorem derived_scope_confines facts config s destination resolved :
  derive_scope repr_of facts config = Ok s ->
  exists d, evaluate s destination resolved = Ok d /\
    (allowed d = true ->
     exists a l, judged destination resolved = Some (a :: l) /\
       forall x, x ∈ a :: l -> granted (default [] facts) (default [] config) x).
Proof. apply derived_scope_bounded. Qed.

(** *** Order independence *)

Lemma net_le_total x y : net_le x y = true \/ net_le y x = true.
Proof.
  unfold net_le. destruct (nver x), (nver y); simpl; auto;
    destruct (Z.eqb_spec (base x) (base y)), (Z.eqb_spec (base y) (base x)); rewrite ?Z.leb_le, ?Z.ltb_lt; lia.
Qed.

Lemma net_le_trans x y z : net_le x y = true -> net_le y z = true -> net_le x z = true.
Proof.
  unfold net_le. destruct (nver x), (nver y), (nver z); simpl; try done;
    destruct (Z.eqb_spec (base x) (base y)), (Z.eqb_spec (base y) (base z)), (Z.eqb_spec (base x) (base z));
    rewrite ?Z.leb_le, ?Z.ltb_lt; lia.
Qed.

Lemma net_le_antisym x y : net_le x y = true -> net_le y x = true -> x = y.
Proof.
  unfold net_le. destruct x as [v b p], y as [v' b' p']. destruct v, v'; simpl; try done;
    destruct (Z.eqb_spec b b'), (Z.eqb_spec b' b); rewrite ?Z.leb_le, ?Z.ltb_lt; intros; f_equal; lia.
Qed.

Lemma sort_networks_ext l l' : (forall n, n ∈ l <-> n ∈ l') -> sort_networks l = sort_networks l'.
Proof.
  apply sorted_set_ext; [apply net_le_total | apply net_le_trans | apply net_le_antisym].
Qed.

Lemma sorted_networks_ext l l' : (forall n, n ∈ l <-> n ∈ l') -> sorted_networks l = sorted_networks l'.
Proof. intros H. unfold sorted_networks. by rewrite (sort_networks_ext l l'). Qed.

Lemma sorted_names_ext l l' : l ≡ₚ l' -> py_sorted String.leb (dedup l) = py_sorted String.leb (dedup l').
Proof.
  intros H. eapply (StronglySorted_unique_strong (in_order String.leb)).
  - intros x y _ _. apply String.leb_antisym.
  - apply py_sorted_ordered; [apply String.leb_total | apply leb_trans].
  - apply py_sorted_ordered; [apply String.leb_total | apply leb_trans].
  - rewrite !py_sorted_perm. apply NoDup_Permutation; [apply dedup_nodup .. |].
    intros n. by rewrite !dedup_elem, H.
Qed.

(** Equal outcomes, up to the order of the list. *)
Definition same_outcome {A} (x y : result py_error (list A)) : Prop :=
  match x, y with Ok l, Ok l' => l ≡ₚ l' | Err e, Err e' => e = e' | _, _ => False end.

#[local] Instance same_outcome_trans {A} : Transitive (@same_outcome A).
Proof. intros [x | e] [y | e'] [z | e'']; simpl; try done; [by intros -> -> | by intros -> ->]. Qed.

Lemma iterate_error v e : iterate v = Err e -> e = TypeError.
Proof. unfold iterate. destruct (falsy v); [done |]. destruct v; try done; by intros [= <-]. Qed.

Lemma direct_of_error facts e : direct_of repr_of facts = Err e -> e = TypeError.
Proof.
  induction facts as [| f facts IH]; simpl; [done |]. destruct f; try apply IH.
  destruct (iterate _) as [flags | e'] eqn:E; cbn [mbind result_bind].
  - destruct (direct_of repr_of facts); [done |]. intros [= ->]. by apply IH.
  - intros [= <-]. by apply (iterate_error _ _ E).
Qed.

Definition cons_of (f : json) (rest : result py_error (list network)) : result py_error (list network) :=
  match f with
  | JObj entry =>
      flags ← iterate (get "flags" entry); rest ← rest;
      Ok (if excluded_interface repr_of flags then rest
          else List.filter is_private_network (parse_cidrs (get "addrs" entry)) ++ rest)
  | _ => rest
  end.

Lemma direct_of_cons f facts : direct_of repr_of (f :: facts) = cons_of f (direct_of repr_of facts).
Proof. by destruct f. Qed.

Lemma cons_of_same f x y : same_outcome x y -> same_outcome (cons_of f x) (cons_of f y).
Proof.
  intros H. destruct f; try done. simpl. destruct (iterate _); [| done]. cbn [mbind result_bind].
  destruct x, y; simpl in *; try done. destruct (excluded_interface _ _); [done |]. by rewrite H.
Qed.

Lemma direct_of_perm facts facts' : facts ≡ₚ facts' ->
  same_outcome (direct_of repr_of facts) (direct_of repr_of facts').
Proof.
  induction 1 as [| f l l' _ IH | f g l | l l' l'' _ IH1 _ IH2]; [by simpl | | | by transitivity (direct_of repr_of l')].
  - rewrite !direct_of_cons. by apply cons_of_same.
  - rewrite !direct_of_cons. pose proof (direct_of_error l) as He. destruct f, g; simpl; try (by destruct (direct_of repr_of l); simpl);
      try (by destruct (iterate _), (direct_of repr_of l); simpl).
    + destruct (iterate (get "flags" fields)) as [fl | e1] eqn:E1; [| apply iterate_error in E1; subst e1];
        (destruct (iterate (get "flags" fields0)) as [fl' | e2] eqn:E2; [| apply iterate_error in E2; subst e2]);
        (destruct (direct_of repr_of l) as [rest | e3]; [| specialize (He _ eq_refl); subst e3]);
        cbn [mbind result_bind same_outcome]; try done.
      repeat (destruct (excluded_interface _ _)); try done. rewrite !app_assoc. f_equiv. apply Permutation_app_comm.
Qed.

(** The same JSON value, or the same list in another order. *)
Definition reordered (v v' : json) : Prop :=
  v = v' \/ exists l l', v = JList l /\ v' = JList l' /\ l ≡ₚ l'.

Lemma parse_cidrs_reordered v v' n : reordered v v' -> n ∈ parse_cidrs v <-> n ∈ parse_cidrs v'.
Proof. intros [-> | (l & l' & -> & -> & H)]; [done |]. simpl. by rewrite H. Qed.

Lemma iterate_reordered v v' : reordered v v' -> same_outcome (iterate v) (iterate v').
Proof.
  intros [-> | (l & l' & -> & -> & H)]; [by destruct (iterate v'); simpl |]. unfold iterate.
  by destruct l as [| x l], l' as [| x' l'].
Qed.

(** The derived scope, its version included, does not depend on the order in
    which the agent's interfaces or the entries of the grant's lists are
    written. *)
Theorem derive_scope_order facts facts' cfg cfg' :
  facts ≡ₚ facts' -> direct_mode cfg = direct_mode cfg' ->
  reordered (get "additional_cidrs" cfg) (get "additional_cidrs" cfg') ->
  reordered (get "excluded_cidrs" cfg) (get "excluded_cidrs" cfg') ->
  reordered (get "additional_hostnames" cfg) (get "additional_hostnames" cfg') ->
  derive_scope repr_of (Some facts) (Some cfg) = derive_scope repr_of (Some facts') (Some cfg').
Proof.
  intros Hf Hm Ha He Hh. rewrite !derive_scope_eq. simpl. rewrite <- Hm.
  assert (same_outcome (if direct_mode cfg then direct_of repr_of facts else Ok [])
            (if direct_mode cfg then direct_of repr_of facts' else Ok [])) as Hd
    by (destruct (direct_mode cfg); [by apply direct_of_perm | by simpl]).
  destruct (if direct_mode cfg then direct_of repr_of facts else Ok []) as [dir |],
    (if direct_mode cfg then direct_of repr_of facts' else Ok []) as [dir' |]; simpl in Hd; try done; [| by subst].
  apply iterate_reordered in Hh. cbn [mbind result_bind].
  destruct (iterate _) as [hosts |], (iterate _) as [hosts' |]; simpl in Hh; try done; [| by subst]. cbn [mbind result_bind].
  rewrite (sorted_names_ext (map (canonical_hostname repr_of) hosts) (map (canonical_hostname repr_of) hosts'))
    by (by apply Permutation_map).
  rewrite (sorted_networks_ext dir dir') by (intros n; by rewrite Hd).
  rewrite (sorted_networks_ext (parse_cidrs (get "excluded_cidrs" cfg)) (parse_cidrs (get "excluded_cidrs" cfg')))
    by (intros n; by apply parse_cidrs_reordered).
  rewrite (sorted_networks_ext (dir ++ additional_of cfg) (dir' ++ additional_of cfg')); [done |].
  intros n. rewrite !elem_of_app, Hd, !additional_elem, (parse_cidrs_reordered _ _ n Ha). done.
Qed.

Lemma network_of_value_wf v n : network_of_value repr_of v = Some n -> wf n.
Proof.
  unfold network_of_value.
  assert (forall z, (if (0 <=? z) && (z <? 2 ^ 32) then Some (Net V4 z 32)
                     else if (0 <=? z) && (z <? 2 ^ 128) then Some (Net V6 z 128) else None) = Some n -> wf n) as Hz.
  { intros z. unfold wf, host_bits. destruct ((0 <=? z) && (z <? 2 ^ 32)) eqn:E1;
      [| destruct ((0 <=? z) && (z <? 2 ^ 128)) eqn:E2; [| done]];
      intros [= <-]; reflect_bools; simpl; rewrite Z.mod_1_r; lia. }
  destruct v; try apply Hz; apply ip_network_wf.
Qed.

(** A scan target the gate accepts is the local Docker engine, or a prefix all
    of whose addresses are RFC 1918 addresses and which, when allowed networks
    are configured, lies inside one of them; in air-gap mode only the former. *)
Theorem scan_target_confined (loads : string -> option json) cidr airgap_env airgap_db raw :
  validate_scan_target repr_of loads cidr airgap_env airgap_db raw = Ok () -> cidr <> "docker" ->
  airgap_env = false /\ airgap_db = false /\
  exists n, ip_network false cidr = Some n /\
    forall a, contains n a = true ->
      (exists r, r ∈ RFC1918_NETWORKS /\ contains r a = true) /\
      (parse_allowed_networks loads (Some raw) <> [] ->
       exists v p, v ∈ parse_allowed_networks loads (Some raw) /\ network_of_value repr_of v = Some p /\ contains p a = true).
Proof.
  unfold validate_scan_target. intros H Hd. rewrite (proj2 (String.eqb_neq _ _)) in H by done.
  destruct airgap_env, airgap_db; try done. split_and!; [done | done |]. cbn [orb] in H.
  destruct (negb _ && negb _) eqn:Eal; [done |]. destruct (negb (is_rfc1918 cidr)) eqn:Er; [done |].
  apply negb_false_iff in Er. unfold is_rfc1918 in Er. destruct (ip_network false cidr) as [n |] eqn:En; [| done].
  pose proof (ip_network_wf _ _ _ En) as Hn. apply andb_true_iff in Er as [_ Er]. apply existsb_true in Er as (r & Hr & Hb).
  exists n. split; [done |]. intros a Ha. pose proof Ha as [Ev Hin]%contains_iff; [| done]. split.
  - exists r. split; [done |]. pose proof (rfc1918_wf r Hr) as Hw. apply andb_true_iff in Hb as [H1 H2].
    apply has_iff in H1, H2; [| done | done]. apply contains_iff; [done |]. destruct H1, H2. split; [congruence | lia].
  - intros Hne. apply andb_false_iff in Eal as [Eal | Eal]; [by destruct (parse_allowed_networks _ _) |].
    apply negb_false_iff in Eal. unfold is_cidr_allowed in Eal. rewrite En in Eal. apply existsb_true in Eal as (v & Hv & Ep).
    destruct (network_of_value repr_of v) as [p |] eqn:Evp; [| done]. exists v, p. split_and!; [done | done |].
    apply (contained_network p n); [by apply (network_of_value_wf v) | done | | done].
    unfold contains_network. apply andb_true_iff in Ep as [E1 E2]. rewrite E2, andb_true_r.
    apply bool_decide_eq_true in E1. by apply bool_decide_eq_true.
Qed.

End Decisions.

(** An agent on 192.168.8.0/24 whose upper half is excluded, with one network
    added and a loopback interface that does not count. *)
Definition lab_facts : list json :=
  [JObj [("flags", JList [JStr "up"]); ("addrs", JList [JStr "192.168.8.2/24"; JStr "8.8.8.8/24"; JStr "nonsense"])];
   JObj [("flags", JList [JStr "LOOPBACK"]); ("addrs", JList [JStr "10.1.1.1/8"])]].

Definition lab_config : list (string * json) :=
  [("excluded_cidrs", JList [JStr "192.168.8.128/25"]); ("additional_cidrs", JList [JStr "10.9.0.0/24"; JStr "0.0.0.0/0"])].

Definition no_repr (v : json) : string := "".

Definition lab_scope : scope :=
  match derive_scope no_repr (Some lab_facts) (Some lab_config) with
  | Ok s => s
  | Err _ => Scope [] [] [] [] ""
  end.

Example lab_scope_networks :
  (networks lab_scope, direct_networks lab_scope, excluded_networks lab_scope) =
  (["10.9.0.0/24"; "192.168.8.0/24"], ["192.168.8.0/24"], ["192.168.8.128/25"]).
Proof. vm_compute. reflexivity. Qed.

Example lab_decisions :
  map (fun h => match evaluate lab_scope h None with Ok d => reason d | Err _ => "" end)
    ["192.168.8.9"; "192.168.8.200"; "192.168.8.255"; "10.1.1.1"; "127.0.0.1"; "host.lan"] =
  [REASON_IN_SCOPE; REASON_EXCLUDED; REASON_SPECIAL_USE; REASON_OUT_OF_SCOPE; REASON_SPECIAL_USE; REASON_UNRESOLVED_HOSTNAME].
Proof. vm_compute. reflexivity. Qed.

Lemma evaluate_exact_witness : exists d,
  evaluate lab_scope "host.lan" (Some ["192.168.8.9"; "10.9.0.1"]) = Ok d.
Proof.
  destruct (evaluate_exact lab_scope [v4 10 9 0 0 24; v4 192 168 8 0 24] [v4 192 168 8 128 25] "host.lan"
    (Some ["192.168.8.9"; "10.9.0.1"])) as (d & E & _);
    [vm_compute; reflexivity | vm_compute; reflexivity | vm_compute; discriminate | exists d; exact E].
Defined.

Lemma network_in_scope_covers_witness : exists n, ip_network false "192.168.8.0/26" = Some n.
Proof.
  destruct (network_in_scope_covers lab_scope "192.168.8.0/26" (Decision true REASON_IN_SCOPE (Some "192.168.8.0/26")))
    as (n & E & _); [vm_compute; reflexivity | reflexivity | exists n; exact E].
Defined.

Lemma derived_scope_confines_witness : exists d, evaluate lab_scope "192.168.8.9" None = Ok d.
Proof.
  destruct (derived_scope_confines no_repr (Some lab_facts) (Some lab_config) lab_scope "192.168.8.9" None)
    as (d & E & _); [vm_compute; reflexivity | exists d; exact E].
Defined.

Lemma derive_scope_order_witness :
  derive_scope no_repr (Some lab_facts) (Some lab_config) = derive_scope no_repr (Some (rev lab_facts)) (Some (rev lab_config)).
Proof.
  apply (derive_scope_order no_repr lab_facts (rev lab_facts) lab_config (rev lab_config)).
  - apply Permutation_rev.
  - reflexivity.
  - left. reflexivity.
  - left. reflexivity.
  - left. reflexivity.
Defined.

Lemma scan_target_confined_witness : exists n, ip_network false "10.9.0.0/24" = Some n.
Proof.
  destruct (scan_target_confined no_repr (fun _ => Some (JList [JStr "10.0.0.0/8"])) "10.9.0.0/24" false false "[...]")
    as (_ & _ & n & E & _); [vm_compute; reflexivity | discriminate | exists n; exact E].
Defined.

(** A label may end in a newline: the pattern's [$] matches before it. *)
Example label_newline_accepted :
  let name := "a" +:+ String "010" ".b" in
  normalize_scope_hostname "additional_hostnames" (JStr name) = Ok name.
Proof. vm_compute. reflexivity. Qed.

End AgentScope.
