(* ===== verification/AgentCapabilities.v ===== *)
(** The capability registry ([services/agent_capabilities.py]): the defaults of
    each capability, the normalizers of its configuration, and
    [normalize_grant], which every stored grant went through. *)
From S2P Require Import Prelude Sha256 Json Regex Ip AgentScope.
Import Json Ip.
Open Scope Z_scope.

Module Capabilities.
Import AgentScope.

Abbreviation config := (list (string * json)).

(** [a | b]. *)
Definition dict_or (a b : config) : config := foldl (fun acc f => dict_set f.1 f.2 acc) a b.

Definition value_of (c : config) (k : string) : json := default JNull (dict_get k c).

Definition SCOPE_MODES : list string := ["direct_private"].

(** [set(config) - set(defaults)], sorted. *)
Definition unknown_keys (defaults c : config) : list string :=
  py_sorted String.leb (List.filter (fun k => negb (bool_decide (k ∈ defaults.*1))) (remove_dups c.*1)).

Definition reject_unknown (what : string) (defaults c : config) : result py_error () :=
  match unknown_keys defaults c with
  | [] => Ok ()
  | l => Err (ValueError ("unknown " +:+ what +:+ " settings: " +:+ String.concat ", " l))
  end.

(** An [int] that is not a [bool], within bounds. *)
Definition int_between (lo hi : Z) (v : json) : bool :=
  match v with JInt z => (lo <=? z) && (z <=? hi) | _ => false end.

Definition is_bool (v : json) : bool := match v with JBool _ => true | _ => false end.

(** *** Host telemetry *)

Definition HOST_TELEMETRY_DEFAULT_CONFIG : config :=
  [("interval_s", JInt 30); ("include_filesystems", JBool true); ("include_disks", JBool true); ("include_network", JBool true);
   ("include_temperatures", JBool true); ("include_virtual", JBool false); ("include_docker", JBool false)].

Definition normalize_host_telemetry_config (c : config) : result py_error config :=
  _ ← reject_unknown "host telemetry" HOST_TELEMETRY_DEFAULT_CONFIG c;
  let normalized := dict_or HOST_TELEMETRY_DEFAULT_CONFIG c in
  guard! int_between 10 900 (value_of normalized "interval_s")
    else ValueError "host telemetry interval must be between 10 and 900 seconds" ;;
  guard! forallb (fun f => String.eqb f.1 "interval_s" || is_bool f.2) normalized
    else ValueError "host telemetry include settings must be booleans" ;;
  Ok normalized.

Section Scoped.
Context {T : IpText}.

Definition cidrs (field : string) (c : config) : result py_error config :=
  l ← normalize_scope_cidrs field (value_of c field);
  Ok (dict_set field (JList (map JStr l)) c).

Definition scope_mode_ok (v : json) : bool := match v with JStr s => bool_decide (s ∈ SCOPE_MODES) | _ => false end.

(** *** Remote probe *)

Definition REMOTE_PROBE_DEFAULT_CONFIG : config :=
  [("max_concurrent", JInt 20); ("scope_mode", JStr "direct_private"); ("excluded_cidrs", JList []);
   ("additional_cidrs", JList []); ("additional_hostnames", JList [])].

Definition normalize_remote_probe_config (c : config) : result py_error config :=
  _ ← reject_unknown "remote probe" REMOTE_PROBE_DEFAULT_CONFIG c;
  let normalized := dict_or REMOTE_PROBE_DEFAULT_CONFIG c in
  guard! int_between 1 100 (value_of normalized "max_concurrent")
    else ValueError "remote probe max_concurrent must be between 1 and 100" ;;
  guard! scope_mode_ok (value_of normalized "scope_mode")
    else ValueError ("remote probe scope_mode must be one of: " +:+ String.concat ", " SCOPE_MODES) ;;
  normalized ← cidrs "excluded_cidrs" normalized;
  normalized ← cidrs "additional_cidrs" normalized;
  match value_of normalized "additional_hostnames" with
  | JList names =>
      hosts ← try_map (normalize_scope_hostname "additional_hostnames") names;
      Ok (dict_set "additional_hostnames" (JList (map JStr (py_sorted String.leb (remove_dups hosts)))) normalized)
  | _ => Err (ValueError "additional_hostnames must be a list of hostnames")
  end.

(** *** Local discovery *)

Definition LOCAL_DISCOVERY_DEFAULT_CONFIG : config :=
  [("scope_mode", JStr "direct_private"); ("excluded_cidrs", JList []); ("additional_cidrs", JList []);
   ("max_addresses_per_job", JInt 1024); ("max_concurrent_hosts", JInt 64);
   ("tcp_ports", JList (map JInt [22; 53; 80; 443; 445; 3389; 8000; 8080; 8443]));
   ("host_timeout_ms", JInt 1500); ("job_timeout_seconds", JInt 300); ("auto_discovery_paused", JBool false)].

Definition LOCAL_DISCOVERY_BOUNDS : list (string * (Z * Z)) :=
  [("max_addresses_per_job", (1, 4096)); ("max_concurrent_hosts", (1, 256)); ("host_timeout_ms", (100, 10000));
   ("job_timeout_seconds", (30, 1800))].

Definition MAX_TCP_PORTS : Z := 32.

(** [field.replace("_", " ")]. *)
Definition spaced (field : string) : string := str_map (fun c => if Ascii.eqb c "_" then " "%char else c) field.

Fixpoint check_bounds (c : config) (bounds : list (string * (Z * Z))) : result py_error () :=
  match bounds with
  | [] => Ok ()
  | (field, (lo, hi)) :: bounds =>
      guard! int_between lo hi (value_of c field)
        else ValueError ("local discovery " +:+ spaced field +:+ " must be between " +:+ pretty lo +:+ " and " +:+ pretty hi) ;;
      check_bounds c bounds
  end.

Fixpoint ports_of (l : list json) : result py_error (list Z) :=
  match l with
  | [] => Ok []
  | JInt p :: l =>
      guard! (1 <=? p) && (p <=? 65535) else ValueError "local discovery tcp ports must be integers between 1 and 65535" ;;
      ps ← ports_of l; Ok (p :: ps)
  | _ => Err (ValueError "local discovery tcp ports must be integers between 1 and 65535")
  end.

Definition normalize_local_discovery_config (c : config) : result py_error config :=
  _ ← reject_unknown "local discovery" LOCAL_DISCOVERY_DEFAULT_CONFIG c;
  let normalized := dict_or LOCAL_DISCOVERY_DEFAULT_CONFIG c in
  _ ← check_bounds normalized LOCAL_DISCOVERY_BOUNDS;
  guard! is_bool (value_of normalized "auto_discovery_paused")
    else ValueError "local discovery auto_discovery_paused must be a boolean" ;;
  match value_of normalized "tcp_ports" with
  | JList ports =>
      guard! Z.of_nat (length ports) <=? MAX_TCP_PORTS
        else ValueError ("local discovery tcp ports must name at most " +:+ pretty MAX_TCP_PORTS +:+ " ports") ;;
      ps ← ports_of ports;
      let normalized := dict_set "tcp_ports" (JList (map JInt (py_sorted Z.leb (remove_dups ps)))) normalized in
      guard! scope_mode_ok (value_of normalized "scope_mode")
        else ValueError ("local discovery scope_mode must be one of: " +:+ String.concat ", " SCOPE_MODES) ;;
      normalized ← cidrs "excluded_cidrs" normalized;
      cidrs "additional_cidrs" normalized
  | _ => Err (ValueError "local discovery tcp ports must be a list of port numbers")
  end.

(** *** The registry *)

Record definition := Capability {
  default_enabled : bool;
  default_config : config;
  normalize : config -> result py_error config
}.

Definition CAPABILITY_DEFINITIONS : list (string * definition) :=
  [("host_telemetry", Capability true HOST_TELEMETRY_DEFAULT_CONFIG normalize_host_telemetry_config);
   ("remote_probe", Capability true REMOTE_PROBE_DEFAULT_CONFIG normalize_remote_probe_config);
   ("local_discovery", Capability true LOCAL_DISCOVERY_DEFAULT_CONFIG normalize_local_discovery_config)].

Definition grant_parts (value : json) : result py_error (bool * config) :=
  match value with
  | JBool b => Ok (b, [])
  | JObj fs =>
      match value_of fs "enabled" with
      | JBool b =>
          let c := value_of fs "config" in
          if falsy c then Ok (b, []) else
          match c with
          | JObj c => Ok (b, c)
          | _ => Err (ValueError "capability grant config must be an object")
          end
      | _ => Err (ValueError "capability grant must be a boolean or {enabled, config} object")
      end
  | _ => Err (ValueError "capability grant must be a boolean or {enabled, config} object")
  end.

Definition normalize_grant (capability : string) (value : json) (current : option config) : result py_error (bool * config) :=
  match dict_get capability CAPABILITY_DEFINITIONS with
  | None => Err (ValueError ("unknown capability '" +:+ capability +:+ "' (known: "
                 +:+ String.concat ", " (py_sorted String.leb CAPABILITY_DEFINITIONS.*1) +:+ ")"))
  | Some d =>
      p ← grant_parts value;
      c ← normalize d (dict_or (dict_or (default_config d) (default [] current)) p.2);
      Ok (p.1, c)
  end.

Definition default_config_for (capability : string) : config :=
  match dict_get capability CAPABILITY_DEFINITIONS with Some d => default_config d | None => [] end.

(** *** The settings of a capability, one by one *)

Inductive kind := Bounded (lo hi : Z) | Flag | Mode | Cidrs (field : string) | Hosts | Ports.

Definition host_telemetry_schema : list (string * kind) :=
  [("interval_s", Bounded 10 900); ("include_filesystems", Flag); ("include_disks", Flag); ("include_network", Flag);
   ("include_temperatures", Flag); ("include_virtual", Flag); ("include_docker", Flag)].

Definition remote_probe_schema : list (string * kind) :=
  [("max_concurrent", Bounded 1 100); ("scope_mode", Mode); ("excluded_cidrs", Cidrs "excluded_cidrs");
   ("additional_cidrs", Cidrs "additional_cidrs"); ("additional_hostnames", Hosts)].

Definition local_discovery_schema : list (string * kind) :=
  [("scope_mode", Mode); ("excluded_cidrs", Cidrs "excluded_cidrs"); ("additional_cidrs", Cidrs "additional_cidrs");
   ("max_addresses_per_job", Bounded 1 4096); ("max_concurrent_hosts", Bounded 1 256); ("tcp_ports", Ports);
   ("host_timeout_ms", Bounded 100 10000); ("job_timeout_seconds", Bounded 30 1800); ("auto_discovery_paused", Flag)].

Definition schemas : list (string * list (string * kind)) :=
  [("host_telemetry", host_telemetry_schema); ("remote_probe", remote_probe_schema); ("local_discovery", local_discovery_schema)].

Definition to_option {E A} (r : result E A) : option A := match r with Ok a => Some a | Err _ => None end.

(** What a setting is stored as. *)
Definition setting (k : kind) (v : json) : option json :=
  match k with
  | Bounded lo hi => if int_between lo hi v then Some v else None
  | Flag => if is_bool v then Some v else None
  | Mode => if scope_mode_ok v then Some v else None
  | Cidrs field => JList ∘ map JStr <$> to_option (normalize_scope_cidrs field v)
  | Hosts =>
      match v with
      | JList l => (fun hs => JList (map JStr (py_sorted String.leb (remove_dups hs)))) <$>
                     to_option (try_map (normalize_scope_hostname "additional_hostnames") l)
      | _ => None
      end
  | Ports =>
      match v with
      | JList l => if Z.of_nat (length l) <=? MAX_TCP_PORTS
                   then (fun ps => JList (map JInt (py_sorted Z.leb (remove_dups ps)))) <$> to_option (ports_of l) else None
      | _ => None
      end
  end.

(** *** Lemmas *)

Lemma dict_or_keys a b k : k ∈ (dict_or a b).*1 <-> k ∈ a.*1 \/ k ∈ b.*1.
Proof.
  unfold dict_or. revert a. induction b as [| [k' v] b IH]; intros a; cbn [foldl fmap list_fmap fst]; [set_solver |].
  rewrite IH, dict_set_keys. cbn [fst snd]. case_bool_decide; set_solver.
Qed.

Lemma dict_or_nodup a b : NoDup a.*1 -> NoDup (dict_or a b).*1.
Proof.
  unfold dict_or. revert a. induction b as [| [k' v] b IH]; intros a Ha; cbn [foldl]; [done |]. by apply IH, dict_set_nodup.
Qed.

Lemma dict_or_get a b k : NoDup b.*1 -> dict_get k (dict_or a b) = match dict_get k b with Some v => Some v | None => dict_get k a end.
Proof.
  unfold dict_or. revert a. induction b as [| [k' v] b IH]; intros a; cbn [foldl dict_get fmap list_fmap fst]; [done |].
  intros [Hk Hb]%NoDup_cons. rewrite IH, dict_get_set by done. cbn [fst snd]. destruct (decide (k' = k)) as [<- |]; [| done].
  by rewrite (proj2 (dict_get_None k' b) Hk).
Qed.

Lemma dict_or_within a b : (forall k, k ∈ b.*1 -> k ∈ a.*1) -> (dict_or a b).*1 = a.*1.
Proof.
  unfold dict_or. revert a. induction b as [| [k' v] b IH]; intros a Hk; cbn [foldl]; [done |].
  assert ((dict_set k' v a).*1 = a.*1) as E. { rewrite dict_set_keys, bool_decide_eq_true_2; [done | apply Hk; left]. }
  cbn [fst snd]. rewrite IH, E; [done |]. rewrite E. intros k Hin. apply Hk. by right.
Qed.

(** A dict is what its keys are mapped to. *)
Lemma dict_table c : NoDup c.*1 -> c = map (fun k => (k, value_of c k)) c.*1.
Proof.
  intros Hc. rewrite <- (map_id c) at 1. change (map ?f c.*1) with (map f (map fst c)). rewrite map_map. apply map_ext_in.
  intros [k v] Hin%list_elem_of_In. cbn [fst]. unfold value_of. by rewrite (elem_dict_get _ _ _ Hc Hin).
Qed.

Lemma reject_unknown_ok what d c : to_option (reject_unknown what d c) = Some () <-> forall k, k ∈ c.*1 -> k ∈ d.*1.
Proof.
  unfold reject_unknown. assert (unknown_keys d c = [] <-> forall k, k ∈ c.*1 -> k ∈ d.*1) as H.
  { unfold unknown_keys. transitivity (List.filter (fun k => negb (bool_decide (k ∈ d.*1))) (remove_dups c.*1) = []).
    - split; [| by intros ->]. intros E. apply Permutation_nil_r. by rewrite <- E, py_sorted_perm.
    - rewrite filter_none. setoid_rewrite elem_of_remove_dups. setoid_rewrite negb_false_iff. by setoid_rewrite bool_decide_eq_true. }
  rewrite <- H. by destruct (unknown_keys d c).
Qed.

(** Defaults overlaid with a dict that has them all. *)
Lemma dict_or_total d m :
  NoDup d.*1 -> NoDup m.*1 -> (forall k, k ∈ m.*1 <-> k ∈ d.*1) -> dict_or d m = map (fun k => (k, value_of m k)) d.*1.
Proof.
  intros Hd Hm Hk. rewrite (dict_table (dict_or d m)) by by apply dict_or_nodup. rewrite dict_or_within by apply Hk.
  apply map_ext_in. intros k Hin%list_elem_of_In%Hk. unfold value_of. rewrite dict_or_get by done.
  apply dict_get_is_Some in Hin as [v ->]. done.
Qed.

Definition store (sch : list (string * kind)) (v : string -> json) : option config :=
  mapM (fun f => (fun w => (f.1, w)) <$> setting f.2 (v f.1)) sch.

Lemma store_setting sch v c k kd : store sch v = Some c -> (k, kd) ∈ sch -> is_Some (setting kd (v k)).
Proof.
  intros H%mapM_Some Hin. destruct (setting kd (v k)) as [w |] eqn:E; [done |]. exfalso.
  apply list_elem_of_lookup in Hin as [i Hi]. destruct (Forall2_lookup_l _ _ _ _ _ H Hi) as (y & _ & Hy).
  cbn [fst snd] in Hy. by rewrite E in Hy.
Qed.

Section Exact.
Variable m : config.
Hypothesis m_nodup : NoDup m.*1.

(** Evaluate reads and writes of literal keys. *)
Ltac eval_keys :=
  unfold value_of; cbn [dict_set dict_get default id];
  repeat (first [rewrite decide_True by reflexivity | rewrite decide_False by discriminate]; cbn [dict_set dict_get default id]).

(** A setting that is refused. *)
Ltac refuse k kd E :=
  split; [done |]; intros Hs; destruct (store_setting _ _ _ k kd Hs) as [? Hx];
  [apply list_elem_of_In; cbn; tauto | cbn [setting fst snd] in Hx; rewrite E in Hx; try done].

(** Overlay the defaults with a dict of the known keys. *)
Ltac overlay Hk :=
  rewrite dict_or_total; [| apply (bool_decide_unpack _); vm_compute; exact I | done | exact Hk].

Lemma unknown_refused what d (Hd : forall k, k ∈ d.*1 -> k ∈ m.*1) :
  reject_unknown what d m = Ok () /\ (forall k, k ∈ m.*1 <-> k ∈ d.*1) \/
  (exists e, reject_unknown what d m = Err e) /\ ~ (forall k, k ∈ m.*1 -> k ∈ d.*1).
Proof.
  pose proof (reject_unknown_ok what d m) as H. destruct (reject_unknown what d m) as [[] | e]; cbn in H.
  - left. split; [done |]. intros k. split; [by apply H | apply Hd].
  - right. split; [by eexists |]. intros Hk%H. done.
Qed.

Lemma host_telemetry_exact c :
  (forall k, k ∈ HOST_TELEMETRY_DEFAULT_CONFIG.*1 -> k ∈ m.*1) ->
  normalize_host_telemetry_config m = Ok c <->
  (forall k, k ∈ m.*1 -> k ∈ HOST_TELEMETRY_DEFAULT_CONFIG.*1) /\ store host_telemetry_schema (value_of m) = Some c.
Proof.
  intros Hd. unfold normalize_host_telemetry_config.
  destruct (unknown_refused "host telemetry" _ Hd) as [[-> Hk] | [[e ->] Hn]]; cbn [mbind result_bind]; [| naive_solver].
  overlay Hk. assert (forall P : Prop, (forall k, k ∈ m.*1 -> k ∈ HOST_TELEMETRY_DEFAULT_CONFIG.*1) /\ P <-> P) as -> by naive_solver.
  unfold store. cbn. generalize (value_of m). intros v.
  destruct (int_between _ _ _); cbn; [| done].
  repeat (destruct (is_bool _); cbn; [| done]). split; [by intros [= <-] | by intros [= <-]].
Qed.

Lemma remote_probe_exact c :
  (forall k, k ∈ REMOTE_PROBE_DEFAULT_CONFIG.*1 -> k ∈ m.*1) ->
  normalize_remote_probe_config m = Ok c <->
  (forall k, k ∈ m.*1 -> k ∈ REMOTE_PROBE_DEFAULT_CONFIG.*1) /\ store remote_probe_schema (value_of m) = Some c.
Proof.
  intros Hd. unfold normalize_remote_probe_config.
  destruct (unknown_refused "remote probe" _ Hd) as [[-> Hk] | [[e ->] Hn]]; cbn [mbind result_bind]; [| naive_solver].
  overlay Hk. assert (forall P : Prop, (forall k, k ∈ m.*1 -> k ∈ REMOTE_PROBE_DEFAULT_CONFIG.*1) /\ P <-> P) as -> by naive_solver.
  cbn [fmap list_fmap map fst REMOTE_PROBE_DEFAULT_CONFIG].
  generalize (value_of m). intros v. unfold cidrs. eval_keys.
  destruct (int_between _ _ (v "max_concurrent")) eqn:E1; cbn [mbind result_bind]; [| refuse "max_concurrent" (Bounded 1 100) E1].
  destruct (scope_mode_ok _) eqn:E2; [| refuse "scope_mode" Mode E2].
  destruct (normalize_scope_cidrs _ (v "excluded_cidrs")) eqn:E3; cbn [mbind result_bind]; [| refuse "excluded_cidrs" (Cidrs "excluded_cidrs") E3].
  eval_keys.
  destruct (normalize_scope_cidrs _ (v "additional_cidrs")) eqn:E4; cbn [mbind result_bind]; [| refuse "additional_cidrs" (Cidrs "additional_cidrs") E4].
  eval_keys. destruct (v "additional_hostnames") as [| | | | | names |] eqn:E5; try (refuse "additional_hostnames" Hosts E5).
  destruct (try_map _ names) as [hs |] eqn:E6; cbn [mbind result_bind]; [| refuse "additional_hostnames" Hosts E5; by rewrite E6 in Hx].
  eval_keys. unfold store, remote_probe_schema. cbn [mapM fst snd setting]. rewrite E1, E2, E3, E4, E5, E6.
  cbn [mbind option_bind fmap option_fmap option_map to_option]. split; [by intros [= <-] | by intros [= <-]].
Qed.

Lemma local_discovery_exact c :
  (forall k, k ∈ LOCAL_DISCOVERY_DEFAULT_CONFIG.*1 -> k ∈ m.*1) ->
  normalize_local_discovery_config m = Ok c <->
  (forall k, k ∈ m.*1 -> k ∈ LOCAL_DISCOVERY_DEFAULT_CONFIG.*1) /\ store local_discovery_schema (value_of m) = Some c.
Proof.
  intros Hd. unfold normalize_local_discovery_config.
  destruct (unknown_refused "local discovery" _ Hd) as [[-> Hk] | [[e ->] Hn]]; cbn [mbind result_bind]; [| naive_solver].
  overlay Hk. assert (forall P : Prop, (forall k, k ∈ m.*1 -> k ∈ LOCAL_DISCOVERY_DEFAULT_CONFIG.*1) /\ P <-> P) as -> by naive_solver.
  cbn [fmap list_fmap map fst LOCAL_DISCOVERY_DEFAULT_CONFIG check_bounds LOCAL_DISCOVERY_BOUNDS].
  generalize (value_of m). intros v. unfold cidrs. eval_keys.
  destruct (int_between _ _ (v "max_addresses_per_job")) eqn:E1; cbn [mbind result_bind]; [| refuse "max_addresses_per_job" (Bounded 1 4096) E1].
  destruct (int_between _ _ (v "max_concurrent_hosts")) eqn:E2; cbn [mbind result_bind]; [| refuse "max_concurrent_hosts" (Bounded 1 256) E2].
  destruct (int_between _ _ (v "host_timeout_ms")) eqn:E3; cbn [mbind result_bind]; [| refuse "host_timeout_ms" (Bounded 100 10000) E3].
  destruct (int_between _ _ (v "job_timeout_seconds")) eqn:E4; cbn [mbind result_bind]; [| refuse "job_timeout_seconds" (Bounded 30 1800) E4].
  destruct (is_bool _) eqn:E5; [| refuse "auto_discovery_paused" Flag E5].
  destruct (v "tcp_ports") as [| | | | | ports |] eqn:E6; try (refuse "tcp_ports" Ports E6).
  destruct (_ <=? MAX_TCP_PORTS) eqn:E7; [| refuse "tcp_ports" Ports E6; by rewrite E7 in Hx].
  destruct (ports_of ports) as [ps |] eqn:E8; cbn [mbind result_bind]; [| refuse "tcp_ports" Ports E6; by rewrite E7, E8 in Hx].
  eval_keys. destruct (scope_mode_ok _) eqn:E9; [| refuse "scope_mode" Mode E9].
  destruct (normalize_scope_cidrs _ (v "excluded_cidrs")) eqn:Ea; cbn [mbind result_bind]; [| refuse "excluded_cidrs" (Cidrs "excluded_cidrs") Ea].
  eval_keys.
  destruct (normalize_scope_cidrs _ (v "additional_cidrs")) eqn:Eb; cbn [mbind result_bind]; [| refuse "additional_cidrs" (Cidrs "additional_cidrs") Eb].
  eval_keys. unfold store, local_discovery_schema. cbn [mapM fst snd setting].
  rewrite E9, Ea, Eb, E1, E2, E6, E7, E8, E3, E4, E5.
  cbn [mbind option_bind fmap option_fmap option_map to_option]. split; [by intros [= <-] | by intros [= <-]].
Qed.
End Exact.

(** What a request leaves unsaid comes from the stored grant, then from the
    registry. *)
Definition overlaid (d current supplied : config) (k : string) : json :=
  value_of (if bool_decide (k ∈ supplied.*1) then supplied else if bool_decide (k ∈ current.*1) then current else d) k.

Lemma overlaid_value d current supplied k :
  NoDup current.*1 -> NoDup supplied.*1 -> value_of (dict_or (dict_or d current) supplied) k = overlaid d current supplied k.
Proof.
  intros Hc Hs. unfold overlaid, value_of. rewrite !dict_or_get by done.
  case_bool_decide as E; [by apply dict_get_is_Some in E as [v ->] |]. apply dict_get_None in E as ->.
  case_bool_decide as E; [by apply dict_get_is_Some in E as [v ->] |]. by apply dict_get_None in E as ->.
Qed.

Lemma store_ext sch v v' : (forall k, v k = v' k) -> store sch v = store sch v'.
Proof. intros H. unfold store. induction sch as [| f sch IH]; cbn [mapM]; [done |]. by rewrite H, IH. Qed.

(** A registered capability normalizes by its schema. *)
Definition by_schema (d : definition) (sch : list (string * kind)) : Prop :=
  NoDup (default_config d).*1 /\ (default_config d).*1 = sch.*1 /\
  forall m c, NoDup m.*1 -> (forall k, k ∈ (default_config d).*1 -> k ∈ m.*1) ->
    normalize d m = Ok c <-> (forall k, k ∈ m.*1 -> k ∈ (default_config d).*1) /\ store sch (value_of m) = Some c.

Lemma registered capability :
  match dict_get capability CAPABILITY_DEFINITIONS, dict_get capability schemas with
  | Some d, Some sch => by_schema d sch
  | None, None => True
  | _, _ => False
  end.
Proof.
  unfold CAPABILITY_DEFINITIONS, schemas. cbn [dict_get].
  repeat (destruct (decide _); [split_and!; [apply (bool_decide_unpack _); vm_compute; exact I | reflexivity |] |]).
  - intros m c Hm Hd. by apply host_telemetry_exact.
  - intros m c Hm Hd. by apply remote_probe_exact.
  - intros m c Hm Hd. by apply local_discovery_exact.
  - done.
Qed.

Lemma schema_applies d sch current supplied c :
  by_schema d sch -> NoDup current.*1 -> NoDup supplied.*1 ->
  normalize d (dict_or (dict_or (default_config d) current) supplied) = Ok c <->
  (forall k, k ∈ current.*1 \/ k ∈ supplied.*1 -> k ∈ sch.*1) /\ store sch (overlaid (default_config d) current supplied) = Some c.
Proof.
  intros (Hd & <- & Hx) Hc Hs. rewrite Hx; [| by do 2 apply dict_or_nodup | intros k Hk; rewrite !dict_or_keys; tauto].
  rewrite (store_ext _ _ _ (fun k => overlaid_value _ _ _ k Hc Hs)). apply and_iff_compat_r.
  split; intros H k Hk; [apply H; rewrite !dict_or_keys; tauto | rewrite !dict_or_keys in Hk; destruct Hk as [[Hk | Hk] | Hk]; [done | apply H; tauto ..]].
Qed.

(** Normalizing a grant is storing it under the capability's schema. *)
Lemma normalize_grant_schema capability value current e c :
  NoDup (default [] current).*1 -> (forall b supplied, grant_parts value = Ok (b, supplied) -> NoDup supplied.*1) ->
  normalize_grant capability value current = Ok (e, c) <->
  exists sch supplied, dict_get capability schemas = Some sch /\ grant_parts value = Ok (e, supplied) /\
    (forall k, k ∈ (default [] current).*1 \/ k ∈ supplied.*1 -> k ∈ sch.*1) /\
    store sch (overlaid (default_config_for capability) (default [] current) supplied) = Some c.
Proof.
  intros Hc Hp. unfold normalize_grant, default_config_for. pose proof (registered capability) as Hr.
  destruct (dict_get capability CAPABILITY_DEFINITIONS) as [d |], (dict_get capability schemas) as [sch |]; try done.
  2: { split; [done |]. intros (? & ? & ? & _). done. }
  destruct (grant_parts value) as [[b supplied] |] eqn:Eg; cbn [mbind result_bind fst snd].
  2: { split; [done |]. intros (? & ? & _ & ? & _). done. }
  pose proof (fun c => schema_applies d sch (default [] current) supplied c Hr Hc (Hp _ _ eq_refl)) as Hx. split.
  - destruct (normalize d _) as [c' |] eqn:En; cbn [mbind result_bind]; [| done]. intros [= <- <-].
    exists sch, supplied. by destruct (proj1 (Hx c') eq_refl).
  - intros (? & ? & [= <-] & [= <- <-] & Hk & Hst). by rewrite (proj2 (Hx c) (conj Hk Hst)).
Qed.

(** A grant is accepted exactly when the capability is registered,
    the request has the shape of a grant, it names no setting outside the
    capability's schema, and each setting, as supplied, else as stored, else as
    defaulted, satisfies its rule; the stored configuration is then the schema's
    settings in order, each in its normal form. *)
Theorem normalize_grant_exact capability value current e c :
  NoDup (default [] current).*1 -> (forall b supplied, grant_parts value = Ok (b, supplied) -> NoDup supplied.*1) ->
  normalize_grant capability value current = Ok (e, c) <->
  exists sch supplied, dict_get capability schemas = Some sch /\ grant_parts value = Ok (e, supplied) /\
    (forall k, k ∈ (default [] current).*1 \/ k ∈ supplied.*1 -> k ∈ sch.*1) /\
    store sch (overlaid (default_config_for capability) (default [] current) supplied) = Some c.
Proof. apply normalize_grant_schema. Qed.

Lemma store_lookup sch v c k kd :
  store sch v = Some c -> NoDup sch.*1 -> (k, kd) ∈ sch -> setting kd (v k) = Some (value_of c k).
Proof.
  unfold store. revert c. induction sch as [| [k' kd'] sch IH]; intros c; cbn [mapM fst snd]; [by intros _ _ ?%elem_of_nil |].
  destruct (setting kd' (v k')) as [w |] eqn:Ew; cbn [mbind option_bind fmap option_fmap option_map]; [| done].
  destruct (mapM _ sch) as [c' |] eqn:Em; cbn [mbind option_bind]; [| done]. intros [= <-] [Hn Hd]%NoDup_cons [[= -> ->] | Hin]%elem_of_cons.
  - unfold value_of. cbn [dict_get]. by rewrite decide_True.
  - unfold value_of. cbn [dict_get]. rewrite decide_False; [by apply IH |]. intros ->. apply Hn. by apply (list_elem_of_fmap_2 fst) in Hin.
Qed.

Lemma store_keys sch v c : store sch v = Some c -> c.*1 = sch.*1.
Proof.
  intros H%mapM_Some. induction H as [| f kv sch c Hf _ IH]; [done |]. cbn [fmap list_fmap]. rewrite IH. f_equal.
  destruct (setting f.2 (v f.1)); [| done]. by injection Hf as <-.
Qed.

(** *** Normal forms are stable *)

Lemma ports_of_ints l ps : ports_of l = Ok ps -> l = map JInt ps /\ Forall (fun p => 1 <= p <= 65535) ps.
Proof.
  revert ps. induction l as [| [| | p | | | |] l IH]; intros ps; cbn [ports_of]; try done; [by intros [= <-] |].
  destruct ((1 <=? p) && (p <=? 65535)) eqn:E; [| done]. destruct (ports_of l) as [ps' |]; cbn [mbind result_bind]; [| done].
  intros [= <-]. destruct (IH ps' eq_refl) as [-> Hall]. split; [done |]. constructor; [| done]. reflect_bools. lia.
Qed.

Lemma ports_of_valid ps : Forall (fun p => 1 <= p <= 65535) ps -> ports_of (map JInt ps) = Ok ps.
Proof.
  induction 1 as [| p ps Hp _ IH]; [done |]. cbn [ports_of map]. rewrite IH.
  destruct ((1 <=? p) && (p <=? 65535)) eqn:E; [done |]. reflect_bools. lia.
Qed.

Lemma remove_dups_length {A} `{EqDecision A} (l : list A) : (length (remove_dups l) <= length l)%nat.
Proof. induction l as [| x l IH]; cbn [remove_dups length]; [done |]. case_decide; cbn [length]; lia. Qed.

Lemma ports_stable v w : setting Ports v = Some w -> setting Ports w = Some w.
Proof.
  cbn [setting]. destruct v as [| | | | | l |]; try done. destruct (_ <=? MAX_TCP_PORTS) eqn:E; [| done].
  destruct (ports_of l) as [ps |] eqn:Ep; [| done]. intros [= <-]. apply ports_of_ints in Ep as [-> Hall].
  rewrite length_map in *. set (qs := py_sorted Z.leb (remove_dups ps)).
  assert (qs ≡ₚ remove_dups ps) as Hq by apply py_sorted_perm.
  rewrite (proj2 (Z.leb_le _ _)).
  - rewrite ports_of_valid. 2: { rewrite Hq. apply Forall_forall. intros p Hp. rewrite elem_of_remove_dups in Hp. rewrite Forall_forall in Hall. by apply Hall. }
    cbn [to_option fmap option_fmap option_map]. do 3 f_equal.
    apply sorted_set_ext; [lia | lia | lia |]. intros p. by rewrite Hq, elem_of_remove_dups.
  - rewrite Hq. pose proof (remove_dups_length ps). apply Z.leb_le in E. lia.
Qed.
End Scoped.

Section Stable.
Context `{IpTextLaws}.

Lemma normalize_cidr_network field v s :
  normalize_scope_cidr field v = Ok s -> exists n, wf n /\ s = str_net n /\ prefixlen n <> 0.
Proof.
  unfold normalize_scope_cidr. destruct v; try done. destruct (ip_network _ _) as [n |] eqn:E; [| done].
  destruct (Z.eqb_spec (prefixlen n) 0); [done |]. intros [= <-]. exists n. split_and!; [by eapply ip_network_wf | done | done].
Qed.

Lemma cidrs_stable field v w : setting (Cidrs field) v = Some w -> setting (Cidrs field) w = Some w.
Proof.
  cbn [setting]. unfold normalize_scope_cidrs. destruct v as [| | | | | l |]; try done.
  set (step := fun v => s ← normalize_scope_cidr field v; strict_network s).
  assert (forall l nets, try_map step l = Ok nets -> Forall (fun n => wf n /\ prefixlen n <> 0) nets) as Hw.
  { clear l. induction l as [| x l IH]; cbn [try_map]; intros nets; [by intros [= <-] |].
    destruct (step x) as [n |] eqn:Es; cbn [mbind result_bind]; [| done].
    destruct (try_map step l) as [ns |]; cbn [mbind result_bind]; [| done]. intros [= <-]. constructor; [| by apply IH].
    unfold step in Es. destruct (normalize_scope_cidr field x) as [s |] eqn:En; cbn [mbind result_bind] in Es; [| done].
    apply normalize_cidr_network in En as (k & Hk & -> & Hp). rewrite strict_str in Es by done. by injection Es as <-. }
  destruct (try_map step l) as [nets |] eqn:Et; cbn [mbind result_bind to_option fmap option_fmap option_map compose]; [| done].
  intros [= <-]. apply Hw in Et. set (qs := sort_networks nets).
  assert (Forall (fun n => wf n /\ prefixlen n <> 0) qs) as Hqs.
  { apply Forall_forall. intros n Hn. apply (sort_networks_elem nets) in Hn. rewrite Forall_forall in Et. by apply Et. }
  assert (try_map step (map JStr (sorted_networks nets)) = Ok qs) as ->.
  { unfold sorted_networks. fold qs. clearbody qs. induction Hqs as [| n qs [Hn Hp] _ IH]; [done |]. cbn [map try_map].
    assert (step (JStr (str_net n)) = Ok n) as ->.
    { unfold step, normalize_scope_cidr. rewrite strip_str_net, ip_network_str by done. rewrite (proj2 (Z.eqb_neq _ _)) by done.
      cbn [mbind result_bind]. by apply strict_str. }
    cbn [mbind result_bind]. by rewrite IH. }
  cbn [mbind result_bind to_option fmap option_fmap option_map compose]. do 2 f_equal. unfold sorted_networks. do 2 f_equal.
  apply sort_networks_ext. intros n. apply sort_networks_elem.
Qed.

Lemma setting_stable kd v w : kd <> Hosts -> setting kd v = Some w -> setting kd w = Some w.
Proof.
  destruct kd; cbn [setting]; intros Hk.
  1-3: match goal with |- (if ?b then _ else _) = _ -> _ => destruct b eqn:E; [| done]; intros [= <-]; by rewrite E end.
  - apply cidrs_stable.
  - done.
  - apply ports_stable.
Qed.

Lemma only_hosts capability sch k : dict_get capability schemas = Some sch -> (k, Hosts) ∈ sch -> k = "additional_hostnames".
Proof.
  intros Hs%dict_get_elem. assert (forallb (fun s => forallb (fun f => match f.2 with Hosts => String.eqb f.1 "additional_hostnames" | _ => true end) s.2) schemas = true) as Hall by reflexivity.
  rewrite forallb_forall in Hall. apply list_elem_of_In, Hall in Hs. cbn [snd] in Hs. rewrite forallb_forall in Hs.
  intros Hin%list_elem_of_In%Hs. by apply String.eqb_eq in Hin.
Qed.

(** A stored grant keeps every setting an update does not mention:
    whatever requests the grant went through, an accepted update leaves each
    other setting exactly as it was stored (host names excepted, whose stored
    form may end in a newline that the next update strips). *)
Theorem partial_update_keeps capability value current e c value' e' supplied c' k :
  NoDup (default [] current).*1 -> (forall b d, grant_parts value = Ok (b, d) -> NoDup d.*1) -> NoDup supplied.*1 ->
  normalize_grant capability value current = Ok (e, c) ->
  grant_parts value' = Ok (e', supplied) -> normalize_grant capability value' (Some c) = Ok (e', c') ->
  k ∉ supplied.*1 -> k <> "additional_hostnames" -> value_of c' k = value_of c k.
Proof.
  intros Hcur Hparts Hsup Hn Hg Hn' Hk Hh.
  apply normalize_grant_schema in Hn as (sch & d & Hsch & Hd & _ & Hst); [| done | done].
  pose proof (store_keys _ _ _ Hst) as Hkeys. pose proof (registered capability) as Hr. rewrite Hsch in Hr.
  destruct (dict_get capability CAPABILITY_DEFINITIONS) as [def |]; [| done]. destruct Hr as (Hnd & Hdk & _). rewrite Hdk in Hnd.
  apply normalize_grant_schema in Hn' as (sch' & d' & Hsch' & Hd' & _ & Hst'); cbn [default id].
  2: { by rewrite Hkeys. }
  2: { intros b d' E. rewrite Hg in E. by injection E as _ <-. }
  rewrite Hsch in Hsch'. injection Hsch' as <-. rewrite Hg in Hd'. injection Hd' as <-. cbn [default id] in Hst'.
  destruct (decide (k ∈ sch.*1)) as [Hin | Hout].
  2: { unfold value_of. rewrite (proj2 (dict_get_None k c)), (proj2 (dict_get_None k c')); [done | |];
       by rewrite ?(store_keys _ _ _ Hst'), ?Hkeys. }
  apply list_elem_of_fmap in Hin as ([k' kd] & -> & Hin). cbn [fst] in *.
  pose proof (store_lookup _ _ _ _ _ Hst Hnd Hin) as H1. pose proof (store_lookup _ _ _ _ _ Hst' Hnd Hin) as H2.
  unfold overlaid in H2. rewrite bool_decide_eq_false_2 in H2 by done.
  rewrite bool_decide_eq_true_2 in H2 by (rewrite Hkeys; by apply (list_elem_of_fmap_2 fst) in Hin).
  apply setting_stable in H1; [congruence |]. intros ->. apply Hh.
  revert Hin. apply (only_hosts capability). done.
Qed.
End Stable.

(** *** An instance *)

Definition lab_grant : json :=
  JObj [("enabled", JBool true);
        ("config", JObj [("tcp_ports", JList (map JInt [443; 22; 443])); ("additional_cidrs", JList [JStr "10.1.2.9/24"])])].

Definition lab_stored : config :=
  match normalize_grant "local_discovery" lab_grant None with Ok (_, c) => c | Err _ => [] end.

Example lab_stored_settings :
  (value_of lab_stored "tcp_ports", value_of lab_stored "additional_cidrs", value_of lab_stored "host_timeout_ms") =
  (JList (map JInt [22; 443]), JList [JStr "10.1.2.0/24"], JInt 1500).
Proof. vm_compute. reflexivity. Qed.

Definition lab_update : json := JObj [("enabled", JBool false); ("config", JObj [("host_timeout_ms", JInt 100)])].

Lemma normalize_grant_exact_witness : exists sch, dict_get "local_discovery" schemas = Some sch.
Proof.
  destruct (proj1 (normalize_grant_exact "local_discovery" lab_grant None true lab_stored (NoDup_nil_2 : NoDup (default [] None).*1)
              ltac:(intros b d; vm_compute; intros [= <- <-]; apply (bool_decide_unpack _); vm_compute; exact I))) as (sch & _ & H & _);
    [vm_compute; reflexivity | exists sch; exact H].
Defined.

Lemma partial_update_keeps_witness : exists c',
  normalize_grant "local_discovery" lab_update (Some lab_stored) = Ok (false, c') /\
  value_of c' "tcp_ports" = value_of lab_stored "tcp_ports".
Proof.
  destruct (normalize_grant "local_discovery" lab_update (Some lab_stored)) as [[e c'] |] eqn:E; [| vm_compute in E; discriminate].
  exists c'. assert (e = false) as -> by (vm_compute in E; congruence). split; [reflexivity |].
  apply (partial_update_keeps "local_discovery" lab_grant None true lab_stored lab_update false [("host_timeout_ms", JInt 100)] c' "tcp_ports").
  - apply NoDup_nil_2.
  - intros b d. vm_compute. intros [= <- <-]. apply (bool_decide_unpack _). vm_compute. exact I.
  - apply (bool_decide_unpack _). vm_compute. exact I.
  - vm_compute. reflexivity.
  - reflexivity.
  - exact E.
  - apply (bool_decide_unpack _). vm_compute. exact I.
  - discriminate.
Defined.
End Capabilities.
