(* ===== verification/AgentRegistry.v ===== *)
(** The agent registry ([services/agent_registry.py], [agent_enrollment_tokens.py],
    the enrollment and link handshakes of [api/ws_agents.py], the agent routes of
    [api/agents.py] and [scripts/cli_admin.py]): enrollment, approval, capability
    grants, revocation, device key rotation and enrollment tokens.  An [Err] rolls
    the transaction of its request back.  [write_log] never raises: an entry it
    cannot write is lost, which [log_faults] decides; one it writes commits the
    caller's session, which only an enrollment that fails later can tell
    ([enroll_leftover]). *)
From S2P Require Import Prelude Sha256 Json Regex Ip AgentScope AgentCapabilities.
Import Json Ip.
Open Scope Z_scope.

Module Registry.
Import AgentScope Capabilities.
#[local] Open Scope cb_scope.

(** *** Tables *)

Inductive status := Pending | Active | Rejected | Revoked.
#[export] Instance status_eq_dec : EqDecision status. Proof. solve_decision. Defined.

(** The columns the device reports about itself: host name, operating system,
    version, addresses. *)
Abbreviation facts := (list (string * json)).

Record agent := Agent {
  device_pk : string;
  fingerprint : string;
  a_status : status;
  reported : facts;
  enrollment_token_id : option Z;
  pending_device_pk : option string;
  pending_device_pk_expiry : option Z;
  server_pk_current_pinned_at : option Z;
  server_pk_successor_pinned_at : option Z;
  hardware_id : option Z;
  enrolled_at : Z;
  approved_at : option Z;
  approved_by : option Z;
  revoked_at : option Z;
  revoked_by : option Z;
  revoke_reason : option string
}.

Record grant := Grant { enabled : bool; g_config : config; granted_by : option Z; granted_at : Z }.

Record event := Event { e_agent : Z; e_type : string; e_actor : option Z; e_detail : json }.

Record token := Token {
  token_hash : string;
  label : string;
  endpoint_url : string;
  capabilities : config;
  max_uses : Z;
  uses : Z;
  expires_at : Z;
  t_revoked_at : option Z;
  created_by : option Z
}.

(** [audit] is what [write_log] wrote, oldest first; the head of [log_faults] says
    whether its next write fails. *)
Record db := Db {
  agents : gmap Z agent;
  next_agent : Z;
  grants : gmap (Z * string) grant;
  events : list event;
  audit : list event;
  tokens : gmap Z token;
  next_token : Z;
  log_faults : list bool
}.

Inductive error := ValueError (m : string) | IntegrityError (constraint : string) | NotFound | Conflict (m : string).

Definition of_scope {A} (r : result py_error A) : result error A :=
  match r with
  | Ok a => Ok a
  | Err (AgentScope.ValueError m) => Err (ValueError m)
  | Err AgentScope.TypeError => Err (ValueError "TypeError")
  end.

Definition with_agents (m : gmap Z agent) (s : db) : db :=
  Db m (next_agent s) (grants s) (events s) (audit s) (tokens s) (next_token s) (log_faults s).

Definition set_agent (i : Z) (a : agent) (s : db) : db := with_agents (<[i := a]> (agents s)) s.

(** *** The timeline *)

Definition CHAINED_EVENT_TYPES : list string :=
  ["enrolled"; "approved"; "rejected"; "revoked"; "capability_changed"; "key_rotation_started"; "key_rotated";
   "key_rotation_rejected"; "key_rotation_expired"; "update_queued"].

Definition write_fails (s : db) : bool := match log_faults s with b :: _ => b | [] => false end.

(** [write_log]. *)
Definition written (e : event) (s : db) : list event := if write_fails s then audit s else audit s ++ [e].

Definition record_event (i : Z) (type : string) (actor : option Z) (detail : json) (s : db) : db :=
  let chained := bool_decide (type ∈ CHAINED_EVENT_TYPES) in
  Db (agents s) (next_agent s) (grants s) (events s ++ [Event i type actor detail])
    (if chained then written (Event i ("agent_" +:+ type) actor detail) s else audit s) (tokens s) (next_token s)
    (if chained then List.tl (log_faults s) else log_faults s).

Definition json_of {A} (f : A -> json) (o : option A) : json := match o with Some x => f x | None => JNull end.

(** *** Enrollment tokens *)

Definition MAX_TTL_SECONDS : Z := 24 * 3600.

Definition hash_token (t : string) : string := Sha256.hexdigest t.

Definition mint_token (plaintext lbl endpoint : string) (caps : config) (ttl uses_max : Z) (by_user : option Z) (now : Z) (s : db)
    : result error (Z * db) :=
  guard! (0 <? ttl) && (ttl <=? MAX_TTL_SECONDS) else ValueError ("ttl_seconds must be between 1 and " +:+ pretty MAX_TTL_SECONDS) ;;
  guard! 1 <=? uses_max else ValueError "max_uses must be at least 1" ;;
  let h := hash_token plaintext in
  guard! negb (existsb (fun t => String.eqb (token_hash t.2) h) (map_to_list (tokens s))) else IntegrityError "token_hash" ;;
  let row := Token h lbl endpoint caps uses_max 0 (now + ttl) None by_user in
  Ok (next_token s, Db (agents s) (next_agent s) (grants s) (events s) (audit s) (<[next_token s := row]> (tokens s)) (next_token s + 1) (log_faults s)).

(** The [WHERE] clause of the consuming update. *)
Definition live (h : string) (now : Z) (t : token) : bool :=
  String.eqb (token_hash t) h && (uses t <? max_uses t) && bool_decide (t_revoked_at t = None) && (now <? expires_at t).

Definition spend (t : token) : token :=
  Token (token_hash t) (label t) (endpoint_url t) (capabilities t) (max_uses t) (uses t + 1) (expires_at t) (t_revoked_at t) (created_by t).

Definition with_tokens (m : gmap Z token) (s : db) : db :=
  Db (agents s) (next_agent s) (grants s) (events s) (audit s) m (next_token s) (log_faults s).

Definition consume_token (t : string) (now : Z) (s : db) : option ((Z * token) * db) :=
  match List.find (fun row => live (hash_token t) now row.2) (map_to_list (tokens s)) with
  | None => None
  | Some (i, row) => Some ((i, row), with_tokens (<[i := spend row]> (tokens s)) s)
  end.

Definition revoke_token (i now : Z) (s : db) : option db :=
  match tokens s !! i with
  | None => None
  | Some t =>
      match t_revoked_at t with
      | Some _ => Some s
      | None =>
          Some (with_tokens (<[i := Token (token_hash t) (label t) (endpoint_url t) (capabilities t) (max_uses t) (uses t)
                                      (expires_at t) (Some now) (created_by t)]> (tokens s)) s)
      end
  end.

(** [agent_counts], for one token. *)
Definition agent_count (i : Z) (s : db) : Z :=
  Z.of_nat (size (filter (fun a => enrollment_token_id a.2 = Some i) (agents s))).

(** *** Enrollment *)

Definition MAX_CONCURRENT_PENDING_AGENTS : Z := 100.

Definition get_agent_by_device_pk (pk : string) (s : db) : option (Z * agent) :=
  List.find (fun a => String.eqb (device_pk a.2) pk) (map_to_list (agents s)).

(** The insert of [create_pending_agent], under the unique device key. *)
Definition insert_agent (a : agent) (s : db) : result error (Z * db) :=
  match get_agent_by_device_pk (device_pk a) s with
  | Some _ => Err (IntegrityError "device_pk")
  | None =>
      Ok (next_agent s, Db (<[next_agent s := a]> (agents s)) (next_agent s + 1) (grants s) (events s) (audit s) (tokens s) (next_token s) (log_faults s))
  end.

Definition create_pending_agent (pk fp : string) (what : facts) (now : Z) (s : db) : result error (Z * db) :=
  p ← insert_agent (Agent pk fp Pending what None None None None None None now None None None None None) s;
  Ok (p.1, record_event p.1 "enrolled" None JNull p.2).

Definition count_pending_agents (s : db) : Z :=
  Z.of_nat (size (filter (fun a => a_status a.2 = Pending) (agents s))).

Definition set_status (st : status) (a : agent) : agent :=
  Agent (device_pk a) (fingerprint a) st (reported a) (enrollment_token_id a) (pending_device_pk a) (pending_device_pk_expiry a)
    (server_pk_current_pinned_at a) (server_pk_successor_pinned_at a) (hardware_id a) (enrolled_at a) (approved_at a) (approved_by a)
    (revoked_at a) (revoked_by a) (revoke_reason a).

(** *** Approval and grants *)

Section Grants.
Context {T : IpText}.

Definition default_grants : config := map (fun d => (d.1, JBool (default_enabled d.2))) CAPABILITY_DEFINITIONS.

(** The grant rows of an approval; the loop validates before anything is flushed. *)
Fixpoint grant_rows (l : config) : result error (list (string * (bool * config))) :=
  match l with
  | [] => Ok []
  | (capability, value) :: l =>
      g ← of_scope (normalize_grant capability value None);
      rest ← grant_rows l;
      Ok ((capability, g) :: rest)
  end.

(** The flush of the new rows, under the unique agent and capability. *)
Fixpoint insert_grants (i : Z) (by_user : option Z) (now : Z) (l : list (string * (bool * config))) (m : gmap (Z * string) grant)
    : result error (gmap (Z * string) grant) :=
  match l with
  | [] => Ok m
  | (capability, (e, c)) :: l =>
      match m !! (i, capability) with
      | Some _ => Err (IntegrityError "agent_capability")
      | None => insert_grants i by_user now l (<[(i, capability) := Grant e c by_user now]> m)
      end
  end.

Definition with_grants (m : gmap (Z * string) grant) (s : db) : db :=
  Db (agents s) (next_agent s) m (events s) (audit s) (tokens s) (next_token s) (log_faults s).

Definition approval_detail (hardware : option Z) (link_action via : option string) : json :=
  let linked := match hardware, link_action with
                | None, None => None
                | _, _ => Some [("hardware_id", json_of JInt hardware); ("host_link_action", json_of JStr link_action)]
                end in
  match via with
  | Some v => JObj (dict_set "via" (JStr v) (default [] linked))
  | None => json_of JObj linked
  end.

Definition approve_agent (i : Z) (by_user : option Z) (hardware : option Z) (link_action : option string)
    (overrides : option config) (via : option string) (now : Z) (s : db) : result error db :=
  match agents s !! i with
  | None => Err (ValueError ("agent " +:+ pretty i +:+ " not found"))
  | Some a =>
      rows ← grant_rows (dict_or default_grants (default [] overrides));
      m ← insert_grants i by_user now rows (grants s);
      let a := Agent (device_pk a) (fingerprint a) Active (reported a) (enrollment_token_id a) (pending_device_pk a)
                 (pending_device_pk_expiry a) (server_pk_current_pinned_at a) (server_pk_successor_pinned_at a)
                 (match hardware with Some h => Some h | None => hardware_id a end) (enrolled_at a) (Some now) by_user
                 (revoked_at a) (revoked_by a) (revoke_reason a) in
      Ok (record_event i "approved" by_user (approval_detail hardware link_action via) (set_agent i a (with_grants m s)))
  end.

Definition with_token_id (t : Z) (a : agent) : agent :=
  Agent (device_pk a) (fingerprint a) (a_status a) (reported a) (Some t) (pending_device_pk a) (pending_device_pk_expiry a)
    (server_pk_current_pinned_at a) (server_pk_successor_pinned_at a) (hardware_id a) (enrolled_at a) (approved_at a) (approved_by a)
    (revoked_at a) (revoked_by a) (revoke_reason a).

Definition create_enrolled_agent (pk fp : string) (t : Z * token) (what : facts) (now : Z) (s : db) : result error (Z * db) :=
  p ← create_pending_agent pk fp (what ++ [("enrolled_via_endpoint", JStr (endpoint_url t.2))]) now s;
  let s := match agents p.2 !! p.1 with Some a => set_agent p.1 (with_token_id t.1 a) p.2 | None => p.2 end in
  s ← approve_agent p.1 (created_by t.2) None None (match capabilities t.2 with [] => None | c => Some c end)
        (Some "enrollment_token") now s;
  Ok (p.1, s).

(** The rewritten rows of a capability update, each merged over its stored
    configuration, and the event's detail. *)
Fixpoint update_grants (i : Z) (actor now : Z) (l : config) (m : gmap (Z * string) grant) (detail : config)
    : result error (gmap (Z * string) grant * config) :=
  match l with
  | [] => Ok (m, detail)
  | (capability, value) :: l =>
      g ← of_scope (normalize_grant capability value (g_config <$> m !! (i, capability)));
      update_grants i actor now l (<[(i, capability) := Grant g.1 g.2 (Some actor) now]> m)
        (dict_set capability (JObj [("enabled", JBool g.1); ("config", JObj g.2)]) detail)
  end.

Definition set_capability_grants (i : Z) (requested : config) (actor now : Z) (s : db) : result error db :=
  p ← update_grants i actor now requested (grants s) [];
  Ok (record_event i "capability_changed" (Some actor) (JObj p.2) (with_grants p.1 s)).

Definition grants_dict (i : Z) (capability : string) (s : db) : option bool := enabled <$> grants s !! (i, capability).
End Grants.

(** *** Withdrawal *)

Definition reject_agent (i actor : Z) (s : db) : result error db :=
  match agents s !! i with
  | None => Err (ValueError ("agent " +:+ pretty i +:+ " not found"))
  | Some a => Ok (record_event i "rejected" (Some actor) JNull (set_agent i (set_status Rejected a) s))
  end.

Definition revoke_agent (i : Z) (actor : option Z) (reason via : option string) (now : Z) (s : db) : result error db :=
  match agents s !! i with
  | None => Err (ValueError ("agent " +:+ pretty i +:+ " not found"))
  | Some a =>
      let a := Agent (device_pk a) (fingerprint a) Revoked (reported a) (enrollment_token_id a) (pending_device_pk a)
                 (pending_device_pk_expiry a) (server_pk_current_pinned_at a) (server_pk_successor_pinned_at a) (hardware_id a)
                 (enrolled_at a) (approved_at a) (approved_by a) (Some now) actor reason in
      Ok (record_event i "revoked" actor
            (JObj (("reason", json_of JStr reason) :: match via with Some v => [("via", JStr v)] | None => [] end)) (set_agent i a s))
  end.

Definition PENDING_EXPIRY_SECONDS : Z := 7 * 86400.

Definition stale_pending (now : Z) (a : agent) : bool :=
  bool_decide (a_status a = Pending) && (enrolled_at a <? now - PENDING_EXPIRY_SECONDS).

Fixpoint expire_all (l : list (Z * agent)) (s : db) : db :=
  match l with
  | [] => s
  | (i, a) :: l =>
      expire_all l (record_event i "rejected" None (JObj [("reason", JStr "pending_expired")]) (set_agent i (set_status Rejected a) s))
  end.

Definition expire_stale_pending_agents (now : Z) (s : db) : Z * db :=
  let stale := List.filter (fun a => stale_pending now a.2) (map_to_list (agents s)) in
  (Z.of_nat (length stale), expire_all stale s).

(** [db.delete]: grants and events go with the agent, the audit log stays. *)
Definition delete_row (i : Z) (s : db) : db :=
  Db (delete i (agents s)) (next_agent s) (filter (fun g => g.1.1 <> i) (grants s))
    (List.filter (fun e => negb (e_agent e =? i)) (events s)) (audit s) (tokens s) (next_token s) (log_faults s).

Definition status_name (st : status) : string :=
  match st with Pending => "pending" | Active => "active" | Rejected => "rejected" | Revoked => "revoked" end.

(** [write_log] from a request handler. *)
Definition authorize (i : Z) (action : string) (actor : Z) (diff : json) (s : db) : db :=
  Db (agents s) (next_agent s) (grants s) (events s) (written (Event i action (Some actor) diff) s) (tokens s) (next_token s)
    (List.tl (log_faults s)).

Definition DELETE_CONFLICT_NAME_LIMIT : nat := 10.

Definition profile_conflict (profiles : list string) : string :=
  let n := length profiles in
  pretty (Z.of_nat n) +:+ " discovery profile(s) still scan from this agent: "
  +:+ String.concat ", " (take DELETE_CONFLICT_NAME_LIMIT profiles)
  +:+ (if (DELETE_CONFLICT_NAME_LIMIT <? n)%nat then " and " +:+ pretty (Z.of_nat (n - DELETE_CONFLICT_NAME_LIMIT)) +:+ " more" else "").

(** [assigned] counts the monitors the agent probes, [profiles] are the names of
    the discovery profiles that scan from it, in order. *)
Definition delete_agent (assigned : Z) (profiles : list string) (i actor : Z) (s : db) : result error db :=
  match agents s !! i with
  | None => Err NotFound
  | Some a =>
      guard! assigned =? 0 else Conflict (pretty assigned +:+ " monitor(s) are still assigned to this agent") ;;
      guard! (length profiles =? 0)%nat else Conflict (profile_conflict profiles) ;;
      Ok (delete_row i (authorize i "agent_delete_authorized" actor (JObj [("status", JStr (status_name (a_status a)))]) s))
  end.

Lemma delete_agent_done assigned profiles i actor s s' :
  delete_agent assigned profiles i actor s = Ok s' -> exists diff, s' = delete_row i (authorize i "agent_delete_authorized" actor diff s).
Proof.
  unfold delete_agent. destruct (agents s !! i); [| done]. destruct (assigned =? 0); [| done]. destruct (length profiles =? 0)%nat; [| done].
  intros [= <-]. eauto.
Qed.

Definition set_hardware_link (i : Z) (hardware : option Z) (actor : option Z) (s : db) : result error db :=
  match agents s !! i with
  | None => Err (ValueError ("agent " +:+ pretty i +:+ " not found"))
  | Some a =>
      if bool_decide (hardware_id a = hardware) then Ok s else
      let a' := Agent (device_pk a) (fingerprint a) (a_status a) (reported a) (enrollment_token_id a) (pending_device_pk a)
                  (pending_device_pk_expiry a) (server_pk_current_pinned_at a) (server_pk_successor_pinned_at a) hardware
                  (enrolled_at a) (approved_at a) (approved_by a) (revoked_at a) (revoked_by a) (revoke_reason a) in
      Ok (record_event i "host_link_changed" actor
            (JObj [("previous_hardware_id", json_of JInt (hardware_id a)); ("hardware_id", json_of JInt hardware)]) (set_agent i a' s))
  end.

(** *** Device keys *)

Definition DEVICE_KEY_ROTATION_WINDOW_SECONDS : Z := 15 * 60.

Definition hex_char (c : ascii) : bool := let n := code c in ((48 <=? n) && (n <=? 57)) || ((97 <=? n) && (n <=? 102)).

(** [_HEX_PK_RE.fullmatch]. *)
Definition hex_pk (pk : string) : bool := (String.length pk =? 64)%nat && str_forallb hex_char pk.

Definition nibble (c : ascii) : Z := let n := code c in if n <? 97 then n - 48 else n - 87.

(** [bytes.fromhex] of pairs of digits. *)
Fixpoint fromhex (s : string) : string :=
  match s with
  | String a (String b r) => String (ascii_of_nat (Z.to_nat (16 * nibble a + nibble b))) (fromhex r)
  | _ => EmptyString
  end.

Definition short_fingerprint (n : nat) (pk : string) : string := String.substring 0 n (Sha256.hexdigest (fromhex pk)).

Definition device_identity_matches (remote current : string) (pending : option string) (expiry : option Z) (now : Z) : bool :=
  String.eqb remote current ||
  match pending, expiry with
  | Some p, Some e => String.eqb remote p && (now <=? e)
  | _, _ => false
  end.

Definition resolve_agent_for_handshake (pk : string) (now : Z) (s : db) : option (Z * agent) :=
  match get_agent_by_device_pk pk s with
  | Some a => Some a
  | None =>
      match List.find (fun a => bool_decide (pending_device_pk a.2 = Some pk)) (map_to_list (agents s)) with
      | None => None
      | Some a => if device_identity_matches pk (device_pk a.2) (pending_device_pk a.2) (pending_device_pk_expiry a.2) now
                  then Some a else None
      end
  end.

(** The key columns of a row, rewritten. *)
Definition set_keys (current : string) (pending : option string) (expiry : option Z) (a : agent) : agent :=
  Agent current (fingerprint a) (a_status a) (reported a) (enrollment_token_id a) pending expiry
    (server_pk_current_pinned_at a) (server_pk_successor_pinned_at a) (hardware_id a) (enrolled_at a) (approved_at a) (approved_by a)
    (revoked_at a) (revoked_by a) (revoke_reason a).

Definition rotation_refused (i : Z) (reason : string) (s : db) : bool * db :=
  (false, record_event i "key_rotation_rejected" None (JObj [("reason", JStr reason)]) s).

Definition start_device_key_rotation (isoformat : Z -> string) (i : Z) (a : agent) (successor : string) (window : option Z)
    (now : Z) (s : db) : bool * db :=
  if negb (hex_pk successor) then rotation_refused i "successor_pk_malformed" s
  else if String.eqb successor (device_pk a) then rotation_refused i "successor_matches_current" s
  else if existsb (fun b => (String.eqb (device_pk b.2) successor || bool_decide (pending_device_pk b.2 = Some successor))
                            && negb (b.1 =? i)) (map_to_list (agents s))
  then rotation_refused i "successor_key_in_use" s
  else
    let expiry := now + default DEVICE_KEY_ROTATION_WINDOW_SECONDS window in
    (true, record_event i "key_rotation_started" None
             (JObj [("successor_fingerprint", JStr (short_fingerprint 16 successor)); ("expires_at", JStr (isoformat expiry))])
             (set_agent i (set_keys (device_pk a) (Some successor) (Some expiry) a) s)).

(** An update of a row under the unique device key. *)
Definition update_agent (i : Z) (a : agent) (s : db) : result error db :=
  if existsb (fun b => String.eqb (device_pk b.2) (device_pk a) && negb (b.1 =? i)) (map_to_list (agents s))
  then Err (IntegrityError "device_pk") else Ok (set_agent i a s).

Definition settle_device_key_rotation (i : Z) (a : agent) (connected : string) (now : Z) (s : db) : result error db :=
  match pending_device_pk a with
  | Some p =>
      if String.eqb connected p then
        s ← update_agent i (set_keys p None None a) s;
        Ok (record_event i "key_rotated" None
              (JObj [("old_fingerprint", JStr (short_fingerprint 16 (device_pk a)));
                     ("new_fingerprint", JStr (short_fingerprint 16 connected))]) s)
      else
        match pending_device_pk_expiry a with
        | Some e => if e <? now then Ok (record_event i "key_rotation_expired" None JNull (set_agent i (set_keys (device_pk a) None None a) s))
                    else Ok s
        | None => Ok s
        end
  | None => Ok s
  end.

Definition record_server_key_pin (i : Z) (kind : string) (now : Z) (s : db) : db :=
  match agents s !! i with
  | None => s
  | Some a =>
      let '(cur, suc) := if String.eqb kind "successor" then (server_pk_current_pinned_at a, Some now)
                         else (Some now, server_pk_successor_pinned_at a) in
      set_agent i (Agent (device_pk a) (fingerprint a) (a_status a) (reported a) (enrollment_token_id a) (pending_device_pk a)
                     (pending_device_pk_expiry a) cur suc (hardware_id a) (enrolled_at a) (approved_at a) (approved_by a)
                     (revoked_at a) (revoked_by a) (revoke_reason a)) s
  end.

(** *** The two handshakes, once the channel is up *)

(** [link_stream]: [None] closes the socket with 1008. *)
Definition link (pk kind : string) (now : Z) (s : db) : result error (option Z * db) :=
  match resolve_agent_for_handshake pk now s with
  | None => Ok (None, s)
  | Some (i, a) =>
      if negb (bool_decide (a_status a = Active)) then Ok (None, s) else
      s ← settle_device_key_rotation i a pk now s;
      Ok (Some i, record_event i "connected" None JNull (record_server_key_pin i kind now s))
  end.

Inductive answer :=
| Closed (code : Z)
| AlreadyEnrolled
| Enrolled (i : Z) (st : status).

(** A device that is not new: refused for good, or enrolled already. *)
Definition already_known (existing : option (Z * agent)) : option answer :=
  match existing with
  | Some (_, a) =>
      match a_status a with
      | Rejected | Revoked => Some (Closed 1008)
      | Active => Some AlreadyEnrolled
      | Pending => None
      end
  | None => None
  end.

Section Enroll.
Context {T : IpText}.

(** What a hello's token field selects: [None] for an absent or falsy one. *)
Definition enroll_stream (pk : string) (what : facts) (server_url : json) (enroll_token : option string) (kind : string)
    (lock : bool) (now : Z) (s : db) : result error (answer * db) :=
  let fp := short_fingerprint 32 pk in
  let existing := get_agent_by_device_pk pk s in
  match already_known existing with
  | Some a => Ok (a, s)
  | None =>
      match enroll_token with
      | Some t =>
          match consume_token t now s with
          | None => Ok (Closed 1008, s)
          | Some (row, s) =>
              p ← create_enrolled_agent pk fp row what now s;
              Ok (Enrolled p.1 Active, record_server_key_pin p.1 kind now p.2)
          end
      | None =>
          match existing with
          | Some (i, _) => Ok (Enrolled i Pending, record_server_key_pin i kind now s)
          | None =>
              if negb lock then Ok (Closed 1013, s)
              else if MAX_CONCURRENT_PENDING_AGENTS <=? count_pending_agents s then Ok (Closed 1013, s)
              else
                p ← create_pending_agent pk fp (what ++ [("enrolled_via_endpoint", server_url)]) now s;
                Ok (Enrolled p.1 Pending, record_server_key_pin p.1 kind now p.2)
          end
      end
  end.

(** What an enrollment that raises leaves in the tables: the audit entry of the
    new row has committed the row and the use of the token. *)
Definition enroll_leftover (pk : string) (what : facts) (enroll_token : option string) (now : Z) (s : db) : db :=
  match already_known (get_agent_by_device_pk pk s), enroll_token with
  | None, Some t =>
      match consume_token t now s with
      | Some (row, s1) =>
          match create_pending_agent pk (short_fingerprint 32 pk) (what ++ [("enrolled_via_endpoint", JStr (endpoint_url row.2))]) now s1 with
          | Ok p => if write_fails s1 then s else p.2
          | Err _ => s
          end
      | None => s
      end
  | _, _ => s
  end.
End Enroll.
End Registry.
