(* ===== verification/AgentIdentity.v ===== *)
(** Who an agent is: in every state the registry reaches, device keys identify
    agents, a handshake is accepted exactly for the keys that authenticate an
    active agent, a key rotation never strands its agent, and a withdrawn
    approval is final. *)
From S2P Require Import Prelude Sha256 Json Regex Ip AgentScope AgentCapabilities AgentRegistry.
Import Json Ip.
Open Scope Z_scope.

Module Identity.
Import AgentScope Capabilities Registry.
#[local] Opaque Sha256.hexdigest.

Section Identity.
Context {T : IpText}.
Variable isoformat : Z -> string.

Definition with_faults (l : list bool) (s : db) : db :=
  Db (agents s) (next_agent s) (grants s) (events s) (audit s) (tokens s) (next_token s) l.

(** Requests, handshakes, frames and jobs, in any order; a failed one is rolled
    back and leaves no step, but for what an enrollment had committed.  The
    writes of the audit log may fail at any time. *)
Inductive step : db -> db -> Prop :=
| step_enroll pk what url t kind lock now s a s' : enroll_stream pk what url t kind lock now s = Ok (a, s') -> step s s'
| step_enroll_fails pk what url t kind lock now s e :
    enroll_stream pk what url t kind lock now s = Err e -> step s (enroll_leftover pk what t now s)
| step_faults l s : step s (with_faults l s)
| step_link pk kind now s r s' : link pk kind now s = Ok (r, s') -> step s s'
| step_rotate i a successor window now s :
    agents s !! i = Some a -> a_status a = Active -> step s (start_device_key_rotation isoformat i a successor window now s).2
| step_approve i by_user hw act ovr via now s s' : approve_agent i by_user hw act ovr via now s = Ok s' -> step s s'
| step_reject i actor s s' : reject_agent i actor s = Ok s' -> step s s'
| step_revoke i actor reason via now s s' : revoke_agent i actor reason via now s = Ok s' -> step s s'
| step_capabilities i req actor now s s' :
    is_Some (agents s !! i) -> set_capability_grants i req actor now s = Ok s' -> step s s'
| step_hardware i hw actor s s' : set_hardware_link i hw actor s = Ok s' -> step s s'
| step_delete assigned profiles i actor s s' : delete_agent assigned profiles i actor s = Ok s' -> step s s'
| step_mint txt lbl url caps ttl n by_user now s i s' : mint_token txt lbl url caps ttl n by_user now s = Ok (i, s') -> step s s'
| step_revoke_token i now s s' : revoke_token i now s = Some s' -> step s s'
| step_expire now s : step s (expire_stale_pending_agents now s).2.

Definition empty_db : db := Db ∅ 1 ∅ [] [] ∅ 1 [].
Definition reachable (s : db) : Prop := rtc step empty_db s.

(** *** What holds of the rows *)

Definition key_columns (a : agent) : string * option string * option Z := (device_pk a, pending_device_pk a, pending_device_pk_expiry a).

Record keys_ok (m : gmap Z agent) : Prop := {
  keys_unique i j a b : m !! i = Some a -> m !! j = Some b -> device_pk a = device_pk b -> i = j;
  pending_unique i j a b p : m !! i = Some a -> m !! j = Some b -> pending_device_pk a = Some p -> pending_device_pk b = Some p -> i = j;
  pending_dated i a p : m !! i = Some a -> pending_device_pk a = Some p -> is_Some (pending_device_pk_expiry a)
}.

(** An agent that was approved has grant rows, and only an approved one is
    active. *)
Record approvals_ok (s : db) : Prop := {
  active_approved i a : agents s !! i = Some a -> a_status a = Active -> is_Some (approved_at a);
  approved_granted i a : agents s !! i = Some a -> is_Some (approved_at a) -> is_Some (grants s !! (i, "host_telemetry"));
  granted_exists i c : is_Some (grants s !! (i, c)) -> is_Some (agents s !! i)
}.

Definition ids_fresh (s : db) : Prop := forall i a, agents s !! i = Some a -> i < next_agent s.

Record sound (s : db) : Prop := {
  sound_keys : keys_ok (agents s);
  sound_approvals : approvals_ok s;
  sound_fresh : ids_fresh s
}.

(** *** Lookups *)

Lemma find_pk pk s i a : get_agent_by_device_pk pk s = Some (i, a) -> agents s !! i = Some a /\ device_pk a = pk.
Proof.
  unfold get_agent_by_device_pk. intros [H E%String.eqb_eq]%find_some. split; [| done].
  by apply elem_of_map_to_list, list_elem_of_In.
Qed.

Lemma find_pk_none pk s i a : get_agent_by_device_pk pk s = None -> agents s !! i = Some a -> device_pk a <> pk.
Proof.
  unfold get_agent_by_device_pk. intros H Hi. apply String.eqb_neq. apply (find_none _ _ H (i, a)).
  by apply list_elem_of_In, elem_of_map_to_list.
Qed.

Lemma find_pk_some pk s i a :
  keys_ok (agents s) -> agents s !! i = Some a -> device_pk a = pk -> get_agent_by_device_pk pk s = Some (i, a).
Proof.
  intros Hk Hi Hpk. destruct (get_agent_by_device_pk pk s) as [[j b] |] eqn:E.
  - apply find_pk in E as [Hj Hb]. assert (i = j) as -> by (eapply keys_unique; [done | done | done | congruence]). congruence.
  - by eapply find_pk_none in E.
Qed.

Lemma existsb_agent (f : Z * agent -> bool) s : existsb f (map_to_list (agents s)) = true <-> exists i a, agents s !! i = Some a /\ f (i, a) = true.
Proof.
  rewrite existsb_exists. split.
  - intros ([i a] & Hin%list_elem_of_In%elem_of_map_to_list & Hf). eauto.
  - intros (i & a & Hi & Hf). exists (i, a). split; [by apply list_elem_of_In, elem_of_map_to_list | done].
Qed.

(** *** Rewriting one row *)

Lemma keys_ok_replace m i a a' : m !! i = Some a -> key_columns a' = key_columns a -> keys_ok m -> keys_ok (<[i := a']> m).
Proof.
  unfold key_columns. intros Hi [= E1 E2 E3] [H1 H2 H3]. split.
  - intros j k b c Hj Hk Hpk. rewrite !lookup_insert_Some in Hj, Hk. destruct Hj as [[<- <-] | [Hij Hj]], Hk as [[<- <-] | [Hik Hk]]; [done | | |].
    + eapply H1; [exact Hi | exact Hk | congruence].
    + eapply H1; [exact Hj | exact Hi | congruence].
    + by eapply H1.
  - intros j k b c p Hj Hk Hp Hp'. rewrite !lookup_insert_Some in Hj, Hk. destruct Hj as [[<- <-] | [Hij Hj]], Hk as [[<- <-] | [Hik Hk]]; [done | | |].
    + eapply H2; [exact Hi | exact Hk | rewrite <- E2; exact Hp | done].
    + eapply H2; [exact Hj | exact Hi | done | rewrite <- E2; exact Hp'].
    + by eapply H2.
  - intros j b p Hj Hp. rewrite lookup_insert_Some in Hj. destruct Hj as [[<- <-] | [Hij Hj]]; [| by eapply H3].
    rewrite E3. eapply H3; [exact Hi |]. by rewrite <- E2.
Qed.

Lemma sound_replace s i a a' :
  agents s !! i = Some a -> key_columns a' = key_columns a ->
  (a_status a' = Active -> a_status a = Active) -> approved_at a' = approved_at a -> sound s -> sound (set_agent i a' s).
Proof.
  intros Hi Hk Hst Hap [Hkeys [H1 H2 H3] Hf]. split; cbn [agents set_agent with_agents].
  - by eapply keys_ok_replace.
  - split; cbn [agents grants set_agent with_agents].
    + intros j b Hj. rewrite lookup_insert_Some in Hj. destruct Hj as [[<- <-] | [_ Hj]]; [| by apply (H1 j b)].
      rewrite Hap. intros Ha. by apply (H1 i a Hi), Hst.
    + intros j b Hj. rewrite lookup_insert_Some in Hj. destruct Hj as [[<- <-] | [_ Hj]]; [| by apply (H2 j b)].
      rewrite Hap. by apply (H2 i a).
    + intros j c Hg. rewrite lookup_insert_is_Some. destruct (decide (i = j)); [by left | right; split; [done |]; by apply (H3 j c)].
  - intros j b Hj. cbn [agents next_agent set_agent with_agents] in *. rewrite lookup_insert_Some in Hj.
    destruct Hj as [[<- <-] | [_ Hj]]; [by apply (Hf i a) | by apply (Hf j b)].
Qed.

Lemma sound_event i ty actor d s : sound s -> sound (record_event i ty actor d s).
Proof. intros [? [] ?]. done. Qed.

Lemma sound_pin i kind now s : sound s -> sound (record_server_key_pin i kind now s).
Proof.
  intros Hs. unfold record_server_key_pin. destruct (agents s !! i) as [a |] eqn:Hi; [| done].
  destruct (String.eqb kind "successor"); by apply (sound_replace s i a).
Qed.

(** Inversion of a run through the result monad. *)
Ltac inv_ok H :=
  repeat (match type of H with
          | context [mbind _ ?r] => let p := fresh "p" in destruct r as [p |] eqn:?; cbn [mbind result_bind fst snd] in H; [| discriminate H]
          end).

Lemma sound_inserted a s i s' :
  sound s -> pending_device_pk a = None -> a_status a = Pending -> approved_at a = None ->
  insert_agent a s = Ok (i, s') ->
  sound s' /\ i = next_agent s /\ agents s' = <[i := a]> (agents s) /\ grants s' = grants s /\ tokens s' = tokens s.
Proof.
  intros [[H1 H2 H3] [H4 H5 H6] Hf] Hp Hst Hap. unfold insert_agent.
  destruct (get_agent_by_device_pk (device_pk a) s) eqn:E; [done |]. intros [= <- <-]. split; [| done].
  assert (agents s !! next_agent s = None) as Hn.
  { destruct (agents s !! next_agent s) as [b |] eqn:Eb; [| done]. apply Hf in Eb. lia. }
  split; [split | split |]; cbn [agents grants next_agent].
  - intros j k b c Hj Hk Hpk. rewrite !lookup_insert_Some in Hj, Hk. destruct Hj as [[<- <-] | [_ Hj]], Hk as [[<- <-] | [_ Hk]]; [done | | |].
    + by destruct (find_pk_none _ _ _ _ E Hk).
    + by destruct (find_pk_none _ _ _ _ E Hj).
    + by eapply H1.
  - intros j k b c p Hj Hk Hpj Hpk. rewrite !lookup_insert_Some in Hj, Hk.
    destruct Hj as [[<- <-] | [_ Hj]], Hk as [[<- <-] | [_ Hk]]; [done | congruence | congruence | by eapply H2].
  - intros j b p Hj Hpj. rewrite lookup_insert_Some in Hj. destruct Hj as [[<- <-] | [_ Hj]]; [congruence | by eapply H3].
  - intros j b Hj Ha. rewrite lookup_insert_Some in Hj. destruct Hj as [[<- <-] | [_ Hj]]; [congruence | by eapply H4].
  - intros j b Hj Ha. rewrite lookup_insert_Some in Hj. destruct Hj as [[<- <-] | [_ Hj]]; [rewrite Hap in Ha; by destruct Ha | by eapply H5].
  - intros j c Hg. apply H6 in Hg. rewrite lookup_insert_is_Some. destruct (decide (next_agent s = j)); [by left | by right].
  - intros j b Hj. cbn [agents next_agent] in *. rewrite lookup_insert_Some in Hj. destruct Hj as [[<- <-] | [_ Hj]]; [lia |]. apply Hf in Hj. lia.
Qed.

(** *** Grant rows *)

Lemma insert_grants_spec i by_user now l m m' :
  insert_grants i by_user now l m = Ok m' ->
  (forall c, c ∈ l.*1 -> m !! (i, c) = None /\ is_Some (m' !! (i, c))) /\
  (forall k, is_Some (m !! k) -> m' !! k = m !! k) /\
  (forall k, is_Some (m' !! k) -> is_Some (m !! k) \/ k.1 = i).
Proof.
  revert m. induction l as [| [c [e g]] l IH]; intros m; cbn [insert_grants].
  - intros [= <-]. split_and!; [by intros c Hc%elem_of_nil | done | auto].
  - destruct (m !! (i, c)) eqn:Ec; [done |]. intros (H1 & H2 & H3)%IH. split_and!.
    + intros d [-> | Hd]%elem_of_cons; cbn [fst] in *.
      * split; [done |]. rewrite H2; rewrite lookup_insert_eq; done.
      * destruct (H1 d Hd) as [Hn Hs]. split; [| done]. rewrite lookup_insert_None in Hn. by destruct Hn.
    + intros k Hk. rewrite H2; [| rewrite lookup_insert_is_Some']; [rewrite lookup_insert_ne; [done |] | by right].
      intros <-. rewrite Ec in Hk. by destruct Hk.
    + intros k Hk. apply H3 in Hk as [Hk | Hk]; [| by right]. rewrite lookup_insert_is_Some' in Hk.
      destruct Hk as [<- | Hk]; [by right | by left].
Qed.

Lemma grant_rows_keys l rows : grant_rows l = Ok rows -> rows.*1 = l.*1.
Proof.
  revert rows. induction l as [| [c v] l IH]; intros rows; cbn [grant_rows]; [by intros [= <-] |]. intros H. inv_ok H.
  injection H as <-. cbn [fmap list_fmap fst]. by rewrite (IH _ eq_refl).
Qed.

Lemma update_grants_spec i actor now l m detail m' d' :
  update_grants i actor now l m detail = Ok (m', d') ->
  (forall k, is_Some (m !! k) -> is_Some (m' !! k)) /\ (forall k, is_Some (m' !! k) -> is_Some (m !! k) \/ k.1 = i).
Proof.
  revert m detail. induction l as [| [c v] l IH]; intros m detail; cbn [update_grants].
  - intros [= <- <-]. auto.
  - intros H. inv_ok H. apply IH in H as [H1 H2]. split.
    + intros k Hk. apply H1. rewrite lookup_insert_is_Some'. by right.
    + intros k Hk. apply H2 in Hk as [Hk | Hk]; [| by right]. rewrite lookup_insert_is_Some' in Hk.
      destruct Hk as [<- | Hk]; [by right | by left].
Qed.

Lemma approve_spec i by_user hw act ovr via now s s' :
  approve_agent i by_user hw act ovr via now s = Ok s' ->
  exists a a' m, agents s !! i = Some a /\ grants s !! (i, "host_telemetry") = None /\
    agents s' = <[i := a']> (agents s) /\ key_columns a' = key_columns a /\ a_status a' = Active /\ approved_at a' = Some now /\
    enrollment_token_id a' = enrollment_token_id a /\
    grants s' = m /\ is_Some (m !! (i, "host_telemetry")) /\ (forall k, is_Some (grants s !! k) -> m !! k = grants s !! k) /\
    (forall k, is_Some (m !! k) -> is_Some (grants s !! k) \/ k.1 = i) /\
    next_agent s' = next_agent s /\ tokens s' = tokens s /\ next_token s' = next_token s.
Proof.
  unfold approve_agent. destruct (agents s !! i) as [a |] eqn:Hi; [| done]. intros H. inv_ok H. injection H as <-.
  match goal with E : grant_rows _ = Ok _ |- _ => apply grant_rows_keys in E as Hk end.
  match goal with E : insert_grants _ _ _ _ _ = Ok _ |- _ => apply insert_grants_spec in E as (H1 & H2 & H3) end.
  eexists a, _, _. assert ("host_telemetry" ∈ (dict_or default_grants (default [] ovr)).*1) as Hin.
  { apply dict_or_keys. left. apply list_elem_of_here. }
  rewrite <- Hk in Hin. apply H1 in Hin as [Hn Hs]. split_and!; try done.
Qed.

Lemma keys_ok_rotate m i a cur pend exp :
  m !! i = Some a -> keys_ok m ->
  (forall j b, m !! j = Some b -> j <> i -> device_pk b <> cur) ->
  (forall p, pend = Some p -> is_Some exp /\ forall j b, m !! j = Some b -> j <> i -> pending_device_pk b <> Some p) ->
  keys_ok (<[i := set_keys cur pend exp a]> m).
Proof.
  intros Hi [H1 H2 H3] Hcur Hpend. split.
  - intros j k b c Hj Hk Hpk. rewrite !lookup_insert_Some in Hj, Hk.
    destruct Hj as [[<- <-] | [Hij Hj]], Hk as [[<- <-] | [Hik Hk]]; [done | | | by eapply H1].
    + by destruct (Hcur k c Hk (not_eq_sym Hik)).
    + by destruct (Hcur j b Hj (not_eq_sym Hij)).
  - intros j k b c p Hj Hk Hpj Hpk. rewrite !lookup_insert_Some in Hj, Hk.
    destruct Hj as [[<- <-] | [Hij Hj]], Hk as [[<- <-] | [Hik Hk]]; [done | | | by eapply H2]; cbn [pending_device_pk set_keys] in *.
    + destruct (Hpend p Hpj) as [_ Hn]. by destruct (Hn k c Hk (not_eq_sym Hik)).
    + destruct (Hpend p Hpk) as [_ Hn]. by destruct (Hn j b Hj (not_eq_sym Hij)).
  - intros j b p Hj Hp. rewrite lookup_insert_Some in Hj. destruct Hj as [[<- <-] | [_ Hj]]; [| by eapply H3].
    by apply (Hpend p).
Qed.

Lemma sound_rotated s i a cur pend exp :
  agents s !! i = Some a -> sound s -> keys_ok (<[i := set_keys cur pend exp a]> (agents s)) ->
  sound (set_agent i (set_keys cur pend exp a) s).
Proof.
  intros Hi [_ [H1 H2 H3] Hf] Hk. split; [done | split |]; cbn [agents grants set_agent with_agents].
  - intros j b Hj. rewrite lookup_insert_Some in Hj. destruct Hj as [[<- <-] | [_ Hj]]; [by apply (H1 i a) | by apply (H1 j b)].
  - intros j b Hj. rewrite lookup_insert_Some in Hj. destruct Hj as [[<- <-] | [_ Hj]]; [by apply (H2 i a) | by apply (H2 j b)].
  - intros j c Hg. rewrite lookup_insert_is_Some'. right. by apply (H3 j c).
  - intros j b Hj. cbn [agents next_agent set_agent with_agents] in *. rewrite lookup_insert_Some in Hj.
    destruct Hj as [[<- <-] | [_ Hj]]; [by apply (Hf i a) | by apply (Hf j b)].
Qed.

(** A rotation that starts claims a key nobody else holds or claims. *)
Lemma start_rotation_spec i a successor window now s ok s' :
  start_device_key_rotation isoformat i a successor window now s = (ok, s') ->
  if ok then
    hex_pk successor = true /\ successor <> device_pk a /\
    (forall j b, agents s !! j = Some b -> j <> i -> device_pk b <> successor /\ pending_device_pk b <> Some successor) /\
    let e := now + default DEVICE_KEY_ROTATION_WINDOW_SECONDS window in
    agents s' = <[i := set_keys (device_pk a) (Some successor) (Some e) a]> (agents s) /\
    exists d, s' = record_event i "key_rotation_started" None d (set_agent i (set_keys (device_pk a) (Some successor) (Some e) a) s)
  else exists d, s' = record_event i "key_rotation_rejected" None d s.
Proof.
  unfold start_device_key_rotation, rotation_refused.
  destruct (hex_pk successor) eqn:Eh; cbn [negb]; [| intros [= <- <-]; by eexists].
  destruct (String.eqb_spec successor (device_pk a)) as [| Hne]; [intros [= <- <-]; by eexists |].
  destruct (existsb _ _) eqn:Ex; [intros [= <- <-]; by eexists |]. intros [= <- <-].
  split_and!; [done | done | | done | by eexists]. intros j b Hj Hji.
  assert (~ exists j b, agents s !! j = Some b /\
            (String.eqb (device_pk b) successor || bool_decide (pending_device_pk b = Some successor)) && negb (j =? i) = true) as Hno.
  { intros (k & c & Hk & Hf). assert (true = false) as Hc; [| discriminate Hc]. rewrite <- Ex. symmetry. apply existsb_agent. by exists k, c. }
  split; intros E; apply Hno; exists j, b; (split; [done |]); rewrite (proj2 (Z.eqb_neq j i)) by done.
  - by rewrite E, String.eqb_refl.
  - rewrite bool_decide_eq_true_2 by done. by rewrite orb_true_r.
Qed.

Lemma sound_start i a successor window now s :
  agents s !! i = Some a -> sound s -> sound (start_device_key_rotation isoformat i a successor window now s).2.
Proof.
  intros Hi Hs. destruct (start_device_key_rotation _ _ _ _ _ _ _) as [[] s'] eqn:E; apply start_rotation_spec in E; cbn [snd].
  - destruct E as (_ & _ & Hfree & _ & d & ->). apply sound_event, sound_rotated; [done | done |]. apply keys_ok_rotate; [done | apply Hs | |].
    + intros j b Hj Hji Hb. apply Hji. by eapply (keys_unique _ (sound_keys _ Hs)).
    + intros p [= <-]. split; [done |]. intros j b Hj Hji. by apply (Hfree j b).
  - destruct E as [d ->]. by apply sound_event.
Qed.

(** Settling promotes the pending key, drops an expired one, or does nothing. *)
Lemma settle_spec i a pk now s s' :
  settle_device_key_rotation i a pk now s = Ok s' ->
  (exists p d, pending_device_pk a = Some p /\ pk = p /\ (forall j b, agents s !! j = Some b -> j <> i -> device_pk b <> p) /\
     s' = record_event i "key_rotated" None d (set_agent i (set_keys p None None a) s)) \/
  (exists p e, pending_device_pk a = Some p /\ pk <> p /\ pending_device_pk_expiry a = Some e /\ e < now /\
     s' = record_event i "key_rotation_expired" None JNull (set_agent i (set_keys (device_pk a) None None a) s)) \/
  (s' = s /\ pending_device_pk a <> Some pk /\
   forall p e, pending_device_pk a = Some p -> pending_device_pk_expiry a = Some e -> now <= e).
Proof.
  unfold settle_device_key_rotation. destruct (pending_device_pk a) as [p |] eqn:Ep.
  2: { intros [= <-]. right. right. split_and!; [done | done |]. done. }
  destruct (String.eqb_spec pk p) as [-> | Hne].
  - unfold update_agent. destruct (existsb _ _) eqn:Ex; cbn [mbind result_bind]; [done |]. intros [= <-]. left. eexists p, _.
    split_and!; [done | done | | done]. intros j b Hj Hji Hb.
    assert (true = false) as Hc; [| discriminate Hc]. rewrite <- Ex. symmetry. apply existsb_agent. exists j, b. split; [done |].
    cbn [device_pk set_keys snd fst]. by rewrite Hb, String.eqb_refl, (proj2 (Z.eqb_neq j i)).
  - destruct (pending_device_pk_expiry a) as [e |] eqn:Ee.
    + destruct (Z.ltb_spec e now).
      * intros [= <-]. right. left. by exists p, e.
      * intros [= <-]. right. right. split_and!; [done | congruence |]. intros ? ? _ [= <-]. done.
    + intros [= <-]. right. right. split_and!; [done | congruence | done].
Qed.

Lemma sound_settle i a pk now s s' :
  agents s !! i = Some a -> sound s -> settle_device_key_rotation i a pk now s = Ok s' -> sound s'.
Proof.
  intros Hi Hs [(p & d & Hp & -> & Hfree & ->) | [(p & e & Hp & Hne & He & Hlt & ->) | [-> _]]]%settle_spec; [| | done].
  - apply sound_event, sound_rotated; [done | done |]. apply keys_ok_rotate; [done | apply Hs | done | done].
  - apply sound_event, sound_rotated; [done | done |]. apply keys_ok_rotate; [done | apply Hs | | done].
    intros j b Hj Hji Hb. apply Hji. by eapply (keys_unique _ (sound_keys _ Hs)).
Qed.

(** *** Handshakes *)

(** The keys that authenticate an agent: its own, and its pending one until it
    expires, unless another agent owns that key. *)
Definition authenticates (s : db) (i : Z) (a : agent) (pk : string) (now : Z) : Prop :=
  device_pk a = pk \/
  (forall j b, agents s !! j = Some b -> device_pk b <> pk) /\ pending_device_pk a = Some pk /\
  exists e, pending_device_pk_expiry a = Some e /\ now <= e.

Lemma resolve_spec pk now s i a :
  resolve_agent_for_handshake pk now s = Some (i, a) -> agents s !! i = Some a /\ authenticates s i a pk now.
Proof.
  unfold resolve_agent_for_handshake. destruct (get_agent_by_device_pk pk s) as [[j b] |] eqn:E.
  - intros [= -> ->]. apply find_pk in E as [Hi Hpk]. split; [done | by left].
  - destruct (List.find _ _) as [[j b] |] eqn:Ef; [| done]. apply find_some in Ef as [Hin Hp%bool_decide_eq_true]. cbn [snd] in *.
    apply list_elem_of_In, elem_of_map_to_list in Hin.
    destruct (device_identity_matches _ _ _ _ _) eqn:Em; [| done]. intros [= -> ->]. split; [done |].
    unfold device_identity_matches in Em. apply orb_true_iff in Em as [Em%String.eqb_eq | Em]; [by left |]. right.
    rewrite Hp in Em. destruct (pending_device_pk_expiry a) as [e |]; [| done]. apply andb_true_iff in Em as [_ Em%Z.leb_le].
    split_and!; [| done | by exists e]. intros k c Hk. by apply (find_pk_none pk s k c).
Qed.

Lemma resolve_complete pk now s i a :
  keys_ok (agents s) -> agents s !! i = Some a -> authenticates s i a pk now -> resolve_agent_for_handshake pk now s = Some (i, a).
Proof.
  intros Hk Hi [Hpk | (Hno & Hp & e & He & Hle)]; unfold resolve_agent_for_handshake; [by rewrite (find_pk_some pk s i a) |].
  destruct (get_agent_by_device_pk pk s) as [[j b] |] eqn:E. { apply find_pk in E as [Hj Hb]. by destruct (Hno j b Hj). }
  destruct (List.find _ _) as [[j b] |] eqn:Ef.
  - apply find_some in Ef as [Hin Hp'%bool_decide_eq_true]. cbn [snd] in *. apply list_elem_of_In, elem_of_map_to_list in Hin.
    assert (i = j) as <- by by eapply pending_unique. assert (a = b) as <- by congruence.
    unfold device_identity_matches. rewrite Hp, He, String.eqb_refl, (proj2 (Z.leb_le _ _) Hle). by rewrite orb_true_r.
  - assert (bool_decide (pending_device_pk a = Some pk) = false) as Hf.
    { apply (find_none _ _ Ef (i, a)). by apply list_elem_of_In, elem_of_map_to_list. }
    by apply bool_decide_eq_false in Hf.
Qed.

(** Once the handshake has resolved, settling cannot collide. *)
Lemma settle_total s i a pk now :
  agents s !! i = Some a -> sound s -> authenticates s i a pk now -> exists s', settle_device_key_rotation i a pk now s = Ok s'.
Proof.
  intros Hi Hs Ha. unfold settle_device_key_rotation. destruct (pending_device_pk a) as [p |] eqn:Ep; [| by eexists].
  destruct (String.eqb_spec pk p) as [-> | Hne].
  - unfold update_agent. destruct (existsb _ _) eqn:Ex; cbn [mbind result_bind]; [| by eexists]. exfalso.
    apply existsb_agent in Ex as (j & b & Hj & Hf). cbn [fst snd device_pk set_keys] in Hf.
    apply andb_true_iff in Hf as [Hb%String.eqb_eq Hji%negb_true_iff%Z.eqb_neq]. destruct Ha as [Hpk | (Hno & _)].
    + apply Hji. eapply (keys_unique _ (sound_keys _ Hs)); [done | done | congruence].
    + by destruct (Hno j b Hj).
  - destruct (pending_device_pk_expiry a) as [e |]; [| by eexists]. destruct (e <? now); by eexists.
Qed.

(** Settling a handshake whose row was resolved in an earlier state. *)
Lemma settle_error i a pk now s e :
  settle_device_key_rotation i a pk now s = Err e <->
  e = IntegrityError "device_pk" /\ pending_device_pk a = Some pk /\ exists j b, j <> i /\ agents s !! j = Some b /\ device_pk b = pk.
Proof.
  unfold settle_device_key_rotation. destruct (pending_device_pk a) as [p |]; [| naive_solver].
  destruct (String.eqb_spec pk p) as [-> | Hne].
  2: { split; [destruct (pending_device_pk_expiry a) as [x |]; [destruct (x <? now) |]; done | intros (_ & [=] & _); congruence]. }
  unfold update_agent. destruct (existsb _ _) eqn:Ex; cbn [mbind result_bind].
  - apply existsb_agent in Ex as (j & b & Hj & Hf). cbn [fst snd device_pk set_keys] in Hf.
    apply andb_true_iff in Hf as [Hb%String.eqb_eq Hji%negb_true_iff%Z.eqb_neq]. split; [intros [= <-] | by intros (-> & _)].
    split_and!; [done | done |]. by exists j, b.
  - split; [done |]. intros (_ & _ & j & b & Hji & Hj & Hb). exfalso. assert (true = false) as Hc; [| discriminate Hc].
    rewrite <- Ex. symmetry. apply existsb_agent. exists j, b. split; [done |]. cbn [device_pk set_keys snd fst].
    by rewrite Hb, String.eqb_refl, (proj2 (Z.eqb_neq j i)).
Qed.

Lemma sound_link pk kind now s r s' : sound s -> link pk kind now s = Ok (r, s') -> sound s'.
Proof.
  intros Hs. unfold link. destruct (resolve_agent_for_handshake pk now s) as [[i a] |] eqn:Er; [| intros [= <- <-]; done].
  apply resolve_spec in Er as [Hi _]. destruct (negb _); [intros [= <- <-]; done |]. intros H. inv_ok H. injection H as <- <-.
  apply sound_event, sound_pin. by eapply sound_settle.
Qed.

(** *** Every operation keeps the registry sound *)

Lemma sound_approve i by_user hw act ovr via now s s' :
  sound s -> approve_agent i by_user hw act ovr via now s = Ok s' -> sound s'.
Proof.
  intros [Hk [H1 H2 H3] Hf] (a & a' & m & Hi & Hn & Ea & Ek & Est & Eap & _ & Eg & Hht & Hkeep & Hnew & En & _)%approve_spec.
  split; [rewrite Ea; by eapply keys_ok_replace | split |].
  - intros j b Hj. rewrite Ea, lookup_insert_Some in Hj. destruct Hj as [[<- <-] | [_ Hj]]; [by rewrite Eap | by apply (H1 j b)].
  - intros j b Hj. rewrite Ea, lookup_insert_Some in Hj. rewrite Eg. destruct Hj as [[<- <-] | [_ Hj]]; [done |].
    intros Hap%(H2 j b); [| done]. by rewrite Hkeep.
  - intros j c Hg. rewrite Eg in Hg. rewrite Ea, lookup_insert_is_Some'. apply Hnew in Hg as [Hg | <-]; [right; by apply (H3 j c) | by left].
  - intros j b Hj. rewrite Ea, lookup_insert_Some in Hj. rewrite En. destruct Hj as [[<- <-] | [_ Hj]]; [by apply (Hf i a) | by apply (Hf j b)].
Qed.

Lemma sound_capabilities i req actor now s s' :
  sound s -> is_Some (agents s !! i) -> set_capability_grants i req actor now s = Ok s' -> sound s'.
Proof.
  intros [Hk [H1 H2 H3] Hf] Hi. unfold set_capability_grants. intros H. inv_ok H. injection H as <-.
  destruct p as [m d]. match goal with E : update_grants _ _ _ _ _ _ = _ |- _ => apply update_grants_spec in E as [H4 H5] end.
  apply sound_event. split; [done | split | done]; cbn [agents grants with_grants fst]; [done | |].
  - intros j a Hj Ha. by apply H4, (H2 j a).
  - intros j c Hg. apply H5 in Hg as [Hg | <-]; [by apply (H3 j c) | done].
Qed.

Lemma sound_create pk fp what now s i s' :
  sound s -> create_pending_agent pk fp what now s = Ok (i, s') ->
  sound s' /\ i = next_agent s /\
  exists a, agents s' = <[i := a]> (agents s) /\ a_status a = Pending /\ pending_device_pk a = None /\ enrollment_token_id a = None /\
    tokens s' = tokens s.
Proof.
  intros Hs. unfold create_pending_agent. intros H. inv_ok H. injection H as <- <-. destruct p as [i s1].
  match goal with E : insert_agent _ _ = _ |- _ => apply sound_inserted in E as (H1 & H2 & H3 & _ & H5); [| done ..] end.
  split; [by apply sound_event |]. split; [done |]. eexists. by split_and!.
Qed.

Lemma sound_create_enrolled pk fp t what now s i s' :
  sound s -> create_enrolled_agent pk fp t what now s = Ok (i, s') -> sound s'.
Proof.
  intros Hs. unfold create_enrolled_agent. intros H. inv_ok H. injection H as <- <-. destruct p as [j s1]. cbn [fst snd] in *.
  match goal with E : create_pending_agent _ _ _ _ _ = _ |- _ => apply sound_create in E as (H1 & _ & a & Ea & _); [| done] end.
  assert (agents s1 !! j = Some a) as Hj by by rewrite Ea, lookup_insert_eq. rewrite Hj in *.
  eapply sound_approve; [| done]. by apply (sound_replace s1 j a).
Qed.

Lemma sound_tokens m s : sound s -> sound (with_tokens m s).
Proof. intros [? [] ?]. done. Qed.

Lemma sound_enroll pk what url t kind lock now s ans s' :
  sound s -> enroll_stream pk what url t kind lock now s = Ok (ans, s') -> sound s'.
Proof.
  intros Hs. unfold enroll_stream. destruct (already_known _); [intros [= <- <-]; done |].
  destruct t as [t |].
  - unfold consume_token. destruct (List.find _ _) as [[ti row] |]; [| intros [= <- <-]; done]. intros H. inv_ok H.
    injection H as <- <-. destruct p as [j s1]. apply sound_pin. eapply sound_create_enrolled; [| done]. by apply sound_tokens.
  - destruct (get_agent_by_device_pk pk s) as [[i a] |]; [intros [= <- <-]; by apply sound_pin |].
    destruct (negb lock); [intros [= <- <-]; done |]. destruct (_ <=? _); [intros [= <- <-]; done |]. intros H. inv_ok H.
    injection H as <- <-. destruct p as [j s1]. apply sound_pin. by match goal with E : create_pending_agent _ _ _ _ _ = _ |- _ => apply sound_create in E as [? _] end.
Qed.

Lemma leftover_cases pk what t now s :
  enroll_leftover pk what t now s = s \/
  exists tok row i s1 fp w, t = Some tok /\ tokens s !! row.1 = Some row.2 /\ live (hash_token tok) now row.2 = true /\
    create_pending_agent pk fp w now (with_tokens (<[row.1 := spend row.2]> (tokens s)) s) = Ok (i, s1) /\
    enroll_leftover pk what t now s = s1.
Proof.
  unfold enroll_leftover. destruct (already_known _); [by left |]. destruct t as [t |]; [| by left].
  unfold consume_token. destruct (List.find _ _) as [[ti row] |] eqn:Ef; [| by left].
  apply find_some in Ef as [Hin%list_elem_of_In%elem_of_map_to_list Hl].
  destruct (create_pending_agent _ _ _ _ _) as [[i s1] |] eqn:Ec; [| by left]. destruct (write_fails _); [by left | right].
  exists t, (ti, row). by eexists i, s1, _, _.
Qed.

Lemma sound_leftover pk what t now s : sound s -> sound (enroll_leftover pk what t now s).
Proof.
  intros Hs. destruct (leftover_cases pk what t now s) as [-> | (tok & row & i & s1 & fp & w & _ & _ & _ & Hc & ->)]; [done |].
  apply sound_create in Hc as [? _]; [done | by apply sound_tokens].
Qed.

Lemma sound_expire_all l s :
  NoDup l.*1 -> (forall i a, (i, a) ∈ l -> agents s !! i = Some a) -> sound s -> sound (expire_all l s).
Proof.
  revert s. induction l as [| [i a] l IH]; intros s Hd Hl Hs; cbn [expire_all]; [done |].
  apply NoDup_cons in Hd as [Hni Hd]. apply IH; [done | |].
  - intros j b Hj. cbn [agents record_event set_agent with_agents]. rewrite lookup_insert_ne; [apply Hl; by right |].
    intros <-. apply Hni. by apply (list_elem_of_fmap_2 fst) in Hj.
  - apply sound_event. apply (sound_replace s i a); [apply Hl; by left | done | done | done | done].
Qed.

Lemma stale_current now s :
  let stale := List.filter (fun a => stale_pending now a.2) (map_to_list (agents s)) in
  NoDup stale.*1 /\ forall i a, (i, a) ∈ stale -> agents s !! i = Some a /\ a_status a = Pending.
Proof.
  cbn zeta. split.
  - eapply (sublist_NoDup _ (map_to_list (agents s)).*1); [apply NoDup_fst_map_to_list |]. apply fmap_sublist.
    induction (map_to_list (agents s)) as [| x l IH]; cbn [List.filter]; [done |]. destruct (stale_pending _ _); by constructor.
  - intros i a Hin. rewrite list_elem_of_In, filter_In, <- list_elem_of_In, elem_of_map_to_list in Hin. destruct Hin as [Hi Hst].
    split; [done |]. unfold stale_pending in Hst. apply andb_true_iff in Hst as [Hst%bool_decide_eq_true _]. done.
Qed.

Lemma sound_delete i s : sound s -> sound (delete_row i s).
Proof.
  intros [[H1 H2 H3] [H4 H5 H6] Hf]. split; [split | split |]; cbn [agents grants next_agent delete_row].
  - intros j k a b [_ Hj]%lookup_delete_Some [_ Hk]%lookup_delete_Some. by apply (H1 j k a b).
  - intros j k a b p [_ Hj]%lookup_delete_Some [_ Hk]%lookup_delete_Some. by apply (H2 j k a b p).
  - intros j a p [_ Hj]%lookup_delete_Some. by apply (H3 j a p).
  - intros j a [_ Hj]%lookup_delete_Some. by apply (H4 j a).
  - intros j a [Hij Hj]%lookup_delete_Some Ha. destruct (H5 j a Hj Ha) as [g Hg]. exists g. apply map_lookup_filter_Some.
    split; [done |]. cbn. congruence.
  - intros j c [g Hg]. apply map_lookup_filter_Some in Hg as [Hg Hji]. cbn in Hji.
    rewrite lookup_delete_ne by congruence. by apply (H6 j c).
  - intros j a Hj. cbn [agents delete_row] in Hj. apply lookup_delete_Some in Hj as [_ Hj]. by apply (Hf j a).
Qed.

Lemma step_sound s s' : step s s' -> sound s -> sound s'.
Proof.
  intros [| | l s1 | | | | i actor s1 s1' H | i actor reason via now s1 s1' H | | i hw actor s1 s1' H | asg prof i actor s1 s1' H | txt lbl url caps ttl n by_user now s1 i s1' H
          | i now s1 s1' H | now s1]; intros Hs.
  - by eapply sound_enroll.
  - by apply sound_leftover.
  - by destruct Hs as [? [] ?].
  - by eapply sound_link.
  - by apply sound_start.
  - by eapply sound_approve.
  - unfold reject_agent in H. destruct (agents s1 !! i) as [a |] eqn:Hi; [| done]. injection H as <-.
    apply sound_event. by apply (sound_replace s1 i a).
  - unfold revoke_agent in H. destruct (agents s1 !! i) as [a |] eqn:Hi; [| done]. injection H as <-.
    apply sound_event. by apply (sound_replace s1 i a).
  - by eapply sound_capabilities.
  - unfold set_hardware_link in H. destruct (agents s1 !! i) as [a |] eqn:Hi; [| done]. destruct (bool_decide _); injection H as <-; [done |].
    apply sound_event. by apply (sound_replace s1 i a).
  - apply delete_agent_done in H as [diff ->]. apply sound_delete. destruct Hs as [Hk Ha Hf]. split; [exact Hk | by destruct Ha | exact Hf].
  - unfold mint_token in H. repeat (match type of H with (if ?b then _ else _) = _ => destruct b; [| done] end).
    injection H as <- <-. destruct Hs as [Hk Ha Hf]. split; [exact Hk | by destruct Ha | exact Hf].
  - unfold revoke_token in H. destruct (tokens s1 !! i) as [t |]; [| done]. destruct (t_revoked_at t); injection H as <-; [done |].
    by apply sound_tokens.
  - destruct (stale_current now s1) as [Hd Hc]. apply sound_expire_all; [done | intros i a Hin; by apply Hc | done].
Qed.

Lemma reachable_sound s : reachable s -> sound s.
Proof.
  unfold reachable. assert (sound empty_db) as H0.
  { split; [split | split |]; cbn; try (intros; simplify_map_eq; done). }
  intros H. revert H0. induction H as [| s1 s2 s3 Hst _ IH]; intros Hs; [done |]. apply IH. by eapply step_sound.
Qed.

(** *** Theorems *)

Lemma link_spec s pk kind now :
  sound s ->
  (exists r s', link pk kind now s = Ok (r, s')) /\
  forall i, (exists s', link pk kind now s = Ok (Some i, s')) <->
            exists a, agents s !! i = Some a /\ a_status a = Active /\ authenticates s i a pk now.
Proof.
  intros Hs. unfold link. destruct (resolve_agent_for_handshake pk now s) as [[j b] |] eqn:Er.
  - apply resolve_spec in Er as [Hj Hb]. destruct (settle_total s j b pk now Hj Hs Hb) as [s1 Es].
    case_bool_decide as Ha; cbn [negb].
    + rewrite Es. cbn [mbind result_bind]. split; [by eexists _, _ |]. intros i. split.
      * intros [s' [= -> _]]. by exists b.
      * intros (a & Hi & _ & Hau). apply resolve_complete in Hau; [| apply Hs | done].
        apply (resolve_complete pk now s j b (sound_keys _ Hs) Hj) in Hb. rewrite Hb in Hau. injection Hau as <- _. by eexists.
    + split; [by eexists _, _ |]. intros i. split; [by intros [s' [=]] |]. intros (a & Hi & Hact & Hau).
      apply resolve_complete in Hau; [| apply Hs | done]. apply (resolve_complete pk now s j b (sound_keys _ Hs) Hj) in Hb.
      rewrite Hb in Hau. injection Hau as <- <-. done.
  - split; [by eexists _, _ |]. intros i. split; [by intros [s' [=]] |]. intros (a & Hi & _ & Hau).
    apply resolve_complete in Hau; [congruence | apply Hs | done].
Qed.

(** C17: A handshake that is resolved and settled against one state of the
    registry never fails with an error, and is accepted as an agent exactly when
    the agent is active and the key is its device key, or its pending key within
    the rotation window while no agent owns that key as its device key.  In
    particular an active agent can always link with its current key, and no key
    ever links as two agents.  When other transactions commit between resolving
    and settling, settling fails exactly when one of them gave the pending key
    that is being promoted to another agent, and then on the unique key. *)
Theorem link_exact s pk kind now :
  reachable s ->
  (exists r s', link pk kind now s = Ok (r, s')) /\
  (forall i, (exists s', link pk kind now s = Ok (Some i, s')) <->
             exists a, agents s !! i = Some a /\ a_status a = Active /\ authenticates s i a pk now) /\
  (forall i a s1, resolve_agent_for_handshake pk now s = Some (i, a) -> rtc step s s1 -> agents s1 !! i = Some a ->
     (forall e, settle_device_key_rotation i a pk now s1 = Err e <->
        e = IntegrityError "device_pk" /\ pending_device_pk a = Some pk /\
        exists j b, j <> i /\ agents s1 !! j = Some b /\ device_pk b = pk)).
Proof.
  intros Hs%reachable_sound. destruct (link_spec s pk kind now Hs) as [H1 H2]. split_and!; [done | done |].
  intros i a s1 _ _ _ e. apply settle_error.
Qed.

(** What a link does to the row of its agent. *)
Lemma link_row s pk kind now i s' :
  link pk kind now s = Ok (Some i, s') ->
  exists a a', agents s !! i = Some a /\ agents s' = <[i := a']> (agents s) /\ a_status a' = a_status a /\
    (pending_device_pk a = Some pk -> key_columns a' = (pk, None, None)) /\
    (pending_device_pk a <> Some pk -> device_pk a' = device_pk a).
Proof.
  unfold link. destruct (resolve_agent_for_handshake pk now s) as [[j a] |] eqn:Er; [| done].
  apply resolve_spec in Er as [Hi _]. destruct (negb _); [done |]. intros H. inv_ok H. injection H as <- <-.
  match goal with E : settle_device_key_rotation _ _ _ _ _ = _ |- _ => apply settle_spec in E end.
  assert (forall s1 b, agents s1 = <[j := b]> (agents s) -> exists b', agents (record_server_key_pin j kind now s1) = <[j := b']> (agents s) /\
            a_status b' = a_status b /\ key_columns b' = key_columns b) as Hpin.
  { intros s1 b E1. unfold record_server_key_pin. rewrite E1, lookup_insert_eq. destruct (String.eqb kind "successor");
      cbn [agents set_agent with_agents]; rewrite E1, insert_insert_eq; by eexists. }
  exists a. destruct Heqr as [(p' & d & Hp & -> & _ & ->) | [(p' & e & Hp & Hne & He & Hlt & ->) | (-> & Hp & _)]].
  - destruct (Hpin (record_event j "key_rotated" None d (set_agent j (set_keys p' None None a) s)) _ eq_refl) as (b & Eb & E1 & E2).
    exists b. split_and!; [done | done | done | by rewrite E2 |]. by rewrite Hp.
  - destruct (Hpin (record_event j "key_rotation_expired" None JNull (set_agent j (set_keys (device_pk a) None None a) s)) _ eq_refl)
      as (b & Eb & E1 & E2).
    exists b. split_and!; [done | done | done | by rewrite Hp; intros [= ->] |]. intros _. by injection E2.
  - destruct (Hpin s a) as (b & Eb & E1 & E2); [by rewrite insert_id |].
    exists b. split_and!; [done | done | done | done |]. intros _. by injection E2.
Qed.

(** C18: A device key rotation never strands its agent.  Once started,
    the current key keeps linking at any time and the successor links exactly
    until the window closes; the first link with the successor promotes it, and
    from then on it links at any time and the old key no longer does (unless
    another agent had announced that very key as its own successor). *)
Theorem rotation_never_strands s i a successor window now s1 :
  reachable s -> agents s !! i = Some a -> a_status a = Active ->
  start_device_key_rotation isoformat i a successor window now s = (true, s1) ->
  let closes := now + default DEVICE_KEY_ROTATION_WINDOW_SECONDS window in
  (forall t kind, exists s2, link (device_pk a) kind t s1 = Ok (Some i, s2)) /\
  (forall t kind, (exists s2, link successor kind t s1 = Ok (Some i, s2)) <-> t <= closes) /\
  (forall t kind s2, link successor kind t s1 = Ok (Some i, s2) -> forall t' kind',
     (exists s3, link successor kind' t' s2 = Ok (Some i, s3)) /\
     ((forall j b, agents s !! j = Some b -> pending_device_pk b <> Some (device_pk a)) ->
      exists s3, link (device_pk a) kind' t' s2 = Ok (None, s3))).
Proof.
  intros Hs%reachable_sound Hi Hact Hst closes. pose proof (sound_start i a successor window now s Hi Hs) as Hs1. rewrite Hst in Hs1. cbn [snd] in Hs1.
  apply start_rotation_spec in Hst as (_ & Hne & Hfree & Ea & _). fold closes in Ea.
  set (a1 := set_keys (device_pk a) (Some successor) (Some closes) a) in *.
  assert (agents s1 !! i = Some a1) as Hi1 by by rewrite Ea, lookup_insert_eq.
  assert (forall j b, agents s1 !! j = Some b -> device_pk b <> successor) as Hno.
  { intros j b Hj. rewrite Ea, lookup_insert_Some in Hj. destruct Hj as [[<- <-] | [Hij Hj]]; [cbn; congruence |].
    apply (Hfree j b Hj). congruence. }
  split_and!.
  - intros t kind. apply (link_spec s1 _ kind t Hs1). exists a1. split_and!; [done | done | by left].
  - intros t kind. rewrite (proj2 (link_spec s1 successor kind t Hs1) i). split.
    + intros (b & Hb & _ & [Hpk | (_ & _ & e & He & Hle)]); rewrite Hi1 in Hb; injection Hb as <-; [cbn in Hpk; congruence |].
      cbn in He. by injection He as <-.
    + intros Hle. exists a1. split_and!; [done | done |]. right. split_and!; [done | done |]. by exists closes.
  - intros t kind s2 Hl t' kind'. pose proof (sound_link _ _ _ _ _ _ Hs1 Hl) as Hs2.
    apply link_row in Hl as (b & a2 & Hb & Ea2 & Est & Hprom & _). rewrite Hi1 in Hb. injection Hb as <-.
    specialize (Hprom eq_refl). injection Hprom as E1 E2 E3.
    assert (agents s2 !! i = Some a2) as Hi2 by by rewrite Ea2, lookup_insert_eq.
    split; [apply (link_spec s2 _ kind' t' Hs2); exists a2; split_and!; [done | by rewrite Est | by left] |].
    intros Hclaim. destruct (link_spec s2 (device_pk a) kind' t' Hs2) as [(r & s3 & Hr) Hx]. exists s3. destruct r as [j |]; [| done]. exfalso.
    destruct (proj1 (Hx j) (ex_intro _ s3 Hr)) as (b & Hj & _ & Hau). rewrite Ea2, lookup_insert_Some in Hj. destruct Hj as [[<- <-] | [Hij Hj]].
    + destruct Hau as [Hpk | (_ & Hp & _)]; congruence.
    + rewrite Ea, lookup_insert_ne in Hj by done. destruct Hau as [Hpk | (_ & Hp & _)]; [| by destruct (Hclaim j b Hj)].
      apply Hij. by eapply (keys_unique _ (sound_keys _ Hs)).
Qed.

(** *** Withdrawal is final *)

(** What a step can do to the approval of an agent that has grants. *)
Definition keeps (s s' : db) : Prop :=
  next_agent s <= next_agent s' /\
  forall i a', i < next_agent s -> agents s' !! i = Some a' -> exists a, agents s !! i = Some a /\
    (is_Some (grants s !! (i, "host_telemetry")) -> approved_at a' = approved_at a /\ (a_status a' = Active -> a_status a = Active)).

Lemma keeps_replace s s' i a a' :
  next_agent s' = next_agent s -> agents s !! i = Some a -> agents s' = <[i := a']> (agents s) ->
  approved_at a' = approved_at a -> (a_status a' = Active -> a_status a = Active) -> keeps s s'.
Proof.
  intros En Hi Ea Hap Hst. split; [lia |]. intros j b _ Hj. rewrite Ea, lookup_insert_Some in Hj.
  destruct Hj as [[<- <-] | [_ Hj]]; [by exists a | by exists b].
Qed.

Lemma keeps_same s s' : next_agent s <= next_agent s' -> agents s' = agents s -> keeps s s'.
Proof. intros En Ea. split; [done |]. intros i a _ Hi. rewrite Ea in Hi. by exists a. Qed.

Lemma keeps_new s s' a : next_agent s <= next_agent s' -> agents s' = <[next_agent s := a]> (agents s) -> keeps s s'.
Proof.
  intros En Ea. split; [done |]. intros i b Hlt Hi. rewrite Ea, lookup_insert_ne in Hi by lia. by exists b.
Qed.

Lemma pin_agents i kind now s :
  next_agent (record_server_key_pin i kind now s) = next_agent s /\
  (agents s !! i = None /\ agents (record_server_key_pin i kind now s) = agents s \/
   exists a a', agents s !! i = Some a /\ agents (record_server_key_pin i kind now s) = <[i := a']> (agents s) /\
     approved_at a' = approved_at a /\ a_status a' = a_status a /\ enrollment_token_id a' = enrollment_token_id a).
Proof.
  unfold record_server_key_pin. destruct (agents s !! i) as [a |]; [| split; [done | by left]].
  destruct (String.eqb kind "successor"); (split; [done |]; right; eexists a, _; by split_and!).
Qed.

Lemma keeps_link pk kind now s r s' : link pk kind now s = Ok (r, s') -> keeps s s'.
Proof.
  unfold link. destruct (resolve_agent_for_handshake pk now s) as [[i a] |] eqn:Er; [| intros [= <- <-]; by apply keeps_same].
  apply resolve_spec in Er as [Hi _]. destruct (negb _); [intros [= <- <-]; by apply keeps_same |].
  destruct (settle_device_key_rotation i a pk now s) as [s1 |] eqn:E; cbn [mbind result_bind]; [| done]. intros [= <- <-].
  assert (exists b, agents s1 = <[i := b]> (agents s) /\ approved_at b = approved_at a /\ a_status b = a_status a /\ next_agent s1 = next_agent s)
    as (b & Eb & E1 & E2 & E3).
  { apply settle_spec in E as [(p & d & _ & _ & _ & ->) | [(p & e & _ & _ & _ & _ & ->) | [-> _]]]; [by eexists | by eexists |].
    exists a. by rewrite insert_id. }
  destruct (pin_agents i kind now s1) as [En [[Hn _] | (c & c' & Hc & Ec & F1 & F2 & _)]]; [by rewrite Eb, lookup_insert_eq in Hn |].
  rewrite Eb, lookup_insert_eq in Hc. injection Hc as <-. rewrite Eb, insert_insert_eq in Ec.
  eapply (keeps_replace s _ i a c'); [cbn [next_agent record_event]; by rewrite En | done | done | congruence | congruence].
Qed.

Lemma keeps_approve i by_user hw act ovr via now s s' : approve_agent i by_user hw act ovr via now s = Ok s' -> keeps s s'.
Proof.
  intros (a & a' & m & Hi & Hn & Ea & _ & _ & _ & _ & _ & _ & _ & _ & En & _)%approve_spec. split; [lia |].
  intros j b _ Hj. rewrite Ea, lookup_insert_Some in Hj. destruct Hj as [[<- <-] | [_ Hj]]; [| by exists b].
  exists a. split; [done |]. rewrite Hn. by intros [].
Qed.

(** An enrollment adds at most the next agent. *)
Lemma create_agents pk fp what now s i s' :
  create_pending_agent pk fp what now s = Ok (i, s') ->
  i = next_agent s /\ next_agent s' = next_agent s + 1 /\ tokens s' = tokens s /\
  exists a, agents s' = <[i := a]> (agents s) /\ a_status a = Pending /\ enrollment_token_id a = None.
Proof.
  unfold create_pending_agent, insert_agent. cbn [device_pk]. destruct (get_agent_by_device_pk pk s); cbn [mbind result_bind]; [done |].
  intros [= <- <-]. split_and!; [done | done | done |]. by eexists.
Qed.

Lemma create_enrolled_agents pk fp t what now s i s' :
  create_enrolled_agent pk fp t what now s = Ok (i, s') ->
  i = next_agent s /\ next_agent s' = next_agent s + 1 /\ tokens s' = tokens s /\
  exists a, agents s' = <[i := a]> (agents s) /\ a_status a = Active /\ enrollment_token_id a = Some t.1.
Proof.
  unfold create_enrolled_agent. destruct (create_pending_agent _ _ _ _ _) as [[j s1] |] eqn:Ec; cbn [mbind result_bind fst snd]; [| done].
  apply create_agents in Ec as (-> & En & Et & a & Ea & Hst & Htk). rewrite Ea, lookup_insert_eq. intros H. inv_ok H. injection H as <- <-.
  match goal with E : approve_agent _ _ _ _ _ _ _ _ = _ |- _ =>
    apply approve_spec in E as (b & b' & m & Hb & _ & Eb & _ & Hact & _ & Htk' & _ & _ & _ & _ & En' & Et' & _) end.
  cbn [agents set_agent with_agents next_agent tokens] in *. rewrite lookup_insert_eq in Hb. injection Hb as <-.
  rewrite Ea, !insert_insert_eq in Eb. split_and!; [done | congruence | congruence |]. exists b'. split_and!; [done | done |]. by rewrite Htk'.
Qed.

Lemma enroll_cases pk what url t kind lock now s ans s' :
  enroll_stream pk what url t kind lock now s = Ok (ans, s') ->
  (s' = s) \/
  (exists i a, agents s !! i = Some a /\ s' = record_server_key_pin i kind now s) \/
  (exists i s1, (exists fp w, create_pending_agent pk fp w now s = Ok (i, s1)) /\ s' = record_server_key_pin i kind now s1) \/
  (exists tok i s1 row, t = Some tok /\ tokens s !! row.1 = Some row.2 /\ live (hash_token tok) now row.2 = true /\
     (exists fp w, create_enrolled_agent pk fp row w now (with_tokens (<[row.1 := spend row.2]> (tokens s)) s) = Ok (i, s1)) /\
     s' = record_server_key_pin i kind now s1).
Proof.
  unfold enroll_stream. destruct (already_known _); [intros [= <- <-]; by left |]. destruct t as [t |].
  - unfold consume_token. destruct (List.find _ _) as [row |] eqn:Ef; [| intros [= <- <-]; by left].
    apply find_some in Ef as [Hin Hl]. apply list_elem_of_In in Hin. destruct row as [ti row]. apply elem_of_map_to_list in Hin. intros H. inv_ok H.
    injection H as <- <-. right. right. right. destruct p as [i s1]. eexists t, i, s1, (ti, row). split_and!; [done | done | done | | done]. by eexists _, _.
  - destruct (get_agent_by_device_pk pk s) as [[i a] |] eqn:E.
    + intros [= <- <-]. right. left. apply find_pk in E as [Hi _]. by exists i, a.
    + destruct (negb lock); [intros [= <- <-]; by left |]. destruct (_ <=? _); [intros [= <- <-]; by left |]. intros H. inv_ok H.
      injection H as <- <-. right. right. left. destruct p as [i s1]. exists i, s1. split; [by eexists _, _ | done].
Qed.

Lemma keeps_pinned i kind now s s1 a :
  next_agent s <= next_agent s1 -> agents s1 = <[next_agent s := a]> (agents s) -> keeps s (record_server_key_pin i kind now s1) \/ i <> next_agent s.
Proof.
  intros Hn Ea. destruct (decide (i = next_agent s)) as [-> |]; [left | by right].
  destruct (pin_agents (next_agent s) kind now s1) as [En [[_ Eb] | (b & b' & _ & Eb & _)]]; [apply (keeps_new s _ a) | apply (keeps_new s _ b')].
  1,3: lia. all: by rewrite Eb, Ea, ?insert_insert_eq.
Qed.

Lemma keeps_enroll pk what url t kind lock now s ans s' : enroll_stream pk what url t kind lock now s = Ok (ans, s') -> keeps s s'.
Proof.
  intros [-> | [(i & a & Hi & ->) | [(i & s1 & (fp & w & Hc) & ->) | (tok & i & s1 & row & _ & _ & _ & (fp & w & Hc) & ->)]]]%enroll_cases.
  - by apply keeps_same.
  - destruct (pin_agents i kind now s) as [En [[Hn _] | (b & b' & Hb & Eb & E1 & E2 & _)]]; [congruence |].
    rewrite Hi in Hb. injection Hb as <-. eapply (keeps_replace s _ i a b'); [done | done | done | done | congruence].
  - apply create_agents in Hc as (-> & En & _ & a & Ea & _). by destruct (keeps_pinned (next_agent s) kind now s s1 a) as [| []]; [lia | | |].
  - apply create_enrolled_agents in Hc as (-> & En & _ & a & Ea & _). cbn [next_agent agents with_tokens] in *.
    by destruct (keeps_pinned (next_agent s) kind now s s1 a) as [| []]; [lia | | |].
Qed.

Lemma keeps_leftover pk what t now s : keeps s (enroll_leftover pk what t now s).
Proof.
  destruct (leftover_cases pk what t now s) as [-> | (tok & row & i & s1 & fp & w & _ & _ & _ & Hc & ->)]; [by apply keeps_same |].
  apply create_agents in Hc as (-> & En & _ & a & Ea & _). cbn [next_agent agents with_tokens] in *. apply (keeps_new s _ a); [lia | done].
Qed.

Lemma expire_all_rows l s :
  next_agent (expire_all l s) = next_agent s /\ grants (expire_all l s) = grants s /\ tokens (expire_all l s) = tokens s /\
  (NoDup l.*1 -> (forall i a, (i, a) ∈ l -> agents s !! i = Some a) ->
   forall i, agents (expire_all l s) !! i = if bool_decide (i ∈ l.*1) then set_status Rejected <$> agents s !! i else agents s !! i).
Proof.
  revert s. induction l as [| [k a] l IH]; intros s; cbn [expire_all]; [done |].
  destruct (IH (record_event k "rejected" None (JObj [("reason", JStr "pending_expired")]) (set_agent k (set_status Rejected a) s)))
    as (E1 & E2 & E3 & E4). split_and!; [done | done | done |]. intros [Hk Hd]%NoDup_cons Hl i. rewrite E4; [| done |].
  - cbn [agents record_event set_agent with_agents fmap list_fmap fst].
    destruct (decide (i = k)) as [-> | Hik].
    + rewrite bool_decide_eq_false_2, bool_decide_eq_true_2, lookup_insert_eq by (done || by left). by rewrite (Hl k a) by by left.
    + rewrite lookup_insert_ne by done. by rewrite (bool_decide_ext (i ∈ k :: l.*1) (i ∈ l.*1)) by set_solver.
  - intros j b Hj. cbn [agents record_event set_agent with_agents]. rewrite lookup_insert_ne; [apply Hl; by right |].
    intros <-. apply Hk. by apply (list_elem_of_fmap_2 fst) in Hj.
Qed.

Lemma keeps_expire now s : keeps s (expire_stale_pending_agents now s).2.
Proof.
  destruct (stale_current now s) as [Hd Hc]. cbn [snd expire_stale_pending_agents].
  destruct (expire_all_rows (List.filter (fun a => stale_pending now a.2) (map_to_list (agents s))) s) as (En & _ & _ & Ea).
  split; [lia |]. intros i a' _ Hi. rewrite Ea in Hi; [| done | intros j b Hj; by apply Hc].
  case_bool_decide; [| by exists a']. destruct (agents s !! i) as [a |]; [| done]. injection Hi as <-. by exists a.
Qed.

Lemma step_keeps s s' : step s s' -> keeps s s'.
Proof.
  intros [| | l s1 | | i a succ w now s1 Hi Hact | | i actor s1 s1' H | i actor reason via now s1 s1' H | i req actor now s1 s1' _ H | i hw actor s1 s1' H
          | i s1 | txt lbl url caps ttl n by_user now s1 i s1' H | i now s1 s1' H | now s1].
  - by eapply keeps_enroll.
  - apply keeps_leftover.
  - by apply keeps_same.
  - by eapply keeps_link.
  - destruct (start_device_key_rotation _ _ _ _ _ _ _) as [[] s2] eqn:E; apply start_rotation_spec in E; cbn [snd].
    + destruct E as (_ & _ & _ & Ea & d & ->). by eapply (keeps_replace s1 _ i a).
    + destruct E as [d ->]. by apply keeps_same.
  - by eapply keeps_approve.
  - unfold reject_agent in H. destruct (agents s1 !! i) as [a |] eqn:Hi; [| done]. injection H as <-.
    by eapply (keeps_replace s1 _ i a).
  - unfold revoke_agent in H. destruct (agents s1 !! i) as [a |] eqn:Hi; [| done]. injection H as <-.
    by eapply (keeps_replace s1 _ i a).
  - unfold set_capability_grants in H. inv_ok H. injection H as <-. by apply keeps_same.
  - unfold set_hardware_link in H. destruct (agents s1 !! i) as [a |] eqn:Hi; [| done]. destruct (bool_decide _); injection H as <-; [by apply keeps_same |].
    by eapply (keeps_replace s1 _ i a).
  - apply delete_agent_done in H as [diff ->]. split; [done |]. intros j a _ Hj. cbn [agents delete_row] in Hj. apply lookup_delete_Some in Hj as [_ Hj]. by exists a.
  - unfold mint_token in H. repeat (match type of H with (if ?b then _ else _) = _ => destruct b; [| done] end).
    injection H as <- <-. by apply keeps_same.
  - unfold revoke_token in H. destruct (tokens s1 !! i) as [t |]; [| done]. destruct (t_revoked_at t); injection H as <-; by apply keeps_same.
  - apply keeps_expire.
Qed.

(** An agent that was approved once has its grant rows, and approving it again
    violates their unique key. *)
Lemma approve_twice s i a by_user hw act ovr via now s' :
  sound s -> agents s !! i = Some a -> is_Some (approved_at a) -> approve_agent i by_user hw act ovr via now s <> Ok s'.
Proof.
  intros Hs Hi Hap (b & b' & m & _ & Hn & _)%approve_spec.
  apply (approved_granted _ (sound_approvals _ Hs) i a Hi) in Hap. rewrite Hn in Hap. by destruct Hap.
Qed.

End Identity.

(** *** An instance *)

Fixpoint repeated (n : nat) (c : ascii) : string := match n with O => EmptyString | S n => String c (repeated n c) end.
Definition lab_pk : string := repeated 64 "a".
Definition lab_successor : string := repeated 64 "b".
Definition lab_clock (z : Z) : string := pretty z.

Definition state_of {A} (s : db) (r : result error (A * db)) : db := match r with Ok (_, s') => s' | Err _ => s end.
Definition db_of (s : db) (r : result error db) : db := match r with Ok s' => s' | Err _ => s end.

Definition lab_pending : db := state_of empty_db (enroll_stream lab_pk [] JNull None "current" true 0 empty_db).
Definition lab_active : db := db_of lab_pending (approve_agent 1 (Some 7) None None None None 10 lab_pending).
Definition lab_revoked : db := db_of lab_active (revoke_agent 1 (Some 7) (Some "lost") None 20 lab_active).

Lemma lab_pending_reachable : reachable lab_clock lab_pending.
Proof.
  unfold reachable. eapply rtc_l; [| apply rtc_refl].
  apply (step_enroll _ lab_pk [] JNull None "current" true 0 empty_db (Enrolled 1 Pending)). vm_compute. reflexivity.
Qed.

Lemma lab_active_reachable : reachable lab_clock lab_active.
Proof.
  eapply rtc_r; [exact lab_pending_reachable |]. apply (step_approve _ 1 (Some 7) None None None None 10 lab_pending). vm_compute. reflexivity.
Qed.

Lemma lab_revoked_reachable : reachable lab_clock lab_revoked.
Proof.
  eapply rtc_r; [exact lab_active_reachable |]. apply (step_revoke _ 1 (Some 7) (Some "lost") None 20 lab_active). vm_compute. reflexivity.
Qed.

Definition lab_agent (s : db) : agent :=
  match agents s !! 1 with Some a => a | None => Agent "" "" Pending [] None None None None None None 0 None None None None None end.

Lemma link_exact_witness : exists s', link lab_pk "current" 30 lab_active = Ok (Some 1, s').
Proof.
  apply (link_exact lab_clock lab_active lab_pk "current" 30 lab_active_reachable). exists (lab_agent lab_active).
  split; [vm_compute; reflexivity |]. split; [vm_compute; reflexivity | left; vm_compute; reflexivity].
Defined.

Lemma rotation_never_strands_witness :
  let s1 := (start_device_key_rotation lab_clock 1 (lab_agent lab_active) lab_successor None 100 lab_active).2 in
  exists s2, link lab_successor "current" 1000 s1 = Ok (Some 1, s2).
Proof.
  intros s1. destruct (rotation_never_strands lab_clock lab_active 1 (lab_agent lab_active) lab_successor None 100 s1) as (_ & H & _).
  - exact lab_active_reachable.
  - vm_compute. reflexivity.
  - vm_compute. reflexivity.
  - unfold s1. vm_compute. reflexivity.
  - apply H. vm_compute. discriminate.
Defined.

End Identity.
