(* ===== verification/AgentTokens.v ===== *)
(** What an enrollment token can do, the enrollments and approvals that cannot
    succeed, and the timeline of authorization decisions. *)
From S2P Require Import Prelude Sha256 Json Regex Ip AgentScope AgentCapabilities AgentRegistry AgentIdentity.
Import Json Ip.
Open Scope Z_scope.

Module Tokens.
Import AgentScope Capabilities Registry Identity.
#[local] Opaque Sha256.hexdigest.

Section Tokens.
Context {T : IpText}.
Variable isoformat : Z -> string.
#[local] Abbreviation step := (step isoformat).
#[local] Abbreviation reachable := (reachable isoformat).

Definition through (i : Z) (a : agent) : Prop := enrollment_token_id a = Some i.
#[export] Instance through_dec i a : base.Decision (through i a).
Proof. unfold through. apply _. Defined.

Definition count (i : Z) (m : gmap Z agent) : nat := size (filter (fun a => through i a.2) m).

Record tokens_ok (s : db) : Prop := {
  token_fresh i t : tokens s !! i = Some t -> i < next_token s;
  token_bounds i t : tokens s !! i = Some t -> Z.of_nat (count i (agents s)) <= uses t <= max_uses t;
  token_known j a i : agents s !! j = Some a -> through i a -> is_Some (tokens s !! i)
}.

(** *** Counting *)

Lemma count_replace i m j a a' : m !! j = Some a -> (through i a' <-> through i a) -> count i (<[j := a']> m) = count i m.
Proof.
  intros Hj Hth. unfold count. destruct (decide (through i a')) as [Ht | Ht].
  - rewrite map_filter_insert_True by done. apply map_size_insert_Some. exists a. apply map_lookup_filter_Some. split; [done |]. by apply Hth.
  - rewrite map_filter_insert_False by done. f_equal. apply map_filter_delete_not. intros y Hy. rewrite Hj in Hy. injection Hy as <-. cbn. tauto.
Qed.

Lemma count_new i m j a : m !! j = None -> count i (<[j := a]> m) = (count i m + if decide (through i a) then 1 else 0)%nat.
Proof.
  intros Hj. unfold count. destruct (decide (through i a)) as [Ht | Ht].
  - rewrite map_filter_insert_True by done. rewrite map_size_insert_None; [lia |]. by apply map_lookup_filter_None_2; left.
  - rewrite map_filter_insert_False by done. rewrite Nat.add_0_r. f_equal. apply map_filter_delete_not. intros y Hy. congruence.
Qed.

Lemma count_delete i m j : (count i (delete j m) <= count i m)%nat.
Proof. unfold count. rewrite map_filter_delete. apply map_subseteq_size, delete_subseteq. Qed.

Lemma tokens_ok_replace s s' j a a' :
  agents s !! j = Some a -> agents s' = <[j := a']> (agents s) -> enrollment_token_id a' = enrollment_token_id a ->
  tokens s' = tokens s -> next_token s' = next_token s -> tokens_ok s -> tokens_ok s'.
Proof.
  intros Hj Ea Et Es En [H1 H2 H3]. split; rewrite ?Es, ?En, ?Ea.
  - done.
  - intros i t Hi. rewrite (count_replace i _ j a a'); [by apply H2 | done |]. unfold through. by rewrite Et.
  - intros k b i Hk. rewrite lookup_insert_Some in Hk. destruct Hk as [[<- <-] | [_ Hk]]; [| by apply (H3 k b)].
    unfold through. rewrite Et. by apply (H3 j a).
Qed.

Lemma tokens_ok_same s s' : agents s' = agents s -> tokens s' = tokens s -> next_token s' = next_token s -> tokens_ok s -> tokens_ok s'.
Proof. intros Ea Es En [H1 H2 H3]. split; by rewrite ?Ea, ?Es, ?En. Qed.

Lemma pin_tokens i kind now s : tokens (record_server_key_pin i kind now s) = tokens s /\ next_token (record_server_key_pin i kind now s) = next_token s.
Proof. unfold record_server_key_pin. destruct (agents s !! i); [| done]. by destruct (String.eqb kind "successor"). Qed.

Lemma tokens_ok_pin i kind now s : tokens_ok s -> tokens_ok (record_server_key_pin i kind now s).
Proof.
  destruct (pin_tokens i kind now s) as [E1 E2].
  destruct (pin_agents i kind now s) as [_ [[_ Ea] | (a & a' & Hi & Ea & _ & _ & Et)]]; [by apply tokens_ok_same | by eapply tokens_ok_replace].
Qed.

Lemma tokens_ok_event i ty actor d s : tokens_ok s -> tokens_ok (record_event i ty actor d s).
Proof. by apply tokens_ok_same. Qed.

(** *** Every operation keeps the bounds *)

Lemma tokens_ok_link pk kind now s r s' : tokens_ok s -> link pk kind now s = Ok (r, s') -> tokens_ok s'.
Proof.
  intros Hs. unfold link. destruct (resolve_agent_for_handshake pk now s) as [[i a] |] eqn:Er; [| by intros [= <- <-]].
  apply resolve_spec in Er as [Hi _]. destruct (negb _); [by intros [= <- <-] |].
  destruct (settle_device_key_rotation i a pk now s) as [s1 |] eqn:E; cbn [mbind result_bind]; [| done]. intros [= <- <-].
  apply tokens_ok_event, tokens_ok_pin.
  apply settle_spec in E as [(p & d & _ & _ & _ & ->) | [(p & e & _ & _ & _ & _ & ->) | [-> _]]]; [| | done].
  - apply tokens_ok_event. by eapply (tokens_ok_replace s _ i a).
  - apply tokens_ok_event. by eapply (tokens_ok_replace s _ i a).
Qed.

Lemma fresh_id s : sound s -> agents s !! next_agent s = None.
Proof. intros Hs. destruct (agents s !! next_agent s) as [a |] eqn:E; [| done]. apply (sound_fresh _ Hs) in E. lia. Qed.

Lemma create_next_token pk fp what now s i s' : create_pending_agent pk fp what now s = Ok (i, s') -> next_token s' = next_token s.
Proof.
  unfold create_pending_agent, insert_agent. cbn [device_pk]. destruct (get_agent_by_device_pk pk s); cbn [mbind result_bind]; [done |]. by intros [= <- <-].
Qed.

Lemma create_enrolled_next_token pk fp t what now s i s' : create_enrolled_agent pk fp t what now s = Ok (i, s') -> next_token s' = next_token s.
Proof.
  unfold create_enrolled_agent. destruct (create_pending_agent _ _ _ _ _) as [[j s1] |] eqn:Ec; cbn [mbind result_bind fst snd]; [| done].
  apply create_next_token in Ec as <-. destruct (approve_agent _ _ _ _ _ _ _ _) as [s2 |] eqn:Ea; cbn [mbind result_bind]; [| done].
  intros [= _ <-]. apply approve_spec in Ea as (a & a' & m & _ & _ & _ & _ & _ & _ & _ & _ & _ & _ & _ & _ & _ & ->). by destruct (agents s1 !! j).
Qed.

Lemma live_spec h now t : live h now t = true <-> token_hash t = h /\ uses t < max_uses t /\ t_revoked_at t = None /\ now < expires_at t.
Proof. unfold live. rewrite !andb_true_iff, String.eqb_eq, bool_decide_eq_true, !Z.ltb_lt. tauto. Qed.

Lemma tokens_ok_enroll pk what url t kind lock now s ans s' :
  sound s -> tokens_ok s -> enroll_stream pk what url t kind lock now s = Ok (ans, s') -> tokens_ok s'.
Proof.
  intros Hs Ht [-> | [(i & a & Hi & ->) | [(i & s1 & (fp & w & Hc) & ->) | (tok & i & s1 & [ti row] & _ & Hrow & Hl & (fp & w & Hc) & ->)]]]%enroll_cases;
    [done | by apply tokens_ok_pin | |]; apply tokens_ok_pin; pose proof (fresh_id s Hs) as Hn; destruct Ht as [H1 H2 H3].
  - pose proof (create_next_token _ _ _ _ _ _ _ Hc) as Etk. apply create_agents in Hc as (-> & _ & Es & a & Ea & _ & Hth).
    split; rewrite ?Es, ?Etk, ?Ea; [done | |].
    + intros k t' Hk. rewrite count_new by done. rewrite decide_False by (unfold through; congruence). rewrite Nat.add_0_r. by apply H2.
    + intros k b j Hk. rewrite lookup_insert_Some in Hk. destruct Hk as [[<- <-] | [_ Hk]]; [unfold through; congruence | by apply (H3 k b)].
  - pose proof (create_enrolled_next_token _ _ _ _ _ _ _ _ Hc) as Etk. apply create_enrolled_agents in Hc as (-> & _ & Es & a & Ea & _ & Hth).
    cbn [fst snd tokens next_token agents next_agent with_tokens] in *. apply live_spec in Hl as (_ & Hu & _). split; rewrite ?Es, ?Etk, ?Ea.
    + intros k t' Hk. rewrite lookup_insert_Some in Hk. destruct Hk as [[<- _] | [_ Hk]]; [by apply (H1 ti row) | by apply (H1 k t')].
    + intros k t' Hk. rewrite count_new by done. rewrite lookup_insert_Some in Hk. destruct Hk as [[<- <-] | [Hne Hk]].
      * rewrite decide_True by done. specialize (H2 ti row Hrow). cbn [uses max_uses spend]. lia.
      * rewrite decide_False by (unfold through; congruence). specialize (H2 k t' Hk). lia.
    + intros k b j Hk Hb. rewrite lookup_insert_is_Some'. rewrite lookup_insert_Some in Hk.
      destruct Hk as [[<- <-] | [_ Hk]]; [left; unfold through in Hb; congruence | right; by apply (H3 k b)].
Qed.

Lemma tokens_ok_leftover pk what t now s : sound s -> tokens_ok s -> tokens_ok (enroll_leftover pk what t now s).
Proof.
  intros Hs Ht. destruct (leftover_cases pk what t now s) as [-> | (tok & [ti row] & i & s1 & fp & w & _ & Hrow & Hl & Hc & ->)]; [done |].
  pose proof (fresh_id s Hs) as Hn. destruct Ht as [H1 H2 H3]. pose proof (create_next_token _ _ _ _ _ _ _ Hc) as Etk.
  apply create_agents in Hc as (-> & _ & Es & a & Ea & _ & Hth). cbn [fst snd tokens next_token agents next_agent with_tokens] in *.
  apply live_spec in Hl as (_ & Hu & _). split; rewrite ?Es, ?Etk, ?Ea.
  - intros k t' Hk. rewrite lookup_insert_Some in Hk. destruct Hk as [[<- _] | [_ Hk]]; [by apply (H1 ti row) | by apply (H1 k t')].
  - intros k t' Hk. rewrite count_new by done. rewrite decide_False by (unfold through; congruence). rewrite lookup_insert_Some in Hk.
    destruct Hk as [[<- <-] | [Hne Hk]]; [specialize (H2 ti row Hrow); cbn [uses max_uses spend]; lia | specialize (H2 k t' Hk); lia].
  - intros k b j Hk Hb. rewrite lookup_insert_is_Some'. rewrite lookup_insert_Some in Hk.
    destruct Hk as [[<- <-] | [_ Hk]]; [unfold through in Hb; congruence | right; by apply (H3 k b)].
Qed.

Lemma tokens_ok_expire l s :
  NoDup l.*1 -> (forall i a, (i, a) ∈ l -> agents s !! i = Some a) -> tokens_ok s -> tokens_ok (expire_all l s).
Proof.
  revert s. induction l as [| [i a] l IH]; intros s Hd Hl Hs; cbn [expire_all]; [done |]. apply NoDup_cons in Hd as [Hni Hd]. apply IH; [done | |].
  - intros j b Hj. cbn [agents record_event set_agent with_agents]. rewrite lookup_insert_ne; [apply Hl; by right |].
    intros <-. apply Hni. by apply (list_elem_of_fmap_2 fst) in Hj.
  - apply tokens_ok_event. eapply (tokens_ok_replace s _ i a); [apply Hl; by left | done .. ].
Qed.

Lemma step_tokens s s' : step s s' -> sound s -> tokens_ok s -> tokens_ok s'.
Proof.
  intros [| | l s1 | | i a succ w now s1 Hi Hact | i by_user hw act ovr via now s1 s1' H | i actor s1 s1' H | i actor reason via now s1 s1' H
          | i req actor now s1 s1' _ H | i hw actor s1 s1' H | asg prof i actor s1 s1' H | txt lbl url caps ttl n by_user now s1 i s1' H | i now s1 s1' H | now s1] Hs Ht.
  - by eapply tokens_ok_enroll.
  - by apply tokens_ok_leftover.
  - by apply (tokens_ok_same s1).
  - by eapply tokens_ok_link.
  - destruct (start_device_key_rotation _ _ _ _ _ _ _) as [[] s2] eqn:E; apply start_rotation_spec in E; cbn [snd].
    + destruct E as (_ & _ & _ & Ea & d & ->). by eapply (tokens_ok_replace s1 _ i a).
    + destruct E as [d ->]. by apply tokens_ok_event.
  - apply approve_spec in H as (a & a' & m & Hi & _ & Ea & _ & _ & _ & Etk & _ & _ & _ & _ & _ & Es & En). by eapply (tokens_ok_replace s1 _ i a a').
  - unfold reject_agent in H. destruct (agents s1 !! i) as [a |] eqn:Hi; [| done]. injection H as <-. by eapply (tokens_ok_replace s1 _ i a).
  - unfold revoke_agent in H. destruct (agents s1 !! i) as [a |] eqn:Hi; [| done]. injection H as <-. by eapply (tokens_ok_replace s1 _ i a).
  - unfold set_capability_grants in H. destruct (update_grants _ _ _ _ _ _); cbn [mbind result_bind] in H; [| done]. injection H as <-. by apply (tokens_ok_same s1).
  - unfold set_hardware_link in H. destruct (agents s1 !! i) as [a |] eqn:Hi; [| done]. destruct (bool_decide _); injection H as <-; [done |].
    by eapply (tokens_ok_replace s1 _ i a).
  - apply delete_agent_done in H as [diff ->]. destruct Ht as [H1 H2 H3]. split; cbn [agents tokens next_token delete_row]; [done | |].
    + intros k t Hk. pose proof (count_delete k (agents s1) i). specialize (H2 k t Hk). cbn [agents authorize]. lia.
    + intros j a k [_ Hj]%lookup_delete_Some. by apply (H3 j a).
  - unfold mint_token in H. destruct (_ && _); [| done]. destruct (Z.leb_spec 1 n); [| done]. destruct (negb _); [| done]. injection H as <- <-.
    destruct Ht as [H1 H2 H3]. split; cbn [agents tokens next_token].
    + intros k t Hk. rewrite lookup_insert_Some in Hk. destruct Hk as [[<- _] | [_ Hk]]; [lia |]. apply H1 in Hk. lia.
    + intros k t Hk. rewrite lookup_insert_Some in Hk. destruct Hk as [[<- <-] | [_ Hk]]; [| by apply H2]. cbn [uses max_uses].
      assert (count (next_token s1) (agents s1) = 0)%nat as ->; [| lia]. unfold count. apply map_size_empty_iff, map_empty.
      intros j. apply map_lookup_filter_None_2. destruct (agents s1 !! j) as [a |] eqn:Hj; [| by left]. right. intros b [= <-] Hth. apply (H3 j a) in Hth as [t Ht]; [| done]. apply H1 in Ht. lia.
    + intros j a k Hj Hth. rewrite lookup_insert_is_Some'. right. by apply (H3 j a).
  - unfold revoke_token in H. destruct (tokens s1 !! i) as [t |] eqn:Hi; [| done]. destruct (t_revoked_at t); injection H as <-; [done |].
    destruct Ht as [H1 H2 H3]. split; cbn [agents tokens next_token with_tokens].
    + intros k t' Hk. rewrite lookup_insert_Some in Hk. destruct Hk as [[<- _] | [_ Hk]]; [by apply (H1 i t) | by apply (H1 k t')].
    + intros k t' Hk. rewrite lookup_insert_Some in Hk. destruct Hk as [[<- <-] | [_ Hk]]; [by apply (H2 i t) | by apply H2].
    + intros j a k Hj Hth. rewrite lookup_insert_is_Some'. right. by apply (H3 j a).
  - destruct (stale_current now s1) as [Hd Hc]. apply tokens_ok_expire; [done | intros i a Hin; by apply Hc | done].
Qed.

Lemma reachable_tokens s : reachable s -> sound s /\ tokens_ok s.
Proof.
  intros H. assert (sound empty_db /\ tokens_ok empty_db) as H0.
  { split; [apply (reachable_sound isoformat), rtc_refl |]. split; cbn; intros; simplify_map_eq. }
  revert H0. unfold Identity.reachable in H. induction H as [| s1 s2 s3 Hst _ IH]; intros [Hs Ht]; [done |].
  apply IH. split; [by eapply step_sound | by eapply step_tokens].
Qed.

(** C20: A token enrolls at most as many agents as its maximum number of
    uses, whatever happens in between; and an agent is enrolled by a token only
    while that very token (its hash) is unspent, not revoked and not expired,
    is then active on behalf of the operator who minted it, and costs one use. *)
Theorem token_bounds_enrollments s :
  reachable s ->
  (forall i t, tokens s !! i = Some t -> 0 <= agent_count i s <= uses t /\ uses t <= max_uses t) /\
  (forall pk what url tok kind lock now i st s', enroll_stream pk what url (Some tok) kind lock now s = Ok (Enrolled i st, s') ->
     exists ti t a, tokens s !! ti = Some t /\ token_hash t = hash_token tok /\ uses t < max_uses t /\ t_revoked_at t = None /\
       now < expires_at t /\ tokens s' = <[ti := spend t]> (tokens s) /\ agents s !! i = None /\ agents s' !! i = Some a /\
       a_status a = Active /\ enrollment_token_id a = Some ti).
Proof.
  intros [Hs Ht]%reachable_tokens. split.
  - intros i t Hi. pose proof (token_bounds _ Ht i t Hi) as H. change (agent_count i s) with (Z.of_nat (count i (agents s))). lia.
  - intros pk what url tok kind lock now i st s'. unfold enroll_stream. destruct (already_known _) as [ans |] eqn:Ek.
    { intros [= -> _]. unfold already_known in Ek. destruct (get_agent_by_device_pk pk s) as [[j a] |]; [| done]. by destruct (a_status a). }
    unfold consume_token. destruct (List.find _ _) as [[ti t] |] eqn:Ef; [| done].
    apply find_some in Ef as [Hin%list_elem_of_In%elem_of_map_to_list (H1 & H2 & H3 & H4)%live_spec].
    destruct (create_enrolled_agent _ _ _ _ _ _) as [[j s1] |] eqn:Ec; cbn [mbind result_bind fst snd]; [| done]. intros [= <- <- <-].
    apply create_enrolled_agents in Ec as (-> & _ & Es & a & Ea & Hact & Hth). cbn [fst snd next_agent agents tokens with_tokens] in *.
    destruct (pin_agents (next_agent s) kind now s1) as [_ [[Hn _] | (b & b' & Hb & Eb & _ & E1 & E2)]]; [by rewrite Ea, lookup_insert_eq in Hn |].
    rewrite Ea, lookup_insert_eq in Hb. injection Hb as <-. destruct (pin_tokens (next_agent s) kind now s1) as [Ep _].
    exists ti, t, b'. rewrite Ep, Es, Eb, lookup_insert_eq. split_and!; try done; [by apply fresh_id | congruence | congruence].
Qed.

(** *** The timeline *)

(** The decision an event records. *)
Definition decision_of (type : string) : option status :=
  dict_get type [("enrolled", Pending); ("approved", Active); ("rejected", Rejected); ("revoked", Revoked)].

(** The status an agent has according to its timeline alone. *)
Definition replay (l : list event) (i : Z) : option status :=
  foldl (fun st e => if e_agent e =? i then match decision_of (e_type e) with Some d => Some d | None => st end else st) None l.

Definition agrees (s : db) : Prop := forall i a, agents s !! i = Some a -> replay (events s) i = Some (a_status a).

Lemma replay_event i ty actor d s j :
  replay (events (record_event i ty actor d s)) j =
  match decision_of ty with
  | Some st => if decide (i = j) then Some st else replay (events s) j
  | None => replay (events s) j
  end.
Proof.
  cbn [events record_event]. unfold replay. rewrite foldl_app. cbn [foldl e_agent e_type].
  destruct (decision_of _); destruct (Z.eqb_spec i j); try done; [by rewrite decide_True | by rewrite decide_False].
Qed.

(** Events of other agents do not matter. *)
Lemma replay_filter i j l : i <> j -> replay (List.filter (fun e => negb (e_agent e =? i)) l) j = replay l j.
Proof.
  intros Hij. unfold replay. generalize (@None status) as st. induction l as [| e l IH]; intros st; [done |]. cbn [List.filter].
  destruct (Z.eqb_spec (e_agent e) i) as [Ei |]; cbn [negb foldl]; [| apply IH].
  rewrite IH. by rewrite Ei, (proj2 (Z.eqb_neq i j)).
Qed.

Lemma agrees_replace s s' i a a' :
  agents s !! i = Some a -> agents s' = <[i := a']> (agents s) -> a_status a' = a_status a -> events s' = events s -> agrees s -> agrees s'.
Proof.
  intros Hi Ea Est Eau H j b Hj. rewrite Eau. rewrite Ea, lookup_insert_Some in Hj. destruct Hj as [[<- <-] | [_ Hj]]; [| by apply H].
  rewrite Est. by apply H.
Qed.

Lemma agrees_quiet i ty actor d s : decision_of ty = None -> agrees s -> agrees (record_event i ty actor d s).
Proof. intros Hty H j b Hj. rewrite replay_event, Hty. by apply H. Qed.

(** A row is rewritten or added, and the decision recorded. *)
Lemma agrees_decision s s' i a' ty actor d st :
  decision_of ty = Some st ->
  agents s' = <[i := a']> (agents s) -> a_status a' = st -> events s' = events s -> agrees s -> agrees (record_event i ty actor d s').
Proof.
  intros Hty Ea Est Eau H j b Hj. rewrite replay_event, Hty, Eau. cbn [agents record_event] in Hj. rewrite Ea, lookup_insert_Some in Hj.
  destruct Hj as [[<- <-] | [Hne Hj]]; [by rewrite decide_True, Est | rewrite decide_False by done; by apply H].
Qed.

Lemma agrees_same s s' : agents s' = agents s -> events s' = events s -> agrees s -> agrees s'.
Proof. intros Ea Eau H i a. rewrite Ea, Eau. apply H. Qed.

Lemma agrees_pin i kind now s : agrees s -> agrees (record_server_key_pin i kind now s).
Proof.
  assert (events (record_server_key_pin i kind now s) = events s) as E.
  { unfold record_server_key_pin. destruct (agents s !! i); [| done]. by destruct (String.eqb kind "successor"). }
  destruct (pin_agents i kind now s) as [_ [[_ Ea] | (a & a' & Hi & Ea & _ & Est & _)]]; [by apply agrees_same | by eapply agrees_replace].
Qed.

Lemma agrees_create pk fp what now s i s' : create_pending_agent pk fp what now s = Ok (i, s') -> agrees s -> agrees s'.
Proof.
  unfold create_pending_agent, insert_agent. cbn [device_pk]. destruct (get_agent_by_device_pk pk s); cbn [mbind result_bind]; [done |].
  intros [= <- <-] H. by eapply (agrees_decision s).
Qed.

Lemma agrees_approve i by_user hw act ovr via now s s' : approve_agent i by_user hw act ovr via now s = Ok s' -> agrees s -> agrees s'.
Proof.
  unfold approve_agent. destruct (agents s !! i) as [a |]; [| done]. destruct (grant_rows _); cbn [mbind result_bind]; [| done].
  destruct (insert_grants _ _ _ _ _); cbn [mbind result_bind]; [| done]. intros [= <-] H. by eapply (agrees_decision s).
Qed.

Lemma agrees_enroll pk what url t kind lock now s ans s' : enroll_stream pk what url t kind lock now s = Ok (ans, s') -> agrees s -> agrees s'.
Proof.
  intros [-> | [(i & a & Hi & ->) | [(i & s1 & (fp & w & Hc) & ->) | (tok & i & s1 & [ti row] & _ & _ & _ & (fp & w & Hc) & ->)]]]%enroll_cases H;
    [done | by apply agrees_pin | |]; apply agrees_pin; [by eapply agrees_create |].
  unfold create_enrolled_agent in Hc. destruct (create_pending_agent _ _ _ _ _) as [[j s2] |] eqn:Ec; cbn [mbind result_bind fst snd] in Hc; [| done].
  apply agrees_create in Ec; [| by apply (agrees_same s)]. destruct (agents s2 !! j) as [a |] eqn:Hj.
  - destruct (approve_agent _ _ _ _ _ _ _ _) as [s3 |] eqn:Ea; cbn [mbind result_bind] in Hc; [| done]. injection Hc as <- <-.
    eapply agrees_approve; [done |]. by eapply (agrees_replace s2 _ j a).
  - destruct (approve_agent _ _ _ _ _ _ _ _) as [s3 |] eqn:Ea; cbn [mbind result_bind] in Hc; [| done]. injection Hc as <- <-. by eapply agrees_approve.
Qed.

Lemma agrees_leftover pk what t now s : agrees s -> agrees (enroll_leftover pk what t now s).
Proof.
  intros H. destruct (leftover_cases pk what t now s) as [-> | (tok & row & i & s1 & fp & w & _ & _ & _ & Hc & ->)]; [done |].
  apply agrees_create in Hc; [done | by apply (agrees_same s)].
Qed.

Lemma agrees_link pk kind now s r s' : link pk kind now s = Ok (r, s') -> agrees s -> agrees s'.
Proof.
  unfold link. destruct (resolve_agent_for_handshake pk now s) as [[i a] |] eqn:Er; [| by intros [= <- <-]].
  apply resolve_spec in Er as [Hi _]. destruct (negb _); [by intros [= <- <-] |].
  destruct (settle_device_key_rotation i a pk now s) as [s1 |] eqn:E; cbn [mbind result_bind]; [| done]. intros [= <- <-] H.
  apply agrees_quiet; [reflexivity |]. apply agrees_pin.
  apply settle_spec in E as [(p & d & _ & _ & _ & ->) | [(p & e & _ & _ & _ & _ & ->) | [-> _]]]; [| | done];
    (apply agrees_quiet; [reflexivity |]; by eapply (agrees_replace s _ i a)).
Qed.

Lemma agrees_expire l s : agrees s -> agrees (expire_all l s).
Proof.
  revert s. induction l as [| [i a] l IH]; intros s Hs; cbn [expire_all]; [done |]. apply IH. by eapply (agrees_decision s).
Qed.

Lemma step_agrees s s' : step s s' -> agrees s -> agrees s'.
Proof.
  intros [| | l s1 | | i a succ w now s1 Hi Hact | | i actor s1 s1' H | i actor reason via now s1 s1' H | i req actor now s1 s1' _ H | i hw actor s1 s1' H
          | asg prof i actor s1 s1' H | txt lbl url caps ttl n by_user now s1 i s1' H | i now s1 s1' H | now s1] Hs.
  - by eapply agrees_enroll.
  - by apply agrees_leftover.
  - by apply (agrees_same s1).
  - by eapply agrees_link.
  - destruct (start_device_key_rotation _ _ _ _ _ _ _) as [[] s2] eqn:E; apply start_rotation_spec in E; cbn [snd].
    + destruct E as (_ & _ & _ & Ea & d & ->). apply agrees_quiet; [reflexivity |]. by eapply (agrees_replace s1 _ i a).
    + destruct E as [d ->]. by apply agrees_quiet.
  - by eapply agrees_approve.
  - unfold reject_agent in H. destruct (agents s1 !! i) as [a |] eqn:Hi; [| done]. injection H as <-. by eapply (agrees_decision s1).
  - unfold revoke_agent in H. destruct (agents s1 !! i) as [a |] eqn:Hi; [| done]. injection H as <-. by eapply (agrees_decision s1).
  - unfold set_capability_grants in H. destruct (update_grants _ _ _ _ _ _); cbn [mbind result_bind] in H; [| done]. injection H as <-.
    apply agrees_quiet; [reflexivity |]. by apply (agrees_same s1).
  - unfold set_hardware_link in H. destruct (agents s1 !! i) as [a |] eqn:Hi; [| done]. destruct (bool_decide _); injection H as <-; [done |].
    apply agrees_quiet; [reflexivity |]. by eapply (agrees_replace s1 _ i a).
  - apply delete_agent_done in H as [diff ->]. intros j a Hj. cbn [agents delete_row authorize] in Hj. apply lookup_delete_Some in Hj as [Hij Hj].
    cbn [events delete_row authorize]. rewrite replay_filter by done. by apply Hs.
  - unfold mint_token in H. repeat (match type of H with (if ?b then _ else _) = _ => destruct b; [| done] end). injection H as <- <-. by apply (agrees_same s1).
  - unfold revoke_token in H. destruct (tokens s1 !! i) as [t |]; [| done]. destruct (t_revoked_at t); injection H as <-; [done |]. by apply (agrees_same s1).
  - by apply agrees_expire.
Qed.

(** C21: The timeline accounts for every agent.  Replaying the decisions among an
    agent's recorded events gives exactly the status its row has, whatever
    surface decided it, after any requests, and although the entries of the
    audit log beside them may be lost at any time. *)
Theorem timeline_replays_status s i a :
  reachable s -> agents s !! i = Some a -> replay (events s) i = Some (a_status a).
Proof.
  intros H. enough (agrees s) as Ha by apply Ha. unfold Identity.reachable in H.
  assert (agrees empty_db) as H0 by (intros j b Hj; cbn [agents empty_db] in Hj; by rewrite lookup_empty in Hj).
  revert H0. induction H as [| s1 s2 s3 Hst _ IH]; intros Hs; [done |]. apply IH. by eapply step_agrees.
Qed.

(** The audit log does not: a write of it that fails is swallowed, and the
    decision stands without an entry. *)
Lemma decision_without_audit i actor s a :
  agents s !! i = Some a -> write_fails s = true ->
  exists s', reject_agent i actor s = Ok s' /\ audit s' = audit s /\ agents s' !! i = Some (set_status Rejected a).
Proof.
  intros Hi Hf. unfold reject_agent. rewrite Hi. eexists. split; [done |]. cbn [audit agents record_event set_agent with_agents].
  change (write_fails (set_agent i (set_status Rejected a) s)) with (write_fails s). unfold written. rewrite lookup_insert_eq.
  split; [| done]. by destruct (bool_decide _); [change (write_fails _) with (write_fails s); rewrite Hf |].
Qed.

(** *** What cannot succeed *)

Lemma registered_default c : dict_get c CAPABILITY_DEFINITIONS <> None -> c ∈ default_grants.*1.
Proof.
  intros H. assert (default_grants.*1 = CAPABILITY_DEFINITIONS.*1) as -> by done. apply dict_get_is_Some.
  by destruct (dict_get c CAPABILITY_DEFINITIONS).
Qed.

(** Two dead ends.  A device that already waits for approval cannot
    use an enrollment token: a live token makes the handshake fail on the unique
    device key.  And once a capability was set for an agent that waits for
    approval, no approval of it succeeds. *)
Theorem pending_dead_ends s i a :
  reachable s -> agents s !! i = Some a -> a_status a = Pending ->
  (forall what url tok kind lock now, is_Some (consume_token tok now s) ->
     enroll_stream (device_pk a) what url (Some tok) kind lock now s = Err (IntegrityError "device_pk")) /\
  (forall req actor now s1 c v, set_capability_grants i ((c, v) :: req) actor now s = Ok s1 ->
     forall by_user hw act ovr via now' s2, approve_agent i by_user hw act ovr via now' s1 <> Ok s2).
Proof.
  intros Hs%reachable_sound Hi Hst. split.
  - intros what url tok kind lock now [[row s1] Hc]. unfold enroll_stream.
    rewrite (find_pk_some (device_pk a) s i a (sound_keys _ Hs) Hi eq_refl). cbn [already_known]. rewrite Hst, Hc.
    assert (agents s1 = agents s) as Ea. { unfold consume_token in Hc. destruct (List.find _ _) as [[]|]; [| done]. by injection Hc as _ <-. }
    unfold create_enrolled_agent, create_pending_agent, insert_agent. cbn [device_pk].
    unfold get_agent_by_device_pk. rewrite Ea. fold (get_agent_by_device_pk (device_pk a) s).
    by rewrite (find_pk_some (device_pk a) s i a (sound_keys _ Hs) Hi eq_refl).
  - intros req actor now s1 c v Hset by_user hw act ovr via now' s2. unfold set_capability_grants in Hset. cbn [update_grants] in Hset.
    destruct (normalize_grant c v _) as [[e g] | err] eqn:En; [| by destruct err]. cbn [of_scope mbind result_bind fst snd] in Hset.
    destruct (update_grants _ _ _ _ _ _) as [[m d] |] eqn:Eu; cbn [mbind result_bind] in Hset; [| done]. injection Hset as <-.
    assert (is_Some (m !! (i, c))) as [x Hx]. { apply update_grants_spec in Eu as [Hk _]. apply Hk. rewrite lookup_insert_eq. done. }
    assert (c ∈ (default_grants).*1) as Hc. { apply registered_default. unfold normalize_grant in En. by destruct (dict_get c CAPABILITY_DEFINITIONS). }
    unfold approve_agent. destruct (agents _ !! i); [| done]. destruct (grant_rows _) as [rows |] eqn:Er; cbn [mbind result_bind]; [| done].
    destruct (insert_grants _ _ _ _ _) as [m' |] eqn:Ei; cbn [mbind result_bind]; [| done]. exfalso.
    apply insert_grants_spec in Ei as [Hnew _]. apply grant_rows_keys in Er.
    destruct (Hnew c) as [Hn _]; [rewrite Er; apply dict_or_keys; by left |]. cbn [grants record_event with_grants fst] in Hn. congruence.
Qed.
End Tokens.

(** *** An instance *)

Definition lab_minted : db := state_of lab_pending (mint_token "cbe_secret" "fleet" "wss://cb.lan" [] 3600 2 (Some 7) 100 lab_pending).
Definition lab_enrolled : db := state_of lab_minted (enroll_stream lab_successor [] JNull (Some "cbe_secret") "current" true 200 lab_minted).

Lemma lab_minted_reachable : reachable lab_clock lab_minted.
Proof.
  eapply rtc_r; [exact lab_pending_reachable |].
  apply (step_mint _ "cbe_secret" "fleet" "wss://cb.lan" [] 3600 2 (Some 7) 100 lab_pending 1). vm_compute. reflexivity.
Qed.

Lemma lab_enrolled_reachable : reachable lab_clock lab_enrolled.
Proof.
  eapply rtc_r; [exact lab_minted_reachable |].
  apply (step_enroll _ lab_successor [] JNull (Some "cbe_secret") "current" true 200 lab_minted (Enrolled 2 Active)). vm_compute. reflexivity.
Qed.

Definition lab_token : token := match tokens lab_enrolled !! 1 with Some t => t | None => Token "" "" "" [] 0 0 0 None None end.

Lemma token_bounds_enrollments_witness : uses lab_token = 1 /\ 0 <= agent_count 1 lab_enrolled <= uses lab_token.
Proof.
  split; [vm_compute; reflexivity |]. destruct (token_bounds_enrollments lab_clock lab_enrolled lab_enrolled_reachable) as [H _].
  apply (H 1 lab_token). vm_compute. reflexivity.
Defined.

(** The agent is revoked while the audit log cannot be written. *)
Definition lab_unlogged : db := db_of lab_active (revoke_agent 1 (Some 7) (Some "lost") None 20 (with_faults [true] lab_active)).

Lemma lab_unlogged_reachable : reachable lab_clock lab_unlogged.
Proof.
  eapply rtc_r; [eapply rtc_r; [exact lab_active_reachable | apply (step_faults _ [true])] |].
  apply (step_revoke _ 1 (Some 7) (Some "lost") None 20 (with_faults [true] lab_active)). vm_compute. reflexivity.
Qed.

Lemma timeline_replays_status_witness : audit lab_unlogged = audit lab_active /\ replay (events lab_unlogged) 1 = Some Revoked.
Proof.
  split; [vm_compute; reflexivity |].
  apply (timeline_replays_status lab_clock lab_unlogged 1 (lab_agent lab_unlogged)); [exact lab_unlogged_reachable | vm_compute; reflexivity].
Defined.

Lemma pending_dead_ends_witness :
  enroll_stream lab_pk [] JNull (Some "cbe_secret") "current" true 200 lab_minted = Err (IntegrityError "device_pk").
Proof.
  destruct (pending_dead_ends lab_clock lab_minted 1 (lab_agent lab_minted)) as [H _];
    [exact lab_minted_reachable | vm_compute; reflexivity | vm_compute; reflexivity |].
  apply H. vm_compute. eexists. reflexivity.
Defined.
End Tokens.
