(* ===== verification/AgentLink.v ===== *)
(** One [/link] connection ([services/agent_link.py] and the loop of
    [api/ws_agents.py]): what is made of an inbound frame, the capability gate,
    the sequence guard, the delivery watermark the agent's spool is committed on,
    and the server's own frames. *)
From S2P Require Import Prelude Sha256 Json Regex Ip AgentScope AgentCapabilities AgentRegistry AgentIdentity.
Import Json Ip.
Open Scope Z_scope.

Module Link.
Import Registry.

(** *** Frames *)

Definition FRAME_VERSION : Z := 1.
Definition TYPE_HEARTBEAT : string := "heartbeat".
Definition TYPE_TRANSPORT_REKEY : string := "transport.rekey".
Definition TYPE_DATA_ACK : string := "data.ack".
Definition TYPE_PING : string := "ping".
Definition REKEY_DIRECTION_OUTBOUND : string := "outbound".

Record frame := Frame { v : Z; f_type : string; seq : Z; payload : list (string * json) }.

Definition CAPABILITY_FOR_TYPE : list (string * string) :=
  [("telemetry.host", "host_telemetry"); ("probe.result", "remote_probe"); ("discovery.finding", "local_discovery")].

Definition UNSUPPORTED_VERSION : string := "unsupported_version".

(** [FrameReceipt]. *)
Inductive receipt :=
| Accepted (f : frame)
| Terminal (n : Z) (reason : string)
| Unusable (reason : string).

(** [raw] as [AgentFrame.model_validate_json] reads it, [None] for a refusal;
    the session's last sequence number comes in and goes out. *)
Definition receive_frame_receipt (raw : option frame) (last_seq : option Z) : receipt * option Z :=
  match raw with
  | None => (Unusable "malformed_frame", last_seq)
  | Some f =>
      if negb (v f =? FRAME_VERSION)
      then (if 0 <=? seq f then Terminal (seq f) UNSUPPORTED_VERSION else Unusable UNSUPPORTED_VERSION, last_seq)
      else if String.eqb (strip (f_type f)) EmptyString then (Unusable "malformed_frame", last_seq)
      else if seq f <? 0 then (Unusable "malformed_frame", last_seq)
      else
        match last_seq with
        | Some n => if seq f <=? n
                    then (Terminal (seq f) (if seq f =? n then "duplicate_sequence" else "decreasing_sequence"), last_seq)
                    else (Accepted f, Some (seq f))
        | None => (Accepted f, Some (seq f))
        end
  end.

(** *** Dispatch *)

(** The database as the link sees it: the registry, the frames refused per
    agent, and everything the handlers write. *)
Record world (X : Type) := World { reg : db; refused_frames : gmap Z Z; rest : X }.
Arguments World {X}.
Arguments reg {X}.
Arguments refused_frames {X}.
Arguments rest {X}.

Lemma update_grants_other i actor now l m d m' d' capability :
  update_grants i actor now l m d = Ok (m', d') -> capability ∉ l.*1 -> m' !! (i, capability) = m !! (i, capability).
Proof.
  revert m d. induction l as [| [c value] l IH]; intros m d; cbn [update_grants]; [by intros [= -> ->] |].
  destruct (of_scope _) as [g |]; cbn [mbind result_bind]; [| done]. intros E Hn. rewrite fmap_cons in Hn.
  rewrite (IH _ _ E) by set_solver. apply lookup_insert_ne. intros [= ->]. set_solver.
Qed.

(** The row a capability update leaves carries the flag it was asked for. *)
Lemma withheld_row i requested actor now s s' capability value b supplied :
  set_capability_grants i requested actor now s = Ok s' -> NoDup requested.*1 ->
  (capability, value) ∈ requested -> Capabilities.grant_parts value = Ok (b, supplied) -> grants_dict i capability s' = Some b.
Proof.
  unfold set_capability_grants, grants_dict. destruct (update_grants _ _ _ _ _ _) as [[m' d'] |] eqn:E; cbn [mbind result_bind]; [| done].
  intros [= <-] Hnd Hin Hp. cbn [grants record_event with_grants fst]. generalize (grants s), ([] : Capabilities.config), E. clear E.
  induction requested as [| [c v'] l IH]; [by apply elem_of_nil in Hin |]. intros m d. cbn [update_grants]. apply NoDup_cons in Hnd as [Hc Hnd]. cbn [fst] in Hc.
  destruct (of_scope _) as [g |] eqn:Eg; cbn [mbind result_bind]; [| done]. intros E. apply elem_of_cons in Hin as [[= <- <-] | Hin]; [| by eapply IH].
  rewrite (update_grants_other _ _ _ _ _ _ _ _ _ E Hc), lookup_insert_eq. cbn. f_equal.
  unfold Capabilities.normalize_grant in Eg. destruct (dict_get capability _); [| by cbn in Eg]. rewrite Hp in Eg. cbn [mbind result_bind fst snd] in Eg.
  destruct (Capabilities.normalize _ _) as [| []]; [| done | done]. by injection Eg as <-.
Qed.

Section Connection.
Context {X : Type}.
(** [_HANDLERS]; a handler that raises gives [None]. *)
Variable handlers : string -> option (Z -> frame -> world X -> option (world X)).
(** [_record_protocol_violation], throttled. *)
Variable record_violation : Z -> string -> world X -> world X.

(** [TransportRekeyPayload.model_validate]: direction and generation. *)
Variable rekey_payload : list (string * json) -> option (string * Z).
(** The text of the refusal, first 200 characters. *)
Variable rekey_error : list (string * json) -> Z -> string.

(** [record_tls_pin] for a heartbeat that reports a ready successor. *)
Variable record_tls_pin : Z -> list (string * json) -> world X -> world X.

Definition with_reg (r : db) (w : world X) : world X := World r (refused_frames w) (rest w).

(** [record_refused_frame]: counted without a throttle. *)
Definition record_refused_frame (i : Z) (w : world X) : world X :=
  World (reg w) (<[i := default 0 (refused_frames w !! i) + 1]> (refused_frames w)) (rest w).

Definition dispatch_frame (i : Z) (f : frame) (w : world X) : option (world X) :=
  match dict_get (f_type f) CAPABILITY_FOR_TYPE with
  | Some capability =>
      if default false (grants_dict i capability (reg w))
      then match handlers (f_type f) with Some h => h i f w | None => Some w end
      else let w := record_refused_frame i w in
           Some (with_reg (record_event i "capability_violation" None (JObj [("frame_type", JStr (f_type f))]) (reg w)) w)
  | None => match handlers (f_type f) with Some h => h i f w | None => Some w end
  end.

(** *** The connection *)

(** What a connection has done, oldest first: a frame accepted by the sequence
    guard and dispatched (its handler's writes committed, or refused by the
    capability gate and counted), a frame refused for good, a message without a
    trustworthy number, and an acknowledgement that went out. *)
Inductive item :=
| Handled (n : Z)
| Refused (n : Z) (reason : string)
| Unreadable
| Acknowledged (watermark : Z).

Record conn := Conn {
  last_seq : option Z;
  handled_seq : option Z;
  acked_seq : option Z;
  frames_since_ack : Z;
  ack_frozen : bool;
  last_ack_at : Z;
  last_heartbeat_at : Z;
  recv_generation : Z;
  send_generation : Z;
  outbound_seq : Z;
  sent : list (Z * string);
  log : list item
}.

(** Whether the agent asked for acknowledged delivery. *)
Variable ack_data_requested : bool.

Definition ACK_COALESCE_FRAMES : Z := 4.
(** Times in microseconds. *)
Definition ACK_COALESCE_SECONDS : Z := 1000000.
Definition LINK_DEAD_SECONDS : Z := 60000000.
Definition LINK_POLL_SECONDS : Z := 5000000.

(** [_next_poll_timeout]: never below 50 ms. *)
Definition next_poll_timeout (last_ack_at now : Z) (ack_pending : bool) : Z :=
  if negb ack_pending then LINK_POLL_SECONDS
  else Z.min LINK_POLL_SECONDS (Z.max (ACK_COALESCE_SECONDS - (now - last_ack_at)) 50000).

(** The connection after its hello phase sent [hello] frames. *)
Definition opened (hello : list string) (now : Z) : conn :=
  Conn None None None 0 false now now 0 0 (Z.of_nat (length hello)) (combine (seqZ 0 (Z.of_nat (length hello))) hello) [].

Definition ack_pending (c : conn) : bool :=
  if negb ack_data_requested || ack_frozen c then false else
  match handled_seq c with
  | None => false
  | Some n => match acked_seq c with None => true | Some m => m <? n end
  end.

Definition note_handled (n : Z) (it : item) (c : conn) : conn :=
  let logged := log c ++ [it] in
  match handled_seq c with
  | Some m => if n <=? m
              then Conn (last_seq c) (handled_seq c) (acked_seq c) (frames_since_ack c) (ack_frozen c) (last_ack_at c) (last_heartbeat_at c)
                     (recv_generation c) (send_generation c) (outbound_seq c) (sent c) logged
              else Conn (last_seq c) (Some n) (acked_seq c) (frames_since_ack c + 1) (ack_frozen c) (last_ack_at c) (last_heartbeat_at c)
                     (recv_generation c) (send_generation c) (outbound_seq c) (sent c) logged
  | None => Conn (last_seq c) (Some n) (acked_seq c) (frames_since_ack c + 1) (ack_frozen c) (last_ack_at c) (last_heartbeat_at c)
              (recv_generation c) (send_generation c) (outbound_seq c) (sent c) logged
  end.

(** A frame of the server's own, under the next sequence number; [ok] when the
    socket took it. *)
Definition send (type : string) (ok : bool) (c : conn) : conn :=
  Conn (last_seq c) (handled_seq c) (acked_seq c) (frames_since_ack c) (ack_frozen c) (last_ack_at c) (last_heartbeat_at c)
    (recv_generation c) (send_generation c) (outbound_seq c + 1)
    (if ok then sent c ++ [(outbound_seq c, type)] else sent c) (log c).

(** [flush_data_ack]: [false] when the send failed. *)
Definition flush_data_ack (force ok : bool) (now : Z) (c : conn) : conn * bool :=
  if negb ack_data_requested || ack_frozen c then (c, true) else
  match handled_seq c with
  | None => (c, true)
  | Some n =>
      if match acked_seq c with Some m => n <=? m | None => false end then (c, true)
      else if negb force && (frames_since_ack c <? ACK_COALESCE_FRAMES) && (now - last_ack_at c <? ACK_COALESCE_SECONDS) then (c, true)
      else
        let c := send TYPE_DATA_ACK ok c in
        if ok then
          (Conn (last_seq c) (handled_seq c) (Some n) 0 (ack_frozen c) now (last_heartbeat_at c) (recv_generation c) (send_generation c)
             (outbound_seq c) (sent c) (log c ++ [Acknowledged n]), true)
        else (c, false)
  end.

Definition freeze (c : conn) : conn :=
  Conn (last_seq c) (handled_seq c) (acked_seq c) (frames_since_ack c) (ack_frozen c || ack_data_requested) (last_ack_at c)
    (last_heartbeat_at c) (recv_generation c) (send_generation c) (outbound_seq c) (sent c) (log c ++ [Unreadable]).

Definition with_session (s : option Z) (c : conn) : conn :=
  Conn s (handled_seq c) (acked_seq c) (frames_since_ack c) (ack_frozen c) (last_ack_at c) (last_heartbeat_at c)
    (recv_generation c) (send_generation c) (outbound_seq c) (sent c) (log c).

Definition beat (now : Z) (c : conn) : conn :=
  Conn (last_seq c) (handled_seq c) (acked_seq c) (frames_since_ack c) (ack_frozen c) (last_ack_at c) now
    (recv_generation c) (send_generation c) (outbound_seq c) (sent c) (log c).

Definition rekeyed (c : conn) : conn :=
  Conn (last_seq c) (handled_seq c) (acked_seq c) (frames_since_ack c) (ack_frozen c) (last_ack_at c) (last_heartbeat_at c)
    (recv_generation c + 1) (send_generation c) (outbound_seq c) (sent c) (log c).

(** A [transport.rekey] announcement: the right direction, and the next
    generation. *)
Definition rekey_ok (c : conn) (p : list (string * json)) : bool :=
  match rekey_payload p with
  | Some (direction, generation) => String.eqb direction REKEY_DIRECTION_OUTBOUND && (generation =? recv_generation c + 1)
  | None => false
  end.

Definition active (i : Z) (w : world X) : bool :=
  match agents (reg w) !! i with Some a => bool_decide (a_status a = Active) | None => false end.

(** One message off the socket: [None] when it did not decrypt, otherwise as it
    decoded.  The last component says whether the loop goes on. *)
Definition receive (i : Z) (message : option (option frame)) (now : Z) (ok : bool) (cw : conn * world X) : (conn * world X) * bool :=
  let '(c, w) := cw in
  match message with
  | None => ((freeze c, w), true)
  | Some raw =>
      if negb (active i w) then (((flush_data_ack true ok now c).1, w), false) else
      let '(r, s) := receive_frame_receipt raw (last_seq c) in
      let c := with_session s c in
      match r with
      | Terminal n reason => ((note_handled n (Refused n reason) c, record_violation i reason w), true)
      | Unusable reason => ((freeze c, record_violation i reason w), true)
      | Accepted f =>
          let '(c, w) := if String.eqb (f_type f) TYPE_HEARTBEAT then (beat now c, record_tls_pin i (payload f) w) else (c, w) in
          if String.eqb (f_type f) TYPE_TRANSPORT_REKEY then
            if rekey_ok c (payload f) then ((note_handled (seq f) (Handled (seq f)) (rekeyed c), w), true)
            else ((c, with_reg (record_event i "protocol_violation" None (JObj [("reason", JStr "invalid_transport_rekey"); ("error", JStr (rekey_error (payload f) (recv_generation c)))]) (reg w)) w), false)
          else
            match dispatch_frame i f w with
            | Some w => ((note_handled (seq f) (Handled (seq f)) c, w), true)
            | None => ((c, w), false)
            end
      end
  end.

Definition announced (c : conn) : conn :=
  Conn (last_seq c) (handled_seq c) (acked_seq c) (frames_since_ack c) (ack_frozen c) (last_ack_at c) (last_heartbeat_at c)
    (recv_generation c) (send_generation c + 1) (outbound_seq c) (sent c) (log c).

(** The parts of the loop, in any order, while other connections and requests
    change the database; the flag is whether the loop still runs. *)
Inductive step (i : Z) : (conn * world X) * bool -> (conn * world X) * bool -> Prop :=
| step_flush force ok now c w : step i ((c, w), true) ((flush_data_ack force ok now c).1, w, (flush_data_ack force ok now c).2)
| step_rekey ok c w : step i ((c, w), true) (if ok : bool then announced (send TYPE_TRANSPORT_REKEY ok c) else send TYPE_TRANSPORT_REKEY ok c, w, ok)
| step_send type ok more c w : step i ((c, w), true) ((send type ok c, w), ok && more)
| step_message message now ok cw : step i (cw, true) (receive i message now ok cw)
| step_dead now c w : LINK_DEAD_SECONDS <= now - last_heartbeat_at c -> step i ((c, w), true) ((c, w), false)
| step_inactive ok now c w : active i w = false -> step i ((c, w), true) (((flush_data_ack true ok now c).1, w), false)
| step_other w' c w b : step i ((c, w), b) ((c, w'), b).

(** *** What the log says *)

Definition number (it : item) : option Z := match it with Handled n | Refused n _ => Some n | _ => None end.
Definition numbers (l : list item) : list Z := omap number l.
Definition handled_numbers (l : list item) : list Z := omap (fun it => match it with Handled n => Some n | _ => None end) l.
Definition watermarks (l : list item) : list Z := omap (fun it => match it with Acknowledged n => Some n | _ => None end) l.

(** An acknowledgement covers everything the connection read so far. *)
Definition honest (l : list item) : Prop :=
  forall l1 n l2, l = l1 ++ Acknowledged n :: l2 ->
    (Unreadable ∉ l1) /\ n ∈ numbers l1 /\ (forall k, k ∈ numbers l1 -> k <= n) /\ (forall m, m ∈ watermarks l1 -> m < n).

(** A frame is refused for its version, or for a number not above one already
    stored. *)
Definition justified (l : list item) : Prop :=
  forall l1 n reason l2, l = l1 ++ Refused n reason :: l2 ->
    reason = UNSUPPORTED_VERSION \/ exists k, k ∈ handled_numbers l1 /\ n <= k.

(** One more item at the end of a split log. *)
Lemma snoc_split (l : list item) it l1 x l2 :
  l ++ [it] = l1 ++ x :: l2 -> (l2 = [] /\ l1 = l /\ x = it) \/ exists l2', l2 = l2' ++ [it] /\ l = l1 ++ x :: l2'.
Proof.
  destruct l2 as [| y l2 _] using rev_ind; intros E.
  - left. apply app_inj_tail in E as [-> ->]. done.
  - right. change (x :: l2 ++ [y]) with ((x :: l2) ++ [y]) in E. rewrite app_assoc in E. apply app_inj_tail in E as [-> ->]. by exists l2.
Qed.

Lemma honest_snoc l it : honest l -> (forall n, it <> Acknowledged n) -> honest (l ++ [it]).
Proof.
  intros H Hit l1 n l2 [(_ & -> & <-) | (l2' & -> & E)]%snoc_split; [by destruct (Hit n) | by apply (H l1 n l2')].
Qed.

Lemma honest_ack l n :
  honest l -> (Unreadable ∉ l) -> n ∈ numbers l -> (forall k, k ∈ numbers l -> k <= n) -> (forall m, m ∈ watermarks l -> m < n) ->
  honest (l ++ [Acknowledged n]).
Proof. intros H H1 H2 H3 H4 l1 m l2 [(_ & -> & [= ->]) | (l2' & -> & E)]%snoc_split; [done | by apply (H l1 m l2')]. Qed.

Lemma justified_snoc l it :
  justified l -> (forall n reason, it = Refused n reason -> reason = UNSUPPORTED_VERSION \/ exists k, k ∈ handled_numbers l /\ n <= k) ->
  justified (l ++ [it]).
Proof.
  intros H Hit l1 n reason l2 [(_ & -> & <-) | (l2' & -> & E)]%snoc_split; [by apply Hit | by apply (H l1 n reason l2')].
Qed.

Record sound (c : conn) : Prop := {
  sound_honest : honest (log c);
  sound_readable : ack_data_requested = true -> ack_frozen c = false -> Unreadable ∉ log c;
  sound_handled : match handled_seq c with
                  | Some n => n ∈ numbers (log c) /\ forall k, k ∈ numbers (log c) -> k <= n
                  | None => numbers (log c) = []
                  end;
  sound_acked : forall m, m ∈ watermarks (log c) -> exists n, acked_seq c = Some n /\ m <= n;
  sound_increasing : StronglySorted Z.lt (handled_numbers (log c));
  sound_last : forall n, n ∈ handled_numbers (log c) -> exists k, last_seq c = Some k /\ n <= k;
  sound_sent : StronglySorted Z.lt (sent c).*1 /\ forall n, n ∈ (sent c).*1 -> n < outbound_seq c;
  sound_requested : watermarks (log c) <> [] -> ack_data_requested = true;
  sound_frozen : ack_frozen c = true -> Unreadable ∈ log c;
  sound_watermark : forall n, acked_seq c = Some n -> n ∈ watermarks (log c);
  sound_refused : justified (log c)
}.

Lemma omap_snoc {A B} (f : A -> option B) l x : omap f (l ++ [x]) = omap f l ++ match f x with Some y => [y] | None => [] end.
Proof. rewrite omap_app. by cbn. Qed.

Lemma sound_note n it c :
  number it = Some n -> (forall m, it = Handled m -> last_seq c = Some m /\ forall k, k ∈ handled_numbers (log c) -> k < m) ->
  (forall m reason, it = Refused m reason -> reason = UNSUPPORTED_VERSION \/ exists k, k ∈ handled_numbers (log c) /\ m <= k) ->
  sound c -> sound (note_handled n it c).
Proof.
  intros Hit Hst Hre [H1 H2 H3 H4 H5 H6 H7 H8 H9 H10 H11].
  assert (log (note_handled n it c) = log c ++ [it]) as El. { unfold note_handled. destruct (handled_seq c); [| done]. by destruct (n <=? _). }
  assert (forall m, it <> Acknowledged m) as Hna by (intros m ->; done).
  assert (last_seq (note_handled n it c) = last_seq c /\ acked_seq (note_handled n it c) = acked_seq c /\
          ack_frozen (note_handled n it c) = ack_frozen c /\ sent (note_handled n it c) = sent c /\
          outbound_seq (note_handled n it c) = outbound_seq c) as (E1 & E2 & E3 & E4 & E5).
  { unfold note_handled. destruct (handled_seq c); [| done]. by destruct (n <=? _). }
  split; rewrite ?El, ?E1, ?E2, ?E3, ?E4, ?E5.
  - by apply honest_snoc.
  - intros Hr Hf. rewrite elem_of_app, list_elem_of_singleton. intros [Hu | <-]; [by apply (H2 Hr Hf) | done].
  - unfold numbers. rewrite omap_snoc, Hit. fold (numbers (log c)). unfold note_handled. destruct (handled_seq c) as [m |].
    + destruct H3 as [Hm Hmax]. destruct (Z.leb_spec n m); cbn [handled_seq].
      * split; [set_solver |]. intros k [Hk | ->%list_elem_of_singleton]%elem_of_app; [by apply Hmax | done].
      * split; [set_solver |]. intros k [Hk%Hmax | ->%list_elem_of_singleton]%elem_of_app; lia.
    + cbn [handled_seq]. rewrite H3. split; [set_solver |]. intros k ->%list_elem_of_singleton. done.
  - intros m. unfold watermarks. rewrite omap_snoc. destruct it; rewrite ?app_nil_r; try apply H4. done.
  - unfold handled_numbers. rewrite omap_snoc. destruct it as [m | | |]; rewrite ?app_nil_r; try done.
    apply sorted_snoc; [done |]. apply Forall_forall. by apply (Hst m).
  - intros k. unfold handled_numbers. rewrite omap_snoc. destruct it as [m | | |]; rewrite ?app_nil_r; try apply H6.
    destruct (Hst m eq_refl) as [Hl Hk]. intros [Hin | ->%list_elem_of_singleton]%elem_of_app; [| by exists m].
    exists m. split; [done |]. specialize (Hk k Hin). lia.
  - done.
  - unfold watermarks. rewrite omap_snoc. destruct it; rewrite ?app_nil_r; try apply H8. done.
  - intros Hf. apply elem_of_app. left. by apply H9.
  - intros m Hm%H10. unfold watermarks. rewrite omap_snoc. apply elem_of_app. by left.
  - by apply justified_snoc.
Qed.

Lemma sound_freeze c : sound c -> sound (freeze c).
Proof.
  intros [H1 H2 H3 H4 H5 H6 H7 H8 H9 H10 H11].
  split; cbn [log freeze handled_seq acked_seq last_seq sent outbound_seq ack_frozen]; unfold numbers, handled_numbers, watermarks in *;
    rewrite ?omap_snoc, ?app_nil_r; try done.
  - by apply honest_snoc.
  - intros ->. by rewrite orb_true_r.
  - intros _. apply elem_of_app. right. by left.
  - by apply justified_snoc.
Qed.

Lemma sound_send type ok c : sound c -> sound (send type ok c).
Proof.
  intros [H1 H2 H3 H4 H5 H6 [H7 H7'] H8 H9 H10 H11]. split; cbn [log send handled_seq acked_seq last_seq sent outbound_seq ack_frozen]; try done.
  destruct ok; [| split; [done | intros n Hn%H7'; lia]]. rewrite fmap_app. cbn [fmap list_fmap fst]. split.
  - apply sorted_snoc; [done |]. by apply Forall_forall.
  - intros n [Hn%H7' | ->%list_elem_of_singleton]%elem_of_app; lia.
Qed.

Lemma sound_flush force ok now c : sound c -> sound (flush_data_ack force ok now c).1.
Proof.
  intros Hs. unfold flush_data_ack. destruct ack_data_requested eqn:Er; cbn [negb orb]; [| done].
  destruct (ack_frozen c) eqn:Ef; [done |]. destruct (handled_seq c) as [n |] eqn:En; [| done].
  destruct (match acked_seq c with Some m => n <=? m | None => false end) eqn:Ea; [done |].
  destruct (negb force && _ && _); [done |]. pose proof (sound_send TYPE_DATA_ACK ok c Hs) as Hs'. destruct ok; [| done]. cbn [fst].
  destruct Hs' as [H1 H2 H3 H4 H5 H6 H7 H8 H9 H10 H11]. pose proof (sound_handled _ Hs) as Hh. rewrite En in Hh. destruct Hh as [Hn Hmax].
  assert (forall m, m ∈ watermarks (log c) -> m < n) as Hlt.
  { intros m Hm. destruct (sound_acked _ Hs m Hm) as (k & Hk & Hle). rewrite Hk in Ea. apply Z.leb_gt in Ea. lia. }
  split; cbn [log send handled_seq acked_seq last_seq sent outbound_seq ack_frozen] in *; unfold numbers, handled_numbers, watermarks in *;
    rewrite ?omap_snoc, ?app_nil_r; cbn [number]; try done.
  - apply honest_ack; [done | | done | done | done]. by apply (sound_readable _ Hs).
  - intros _ _. rewrite elem_of_app, list_elem_of_singleton. intros [Hu | Hu]; [| done]. by apply (sound_readable _ Hs Er Ef).
  - intros m [Hm%Hlt | ->%list_elem_of_singleton]%elem_of_app; exists n; (split; [done | lia]).
  - intros Hf. by rewrite Ef in Hf.
  - intros m [= <-]. apply elem_of_app. right. by left.
  - by apply justified_snoc.
Qed.

(** Changes the log and the counters do not see. *)
Lemma sound_same c c' :
  log c' = log c -> handled_seq c' = handled_seq c -> acked_seq c' = acked_seq c -> ack_frozen c' = ack_frozen c ->
  last_seq c' = last_seq c -> sent c' = sent c -> outbound_seq c' = outbound_seq c -> sound c -> sound c'.
Proof. intros E1 E2 E3 E4 E5 E6 E7 [H1 H2 H3 H4 H5 H6 H7 H8 H9 H10 H11]. split; by rewrite ?E1, ?E2, ?E3, ?E4, ?E5, ?E6, ?E7. Qed.

(** The sequence guard: what it refuses leaves the session, what it accepts is
    newer than everything the session stored. *)
Lemma guarded c raw r s :
  receive_frame_receipt raw (last_seq c) = (r, s) ->
  match r with
  | Accepted f => s = Some (seq f) /\ forall n, last_seq c = Some n -> n < seq f
  | Terminal n reason => s = last_seq c /\ (reason = UNSUPPORTED_VERSION \/ exists k, last_seq c = Some k /\ n <= k)
  | Unusable _ => s = last_seq c
  end.
Proof.
  unfold receive_frame_receipt. destruct raw as [f |]; [| by intros [= <- <-]].
  destruct (negb _); [destruct (0 <=? _); intros [= <- <-]; by auto |]. destruct (String.eqb _ _); [by intros [= <- <-] |].
  destruct (seq f <? 0); [by intros [= <- <-] |]. destruct (last_seq c) as [n |]; [| by intros [= <- <-]].
  destruct (Z.leb_spec (seq f) n); intros [= <- <-]; (split; [done |]); [right; by exists n |]. by intros ? [= <-].
Qed.

Lemma sound_advance n c : (forall k, last_seq c = Some k -> k < n) -> sound c ->
  sound (with_session (Some n) c) /\ forall k, k ∈ handled_numbers (log c) -> k < n.
Proof.
  intros Hn [H1 H2 H3 H4 H5 H6 H7 H8 H9 H10 H11].
  assert (forall k, k ∈ handled_numbers (log c) -> k < n) as Hk by (intros k (m & E%Hn & Hle)%H6; lia).
  split; [| done]. split; try done. intros k E%Hk. exists n. split; [done | lia].
Qed.

(** While the loop runs, the session's number is that of a stored frame. *)
Definition current (c : conn) : Prop := forall n, last_seq c = Some n -> n ∈ handled_numbers (log c).
Definition alive (s : (conn * world X) * bool) : Prop := sound s.1.1 /\ (s.2 = true -> current s.1.1).

Lemma note_accepted n c : last_seq c = Some n -> current (note_handled n (Handled n) c).
Proof.
  intros E. unfold current, note_handled. destruct (handled_seq c) as [m |]; [destruct (n <=? m) |]; cbn [last_seq log]; rewrite E;
    intros k [= <-]; unfold handled_numbers; rewrite omap_snoc; apply elem_of_app; right; by left.
Qed.

Lemma note_current n it c : current c -> current (note_handled n it c).
Proof.
  intros Hc. unfold current, note_handled. destruct (handled_seq c) as [m |]; [destruct (n <=? m) |]; cbn [last_seq log];
    intros k E%Hc; unfold handled_numbers; rewrite omap_snoc; apply elem_of_app; by left.
Qed.

Lemma flush_current force ok now c : current c -> current (flush_data_ack force ok now c).1.
Proof.
  intros Hc. unfold flush_data_ack. destruct (_ || _); [done |]. destruct (handled_seq c) as [z |]; [| done].
  destruct (match acked_seq c with Some m => z <=? m | None => false end); [done |]. destruct (negb force && _ && _); [done |]. destruct ok; [| done].
  intros n E%Hc. unfold handled_numbers. cbn [fst log send]. rewrite omap_snoc. apply elem_of_app. by left.
Qed.

Lemma receive_accepted i f now c w :
  last_seq c = Some (seq f) -> (forall k, k ∈ handled_numbers (log c) -> k < seq f) -> sound c ->
  alive (let '(c, w) := if String.eqb (f_type f) TYPE_HEARTBEAT then (beat now c, record_tls_pin i (payload f) w) else (c, w) in
         if String.eqb (f_type f) TYPE_TRANSPORT_REKEY then
           if rekey_ok c (payload f) then ((note_handled (seq f) (Handled (seq f)) (rekeyed c), w), true)
           else ((c, with_reg (record_event i "protocol_violation" None (JObj [("reason", JStr "invalid_transport_rekey"); ("error", JStr (rekey_error (payload f) (recv_generation c)))]) (reg w)) w), false)
         else
           match dispatch_frame i f w with
           | Some w => ((note_handled (seq f) (Handled (seq f)) c, w), true)
           | None => ((c, w), false)
           end).
Proof.
  intros El Hlt Hs.
  assert (exists c2 w2, (if String.eqb (f_type f) TYPE_HEARTBEAT then (beat now c, record_tls_pin i (payload f) w) else (c, w)) = (c2, w2) /\
          last_seq c2 = Some (seq f) /\ log c2 = log c /\ sound c2) as (c2 & w2 & -> & E3 & E4 & Hs2).
  { destruct (String.eqb _ _); do 2 eexists; (split; [reflexivity |]); [split_and!; [done.. |]; by eapply sound_same, Hs | done]. }
  assert (forall c3, last_seq c3 = Some (seq f) -> log c3 = log c -> sound c3 -> sound (note_handled (seq f) (Handled (seq f)) c3)) as Hnote.
  { intros c3 E5 E6. apply sound_note; [done | | done]. intros m [= <-]. by rewrite E5, E6. }
  destruct (String.eqb (f_type f) TYPE_TRANSPORT_REKEY).
  - destruct (rekey_ok c2 (payload f)); [| by split]. split; [apply Hnote; try done; by eapply sound_same, Hs2 |]. intros _. by apply note_accepted.
  - destruct (dispatch_frame i f w2); [| by split]. split; [by apply Hnote |]. intros _. by apply note_accepted.
Qed.

Lemma sound_receive i message now ok cw : sound cw.1 -> current cw.1 -> alive (receive i message now ok cw).
Proof.
  destruct cw as [c w]. cbn [fst]. intros Hs Hc. unfold receive. destruct message as [raw |].
  2:{ split; [by apply sound_freeze |]. intros _ n E%Hc. cbn [fst log freeze]. unfold handled_numbers. rewrite omap_snoc. apply elem_of_app. by left. }
  destruct (active i w); cbn [negb]; [| split; [by apply sound_flush | done]].
  destruct (receive_frame_receipt raw (last_seq c)) as [r s] eqn:Er.
  apply guarded in Er. destruct r as [f | n reason | reason].
  - destruct Er as [-> Hn]. destruct (sound_advance (seq f) c Hn Hs) as [Hs' Hlt]. by apply receive_accepted.
  - destruct Er as [-> Hr]. split; cbn [fst snd].
    + apply sound_note; [done | done | | by eapply sound_same, Hs]. intros m ? [= <- <-]. destruct Hr as [Hr | (k & Hk%Hc & Hle)]; [by left |].
      right. by exists k.
    + intros _. by apply note_current.
  - subst s. split; [apply sound_freeze; by eapply sound_same, Hs |]. intros _ n E%Hc. cbn [fst log freeze with_session].
    unfold handled_numbers. rewrite omap_snoc. apply elem_of_app. by left.
Qed.

Lemma step_alive i s s' : step i s s' -> alive s -> alive s'.
Proof.
  intros [force ok now c w | ok c w | type ok more c w | message now ok cw | now c w | ok now c w | w' c w b] [Hs Hc]; cbn [fst snd] in *.
  - split; [by apply sound_flush |]. intros _. by apply flush_current, Hc.
  - split; [| by destruct ok]. destruct ok; [eapply sound_same, (sound_send TYPE_TRANSPORT_REKEY true), Hs; done | by apply sound_send].
  - split; [by apply sound_send |]. intros _. by apply Hc.
  - apply sound_receive; [done | by apply Hc].
  - by split.
  - split; [by apply sound_flush | done].
  - by split.
Qed.

Lemma link_seqZ_sorted m n : StronglySorted Z.lt (seqZ m n).
Proof.
  destruct (Z.le_gt_cases n 0) as [Hn | Hn]; [rewrite seqZ_nil by done; constructor |].
  revert m. pattern n. apply natlike_ind; [intros m; rewrite seqZ_nil by done; constructor | | lia].
  intros k Hk IH m. rewrite seqZ_cons by lia. constructor; [by rewrite Z.pred_succ |]. apply Forall_forall. intros x Hx%elem_of_seqZ. lia.
Qed.

Lemma opened_sound hello now : sound (opened hello now).
Proof.
  split; cbn [opened log handled_seq acked_seq last_seq sent outbound_seq ack_frozen]; try done; try set_solver.
  - intros l1 n l2 E. by destruct l1.
  - constructor.
  - assert ((combine (seqZ 0 (Z.of_nat (length hello))) hello).*1 = seqZ 0 (Z.of_nat (length hello))) as ->.
    { assert (length (seqZ 0 (Z.of_nat (length hello))) = length hello) as E by (rewrite length_seqZ; lia).
      revert E. generalize (seqZ 0 (Z.of_nat (length hello))). induction hello as [| x hello IH]; intros [| y l]; try done.
      cbn. intros [= E]. by rewrite IH. }
    split; [apply link_seqZ_sorted |]. intros n Hn%elem_of_seqZ. lia.
  - intros l1 n reason l2 E. by destruct l1.
Qed.

Lemma rtc_alive i hello now w s : rtc (step i) ((opened hello now, w), true) s -> alive s.
Proof.
  intros Hr. apply (rtc_ind_r (R := step i) alive ((opened hello now, w), true)); [split; [apply opened_sound | done] | | exact Hr].
  intros x y _. apply step_alive.
Qed.

(** The state of a connection that has run for a while, and whether its loop
    still runs. *)
Definition reaches (i : Z) (c : conn) (w : world X) (b : bool) : Prop :=
  exists hello now w0, rtc (step i) ((opened hello now, w0), true) ((c, w), b).

(** *** Theorems *)

(** What the connection read, in order. *)
Definition is_read (it : item) : bool := match it with Acknowledged _ => false | _ => true end.
Definition reads (l : list item) : list item := List.filter is_read l.

(** The agent sent frames numbered [l], in this order; the items are what was
    made of the first of them. *)
Definition arrived (l : list Z) (its : list item) : Prop :=
  Forall2 (fun it k => match number it with Some m => m = k | None => True end) its (take (length its) l).

Lemma reads_app l1 l2 : reads (l1 ++ l2) = reads l1 ++ reads l2.
Proof. apply List.filter_app. Qed.

Lemma numbers_reads l : numbers (reads l) = numbers l.
Proof. induction l as [| [] l IH]; try done; unfold numbers, reads in *; cbn; by rewrite IH. Qed.

Lemma numbers_split l k : k ∈ numbers l -> exists l1 it l2, l = l1 ++ it :: l2 /\ number it = Some k.
Proof. unfold numbers. rewrite list_elem_of_omap. intros (it & Hin & E). apply list_elem_of_split in Hin as (l1 & l2 & ->). by exists l1, it, l2. Qed.

(** The readable part of what arrived is numbered as the agent numbered it. *)
Lemma arrived_numbers l l1 l2 : arrived l (reads (l1 ++ l2)) -> (Unreadable ∉ l1) -> numbers l1 = take (length (reads l1)) l.
Proof.
  unfold arrived. rewrite reads_app, <- (numbers_reads l1). intros HF Hu.
  assert (forall it, it ∈ reads l1 -> is_Some (number it)) as Hn.
  { intros it [Hin Hit]%list_elem_of_In%filter_In. destruct it; [cbn; by eauto.. | | done]. destruct (Hu (proj2 (list_elem_of_In _ _) Hin)). }
  rewrite length_app in HF. revert l HF Hn. generalize (reads l1), (reads l2). intros r r2. induction r as [| it r IH]; intros l HF Hn; [done |].
  destruct l as [| k l]; cbn in HF; inversion HF as [| ? ? ? ? Hk HF']; subst. destruct (Hn it) as [m Em]; [by left |].
  cbn. unfold numbers in *. cbn. rewrite Em in *. subst m. f_equal. apply IH; [done |]. intros it' Hit'. apply Hn. by right.
Qed.

Lemma sorted_take_below l m n k : StronglySorted Z.lt l -> n ∈ take m l -> k ∈ l -> k <= n -> k ∈ take m l.
Proof.
  intros Hs Hn Hk Hle. rewrite <- (take_drop m l) in Hs, Hk. apply elem_of_app in Hk as [Hk | Hk]; [done |].
  apply StronglySorted_app in Hs as (Hs & _ & _). specialize (Hs n k Hn Hk). lia.
Qed.

Lemma sorted_watermarks l : honest l -> StronglySorted Z.lt (watermarks l).
Proof.
  induction l as [| it l IH] using rev_ind; intros Hh; [constructor |].
  assert (honest l) as Hl by (intros l1 n l2 ->; apply (Hh l1 n (l2 ++ [it])); by rewrite <- app_assoc).
  unfold watermarks. rewrite omap_snoc. destruct it as [| | | n]; rewrite ?app_nil_r; try by apply IH.
  apply sorted_snoc; [by apply IH |]. apply Forall_forall. by apply (Hh l n []).
Qed.

(** C22: a [data.ack] is honest.  When the agent numbers its frames upwards and the
    socket delivers them in order, every frame it sent with a number at or below
    an acknowledged watermark was dispatched before the acknowledgement went
    out, or was of a protocol version the server never accepts; nothing
    unreadable hides below a watermark, watermarks only grow, and an agent that
    did not ask for acknowledgements gets none. *)
Theorem acks_are_honest i c w b l :
  reaches i c w b -> StronglySorted Z.lt l -> arrived l (reads (log c)) ->
  (ack_data_requested = false -> watermarks (log c) = []) /\
  StronglySorted Z.lt (watermarks (log c)) /\
  forall l1 n l2, log c = l1 ++ Acknowledged n :: l2 ->
    n ∈ l /\ forall k, k ∈ l -> k <= n -> k ∈ handled_numbers l1 \/ Refused k UNSUPPORTED_VERSION ∈ l1.
Proof.
  intros (hello & now & w0 & [Hs _]%rtc_alive) Hl Ha. cbn [fst] in Hs. split_and!.
  - intros Er. destruct (watermarks (log c)) eqn:E; [done |]. by rewrite (sound_requested _ Hs) in Er by by rewrite E.
  - apply sorted_watermarks, Hs.
  - intros l1 n l2 El. destruct (sound_honest _ Hs l1 n l2 El) as (Hu & Hn & _ & _). rewrite El in Ha.
    pose proof (arrived_numbers l l1 _ Ha Hu) as En. rewrite En in Hn. split; [by apply elem_of_take in Hn as (? & ?%list_elem_of_lookup_2 & _) |].
    intros k Hk Hle. pose proof (sorted_take_below l _ n k Hl Hn Hk Hle) as Hin. rewrite <- En in Hin.
    apply numbers_split in Hin as (l3 & it & l4 & -> & Hit). destruct it as [m | m reason | |]; try done; injection Hit as ->.
    + left. unfold handled_numbers. rewrite omap_app. apply elem_of_app. right. by left.
    + right. destruct (sound_refused _ Hs l3 k reason (l4 ++ Acknowledged n :: l2)) as [-> | (j & Hj & Hkj)]; [by rewrite El, <- app_assoc | set_solver |].
      exfalso. assert (StronglySorted Z.lt (numbers (l3 ++ Refused k reason :: l4))) as Hsort.
      { rewrite En. apply (StronglySorted_app_1_l _ _ (drop (length (reads (l3 ++ Refused k reason :: l4))) l)). by rewrite take_drop. }
      unfold numbers in Hsort. rewrite omap_app in Hsort. apply (StronglySorted_app_1_elem_of _ _ _ j k) in Hsort; [lia | | by left].
      unfold handled_numbers in Hj. apply list_elem_of_omap in Hj as (it & Hin & Hit). apply list_elem_of_omap. exists it. split; [done |]. by destruct it.
Qed.

(** acknowledgements are prompt.  On a connection whose messages were all
    readable, waiting no longer than the poll timeout the loop computes, the
    next flush leaves every number read so far covered by a watermark. *)
Theorem ack_follows i c w now later :
  reaches i c w true -> ack_data_requested = true -> (Unreadable ∉ log c) -> last_ack_at c <= now -> now + next_poll_timeout (last_ack_at c) now (ack_pending c) <= later ->
  forall k, k ∈ numbers (log c) -> exists n, n ∈ watermarks (log (flush_data_ack false true later c).1) /\ k <= n.
Proof.
  intros (hello & at0 & w0 & [Hs _]%rtc_alive) Er Hu Hat Hlater k Hk. cbn [fst] in Hs. unfold next_poll_timeout, ack_pending in Hlater. unfold flush_data_ack.
  destruct (ack_frozen c) eqn:Ef; [by apply (sound_frozen _ Hs) in Ef |]. pose proof (sound_handled _ Hs) as Hh. rewrite Er in *. cbn [negb orb] in *.
  destruct (handled_seq c) as [n |]; [| by rewrite Hh in Hk; apply elem_of_nil in Hk]. destruct Hh as [_ Hmax]. specialize (Hmax k Hk).
  destruct (acked_seq c) as [m |] eqn:Ea.
  - destruct (Z.leb_spec n m) as [Hle | Hlt]; [exists m; split; [by apply (sound_watermark _ Hs) | lia] |].
    replace (m <? n) with true in Hlater by lia. cbn [negb andb] in *. unfold LINK_POLL_SECONDS, ACK_COALESCE_SECONDS in *.
    destruct (Z.ltb_spec (later - last_ack_at c) 1000000); [lia |]. rewrite andb_false_r. exists n. split; [| done].
    cbn [fst log send]. unfold watermarks. rewrite omap_snoc. apply elem_of_app. right. by left.
  - cbn [negb andb] in *. unfold LINK_POLL_SECONDS, ACK_COALESCE_SECONDS in *.
    destruct (Z.ltb_spec (later - last_ack_at c) 1000000); [lia |]. rewrite andb_false_r. exists n. split; [| done].
    cbn [fst log send]. unfold watermarks. rewrite omap_snoc. apply elem_of_app. right. by left.
Qed.

(** no replay.  Within a connection the dispatched sequence numbers strictly
    increase, a frame is refused for its number only when one at or above it
    was dispatched before, and the server's own frames are numbered strictly
    upwards. *)
Theorem no_replay i c w b :
  reaches i c w b ->
  StronglySorted Z.lt (handled_numbers (log c)) /\ justified (log c) /\ StronglySorted Z.lt (sent c).*1.
Proof. intros (hello & now & w0 & [Hs _]%rtc_alive). split_and!; apply Hs. Qed.

(** Frames dispatched one after the other. *)
Fixpoint dispatch_all (i : Z) (fs : list frame) (w : world X) : option (world X) :=
  match fs with [] => Some w | f :: fs => w ← dispatch_frame i f w; dispatch_all i fs w end.

Definition violation (i : Z) (f : frame) : event := Event i "capability_violation" None (JObj [("frame_type", JStr (f_type f))]).

Lemma dispatch_withheld i f w capability :
  dict_get (f_type f) CAPABILITY_FOR_TYPE = Some capability -> grants_dict i capability (reg w) = Some false ->
  exists w', dispatch_frame i f w = Some w' /\ rest w' = rest w /\ grants (reg w') = grants (reg w) /\
    agents (reg w') = agents (reg w) /\ events (reg w') = events (reg w) ++ [violation i f] /\
    refused_frames w' = <[i := default 0 (refused_frames w !! i) + 1]> (refused_frames w).
Proof using Type. intros Ec Eg. unfold dispatch_frame. rewrite Ec, Eg. cbn [default id]. eexists. split; [reflexivity |]. by split_and!. Qed.

Lemma dispatch_all_withheld i capability fs w :
  grants_dict i capability (reg w) = Some false -> Forall (fun f => dict_get (f_type f) CAPABILITY_FOR_TYPE = Some capability) fs ->
  exists w', dispatch_all i fs w = Some w' /\ rest w' = rest w /\ grants (reg w') = grants (reg w) /\ agents (reg w') = agents (reg w) /\
    events (reg w') = events (reg w) ++ map (violation i) fs /\
    default 0 (refused_frames w' !! i) = default 0 (refused_frames w !! i) + Z.of_nat (length fs) /\
    forall j, j <> i -> refused_frames w' !! j = refused_frames w !! j.
Proof using Type.
  intros Hg Hfs. revert w Hg. induction Hfs as [| f fs Hf Hfs IH]; intros w Hg; cbn [dispatch_all].
  - exists w. cbn [map length]. rewrite app_nil_r. split_and!; try done. lia.
  - destruct (dispatch_withheld i f w capability Hf Hg) as (w1 & -> & Er & Eg & Ea & Ee & Erf). cbn [mbind option_bind].
    destruct (IH w1) as (w2 & -> & Er2 & Eg2 & Ea2 & Ee2 & Ec2 & Ej2); [unfold grants_dict; by rewrite Eg |].
    exists w2. rewrite Er2, Eg2, Ea2, Ee2, Ec2, Er, Eg, Ea, Ee, Erf. split_and!; try done.
    + by rewrite <- app_assoc.
    + rewrite lookup_insert_eq. cbn [default id length]. lia.
    + intros j Hj. rewrite Ej2, Erf, lookup_insert_ne by done. done.
Qed.

(** a withheld capability stores nothing.  After an operator switches a
    capability off, any number of data frames of that capability leave
    everything the handlers write as it was, leave the registry's rows as they
    were, and are each counted and reported once. *)
Theorem withheld_stores_nothing i requested actor now s s' capability value supplied fs refused x :
  set_capability_grants i requested actor now s = Ok s' -> NoDup requested.*1 ->
  (capability, value) ∈ requested -> Capabilities.grant_parts value = Ok (false, supplied) ->
  Forall (fun f => dict_get (f_type f) CAPABILITY_FOR_TYPE = Some capability) fs ->
  exists w, dispatch_all i fs (World s' refused x) = Some w /\ rest w = x /\ grants (reg w) = grants s' /\ agents (reg w) = agents s' /\
    events (reg w) = events s' ++ map (violation i) fs /\
    default 0 (refused_frames w !! i) = default 0 (refused !! i) + Z.of_nat (length fs) /\
    forall j, j <> i -> refused_frames w !! j = refused !! j.
Proof using Type.
  intros Hset Hnd Hin Hp Hfs. apply (dispatch_all_withheld i capability fs (World s' refused x)); [| done]. by eapply withheld_row.
Qed.
End Connection.

(** *** An instance *)

Definition lab_handlers (type : string) : option (Z -> frame -> world Z -> option (world Z)) :=
  if String.eqb type "telemetry.host" then Some (fun i f w => Some (World (reg w) (refused_frames w) (rest w + 1))) else None.
Definition lab_world : world Z := World Identity.lab_active ∅ 0.
Definition lab_frame (n : Z) : frame := Frame 1 "telemetry.host" n [].
Abbreviation lab_receive := (receive lab_handlers (fun _ _ w => w) (fun _ => None) (fun _ _ => EmptyString) (fun _ _ w => w) true 1).
Abbreviation lab_reaches := (reaches lab_handlers (fun _ _ w => w) (fun _ => None) (fun _ _ => EmptyString) (fun _ _ w => w) true 1).

Definition lab_read : conn * world Z :=
  (lab_receive (Some (Some (lab_frame 1))) 300 true (lab_receive (Some (Some (lab_frame 0))) 200 true (opened ["hello.ack"] 100, lab_world)).1).1.
Definition lab_acked : conn := (flush_data_ack true false true 2000000 lab_read.1).1.

Lemma lab_read_reaches : lab_reaches lab_read.1 lab_read.2 true.
Proof.
  exists ["hello.ack"], 100, lab_world. eapply rtc_l; [apply (step_message _ _ _ _ _ _ _ (Some (Some (lab_frame 0))) 200 true) |].
  eapply rtc_l; [| apply rtc_refl]. match goal with |- step _ _ _ _ _ _ _ ?s _ => replace s with (s.1, true) by (vm_compute; reflexivity) end.
  replace (lab_read.1, lab_read.2, true) with (lab_receive (Some (Some (lab_frame 1))) 300 true
    (lab_receive (Some (Some (lab_frame 0))) 200 true (opened ["hello.ack"] 100, lab_world)).1) by (vm_compute; reflexivity).
  apply step_message.
Qed.

Lemma lab_acked_reaches : lab_reaches lab_acked lab_read.2 true.
Proof.
  destruct lab_read_reaches as (h & n & w & Hr). exists h, n, w. eapply rtc_r; [exact Hr |].
  replace (lab_acked, lab_read.2, true) with (lab_acked, lab_read.2, (flush_data_ack true false true 2000000 lab_read.1).2) by (vm_compute; reflexivity).
  apply step_flush.
Qed.

Lemma acks_are_honest_witness : log lab_acked = [Handled 0; Handled 1; Acknowledged 1] /\ StronglySorted Z.lt (watermarks (log lab_acked)).
Proof.
  split; [vm_compute; reflexivity |].
  apply (acks_are_honest lab_handlers (fun _ _ w => w) (fun _ => None) (fun _ _ => EmptyString) (fun _ _ w => w) true 1 lab_acked lab_read.2 true [0; 1; 2] lab_acked_reaches).
  - repeat constructor.
  - vm_compute. repeat constructor.
Defined.

Lemma ack_follows_witness : exists n, n ∈ watermarks (log (flush_data_ack true false true 2000000 lab_read.1).1) /\ 0 <= n.
Proof.
  apply (ack_follows lab_handlers (fun _ _ w => w) (fun _ => None) (fun _ _ => EmptyString) (fun _ _ w => w) true 1 lab_read.1 lab_read.2 300 2000000 lab_read_reaches).
  - reflexivity.
  - vm_compute. set_solver.
  - vm_compute. discriminate.
  - vm_compute. discriminate.
  - apply (bool_decide_unpack _); vm_compute; exact I.
Defined.

Lemma no_replay_witness : handled_numbers (log lab_read.1) = [0; 1] /\ StronglySorted Z.lt (handled_numbers (log lab_read.1)).
Proof.
  split; [vm_compute; reflexivity |].
  apply (no_replay lab_handlers (fun _ _ w => w) (fun _ => None) (fun _ _ => EmptyString) (fun _ _ w => w) true 1 lab_read.1 lab_read.2 true lab_read_reaches).
Defined.

Definition lab_off : db :=
  match set_capability_grants 1 [("host_telemetry", JBool false)] 7 50 Identity.lab_active with Ok s => s | Err _ => Identity.lab_active end.

Lemma withheld_stores_nothing_witness : exists w,
  dispatch_all lab_handlers 1 [lab_frame 0; lab_frame 1] (World lab_off ∅ 5) = Some w /\ rest w = 5.
Proof.
  destruct (withheld_stores_nothing lab_handlers 1 [("host_telemetry", JBool false)] 7 50 Identity.lab_active lab_off "host_telemetry" (JBool false) []
              [lab_frame 0; lab_frame 1] ∅ 5) as (w & H1 & H2 & _).
  - vm_compute. reflexivity.
  - repeat constructor; set_solver.
  - by left.
  - reflexivity.
  - repeat constructor.
  - exists w. split; [exact H1 | exact H2].
Defined.
End Link.
