(* ===== verification/Monitor.v ===== *)
(** The monitor state machine ([services/monitoring/state.py]): the pure decision
    on one check result, its application to the monitor's row, and what a whole
    sequence of results leads to. *)
From S2P Require Import Prelude.
Open Scope Z_scope.

Module Monitor.

(** A stored status is text or absent. *)
Definition UP : string := "up".
Definition DOWN : string := "down".
Definition PENDING : string := "pending".

Inductive notify := NotifyDown | NotifyRecovered.

Record state_decision := StateDecision {
  new_status : string;
  retries : Z;
  event_type : option string;
  notification : option notify
}.

Definition status_is (s : option string) (x : string) : bool := bool_decide (s = Some x).

Definition decide (prev_status : option string) (prev_retries : Z) (up : bool) (max_retries : Z) : state_decision :=
  if up then
    if status_is prev_status UP then StateDecision UP 0 None None
    else StateDecision UP 0 (Some "up") (if status_is prev_status DOWN then Some NotifyRecovered else None)
  else
    let retries := prev_retries + 1 in
    if negb (status_is prev_status DOWN) && (retries <=? max_retries)
    then StateDecision PENDING retries (if status_is prev_status PENDING then None else Some "pending") None
    else if status_is prev_status DOWN then StateDecision DOWN retries None None
    else StateDecision DOWN retries (Some "down") (Some NotifyDown).

(** The columns of [monitor_items] the machine reads or writes; times in
    microseconds, intervals in seconds. *)
Record item := Item {
  item_id : Z;
  name : string;
  interval_secs : Z;
  retry_interval_secs : option Z;
  max_retries : Z;
  last_status : option string;
  consecutive_failures : Z;
  last_polled_at : option Z;
  last_status_change_at : option Z;
  next_due_at : option Z
}.

Record monitor_event := MonitorEvent {
  ev_item : Z;
  ev_type : string;
  status_from : option string;
  status_to : string;
  ev_msg : string;
  duration_secs : option Z
}.

Record transition := AppliedTransition {
  tr_item : Z;
  tr_name : string;
  tr_from : option string;
  tr_to : string;
  tr_msg : string;
  tr_notify : option notify;
  occurred_at : Z
}.

Record check := Check { is_up : bool; msg : string; checked_at : Z }.

Section Apply.
(** [round(d.total_seconds(), 1)] of a number of microseconds, in tenths. *)
Variable round1 : Z -> Z.

(** [apply_result] on the locked row: the row, the appended event, the return value. *)
Definition apply_to (i : item) (c : check) : item * option monitor_event * option transition :=
  let d := decide (last_status i) (consecutive_failures i) (is_up c) (max_retries i) in
  let due := if String.eqb (new_status d) PENDING
             then Some (checked_at c + 1000000 * match retry_interval_secs i with
                                                 | Some r => if r =? 0 then interval_secs i else r
                                                 | None => interval_secs i
                                                 end)
             else next_due_at i in
  let row changed := Item (item_id i) (name i) (interval_secs i) (retry_interval_secs i) (max_retries i)
                       (Some (new_status d)) (retries d) (Some (checked_at c)) changed due in
  match event_type d with
  | None => (row (last_status_change_at i), None, None)
  | Some e =>
      (row (Some (checked_at c)),
       Some (MonitorEvent (item_id i) e (last_status i) (new_status d) (String.substring 0 2000 (msg c))
               ((fun t => round1 (checked_at c - t)) <$> last_status_change_at i)),
       Some (AppliedTransition (item_id i) (name i) (last_status i) (new_status d) (msg c) (notification d) (checked_at c)))
  end.

(** [apply_result(db, item_id, ...)] over the table and the event log. *)
Definition apply_result (items : gmap Z item) (log : list monitor_event) (id : Z) (c : check) :
    gmap Z item * list monitor_event * option transition :=
  match items !! id with
  | None => (items, log, None)
  | Some i => let '(i', e, t) := apply_to i c in (<[id := i']> items, log ++ option_list e, t)
  end.

(** A sequence of results for one monitor. *)
Fixpoint apply_all (i : item) (cs : list check) : item * list monitor_event * list transition :=
  match cs with
  | [] => (i, [], [])
  | c :: cs =>
      let '(i1, e, t) := apply_to i c in
      let '(i2, es, ts) := apply_all i1 cs in
      (i2, option_list e ++ es, option_list t ++ ts)
  end.

(** *** The state is a function of the trailing failures *)

(** How many results at the end of the sequence are failures; [n] before it. *)
Definition failing (n : Z) (cs : list check) : Z := foldl (fun n c => if is_up c then 0 else n + 1) n cs.

Definition status_after (max n : Z) : string := if n =? 0 then UP else if n <=? max then PENDING else DOWN.

(** The row agrees with [n] trailing failures. *)
Definition settled (i : item) (n : Z) : Prop :=
  consecutive_failures i = n /\ 0 <= n /\
  (last_status i = Some (status_after (max_retries i) n) \/
   n = 0 /\ last_status i <> Some DOWN /\ last_status i <> Some PENDING).

Lemma is_true s x : status_is s x = true <-> s = Some x.
Proof. unfold status_is. apply bool_decide_eq_true. Qed.

Lemma is_false s x : status_is s x = false <-> s <> Some x.
Proof. unfold status_is. apply bool_decide_eq_false. Qed.

Lemma apply_fields i c :
  let '(i', _, _) := apply_to i c in
  let d := decide (last_status i) (consecutive_failures i) (is_up c) (max_retries i) in
  max_retries i' = max_retries i /\ last_status i' = Some (new_status d) /\ consecutive_failures i' = retries d.
Proof. unfold apply_to. by destruct (event_type _). Qed.

Lemma decide_settled i n up : 0 <= max_retries i -> settled i n ->
  let d := decide (last_status i) (consecutive_failures i) up (max_retries i) in
  let n' := if up then 0 else n + 1 in
  retries d = n' /\ new_status d = status_after (max_retries i) n'.
Proof.
  intros Hm (Hn & H0 & Hs). unfold decide, status_after. rewrite Hn. destruct up; [by destruct (status_is _ UP) |].
  assert (status_is (last_status i) DOWN = negb (n =? 0) && (max_retries i <? n)) as ->.
  { unfold status_after in Hs. destruct Hs as [-> | (-> & Hd & _)]; [| by apply is_false].
    destruct (Z.eqb_spec n 0), (Z.leb_spec n (max_retries i)), (Z.ltb_spec (max_retries i) n); try done; lia. }
  destruct (Z.eqb_spec n 0), (Z.eqb_spec (n + 1) 0), (Z.ltb_spec (max_retries i) n), (Z.leb_spec (n + 1) (max_retries i));
    simpl; try done; lia.
Qed.

Lemma apply_settled i n c : 0 <= max_retries i -> settled i n ->
  let '(i', _, _) := apply_to i c in
  max_retries i' = max_retries i /\ settled i' (if is_up c then 0 else n + 1) /\
  last_status i' = Some (status_after (max_retries i') (if is_up c then 0 else n + 1)).
Proof.
  intros Hm Hs. pose proof (apply_fields i c) as Hf. pose proof (decide_settled i n (is_up c) Hm Hs) as [H1 H2].
  destruct (apply_to i c) as [[i' e] t]. destruct Hf as (E1 & E2 & E3). rewrite H2 in E2. rewrite H1 in E3.
  destruct Hs as (_ & H0 & _). unfold settled. rewrite E1, E2, E3. destruct (is_up c); split_and!; auto; lia.
Qed.

Lemma apply_all_settled i n cs : 0 <= max_retries i -> settled i n ->
  let '(i', _, _) := apply_all i cs in max_retries i' = max_retries i /\ settled i' (failing n cs) /\
    (cs <> [] -> last_status i' = Some (status_after (max_retries i) (failing n cs))).
Proof.
  revert i n. induction cs as [| c cs IH]; intros i n Hm Hs; [done |]. simpl.
  pose proof (apply_settled i n c Hm Hs) as H1. destruct (apply_to i c) as [[i1 e] t].
  destruct H1 as (E1 & H1 & H1'). specialize (IH i1 (if is_up c then 0 else n + 1)). rewrite E1 in IH.
  specialize (IH Hm H1). destruct (apply_all i1 cs) as [[i2 es] ts] eqn:E. destruct IH as (E2 & H2 & H3).
  unfold failing in *. simpl. split_and!; [congruence | done |]. intros _.
  destruct cs as [| c' cs]; [| by apply H3]. simpl in E. simplify_eq. simpl. by rewrite H1', E1.
Qed.


(** *** Notifications and the event log *)

Fixpoint alternates (down : bool) (ns : list notify) : Prop :=
  match ns with
  | [] => True
  | NotifyRecovered :: ns => down = true /\ alternates false ns
  | NotifyDown :: ns => down = false /\ alternates true ns
  end.

(** Each event starts from the status the one before it ended in. *)
Fixpoint linked (from : option string) (es : list monitor_event) : Prop :=
  match es with
  | [] => True
  | e :: es => status_from e = from /\ Some (status_to e) <> from /\ linked (Some (status_to e)) es
  end.

Definition notifications (ts : list transition) : list notify := omap tr_notify ts.

(** Whatever the results and the stored row, the notifications a monitor emits
    alternate between down and recovered, starting with the one its status calls
    for, and its event log is a chain: each event starts from the status the
    previous one ended in and changes it. *)
Theorem notifications_alternate i cs :
  let '(_, es, ts) := apply_all i cs in
  alternates (status_is (last_status i) DOWN) (notifications ts) /\ linked (last_status i) es /\
  map status_to es = map tr_to ts.
Proof.
  revert i. induction cs as [| c cs IH]; intros i; [done |]. simpl.
  destruct (apply_to i c) as [[i1 e] t] eqn:Ea. specialize (IH i1).
  destruct (apply_all i1 cs) as [[i2 es] ts]. destruct IH as (IH1 & IH2 & IH3).
  unfold apply_to in Ea. set (d := decide _ _ _ _) in Ea.
  assert (last_status i1 = Some (new_status d)) as Es by (destruct (event_type d); simplify_eq; done).
  rewrite Es in IH1, IH2.
  assert (e = None /\ t = None /\ Some (new_status d) = last_status i \/
    exists x y, e = Some x /\ t = Some y /\ status_from x = last_status i /\ status_to x = new_status d /\
      tr_to y = new_status d /\ tr_notify y = notification d /\ Some (new_status d) <> last_status i) as Hcase.
  { clear -Ea. unfold decide in d. destruct (is_up c) eqn:?.
    - destruct (status_is (last_status i) UP) eqn:E; subst d; simpl in Ea; simplify_eq.
      + left. apply is_true in E. by rewrite E.
      + right. do 2 eexists. split_and!; try done. by apply not_eq_sym, is_false.
    - destruct (status_is (last_status i) DOWN) eqn:E; subst d; simpl in *.
      + simplify_eq. left. apply is_true in E. by rewrite E.
      + destruct (_ <=? _); simpl in *.
        * destruct (status_is (last_status i) PENDING) eqn:E'; simplify_eq.
          -- left. apply is_true in E'. by rewrite E'.
          -- right. do 2 eexists. split_and!; try done. by apply not_eq_sym, is_false.
        * simplify_eq. right. do 2 eexists. split_and!; try done. by apply not_eq_sym, is_false. }
  destruct Hcase as [(-> & -> & E) | (x & y & -> & -> & E1 & E2 & E3 & E4 & E5)]; simpl.
  - rewrite E in IH1, IH2. done.
  - split_and!; [| done | by rewrite E2 | by rewrite E2 | by rewrite E2, E3, IH3].
    unfold notifications. simpl. rewrite E4. subst d. clear -IH1. revert IH1. unfold decide.
    destruct (is_up c).
    + destruct (status_is (last_status i) UP) eqn:E; simpl; [apply is_true in E; by rewrite E |].
      by destruct (status_is (last_status i) DOWN).
    + destruct (status_is (last_status i) DOWN) eqn:E; simpl; [done |]. by destruct (_ <=? _).
Qed.
End Apply.

Definition lab_item : item := Item 1 "gw" 60 (Some 20) 2 None 0 None None None.
Definition lab_checks : list check :=
  map (fun '(u, t) => Check u "" t) [(true, 1); (false, 2); (false, 3); (false, 4); (false, 5); (true, 6)].


Example lab_notifications :
  let '(_, _, ts) := apply_all (fun d => d) lab_item lab_checks in notifications ts = [NotifyDown; NotifyRecovered].
Proof. vm_compute. reflexivity. Qed.

End Monitor.
