(* ===== verification/MetricAlert.v ===== *)
(** Metric alerts ([services/monitoring/metric_evaluator.py],
    [services/monitoring/metric_rules.py], [services/monitoring/metric_catalog.py]):
    the sustained-threshold evaluator, the rules' validation and editing, and the
    persisted incident of each rule. *)
From S2P Require Import Prelude.
From Stdlib Require Import QArith.
Open Scope Z_scope.

Module MetricAlert.

(** A Python [float]. *)
Inductive pyfloat := Fin (q : Q) | PosInf | NegInf | NaN.

Definition isfinite (x : pyfloat) : bool := match x with Fin _ => true | _ => false end.

(** [x < y] and [x <= y]; a comparison with NaN is false. *)
Definition flt (x y : pyfloat) : bool :=
  match x, y with
  | Fin a, Fin b => negb (Qle_bool b a)
  | NegInf, (Fin _ | PosInf) | Fin _, PosInf => true
  | _, _ => false
  end.

Definition fle (x y : pyfloat) : bool :=
  match x, y with
  | Fin a, Fin b => Qle_bool a b
  | NegInf, (Fin _ | PosInf | NegInf) | (Fin _ | PosInf), PosInf => true
  | _, _ => false
  end.

Inductive comparator := Gt | Ge | Lt | Le.

(** Timestamps are in microseconds. *)
Record sample := Sample { timestamp : Z; value : pyfloat; sample_id : string }.

Record rule_config := RuleConfig {
  enabled : bool;
  cmp : comparator;
  threshold : pyfloat;
  breach_duration_s : Z;
  recovery_threshold : pyfloat;
  recovery_duration_s : Z;
  max_gap_s : Z;
  freshness_s : Z
}.

Inductive assessment := Disabled | Unknown | Normal | Pending | Firing | Recovering.
Inductive event_kind := EFiring | ERecovered.

#[export] Instance assessment_eq_dec : EqDecision assessment. Proof. solve_decision. Defined.
#[export] Instance event_kind_eq_dec : EqDecision event_kind. Proof. solve_decision. Defined.

Record evaluation := Evaluation {
  assessed : assessment;
  reason_code : string;
  pending_since : option Z;
  recovery_since : option Z;
  open_incident_id : option string;
  last_sample_at : option Z;
  event : option event_kind
}.

Definition compare (v : pyfloat) (c : comparator) (t : pyfloat) : bool :=
  match c with Gt => flt t v | Ge => fle t v | Lt => flt v t | Le => fle v t end.

Definition recovered (v : pyfloat) (c : rule_config) : bool :=
  match cmp c with
  | Gt | Ge => fle v (recovery_threshold c)
  | Lt | Le => fle (recovery_threshold c) v
  end.

(** [{sample.sample_id: sample for ...}]: a later sample of an id replaces the
    earlier one at its place. *)
Fixpoint dict_put (x : sample) (l : list sample) : list sample :=
  match l with
  | [] => [x]
  | y :: l => if String.eqb (sample_id y) (sample_id x) then x :: l else y :: dict_put x l
  end.

Definition unique (samples : list sample) : list sample :=
  foldl (fun d x => dict_put x d) [] (List.filter (fun s => isfinite (value s)) samples).

Definition sample_le (x y : sample) : bool := timestamp x <=? timestamp y.

Definition ordered_samples (samples : list sample) : list sample := py_sorted sample_le (unique samples).

(** [(a - b).total_seconds() > s]. *)
Definition longer (a b s : Z) : bool := s * 1000000 <? a - b.

(** [l[l.index(x):]]; samples of the list have distinct ids. *)
Fixpoint from_index (x : sample) (l : list sample) : list sample :=
  match l with
  | [] => []
  | y :: l' => if String.eqb (sample_id y) (sample_id x) then l else from_index x l'
  end.

(** The loop over the pairs of the original list, cutting [cur] at each gap. *)
Fixpoint cut_gaps (max_gap : Z) (pairs : list (sample * sample)) (cur : list sample) : list sample :=
  match pairs with
  | [] => cur
  | (l, r) :: pairs =>
      cut_gaps max_gap pairs (if longer (timestamp r) (timestamp l) max_gap then from_index r cur else cur)
  end.

Fixpoint take_while {A} (P : A -> bool) (l : list A) : list A :=
  match l with [] => [] | x :: l => if P x then x :: take_while P l else [] end.

Definition tail_of (P : sample -> bool) (l : list sample) : list sample := rev (take_while P (rev l)).

(** An incident is open when the id is a non-empty text. *)
Definition is_open (incident : option string) : bool :=
  match incident with Some s => negb (String.eqb s EmptyString) | None => false end.

Definition evaluate_rule (c : rule_config) (prior : option string) (samples : list sample) (now : Z) : evaluation :=
  if negb (enabled c) then Evaluation Disabled "disabled" None None prior None None else
  let ordered := ordered_samples samples in
  match list.last ordered with
  | None => Evaluation Unknown "no_samples" None None prior None None
  | Some latest =>
      let at_ := Some (timestamp latest) in
      if longer now (timestamp latest) (freshness_s c) then Evaluation Unknown "stale_samples" None None prior at_ None else
      let run := cut_gaps (max_gap_s c) (zip ordered (tail ordered)) ordered in
      match run with
      | [] => Evaluation Unknown "sample_gap" None None prior at_ None
      | _ =>
          let predicate s := if is_open prior then recovered (value s) c else compare (value s) (cmp c) (threshold c) in
          let t := tail_of predicate run in
          match head t, list.last t with
          | Some first, Some final =>
              let sustained need := need * 1000000 <=? timestamp final - timestamp first in
              if is_open prior then
                if sustained (recovery_duration_s c) then Evaluation Normal "recovered" None None None at_ (Some ERecovered)
                else Evaluation Recovering "recovery_duration" None (Some (timestamp first)) prior at_ None
              else if sustained (breach_duration_s c)
              then Evaluation Firing "threshold_duration" None None None at_ (Some EFiring)
              else Evaluation Pending "breach_duration" (Some (timestamp first)) None None at_ None
          | _, _ => Evaluation (if is_open prior then Firing else Normal) "condition_not_met" None None prior at_ None
          end
      end
  end.

(** *** What the evaluator decides *)

(** A run of samples without a gap. *)
Fixpoint gapless (max_gap : Z) (l : list sample) : Prop :=
  match l with
  | x :: l' => match l' with y :: _ => longer (timestamp y) (timestamp x) max_gap = false | [] => True end /\ gapless max_gap l'
  | [] => True
  end.

(** The newest samples hold the predicate, without a gap, for [need] seconds. *)
Definition sustained (max_gap need : Z) (P : sample -> bool) (ordered : list sample) : Prop :=
  exists pre x suf, ordered = pre ++ x :: suf /\ gapless max_gap (x :: suf) /\
    (forall s, s ∈ x :: suf -> P s = true) /\
    need * 1000000 <= timestamp (default x (list.last suf)) - timestamp x.

Definition fresh (c : rule_config) (ordered : list sample) (now : Z) : Prop :=
  exists latest, list.last ordered = Some latest /\ longer now (timestamp latest) (freshness_s c) = false.

Lemma dict_put_ids x l : map sample_id (dict_put x l) = map sample_id l \/
  map sample_id (dict_put x l) = map sample_id l ++ [sample_id x] /\ sample_id x ∉ map sample_id l.
Proof.
  induction l as [| y l IH]; simpl; [right; split; [done | set_solver] |].
  destruct (String.eqb_spec (sample_id y) (sample_id x)) as [E | Hne]; [left; by rewrite E |]. simpl.
  destruct IH as [-> | [-> H]]; [by left | right]. split; [done |]. set_solver.
Qed.

Lemma unique_ids samples : NoDup (map sample_id (unique samples)).
Proof.
  unfold unique. assert (NoDup (map sample_id [])) as H by constructor. revert H. generalize (@nil sample).
  induction (List.filter _ samples) as [| x l IH]; intros acc Hacc; simpl; [done |].
  apply IH. destruct (dict_put_ids x acc) as [-> | [-> Hx]]; [done |].
  apply NoDup_app. split_and!; [done | set_solver | apply NoDup_singleton].
Qed.

Lemma ordered_ids samples : NoDup (map sample_id (ordered_samples samples)).
Proof. unfold ordered_samples. rewrite (Permutation_map sample_id (py_sorted_perm _ _)). apply unique_ids. Qed.

Lemma ordered_sorted samples : StronglySorted (fun x y => timestamp x <= timestamp y) (ordered_samples samples).
Proof.
  assert (StronglySorted (in_order sample_le) (ordered_samples samples)) as H.
  { apply py_sorted_ordered; unfold sample_le; intros; reflect_bools; lia. }
  induction H as [| x l Hl IH Hx]; constructor; [done |]. eapply Forall_impl; [exact Hx |].
  intros y Hy. unfold in_order, sample_le in Hy. by apply Z.leb_le in Hy.
Qed.

Lemma from_index_app c x l : sample_id x ∉ map sample_id c -> from_index x (c ++ x :: l) = x :: l.
Proof.
  induction c as [| y c IH]; simpl; intros H; [by rewrite String.eqb_refl |].
  rewrite (proj2 (String.eqb_neq _ _)) by set_solver. apply IH. set_solver.
Qed.

Lemma gapless_suffix g a b : gapless g (a ++ b) -> gapless g b.
Proof. induction a as [| x a IH]; [done |]. intros [_ H]. by apply IH. Qed.

Lemma gapless_snoc g a x y : gapless g (a ++ [x]) -> longer (timestamp y) (timestamp x) g = false -> gapless g (a ++ [x; y]).
Proof.
  intros H Hg. induction a as [| z a IH]; [by simpl; auto |]. destruct H as [Hz H]. split; [| by apply IH].
  by destruct a.
Qed.

Lemma gapless_boundary g a x y b : gapless g (a ++ x :: y :: b) -> longer (timestamp y) (timestamp x) g = false.
Proof. intros H%gapless_suffix. exact (proj1 H). Qed.

(** The list before the run ends in a gap. *)
Definition broken_at (g : Z) (pre run : list sample) : Prop :=
  pre = [] \/ exists pre' p h t, pre = pre' ++ [p] /\ run = h :: t /\ longer (timestamp h) (timestamp p) g = true.

Lemma cut_gaps_spec g l x c pre :
  NoDup (map sample_id (c ++ x :: l)) -> gapless g (c ++ [x]) -> broken_at g pre (c ++ x :: l) ->
  exists pre' run, cut_gaps g (zip (x :: l) l) (c ++ x :: l) = run /\ run <> [] /\
    pre ++ c ++ x :: l = pre' ++ run /\ gapless g run /\ broken_at g pre' run.
Proof.
  revert x c pre. induction l as [| y l IH]; intros x c pre Hnd Hg Hb; simpl.
  { exists pre, (c ++ [x]). split_and!; [done | by destruct c | done | done | done]. }
  destruct (longer (timestamp y) (timestamp x) g) eqn:E.
  - replace (c ++ x :: y :: l) with ((c ++ [x]) ++ y :: l) in * by by rewrite <- app_assoc.
    rewrite from_index_app.
    + destruct (IH y [] (pre ++ c ++ [x])) as (pre' & run & H1 & H2 & H3 & H4 & H5); simpl.
      * rewrite map_app in Hnd. by apply NoDup_app in Hnd as (_ & _ & ?).
      * done.
      * right. exists (pre ++ c), x, y, l. by rewrite <- app_assoc.
      * exists pre', run. split_and!; [done | done | | done | done]. rewrite <- H3. simpl. by rewrite <- !app_assoc.
    + rewrite map_app in Hnd. apply NoDup_app in Hnd as (_ & Hnd & _). intros Hin. apply (Hnd _ Hin). simpl. set_solver.
  - replace (c ++ x :: y :: l) with ((c ++ [x]) ++ y :: l) in * by by rewrite <- app_assoc.
    apply (IH y (c ++ [x]) pre); [done | | done]. rewrite <- app_assoc. by apply gapless_snoc.
Qed.

Lemma tail_of_spec P l : exists a, l = a ++ tail_of P l /\ (forall s, s ∈ tail_of P l -> P s = true) /\
  (a = [] \/ exists a' z, a = a' ++ [z] /\ P z = false).
Proof.
  unfold tail_of. enough (forall r, exists a, rev r = a ++ rev (take_while P r) /\
    (forall s, s ∈ rev (take_while P r) -> P s = true) /\ (a = [] \/ exists a' z, a = a' ++ [z] /\ P z = false)) as H
    by (specialize (H (rev l)); by rewrite rev_involutive in H).
  induction r as [| x r IH]; simpl.
  { exists []. split_and!; [done | set_solver | by left]. }
  destruct (P x) eqn:E.
  - destruct IH as (a & -> & H1 & H2). exists a. simpl. split_and!; [by rewrite app_assoc | | done].
    intros s [Hs | ->%list_elem_of_singleton]%elem_of_app; [by apply H1 | done].
  - exists (rev r ++ [x]). simpl. split_and!; [by rewrite app_nil_r | set_solver | right; by exists (rev r), x].
Qed.

(** Of two suffixes of a list one is a suffix of the other. *)
Lemma suffix_cases {A} (a b c d : list A) : a ++ b = c ++ d ->
  (exists z, b = z ++ d) \/ exists z w, d = (z ++ [w]) ++ b /\ a = c ++ z ++ [w].
Proof.
  revert c; induction a as [| x a IH]; intros c E.
  - left. by exists c.
  - destruct c as [| y c].
    + simpl in E. right. destruct (exists_last (l := x :: a)) as (z & w & Ez); [done |].
      exists z, w. split; [by rewrite <- E, <- Ez | by rewrite Ez].
    + injection E as -> E. destruct (IH c E) as [H | (z & w & H1 & H2)]; [by left | right].
      exists z, w. split; [done |]. by rewrite H2.
Qed.

Lemma last_of_nonempty {A} (x : A) l : list.last (x :: l) = Some (default x (list.last l)).
Proof. rewrite last_cons. by destruct (list.last l). Qed.

Lemma sorted_suffix {A} (R : A -> A -> Prop) a b : StronglySorted R (a ++ b) -> StronglySorted R b.
Proof. induction a as [| x a IH]; [done |]. intros H. inversion H; subst. by apply IH. Qed.

Lemma snoc_not_nil {A} (c z : list A) w : [] <> c ++ z ++ [w].
Proof. intros E%(f_equal length). rewrite !length_app in E. simpl in E. lia. Qed.

(** A suffix without a gap lies in the run after the last gap. *)
Lemma run_covers g pre' run pre s : broken_at g pre' run -> pre' ++ run = pre ++ s -> gapless g s ->
  exists z, run = z ++ s.
Proof.
  intros Hb E Hg. destruct (suffix_cases _ _ _ _ E) as [H | (z & w & H1 & H2)]; [done |]. exfalso.
  destruct Hb as [-> | (p' & p & h & t & E1 & E2 & E3)]; [by apply snoc_not_nil in H2 |].
  rewrite H2, app_assoc in E1. apply app_inj_tail in E1 as [_ ->].
  rewrite H1, E2, <- app_assoc in Hg. simpl in Hg. apply gapless_boundary in Hg. congruence.
Qed.

(** A suffix all of which holds lies in the tail. *)
Lemma tail_covers (P : sample -> bool) a t z s : (a = [] \/ exists a' q, a = a' ++ [q] /\ P q = false) ->
  a ++ t = z ++ s -> (forall x, x ∈ s -> P x = true) -> exists w, t = w ++ s.
Proof.
  intros Hmax E HP. destruct (suffix_cases _ _ _ _ E) as [H | (u & v & H1 & H2)]; [done |]. exfalso.
  destruct Hmax as [-> | (a' & q & E1 & Eq)]; [by apply snoc_not_nil in H2 |].
  rewrite H2, app_assoc in E1. apply app_inj_tail in E1 as [_ ->]. rewrite HP in Eq; [done |]. rewrite H1. set_solver.
Qed.

(** The tail the evaluator takes decides sustained conditions. *)
Lemma sustained_tail g need P ordered :
  NoDup (map sample_id ordered) -> StronglySorted (fun x y => timestamp x <= timestamp y) ordered -> ordered <> [] ->
  let run := cut_gaps g (zip ordered (tail ordered)) ordered in
  run <> [] /\
  (sustained g need P ordered <->
   exists first final, head (tail_of P run) = Some first /\ list.last (tail_of P run) = Some final /\
     need * 1000000 <= timestamp final - timestamp first).
Proof.
  intros Hnd Hsort Hne. destruct ordered as [| x0 l0]; [done |]. cbn [tail].
  destruct (cut_gaps_spec g l0 x0 [] [] Hnd) as (pre' & run & Hrun & Hr & Ho & Hg & Hb); [done | by left |].
  simpl in Ho. rewrite (Hrun : cut_gaps g (zip (x0 :: l0) l0) (x0 :: l0) = run). split; [done |]. clear Hrun.
  destruct (tail_of_spec P run) as (a & Ea & HP & Hmax). set (t := tail_of P run) in *. clearbody t.
  rewrite Ho in Hsort |- *. split.
  - intros (pre & x & suf & E & Hgs & HPs & Hd).
    destruct (run_covers g pre' run pre (x :: suf) Hb E Hgs) as [z Ez].
    destruct (tail_covers P a t z (x :: suf) Hmax) as [w Ew]; [by rewrite <- Ea | done |].
    assert (StronglySorted (fun x y => timestamp x <= timestamp y) (w ++ x :: suf)) as Hs.
    { rewrite <- Ew. apply (sorted_suffix _ a). rewrite <- Ea. by apply (sorted_suffix _ pre'). }
    rewrite Ew, last_app_cons, last_of_nonempty.
    destruct w as [| y w]; [by exists x, (default x (list.last suf)) |].
    exists y, (default x (list.last suf)). split_and!; [done | done |].
    inversion Hs as [| ? ? _ Hall]; subst. rewrite Forall_forall in Hall.
    assert (timestamp y <= timestamp x) by (apply Hall; set_solver). lia.
  - intros (first & final & Hf & Hl & Hd). destruct t as [| x suf]; [done |]. injection Hf as <-.
    exists (pre' ++ a), x, suf. rewrite last_of_nonempty in Hl. injection Hl as <-.
    split_and!; [by rewrite <- app_assoc, <- Ea | | done | done]. rewrite Ea in Hg. by apply gapless_suffix in Hg.
Qed.

(** The value condition the evaluator looks for: the breach, or the recovery when
    an incident is open. *)
Definition condition (c : rule_config) (prior : option string) (s : sample) : bool :=
  if is_open prior then recovered (value s) c else compare (value s) (cmp c) (threshold c).

Definition needed (c : rule_config) (prior : option string) : Z :=
  if is_open prior then recovery_duration_s c else breach_duration_s c.

Lemma evaluate_event c prior samples now :
  event (evaluate_rule c prior samples now) =
    (if is_open prior then Some ERecovered else Some EFiring) <->
  enabled c = true /\ fresh c (ordered_samples samples) now /\
  sustained (max_gap_s c) (needed c prior) (condition c prior) (ordered_samples samples).
Proof.
  unfold evaluate_rule, fresh. destruct (enabled c); simpl; [| by destruct (is_open prior); naive_solver].
  pose proof (ordered_ids samples) as Hnd. pose proof (ordered_sorted samples) as Hs.
  set (o := ordered_samples samples) in *. destruct (list.last o) as [latest |] eqn:El.
  2: { split; [by destruct (is_open prior) | intros (_ & (? & ? & _) & _); done]. }
  destruct (longer now (timestamp latest) (freshness_s c)) eqn:Ef.
  { split; [by destruct (is_open prior) | intros (_ & (? & [= <-] & ?) & _); congruence]. }
  destruct (sustained_tail (max_gap_s c) (needed c prior) (condition c prior) o Hnd Hs) as [Hrun Hiff]; [by intros E; rewrite E in El |].
  destruct (cut_gaps _ _ _) as [| r0 r]; [done |].
  change (fun s => if is_open prior then recovered (value s) c else compare (value s) (cmp c) (threshold c)) with (condition c prior).
  set (t := tail_of (condition c prior) (r0 :: r)) in *. unfold needed in *. clearbody t. rewrite Hiff. clear Hiff.
  split.
  - intros H. split_and!; [done | by exists latest |].
    destruct (head t) as [first |] eqn:Eh; [| by destruct (is_open prior)].
    destruct (list.last t) as [final |] eqn:Elt; [| by destruct (is_open prior)].
    exists first, final. split_and!; [done | done |]. destruct (is_open prior); destruct (_ <=? _) eqn:E; try done; by apply Z.leb_le.
  - intros (_ & _ & first & final & -> & -> & Hd). destruct (is_open prior); by rewrite (proj2 (Z.leb_le _ _) Hd).
Qed.

(** The kind of event is the one the prior incident calls for. *)
Lemma evaluate_event_kind c prior samples now k : event (evaluate_rule c prior samples now) = Some k ->
  k = (if is_open prior then ERecovered else EFiring).
Proof.
  unfold evaluate_rule. destruct (negb _); [done |]. destruct (list.last _); [| done]. destruct (longer _ _ _); [done |].
  destruct (cut_gaps _ _ _); [done |]. destruct (head _); [| done]. destruct (list.last (tail_of _ _)); [| done].
  destruct (is_open prior); destruct (_ <=? _); naive_solver.
Qed.

(** C11: An enabled rule emits a firing event exactly when no incident is open,
    the newest sample is fresh, and the newest finite samples breach the
    threshold without a gap for the breach duration; it emits a recovered event
    exactly when an incident is open and the same holds of the recovery
    condition and duration. *)
Theorem evaluation_exact c prior samples now :
  let o := ordered_samples samples in
  (event (evaluate_rule c prior samples now) = Some EFiring <->
   is_open prior = false /\ enabled c = true /\ fresh c o now /\
   sustained (max_gap_s c) (breach_duration_s c) (fun s => compare (value s) (cmp c) (threshold c)) o) /\
  (event (evaluate_rule c prior samples now) = Some ERecovered <->
   is_open prior = true /\ enabled c = true /\ fresh c o now /\
   sustained (max_gap_s c) (recovery_duration_s c) (fun s => recovered (value s) c) o).
Proof.
  pose proof (evaluate_event c prior samples now) as H. pose proof (evaluate_event_kind c prior samples now) as Hk.
  unfold needed, condition in H. destruct (is_open prior); split; split; naive_solver.
Qed.

(** *** Rules and their incidents *)

Record payload := Payload {
  rule_name : string;
  target_type : string;
  target_id : Z;
  metric_key : string;
  source : option string;
  unit_name : string;
  config : rule_config;
  severity : string;
  sink_id : option Z
}.

Record rule := Rule { rule_id : Z; body : payload; revision : Z; created_by : option Z }.

Record alert_state := AlertState {
  rule_revision : Z;
  st_assessment : assessment;
  st_reason : option string;
  st_pending_since : option Z;
  st_recovery_since : option Z;
  st_incident : option string;
  st_last_sample_at : option Z;
  st_last_evaluated_at : option Z
}.

Record alert_event := AlertEvent {
  ae_id : string;
  transition_key : string;
  ae_rule : Z;
  ae_revision : Z;
  incident_id : string;
  ae_kind : event_kind;
  ae_at : Z;
  ae_title : string;
  ae_message : string;
  ae_severity : string;
  ae_sink : option Z
}.

(** The tables; [hardware] and [sinks] are read only. *)
Record database := Database {
  rules : gmap Z rule;
  states : gmap Z alert_state;
  events : list alert_event;
  next_id : Z;
  hardware : gset Z;
  sinks : gmap Z bool
}.

Inductive service_error := ValidationError (m : string) | NotFoundError (m : string) | ConflictError (m code : string).

(** The unit of each metric of [CATALOG]; every metric takes all comparators. *)
Definition CATALOG (key : string) : option string :=
  if bool_decide (key ∈ ["cpu_pct"; "mem_pct"; "disk_pct"]) then Some "%"
  else if String.eqb key "temp_c" then Some (String "176" "C")
  else if String.eqb key "power_w" then Some "W"
  else None.

Definition validate_metric_rule (d : database) (p : payload) : result service_error () :=
  let c := config p in
  if negb (bool_decide (CATALOG (metric_key p) = Some (unit_name p)))
  then Err (ValidationError "The metric and unit combination is not supported.") else
  if negb (isfinite (threshold c)) || negb (isfinite (recovery_threshold c))
  then Err (ValidationError "Thresholds must be finite numbers.") else
  if (match cmp c with Gt | Ge => true | _ => false end) && flt (threshold c) (recovery_threshold c)
  then Err (ValidationError "Recovery must be at or below the firing threshold.") else
  if (match cmp c with Lt | Le => true | _ => false end) && flt (recovery_threshold c) (threshold c)
  then Err (ValidationError "Recovery must be at or above the firing threshold.") else
  if negb (String.eqb (target_type p) "hardware") || negb (bool_decide (target_id p ∈ hardware d))
  then Err (ValidationError "The selected hardware target does not exist") else
  if enabled c then
    match sink_id p with
    | None => Err (ValidationError "An enabled metric rule requires a notification destination.")
    | Some k => if default false (sinks d !! k) then Ok ()
                else Err (ValidationError "The selected notification destination is unavailable.")
    end
  else Ok ().

Definition with_rules (d : database) (r : gmap Z rule) (s : gmap Z alert_state) (n : Z) : database :=
  Database r s (events d) n (hardware d) (sinks d).

Definition initial_state (r : rule) : alert_state :=
  let on := enabled (config (body r)) in
  AlertState (revision r) (if on then Unknown else Disabled) (if on then None else Some "disabled") None None None None None.

Definition create_rule (d : database) (p : payload) (actor : option Z) : result service_error (rule * database) :=
  _ ← validate_metric_rule d p;
  let r := Rule (next_id d) p 1 actor in
  Ok (r, with_rules d (<[rule_id r := r]> (rules d)) (<[rule_id r := initial_state r]> (states d)) (next_id d + 1)).

(** A state row with the columns' defaults. *)
Definition new_state (rev : Z) : alert_state := AlertState rev Unknown None None None None None None.

Definition update_rule (d : database) (id : Z) (p : payload) (rev : Z) : result service_error (rule * database) :=
  match rules d !! id with
  | None => Err (NotFoundError "Metric alert rule not found.")
  | Some r =>
      if negb (revision r =? rev) then Err (ConflictError "The rule changed; reload it and try again." "stale_rule") else
      _ ← validate_metric_rule d p;
      let r' := Rule id p (revision r + 1) (created_by r) in
      let st := default (new_state (revision r')) (states d !! id) in
      let on := enabled (config p) in
      let st' := AlertState (revision r') (if on then Unknown else Disabled) (if on then None else Some "disabled")
                   None None (st_incident st) None (st_last_evaluated_at st) in
      Ok (r', with_rules d (<[id := r']> (rules d)) (<[id := st']> (states d)) (next_id d))
  end.

(** The states and events of a rule go with it. *)
Definition delete_rule (d : database) (id : Z) : result service_error database :=
  match rules d !! id with
  | None => Err (NotFoundError "Metric alert rule not found.")
  | Some _ => Ok (Database (delete id (rules d)) (delete id (states d))
                    (List.filter (fun e => negb (ae_rule e =? id)) (events d)) (next_id d) (hardware d) (sinks d))
  end.

Definition kind_text (k : event_kind) : string := match k with EFiring => "firing" | ERecovered => "recovered" end.
Definition assessment_text (a : assessment) : string :=
  match a with
  | Disabled => "disabled" | Unknown => "unknown" | Normal => "normal"
  | Pending => "pending" | Firing => "firing" | Recovering => "recovering"
  end.

(** [uuid] and [event_uuid] are the two values [uuid4().hex] returns. *)
Definition persist_rule_transition (d : database) (r : rule) (e : evaluation) (now : Z) (uuid event_uuid : string) :
    database * option alert_event :=
  let st := default (new_state (revision r)) (states d !! rule_id r) in
  let incident := match event e with Some EFiring => Some uuid | _ => st_incident st end in
  let put s := Database (rules d) (<[rule_id r := s]> (states d)) (events d) (next_id d) (hardware d) (sinks d) in
  if bool_decide (event e = Some ERecovered) && negb (is_open incident) then
    (put (if rule_revision st =? revision r then st
          else AlertState (revision r) (st_assessment st) (st_reason st) None None (st_incident st)
                 (st_last_sample_at st) (st_last_evaluated_at st)), None)
  else
    let d' := put (AlertState (revision r) (assessed e) (Some (reason_code e)) (pending_since e) (recovery_since e)
                     (if bool_decide (assessed e = Normal) then None else incident) (last_sample_at e) (Some now)) in
    match event e, incident with
    | Some k, Some i =>
        let b := body r in
        let ev := AlertEvent event_uuid
          ("metric:" +:+ pretty (rule_id r) +:+ ":" +:+ pretty (revision r) +:+ ":" +:+ i +:+ ":" +:+ kind_text k)
          (rule_id r) (revision r) i k now
          ("Metric alert " +:+ rule_name b +:+ " " +:+ kind_text k)
          (metric_key b +:+ " on hardware:" +:+ pretty (target_id b) +:+ " is " +:+ assessment_text (assessed e) +:+ ".")
          (match k with EFiring => severity b | ERecovered => "info" end) (sink_id b) in
        (Database (rules d') (states d') (events d' ++ [ev]) (next_id d') (hardware d') (sinks d'), Some ev)
    | _, _ => (d', None)
    end.

(** A row of [hardware_live_metrics]. *)
Record metric_row := MetricRow {
  mr_id : Z;
  mr_hardware : Z;
  collected_at : Z;
  agent_sample_id : option string;
  mr_source : string;
  mr_value : string -> option pyfloat
}.

Section Window.
Variable isoformat : Z -> string.

(** [read_metric_window] of a catalogued metric: the newest [limit] rows, oldest first. *)
Definition read_metric_window (table : list metric_row) (hw : Z) (key : string) (src : option string) (since : Z) (limit : nat) :
    list sample :=
  let wanted r := (mr_hardware r =? hw) && (since <=? collected_at r) && negb (String.eqb (mr_source r) "hourly_agg")
                  && match src with Some s => String.eqb s EmptyString || String.eqb (mr_source r) s | None => true end in
  let rows := List.filter wanted table in
  let newest := take limit (py_sorted (fun x y => collected_at y <=? collected_at x)
                  (List.filter (fun r => match mr_value r key with Some _ => true | None => false end) rows)) in
  omap (fun r => (fun v => Sample (collected_at r) v
                    (match agent_sample_id r with
                     | Some s => if String.eqb s EmptyString then pretty (mr_id r) +:+ ":" +:+ isoformat (collected_at r) else s
                     | None => pretty (mr_id r) +:+ ":" +:+ isoformat (collected_at r)
                     end)) <$> mr_value r key) (rev newest).

Definition evaluate_persisted_rule (d : database) (table : list metric_row) (r : rule) (now : Z) (uuid event_uuid : string) :
    database * option alert_event :=
  let c := config (body r) in
  let window := Z.max (breach_duration_s c) (recovery_duration_s c) + max_gap_s c in
  let samples := read_metric_window table (target_id (body r)) (metric_key (body r)) (source (body r))
                   (now - 1000000 * Z.max window (freshness_s c)) 5000 in
  let prior := states d !! rule_id r ≫= st_incident in
  persist_rule_transition d r (evaluate_rule c prior samples now) now uuid event_uuid.
End Window.

(** *** Incidents over a rule's life *)

Inductive action :=
| ACreate (p : payload) (actor : option Z)
| AUpdate (id : Z) (p : payload) (rev : Z)
| ADelete (id : Z)
| AEvaluate (id : Z) (table : list metric_row) (now : Z) (uuid event_uuid : string).

Section Life.
Variable isoformat : Z -> string.

(** A refused request changes nothing. *)
Definition act (d : database) (a : action) : database :=
  match a with
  | ACreate p actor => match create_rule d p actor with Ok (_, d') => d' | Err _ => d end
  | AUpdate id p rev => match update_rule d id p rev with Ok (_, d') => d' | Err _ => d end
  | ADelete id => match delete_rule d id with Ok d' => d' | Err _ => d end
  | AEvaluate id table now uuid event_uuid =>
      match rules d !! id with
      | Some r => (evaluate_persisted_rule isoformat d table r now uuid event_uuid).1
      | None => d
      end
  end.

(** [uuid4().hex] is not empty. *)
Definition action_ok (a : action) : Prop :=
  match a with AEvaluate _ _ _ uuid _ => uuid <> EmptyString | _ => True end.

Definition empty_database (hw : gset Z) (sk : gmap Z bool) : database := Database ∅ ∅ [] 1 hw sk.

Definition events_of (d : database) (id : Z) : list alert_event := List.filter (fun e => ae_rule e =? id) (events d).

Definition incident_of (d : database) (id : Z) : option string := states d !! id ≫= st_incident.

(** Firing and recovered alternate, a recovery closing the incident that fired;
    [final] is the incident left open. *)
Fixpoint paired (open : option string) (es : list alert_event) (final : option string) : Prop :=
  match es with
  | [] => open = final
  | e :: es =>
      match ae_kind e, open with
      | EFiring, None => paired (Some (incident_id e)) es final
      | ERecovered, Some i => incident_id e = i /\ paired None es final
      | _, _ => False
      end
  end.

Lemma paired_firing o es e : paired o es None -> ae_kind e = EFiring -> paired o (es ++ [e]) (Some (incident_id e)).
Proof.
  intros H Hk. revert o H. induction es as [| x es IH]; intros o H; simpl in *; [by rewrite Hk, H |].
  destruct (ae_kind x), o; try done; [by apply IH |]. destruct H. split; [done | by apply IH].
Qed.

Lemma paired_recovered o es e : paired o es (Some (incident_id e)) -> ae_kind e = ERecovered -> paired o (es ++ [e]) None.
Proof.
  intros H Hk. revert o H. induction es as [| x es IH]; intros o H; simpl in *; [by rewrite Hk, H |].
  destruct (ae_kind x), o; try done; [by apply IH |]. destruct H. split; [done | by apply IH].
Qed.

Record consistent (d : database) : Prop := {
  co_rules : forall id r, rules d !! id = Some r -> rule_id r = id /\ id < next_id d;
  co_states : forall id, is_Some (states d !! id) -> id < next_id d;
  co_events : forall e, e ∈ events d -> ae_rule e < next_id d;
  co_incident : forall id, incident_of d id <> Some EmptyString;
  co_paired : forall id, paired None (events_of d id) (incident_of d id)
}.

Lemma evaluate_normal c prior samples now :
  event (evaluate_rule c prior samples now) = None -> assessed (evaluate_rule c prior samples now) = Normal ->
  is_open prior = false.
Proof.
  unfold evaluate_rule. destruct (negb _); [done |]. destruct (list.last _); [| done]. destruct (longer _ _ _); [done |].
  destruct (cut_gaps _ _ _); [done |]. destruct (head _); [destruct (list.last (tail_of _ _)) |]; destruct (is_open prior);
    try done; by destruct (_ <=? _).
Qed.

Lemma evaluate_assessed c prior samples now k : event (evaluate_rule c prior samples now) = Some k ->
  assessed (evaluate_rule c prior samples now) = match k with EFiring => Firing | ERecovered => Normal end.
Proof.
  unfold evaluate_rule. destruct (negb _); [done |]. destruct (list.last _); [| done]. destruct (longer _ _ _); [done |].
  destruct (cut_gaps _ _ _); [done |]. destruct (head _); [| done]. destruct (list.last (tail_of _ _)); [| done].
  destruct (is_open prior); destruct (_ <=? _); naive_solver.
Qed.

Lemma is_open_spec i : i <> Some EmptyString -> is_open i = match i with Some _ => true | None => false end.
Proof. destruct i as [x |]; [| done]. simpl. intros H. rewrite (proj2 (String.eqb_neq _ _)); [done | congruence]. Qed.

Lemma events_of_snoc d id e es : events d = es ++ [e] ->
  events_of d id = List.filter (fun e => ae_rule e =? id) es ++ (if ae_rule e =? id then [e] else []).
Proof. intros E. unfold events_of. by rewrite E, List.filter_app. Qed.

(** What an evaluation does to the incident and the events of its rule. *)
Lemma evaluate_effect d table r now uuid euuid :
  incident_of d (rule_id r) <> Some EmptyString -> uuid <> EmptyString ->
  let d' := (evaluate_persisted_rule isoformat d table r now uuid euuid).1 in
  rules d' = rules d /\ next_id d' = next_id d /\
  (forall id, id <> rule_id r -> states d' !! id = states d !! id) /\ is_Some (states d' !! rule_id r) /\
  (events d' = events d /\ incident_of d' (rule_id r) = incident_of d (rule_id r) \/
   exists e, events d' = events d ++ [e] /\ ae_rule e = rule_id r /\
     (ae_kind e = EFiring /\ incident_of d (rule_id r) = None /\ incident_of d' (rule_id r) = Some uuid /\ incident_id e = uuid \/
      ae_kind e = ERecovered /\ incident_of d (rule_id r) = Some (incident_id e) /\ incident_of d' (rule_id r) = None)).
Proof.
  intros Hi Hu. unfold evaluate_persisted_rule. fold (incident_of d (rule_id r)). set (c := config (body r)).
  set (samples := read_metric_window _ _ _ _ _ _ _). set (prior := incident_of d (rule_id r)) in *.
  pose proof (evaluate_event_kind c prior samples now) as Hk. pose proof (evaluate_assessed c prior samples now) as Ha.
  pose proof (evaluate_normal c prior samples now) as Hn. rewrite (is_open_spec prior Hi) in Hk, Hn.
  set (e := evaluate_rule c prior samples now) in *. clearbody e.
  unfold persist_rule_transition.
  assert (st_incident (default (new_state (revision r)) (states d !! rule_id r)) = prior) as ->.
  { unfold prior, incident_of. by destruct (states d !! rule_id r). }
  destruct (event e) as [k |] eqn:Ee; [specialize (Hk k eq_refl); specialize (Ha k eq_refl) |].
  - destruct prior as [i |] eqn:Ep; subst k.
    + rewrite (is_open_spec (Some i) Hi). simpl. rewrite Ha. simpl. unfold incident_of. simpl.
      rewrite lookup_insert_eq. split_and!; [done | done | intros id Hne; by rewrite lookup_insert_ne | done |].
      right. eexists. split; [done |]. split; [done |]. by right.
    + simpl. rewrite Ha. simpl. unfold incident_of. simpl. rewrite lookup_insert_eq.
      split_and!; [done | done | intros id Hne; by rewrite lookup_insert_ne | done |].
      right. eexists. split; [done |]. split; [done |]. by left.
  - simpl. unfold incident_of. simpl. rewrite lookup_insert_eq. simpl.
    split_and!; [by destruct prior | by destruct prior | intros id Hne; by rewrite lookup_insert_ne | done |].
    left. split; [done |]. case_bool_decide as E; [| done]. specialize (Hn eq_refl E). by destruct prior.
Qed.

Lemma no_events_fresh d : consistent d -> events_of d (next_id d) = [].
Proof.
  intros Hd. unfold events_of. pose proof (co_events _ Hd) as H. induction (events d) as [| e es IH]; [done |]. simpl.
  rewrite (proj2 (Z.eqb_neq _ _)); [apply IH; set_solver |]. specialize (H e ltac:(set_solver)). lia.
Qed.

Lemma create_consistent d p actor r d' : consistent d -> create_rule d p actor = Ok (r, d') -> consistent d'.
Proof.
  intros Hd. unfold create_rule. destruct (validate_metric_rule d p); [| done]. cbn [mbind result_bind]. intros [= <- <-].
  pose proof (no_events_fresh d Hd) as Hfresh. destruct Hd as [H1 H2 H3 H4 H5].
  assert (forall id, incident_of (with_rules d (<[next_id d := Rule (next_id d) p 1 actor]> (rules d))
     (<[next_id d := initial_state (Rule (next_id d) p 1 actor)]> (states d)) (next_id d + 1)) id =
     if bool_decide (id = next_id d) then None else incident_of d id) as Hinc.
  { intros id. unfold incident_of. simpl. case_bool_decide; subst; [by rewrite lookup_insert_eq | by rewrite lookup_insert_ne]. }
  constructor; [.. | intros id; rewrite Hinc; by case_bool_decide |].
  - intros id r'. simpl. intros [[<- <-] | [Hne Hr]]%lookup_insert_Some; simpl; [split; [done | lia] |].
    destruct (H1 _ _ Hr). split; [done | lia].
  - intros id. simpl. intros [<- | [_ Hs]]%lookup_insert_is_Some; [lia |]. specialize (H2 id Hs). lia.
  - intros e He. specialize (H3 e He). simpl. lia.
  - intros id. rewrite Hinc. case_bool_decide as E; [| apply H5]. subst. unfold events_of in *. simpl. by rewrite Hfresh.
Qed.

Lemma update_consistent d id p rev r d' : consistent d -> update_rule d id p rev = Ok (r, d') -> consistent d'.
Proof.
  intros Hd. unfold update_rule. destruct (rules d !! id) as [r0 |] eqn:Er; [| done]. destruct (negb _); [done |].
  destruct (validate_metric_rule d p); [| done]. cbn [mbind result_bind]. intros [= <- <-].
  destruct Hd as [H1 H2 H3 H4 H5]. destruct (H1 _ _ Er) as [_ Hlt]. set (d' := with_rules _ _ _ _).
  assert (forall k, incident_of d' k = incident_of d k) as Hinc.
  { intros k. unfold incident_of, d'. simpl. destruct (decide (k = id)) as [-> | Hne]; [| by rewrite lookup_insert_ne].
    rewrite lookup_insert_eq. simpl. by destruct (states d !! id). }
  constructor; [.. | intros k; rewrite Hinc; apply H4 | intros k; rewrite Hinc; apply H5].
  - intros k r'. simpl. intros [[<- <-] | [Hne Hr]]%lookup_insert_Some; [done | by apply H1].
  - intros k. simpl. intros [<- | [_ Hs]]%lookup_insert_is_Some; [done | by apply H2].
  - intros e He. by apply H3.
Qed.

Lemma filter_other id k (es : list alert_event) : id <> k ->
  List.filter (fun e => ae_rule e =? k) (List.filter (fun e => negb (ae_rule e =? id)) es) =
  List.filter (fun e => ae_rule e =? k) es.
Proof.
  intros Hne. induction es as [| e es IH]; simpl; [done |].
  destruct (Z.eqb_spec (ae_rule e) id), (Z.eqb_spec (ae_rule e) k); simpl; try lia; rewrite IH;
    destruct (Z.eqb_spec (ae_rule e) k); try lia; done.
Qed.

Lemma filter_same id (es : list alert_event) :
  List.filter (fun e => ae_rule e =? id) (List.filter (fun e => negb (ae_rule e =? id)) es) = [].
Proof. induction es as [| e es IH]; simpl; [done |]. destruct (ae_rule e =? id) eqn:E; simpl; [done |]. by rewrite E. Qed.

Lemma delete_consistent d id d' : consistent d -> delete_rule d id = Ok d' -> consistent d'.
Proof.
  intros Hd. unfold delete_rule. destruct (rules d !! id); [| done]. intros [= <-]. destruct Hd as [H1 H2 H3 H4 H5].
  constructor; unfold incident_of, events_of; simpl.
  - intros k r1 [_ Hr]%lookup_delete_Some. by apply H1.
  - intros k [x [_ Hx]%lookup_delete_Some]. apply H2. eauto.
  - intros e He. apply list_elem_of_In, filter_In in He as [He _]. by apply H3, list_elem_of_In.
  - intros k. destruct (decide (k = id)) as [-> | Hne]; [by rewrite lookup_delete_eq | rewrite lookup_delete_ne by done; apply H4].
  - intros k. destruct (decide (k = id)) as [-> | Hne]; [by rewrite lookup_delete_eq, filter_same |].
    rewrite lookup_delete_ne, filter_other by done. apply H5.
Qed.

Lemma evaluate_consistent d table r now uuid euuid : consistent d -> rules d !! rule_id r = Some r -> uuid <> EmptyString ->
  consistent (evaluate_persisted_rule isoformat d table r now uuid euuid).1.
Proof.
  intros Hd Hr Hu. pose proof (evaluate_effect d table r now uuid euuid (co_incident _ Hd _) Hu) as (E1 & E2 & E3 & E4 & E5).
  set (d' := (evaluate_persisted_rule _ _ _ _ _ _ _).1) in *. clearbody d'.
  destruct Hd as [H1 H2 H3 H4 H5]. destruct (H1 _ _ Hr) as [_ Hlt].
  assert (forall id, id <> rule_id r -> incident_of d' id = incident_of d id) as Hinc
    by (intros id Hne; unfold incident_of; by rewrite E3).
  assert (forall id, id = rule_id r \/ id <> rule_id r) as Hdec by (intros id; destruct (Z.eq_dec id (rule_id r)); auto).
  constructor.
  - intros id r'. rewrite E1, E2. apply H1.
  - intros id Hs. rewrite E2. destruct (Hdec id) as [-> | Hne]; [done |]. rewrite E3 in Hs by done. by apply H2.
  - intros e He. rewrite E2. destruct E5 as [[Ev _] | (x & Ev & Ex & _)]; rewrite Ev in He; [by apply H3 |].
    apply elem_of_app in He as [He | ->%list_elem_of_singleton]; [by apply H3 | by rewrite Ex].
  - intros id. destruct (Hdec id) as [-> | Hne]; [| rewrite Hinc by done; apply H4].
    destruct E5 as [[_ ->] | (x & _ & _ & [(_ & _ & -> & _) | (_ & _ & ->)])]; [apply H4 | congruence | done].
  - intros id. destruct E5 as [[Ev Ei] | (x & Ev & Ex & Hcase)].
    + unfold events_of. rewrite Ev. fold (events_of d id).
      destruct (Hdec id) as [-> | Hne]; [rewrite Ei | rewrite Hinc by done]; apply H5.
    + rewrite (events_of_snoc _ _ _ _ Ev). fold (events_of d id). rewrite Ex. destruct (Z.eqb_spec (rule_id r) id) as [<- | Hne].
      * specialize (H5 (rule_id r)). destruct Hcase as [(Hk & Hi & -> & <-) | (Hk & Hi & ->)]; rewrite Hi in H5.
        -- by apply paired_firing.
        -- by apply paired_recovered.
      * rewrite app_nil_r, Hinc by done. apply H5.
Qed.

Lemma act_consistent d a : action_ok a -> consistent d -> consistent (act d a).
Proof.
  intros Ha Hd. destruct a as [p actor | id p rev | id | id table now uuid euuid]; simpl.
  - destruct (create_rule d p actor) as [[r d'] |] eqn:E; [by apply (create_consistent d p actor r) | done].
  - destruct (update_rule d id p rev) as [[r d'] |] eqn:E; [by apply (update_consistent d id p rev r) | done].
  - destruct (delete_rule d id) as [d' |] eqn:E; [by apply (delete_consistent d id) | done].
  - destruct (rules d !! id) as [r |] eqn:E; [| done]. destruct (co_rules _ Hd _ _ E) as [Eid _].
    apply evaluate_consistent; [done | by rewrite Eid | done].
Qed.

Lemma empty_consistent hw sk : consistent (empty_database hw sk).
Proof.
  constructor; unfold incident_of, events_of; simpl; try (intros; by rewrite lookup_empty).
  - intros id r. by rewrite lookup_empty.
  - intros id. rewrite lookup_empty. by intros [].
  - set_solver.
Qed.

(** Whatever rules are created, edited, deleted and evaluated, on whatever
    metric rows, the events of every rule alternate between firing and recovered,
    each recovery closes exactly the incident that fired before it, and the rule's
    stored incident is the one the last event left open. *)
Theorem incidents_paired hw sk actions id :
  Forall action_ok actions ->
  let d := foldl act (empty_database hw sk) actions in
  paired None (events_of d id) (incident_of d id).
Proof.
  intros H. apply co_paired. pose proof (empty_consistent hw sk) as Hd. revert Hd.
  generalize (empty_database hw sk). induction H as [| a l Ha Hl IH]; intros d Hd; simpl; [done |].
  by apply IH, act_consistent.
Qed.

(** An accepted rule has finite thresholds and no value both breaches it and
    counts as recovered, except a value equal to both thresholds under a
    comparator that admits equality. *)
Theorem validated_hysteresis d p q :
  validate_metric_rule d p = Ok () ->
  let c := config p in
  isfinite (threshold c) = true /\ isfinite (recovery_threshold c) = true /\
  (compare (Fin q) (cmp c) (threshold c) = true -> recovered (Fin q) c = true ->
   (cmp c = Ge \/ cmp c = Le) /\ fle (threshold c) (Fin q) = true /\ fle (Fin q) (threshold c) = true /\
   fle (recovery_threshold c) (Fin q) = true /\ fle (Fin q) (recovery_threshold c) = true).
Proof.
  unfold validate_metric_rule. destruct (negb (bool_decide _)); [done |].
  destruct (threshold (config p)) as [t | | |] eqn:Et; try done. destruct (recovery_threshold (config p)) as [u | | |] eqn:Eu; try done.
  simpl. intros H. split_and!; [done | done |]. unfold recovered. rewrite Eu. revert H.
  unfold compare, flt, fle. destruct (cmp (config p)); simpl; rewrite ?negb_true_iff;
    try (destruct (Qle_bool u t) eqn:E1; simpl; [| done]); try (destruct (Qle_bool t u) eqn:E1; simpl; [| done]); intros _;
    rewrite ?Qle_bool_iff in *; intros H1 H2.
  all: try (exfalso; apply not_true_iff_false in H1; apply H1; apply Qle_bool_iff; by eapply Qle_trans).
  all: split_and!; auto; try (by eapply Qle_trans).
Qed.

End Life.

(** A rule on CPU load above 90 for one minute, and the rows of two minutes of
    load followed by two minutes of rest. *)
Definition lab_payload : payload :=
  Payload "cpu" "hardware" 5 "cpu_pct" None "%" (RuleConfig true Gt (Fin 90) 60 (Fin 80) 60 60 60) "warning" (Some 1).

Definition lab_rows : list metric_row :=
  map (fun '(i, v) => MetricRow i 5 (i * 30000000) None "agent" (fun _ => Some (Fin v)))
    [(1, 95%Q); (2, 96%Q); (3, 97%Q); (4, 20%Q); (5, 21%Q); (6, 22%Q)].

Definition lab_actions : list action :=
  [ACreate lab_payload None; AEvaluate 1 (take 3 lab_rows) 95000000 "i1" "e1"; AEvaluate 1 lab_rows 185000000 "i2" "e2"].

Definition lab_database : database := foldl (act (fun t => pretty t)) (empty_database {[5]} {[1 := true]}) lab_actions.

Example lab_events :
  map (fun e => (ae_kind e, incident_id e)) (events_of lab_database 1) = [(EFiring, "i1"); (ERecovered, "i1")].
Proof. vm_compute. reflexivity. Qed.

Lemma incidents_paired_witness : paired None (events_of lab_database 1) (incident_of lab_database 1).
Proof.
  apply (incidents_paired (fun t => pretty t) {[5]} {[1 := true]} lab_actions 1).
  repeat constructor; discriminate.
Defined.

Lemma validated_hysteresis_witness : isfinite (threshold (config lab_payload)) = true.
Proof.
  destruct (validated_hysteresis (empty_database {[5]} {[1 := true]}) lab_payload 85%Q) as [H _];
    [vm_compute; reflexivity | exact H].
Defined.

End MetricAlert.
