(* ===== verification/Redaction.v ===== *)
(** The redaction of audit entries ([services/log_service.py]): the walk that
    replaces the values of sensitive keys and masks the keys, and the treatment of
    request and response bodies. *)
From S2P Require Import Prelude Json Canonical.
Import Json.

Module Redaction.

(** *** [replace] on text *)

(** [s.replace(w, new)]: left to right, [skip] characters of a match to pass. *)
Fixpoint replace_from (w new : string) (skip : nat) (s : string) : string :=
  match s with
  | EmptyString => EmptyString
  | String c rest =>
      match skip with
      | S k => replace_from w new k rest
      | O => if String.prefix w s then new +:+ replace_from w new (String.length w - 1) rest
             else String c (replace_from w new 0 rest)
      end
  end.

Definition replace (w new s : string) : string := replace_from w new 0 s.

(** *** The redaction *)

(** [_SORTED_REDACTED_KEYS]: longest first. *)
Definition REDACTED_KEYS : list string :=
  ["telemetry_config"; "hashed_password"; "password_hash"; "jwt_secret"; "credential"; "community"; "vault_key";
   "password"; "api_key"; "secret"; "token"; "key"].

Definition hidden : string := "<hidden>".

Definition mask_key (k : string) : string := foldl (fun r w => replace w hidden r) (lower k) REDACTED_KEYS.

Definition sensitive (k : string) : bool := existsb (fun r => occurs r (lower k)) REDACTED_KEYS.

Definition dict_of (fs : list (string * json)) : list (string * json) := foldl (fun d f => dict_set f.1 f.2 d) [] fs.

Definition redacted : json := JStr "***REDACTED***".

(** On JSON values; a Python tuple inside a difference, which the code returns as
    it is, is not modelled. *)
Fixpoint sanitise_diff (v : json) : json :=
  match v with
  | JObj fs => JObj (dict_of (map (fun '(k, x) => if sensitive k then (mask_key k, redacted) else (k, sanitise_diff x)) fs))
  | JList l => JList (map sanitise_diff l)
  | v => v
  end.

Section Bodies.
(** [json.loads]; [None] is its exception. *)
Variable loads : string -> option json.

Definition sanitise_log_string (value : option string) : option string :=
  match value with
  | None | Some EmptyString => value
  | Some s =>
      match loads s with
      | Some data => match sanitise_diff data with JNull => None | v => Some (dumps false v) end
      | None => if existsb (fun r => occurs r (lower s)) ["password"; "secret"; "token="; "credential"]
                then Some "***REDACTED***" else value
      end
  end.
End Bodies.

(** *** Masked keys hold no sensitive word *)

Fixpoint suffixes (s : string) : list string :=
  match s with EmptyString => [] | String _ r => s :: suffixes r end.

Definition head_is (mask : string) (c : ascii) : bool := match mask with String d _ => Ascii.eqb c d | EmptyString => false end.

(** No character of the word is the mask's first, and it differs from every
    non-empty suffix of the mask within both of them. *)
Definition foreign (mask w : string) : bool :=
  negb (String.eqb w EmptyString) && str_forallb (fun c => negb (head_is mask c)) w && forallb (incompat w) (suffixes mask).

Lemma occurs_cons w c s : occurs w (String c s) = String.prefix w (String c s) || occurs w s.
Proof. done. Qed.

Section Masks.
Variable mask : string.
Hypothesis mask_not_empty : mask <> EmptyString.

Lemma prefix_replace w x s : foreign mask w = true -> String.prefix w (replace x mask s) = true -> String.prefix w s = true.
Proof.
  unfold foreign. rewrite !andb_true_iff, negb_true_iff, String.eqb_neq. intros [[_ Hw] _]. revert s Hw.
  induction w as [| c w IH]; intros s; [by destruct s |]. cbn [str_forallb]. intros [Hc Hw]%andb_true_iff.
  destruct s as [| d s]; [done |]. unfold replace. cbn [replace_from].
  destruct (String.prefix x (String d s)).
  - intros [t E]%prefix_iff. destruct mask as [| m0 mask']; [done |]. simpl in E. injection E as E _. subst c. cbn in Hc. by rewrite Ascii.eqb_refl in Hc.
  - simpl. destruct (ascii_dec c d); [| done]. by apply IH.
Qed.

Lemma occurs_mask w t : foreign mask w = true -> occurs w (mask +:+ t) = occurs w t.
Proof.
  unfold foreign. rewrite !andb_true_iff. intros [_ H]. revert H.
  clear mask_not_empty. induction mask as [| c u IH]; [done |]. cbn [suffixes forallb]. intros [H1 H2]%andb_true_iff.
  change (String c u +:+ t) with (String c (u +:+ t)). rewrite occurs_cons, IH by done.
  destruct (String.prefix w (String c (u +:+ t))) eqn:E; [| done]. apply prefix_iff in E as [t' E].
  exfalso. by apply (incompat_app w (String c u) t' t H1).
Qed.

Lemma occurs_replace w x s : foreign mask w = true -> occurs w (replace x mask s) = true -> occurs w s = true.
Proof.
  intros Hw. unfold replace.
  enough (forall n, occurs w (replace_from x mask n s) = true -> occurs w s = true) as H by apply H.
  induction s as [| c s IH]; intros n; [done |]. rewrite occurs_cons.
  destruct n as [| n]; [| intros H; apply IH in H; rewrite H; apply orb_true_r].
  pose proof (prefix_replace w x (String c s) Hw) as Hp. unfold replace in Hp. cbn [replace_from] in Hp |- *.
  destruct (String.prefix x (String c s)).
  - rewrite occurs_mask by done. intros H%IH. by rewrite H, orb_true_r.
  - rewrite occurs_cons. intros [H | H]%orb_true_iff; [by rewrite Hp | apply IH in H; by rewrite H, orb_true_r].
Qed.

Lemma not_occurs_replace w s : foreign mask w = true -> occurs w (replace w mask s) = false.
Proof.
  intros Hw. apply not_true_iff_false. unfold replace.
  enough (forall n, occurs w (replace_from w mask n s) <> true) as H by apply H.
  induction s as [| c s IH]; intros n.
  { unfold foreign in Hw. by destruct w. }
  destruct n as [| n]; [| apply IH]. pose proof (prefix_replace w w (String c s) Hw) as Hp. unfold replace in Hp.
  cbn [replace_from] in Hp |- *. destruct (String.prefix w (String c s)) eqn:E; [rewrite occurs_mask by done; apply IH |].
  rewrite occurs_cons. intros [H | H]%orb_true_iff; [by apply Hp in H | by apply IH in H].
Qed.

Lemma mask_no_word ws done_ s w :
  (forall x, x ∈ done_ ++ ws -> foreign mask x = true) -> (forall x, x ∈ done_ -> occurs x s = false) ->
  w ∈ done_ ++ ws -> occurs w (foldl (fun r x => replace x mask r) s ws) = false.
Proof.
  revert done_ s; induction ws as [| x ws IH]; intros dn s Hf Hd Hw; simpl; [rewrite app_nil_r in Hw; by apply Hd |].
  replace (dn ++ x :: ws) with ((dn ++ [x]) ++ ws) in * by by rewrite <- app_assoc.
  apply (IH (dn ++ [x])); [done | | done]. intros y [Hy | ->%list_elem_of_singleton]%elem_of_app.
  - apply not_true_iff_false. intros H%occurs_replace; [| apply Hf; set_solver]. by rewrite Hd in H.
  - apply not_occurs_replace, Hf. set_solver.
Qed.
End Masks.

(** *** Masked keys are lower case *)

Definition is_lower (c : ascii) : bool := Ascii.eqb (lower_char c) c.

Lemma lower_lower c : is_lower (lower_char c) = true.
Proof. apply (forall_ascii (fun c => is_lower (lower_char c))). vm_compute. reflexivity. Qed.

Lemma lower_id s : str_forallb is_lower s = true -> lower s = s.
Proof.
  unfold lower. induction s as [| c s IH]; simpl; [done |]. intros [Hc Hs]%andb_true_iff. apply Ascii.eqb_eq in Hc.
  by rewrite Hc, IH.
Qed.

Lemma lower_is_lower s : str_forallb is_lower (lower s) = true.
Proof. unfold lower. induction s as [| c s IH]; simpl; [done |]. by rewrite lower_lower. Qed.

Lemma replace_lower w s : str_forallb is_lower s = true -> str_forallb is_lower (replace w hidden s) = true.
Proof.
  intros H. unfold replace. enough (forall n, str_forallb is_lower (replace_from w hidden n s) = true) as G by apply G.
  induction s as [| c s IH]; intros n; [done |]. cbn [str_forallb] in H. apply andb_true_iff in H as [Hc Hs].
  destruct n; cbn [replace_from]; [| by apply IH]. destruct (String.prefix w (String c s)).
  - rewrite str_forallb_app, IH by done. done.
  - cbn [str_forallb]. by rewrite Hc, IH.
Qed.

Lemma mask_key_lower k : lower (mask_key k) = mask_key k.
Proof.
  apply lower_id. unfold mask_key. pose proof (lower_is_lower k) as H. revert H. generalize (lower k).
  induction REDACTED_KEYS as [| w ws IH]; intros s Hs; simpl; [done |]. by apply IH, replace_lower.
Qed.

Lemma words_foreign w : w ∈ REDACTED_KEYS -> foreign hidden w = true.
Proof.
  intros Hw%list_elem_of_In. assert (forallb (foreign hidden) REDACTED_KEYS = true) as H by (vm_compute; reflexivity).
  rewrite forallb_forall in H. by apply H.
Qed.

Lemma mask_key_clean k : sensitive (mask_key k) = false.
Proof.
  unfold sensitive. rewrite mask_key_lower. apply not_true_iff_false. intros (w & Hw & E)%existsb_exists.
  apply list_elem_of_In in Hw. unfold mask_key in E.
  rewrite (mask_no_word hidden ltac:(done) REDACTED_KEYS [] (lower k) w) in E; [done | exact words_foreign | set_solver | exact Hw].
Qed.

(** *** What reaches the log *)

(** Every object member of a value, at any depth. *)
Fixpoint all_keys (v : json) : list string :=
  match v with
  | JObj fs => flat_map (fun '(k, x) => k :: all_keys x) fs
  | JList l => flat_map all_keys l
  | _ => []
  end.

(** The value without what sensitive keys hold. *)
Fixpoint public (v : json) : json :=
  match v with
  | JObj fs => JObj (map (fun '(k, x) => (k, if sensitive k then JNull else public x)) fs)
  | JList l => JList (map public l)
  | v => v
  end.

Lemma sanitise_public v : sanitise_diff (public v) = sanitise_diff v.
Proof.
  revert v. apply Canonical.json_rect'; [by intros [] | intros l IH | intros fs IH]; simpl.
  - rewrite map_map. f_equal. apply map_ext_in. intros x Hx. rewrite Forall_forall in IH. by apply IH, list_elem_of_In.
  - rewrite map_map. do 2 f_equal. apply map_ext_in. intros [k x] Hx. simpl. destruct (sensitive k) eqn:E; [done |].
    rewrite Forall_forall in IH. f_equal. by apply (IH (k, x)), list_elem_of_In.
Qed.

Lemma dict_of_elem fs f : f ∈ dict_of fs -> f ∈ fs.
Proof.
  unfold dict_of. enough (forall d, f ∈ foldl (fun d f => dict_set f.1 f.2 d) d fs -> f ∈ d \/ f ∈ fs) as H
    by (intros H'; destruct (H [] H'); [set_solver | done]).
  induction fs as [| [k v] fs IH]; intros d Hd; simpl in Hd; [by left |].
  destruct (IH _ Hd) as [H | H]; [apply dict_set_elem in H as [-> | H]; set_solver | set_solver].
Qed.

Lemma sanitised_keys v k : k ∈ all_keys (sanitise_diff v) -> sensitive k = false.
Proof.
  revert v. refine (Canonical.json_rect' _ _ _ _); [intros []; simpl; set_solver | intros l IH | intros fs IH]; simpl.
  - rewrite list_elem_of_In, in_flat_map. intros (y & Hy & Hk). apply in_map_iff in Hy as (x & <- & Hx).
    rewrite Forall_forall in IH. apply (IH x); [by apply list_elem_of_In | by apply list_elem_of_In].
  - rewrite list_elem_of_In, in_flat_map. intros ([k' y] & Hy & Hk). apply list_elem_of_In, dict_of_elem, list_elem_of_In in Hy.
    apply in_map_iff in Hy as ([k0 x] & E & Hx). destruct (sensitive k0) eqn:Es; injection E as <- <-; destruct Hk as [<- | Hk].
    + apply mask_key_clean.
    + done.
    + done.
    + rewrite Forall_forall in IH. apply (IH (k0, x)); by apply list_elem_of_In.
Qed.

(** C12: What an audit diff stores does not depend on the values its sensitive keys
    hold at any depth: two diffs that agree elsewhere are stored alike; and no key
    of the stored diff, at any depth, contains a sensitive word in any case. *)
Theorem diff_redacted v w :
  (public v = public w -> sanitise_diff v = sanitise_diff w) /\
  (forall k, k ∈ all_keys (sanitise_diff v) -> sensitive k = false).
Proof.
  split; [| apply sanitised_keys]. intros E. by rewrite <- (sanitise_public v), E, sanitise_public.
Qed.

Example lab_diff :
  sanitise_diff (JObj [("user", JObj [("API_Key", JStr "k"); ("name", JStr "n")]); ("Password", JStr "p")]) =
  JObj [("user", JObj [("<hidden>", redacted); ("name", JStr "n")]); ("<hidden>", redacted)].
Proof. vm_compute. reflexivity. Qed.

End Redaction.
