(* ===== verification/ProbeSecrets.v ===== *)
(** What an agent may not send back ([services/agent_probe.py], redaction): the
    monitor's own credentials, looked for in the message and the details of a
    result before either is stored. *)
From S2P Require Import Prelude Sha256 Json Canonical Redaction.
Import Json.

Module Secrets.
Import Redaction.

Definition SECRET_KEY_HINTS : list string :=
  ["password"; "passwd"; "secret"; "token"; "authorization"; "credential"; "cookie"; "api_key"; "apikey"; "private_key"; "bearer"].
Definition SECRET_CONFIG_KEYS : list string := ["password"; "token"; "secret"; "api_key"; "apikey"].
Definition SECRET_HEADER_KEYS : list string := ["authorization"; "proxy-authorization"; "cookie"; "x-api-key"; "x-auth-token"].
Definition MIN_REDACTABLE_SECRET : nat := 6.
Definition REDACTED : string := "[redacted]".

(** [s.split()]; [cur] is the word being read. *)
Fixpoint words_from (cur s : string) : list string :=
  match s with
  | EmptyString => if String.eqb cur EmptyString then [] else [cur]
  | String c r => if is_space c then (if String.eqb cur EmptyString then [] else [cur]) ++ words_from EmptyString r
                  else words_from (cur +:+ String c EmptyString) r
  end.

Definition words (s : string) : list string := words_from EmptyString s.

Definition named (keys : list string) (k : string) : bool := bool_decide (lower k ∈ keys).

(** The configured values under a secret name. *)
Definition config_secrets (fs : list (string * json)) : list string :=
  flat_map (fun '(k, v) => match v with JStr s => if named SECRET_CONFIG_KEYS k then [s] else [] | _ => [] end) fs.

(** A secret header, and the credential alone when it is a scheme and a token. *)
Definition header_secrets (fs : list (string * json)) : list string :=
  flat_map (fun '(k, v) => match v with
                           | JStr s => if named SECRET_HEADER_KEYS k
                                       then s :: match words s with [_; t] => [t] | _ => [] end else []
                           | _ => []
                           end) fs.

Definition secret_values (params : json) : list string :=
  match params with
  | JObj fs =>
      let headers := match dict_get "headers" fs with Some (JObj hs) => header_secrets hs | _ => [] end in
      let unique := dedup (List.filter (fun s => (MIN_REDACTABLE_SECRET <=? String.length s)%nat) (config_secrets fs ++ headers)) in
      py_sorted (fun x y => (String.length y <=? String.length x)%nat) unique
  | _ => []
  end.

Definition is_secret_key (k : string) : bool := existsb (fun hint => occurs hint (lower k)) SECRET_KEY_HINTS.

Definition redact_text (text : string) (secrets : list string) : string :=
  foldl (fun t secret => if negb (String.eqb secret EmptyString) && occurs secret t then replace secret REDACTED t else t) text secrets.

Fixpoint scrub (v : json) (secrets : list string) : json :=
  match v with
  | JObj fs => JObj (flat_map (fun '(k, x) => if is_secret_key k then [] else [(k, scrub x secrets)]) fs)
  | JList l => JList (map (fun x => scrub x secrets) l)
  | JStr s => JStr (redact_text s secrets)
  | v => v
  end.

(** *** Nothing known to be secret is left *)

(** The strings a value holds, and the keys of its objects. *)
Fixpoint texts (v : json) : list string :=
  match v with
  | JStr s => [s]
  | JList l => flat_map texts l
  | JObj fs => flat_map (fun '(_, x) => texts x) fs
  | _ => []
  end.

(** A secret that is not there needs no replacing. *)
Lemma replace_absent w new s : occurs w s = false -> replace w new s = s.
Proof.
  unfold replace. induction s as [| c s IH]; [done |]. rewrite occurs_cons. intros [Hp Ho]%orb_false_iff.
  cbn [replace_from]. rewrite Hp. by rewrite IH.
Qed.

Lemma redact_fold text secrets :
  (forall x, x ∈ secrets -> x <> EmptyString) -> redact_text text secrets = foldl (fun r x => replace x REDACTED r) text secrets.
Proof.
  unfold redact_text. revert text. induction secrets as [| x l IH]; intros text Hne; cbn [foldl]; [done |].
  rewrite IH by set_solver. f_equal. rewrite (proj2 (String.eqb_neq x EmptyString)) by (apply Hne; by left). cbn [negb andb].
  destruct (occurs x text) eqn:E; [done |]. symmetry. by apply replace_absent.
Qed.

Lemma foreign_not_empty mask w : foreign mask w = true -> w <> EmptyString.
Proof. unfold foreign. destruct w; [done |]. by intros _. Qed.

Lemma redacted_clean text secrets w :
  (forall x, x ∈ secrets -> foreign REDACTED x = true) -> w ∈ secrets -> occurs w (redact_text text secrets) = false.
Proof.
  intros Hf Hw. rewrite redact_fold by (intros x Hx; by eapply foreign_not_empty, Hf).
  apply (mask_no_word REDACTED ltac:(done) secrets [] text w); [exact Hf | set_solver | exact Hw].
Qed.

Lemma scrub_texts v secrets t : t ∈ texts (scrub v secrets) -> exists t0, t = redact_text t0 secrets.
Proof.
  revert v t. refine (Canonical.json_rect' _ _ _ _); [intros [| | | | s | |]; try exact I; intros t | intros l IH t | intros fs IH t]; cbn [scrub texts]; try (by intros ?%elem_of_nil).
  - intros ->%list_elem_of_singleton. by exists s.
  - intros (x & Hx & Ht)%list_elem_of_In%in_flat_map. apply in_map_iff in Hx as (y & <- & Hy).
    rewrite Forall_forall in IH. apply (IH y); by apply list_elem_of_In.
  - rewrite !list_elem_of_In, in_flat_map. intros ([k x] & Hx & Ht). apply in_flat_map in Hx as ([k' y] & Hy & Hx).
    destruct (is_secret_key k'); [done |]. destruct Hx as [[= -> <-] | []]. rewrite Forall_forall in IH.
    apply (IH (k, y)); by apply list_elem_of_In.
Qed.

Lemma scrub_keys v secrets k : k ∈ all_keys (scrub v secrets) -> is_secret_key k = false.
Proof.
  revert v k. refine (Canonical.json_rect' _ _ _ _); [intros []; try exact I; intros k | intros l IH k | intros fs IH k]; cbn [scrub all_keys]; try (by intros ?%elem_of_nil).
  - intros (x & Hx & Ht)%list_elem_of_In%in_flat_map. apply in_map_iff in Hx as (y & <- & Hy).
    rewrite Forall_forall in IH. apply (IH y); by apply list_elem_of_In.
  - rewrite list_elem_of_In, in_flat_map. intros ([k0 x] & Hx & Ht). apply in_flat_map in Hx as ([k' y] & Hy & Hx).
    destruct (is_secret_key k') eqn:E; [done |]. destruct Hx as [[= -> <-] | []]. destruct Ht as [<- | Ht]; [done |].
    rewrite Forall_forall in IH. apply (IH (k0, y)); by apply list_elem_of_In.
Qed.
(** credentials do not come back.  When none of a monitor's own credentials shares a
    character pattern with the placeholder, none of them occurs in the redacted
    message or in any text of the scrubbed details, whatever order and overlap
    they were echoed in, and no key of the details looks like a secret's. *)
Theorem secrets_redacted params msg details w :
  (forall x, x ∈ secret_values params -> foreign REDACTED x = true) -> w ∈ secret_values params ->
  occurs w (redact_text msg (secret_values params)) = false /\
  (forall t, t ∈ texts (scrub details (secret_values params)) -> occurs w t = false) /\
  (forall k, k ∈ all_keys (scrub details (secret_values params)) -> is_secret_key k = false).
Proof.
  intros Hf Hw. split_and!; [by apply redacted_clean | | apply scrub_keys].
  intros t (t0 & ->)%scrub_texts. by apply redacted_clean.
Qed.

Definition lab_params : json := JObj [("url", JStr "http://nas"); ("password", JStr "hunter2xx"); ("headers", JObj [("Authorization", JStr "Bearer zz-token-99")])].

Lemma secrets_redacted_witness :
  redact_text "401 for hunter2xx via Bearer zz-token-99" (secret_values lab_params) = "401 for [redacted] via [redacted]" /\
  occurs "zz-token-99" (redact_text "401 for hunter2xx via Bearer zz-token-99" (secret_values lab_params)) = false.
Proof.
  split; [vm_compute; reflexivity |].
  refine (proj1 (secrets_redacted lab_params "401 for hunter2xx via Bearer zz-token-99" JNull "zz-token-99" _ _)).
  - apply (proj1 (Forall_forall _ _)). vm_compute. by repeat constructor.
  - apply list_elem_of_In. vm_compute. auto.
Defined.

(** Only values are redacted: a credential the agent uses as a key of its
    details is stored. *)
Example credential_as_key :
  scrub (JObj [("hunter2xx", JInt 1)]) (secret_values lab_params) = JObj [("hunter2xx", JInt 1)].
Proof. vm_compute. reflexivity. Qed.
End Secrets.
