(* ===== verification/ProbeRuns.v ===== *)
(** Remote probe runs: the leases behind checks an agent performs
    ([db/models/monitors.py], [services/monitoring/result_service.py],
    [services/monitoring/proxmox_override.py], [services/monitoring/writer.py],
    [services/agent_probe.py]): the tables, the one path from a check outcome to
    monitor state, and the ingest of an agent's result. *)
From S2P Require Import Prelude Sha256 Json Canonical Redaction ProbeSecrets Monitor.
Import Json.
Open Scope Z_scope.

Module Probe.
#[local] Open Scope cb_scope.

(** *** Tables *)

Inductive run_status := Queued | Dispatched | Completed | ExecutionError | Expired | Cancelled.
#[export] Instance run_status_eq_dec : EqDecision run_status. Proof. solve_decision. Defined.

(** [_OPEN_STATUSES], [_ACTIVE_RUN_STATUSES]: what the partial unique index covers. *)
Definition open_status (st : run_status) : bool := match st with Queued | Dispatched => true | _ => false end.

(** [MonitorProbeRun]; the table is keyed by the unique [run_id]. Times in
    microseconds. *)
Record run := Run {
  monitor_id : Z;
  agent_id : Z;
  r_status : run_status;
  scheduled_at : Z;
  dispatched_at : option Z;
  deadline_at : option Z;
  started_at : option Z;
  completed_at : option Z;
  outcome : option string;
  r_msg : option string;
  error_code : option string;
  result_metadata : option json;
  attempt_count : Z;
  created_at : Z
}.

(** [MonitorItem]: what the state machine reads and writes, and the rest. *)
Record monitor := MkMonitor {
  core : Monitor.item;
  enabled : bool;
  host : string;
  check_type : string;
  params : json;
  target_type : option string;
  target_id : option Z;
  probe_agent_id : option Z;
  probe_execution_status : option string;
  probe_execution_reason : option string;
  probe_last_dispatched_at : option Z;
  probe_last_result_at : option Z
}.

(** A row of [telemetry_timeseries]. *)
Record point := Point { entity_type : string; entity_id : Z; p_item : Z; p_metric : string; p_value : json; p_ts : Z }.

(** What the override reads of [Hardware] and [ComputeUnit]. *)
Record hardware_row := HardwareRow { proxmox_node_name : option string; hw_last_polled : option Z; telemetry_status : option string }.
Record compute_row := ComputeRow { proxmox_vmid : option Z; cu_last_polled : option Z; cu_kind : string; cu_status : string }.

Record db := Db {
  monitors : gmap Z monitor;
  runs : gmap string run;
  events : list Monitor.monitor_event;
  points : list point;
  hardware : gmap Z hardware_row;
  compute_units : gmap Z compute_row
}.

Definition with_monitors (m : gmap Z monitor) (s : db) : db := Db m (runs s) (events s) (points s) (hardware s) (compute_units s).
Definition with_runs (m : gmap string run) (s : db) : db := Db (monitors s) m (events s) (points s) (hardware s) (compute_units s).
Definition with_events (l : list Monitor.monitor_event) (s : db) : db :=
  Db (monitors s) (runs s) l (points s) (hardware s) (compute_units s).
Definition add_points (l : list point) (s : db) : db :=
  Db (monitors s) (runs s) (events s) (points s ++ l) (hardware s) (compute_units s).

Definition set_core (i : Monitor.item) (m : monitor) : monitor :=
  MkMonitor i (enabled m) (host m) (check_type m) (params m) (target_type m) (target_id m) (probe_agent_id m)
    (probe_execution_status m) (probe_execution_reason m) (probe_last_dispatched_at m) (probe_last_result_at m).

Definition set_execution (status reason : option string) (m : monitor) : monitor :=
  MkMonitor (core m) (enabled m) (host m) (check_type m) (params m) (target_type m) (target_id m) (probe_agent_id m)
    status reason (probe_last_dispatched_at m) (probe_last_result_at m).

Definition set_last_result (t : Z) (m : monitor) : monitor :=
  MkMonitor (core m) (enabled m) (host m) (check_type m) (params m) (target_type m) (target_id m) (probe_agent_id m)
    (probe_execution_status m) (probe_execution_reason m) (probe_last_dispatched_at m) (Some t).

Definition update_monitor_row (i : Z) (f : monitor -> monitor) (s : db) : db :=
  match monitors s !! i with Some m => with_monitors (<[i := f m]> (monitors s)) s | None => s end.

Definition update_run (rid : string) (f : run -> run) (s : db) : db :=
  match runs s !! rid with Some r => with_runs (<[rid := f r]> (runs s)) s | None => s end.

(** A run taken out of the open statuses. *)
Definition closed (st : run_status) (out err : option string) (at_ : Z) (m : option string) (meta : option json) (r : run) : run :=
  Run (monitor_id r) (agent_id r) st (scheduled_at r) (dispatched_at r) (deadline_at r) (started_at r) (Some at_) out m err meta
    (attempt_count r) (created_at r).

Definition set_started (t : Z) (r : run) : run :=
  Run (monitor_id r) (agent_id r) (r_status r) (scheduled_at r) (dispatched_at r) (deadline_at r) (Some t) (completed_at r)
    (outcome r) (r_msg r) (error_code r) (result_metadata r) (attempt_count r) (created_at r).

(** [text or None]. *)
Definition or_none (s : string) : option string := if String.eqb s EmptyString then None else Some s.
Definition clip (n : nat) (s : string) : string := String.substring 0 n s.

(** *** Results *)

Definition EXECUTION_READY : string := "ready".
Definition EXECUTION_UNAVAILABLE : string := "unavailable".
Definition EXECUTION_STALE : string := "stale".
Definition EVENT_EXECUTION : string := "execution".
Definition OUTCOME_COMPLETED : string := "completed".
Definition OUTCOME_EXECUTION_ERROR : string := "execution_error".
Definition OUTCOME_CANCELLED : string := "cancelled".
Definition OUTCOME_REJECTED : string := "rejected".

Record sample := Sample { metric : string; value : json; error_reason : option string }.

Record monitor_result := MonitorResult {
  item_id : Z;
  mr_target_type : option string;
  mr_target_id : option Z;
  mr_check_type : string;
  samples : list sample;
  up : bool;
  msg : string;
  checked_at : Z;
  mr_outcome : string;
  details : option json;
  run_id : option string;
  execution_reason : option string
}.

Record persisted := Persisted { written : Z; transitions : list Monitor.transition; live_status : list json }.

Definition is_completed (r : monitor_result) : bool := String.eqb (mr_outcome r) OUTCOME_COMPLETED.

(** [write_samples]. *)
Definition sample_points (r : monitor_result) : list point :=
  map (fun x => Point (default "monitor" (t ← mr_target_type r; or_none t)) (default 0 (mr_target_id r)) (item_id r) (metric x) (value x) (checked_at r))
    (samples r).

(** *** The hypervisor's opinion *)

Definition FRESHNESS_WINDOW : Z := 5 * 60 * 1000000.
Definition OVERRIDABLE_CHECK_TYPES : list string := ["icmp"; "tcp"].
Definition NON_LIVE_STATUSES : list string := ["unknown"; "unreachable"; "error"; "unconfigured"].

Definition fresh (cutoff : Z) (polled : option Z) : bool := match polled with Some t => cutoff <=? t | None => false end.

Definition proxmox_opinion (type : option string) (id : option Z) (cutoff : Z) (s : db) : option bool * string :=
  match id with
  | None => (None, "")
  | Some id =>
      if bool_decide (type = Some "hardware") then
        match hardware s !! id with
        | None => (None, "node")
        | Some hw =>
            let linked := match proxmox_node_name hw with Some n => negb (String.eqb n EmptyString) | None => false end in
            let dead := match telemetry_status hw with Some st => bool_decide (st ∈ NON_LIVE_STATUSES) | None => false end in
            (if linked && fresh cutoff (hw_last_polled hw) && negb dead then Some true else None, "node")
        end
      else if bool_decide (type = Some "compute_unit") then
        match compute_units s !! id with
        | None => (None, "")
        | Some cu =>
            if bool_decide (is_Some (proxmox_vmid cu)) && fresh cutoff (cu_last_polled cu)
            then (Some (String.eqb (cu_status cu) "active"), if String.eqb (cu_kind cu) "vm" then "VM" else "container")
            else (None, "")
        end
      else (None, "")
  end.

Definition avail (b : bool) : sample := Sample "avail" (JFloat (if b then "1.0" else "0.0")) None.

(** [_apply_one] and [_with_outcome]; [batch] gives the target the override
    looks at. *)
Definition override (batch : list monitor_result) (now : Z) (s : db) (r : monitor_result) : monitor_result :=
  match list.last (List.filter (fun x => item_id x =? item_id r) batch) with
  | None => r
  | Some x =>
      if negb (bool_decide (mr_check_type x ∈ OVERRIDABLE_CHECK_TYPES)) then r else
      match proxmox_opinion (mr_target_type x) (mr_target_id x) (now - FRESHNESS_WINDOW) s with
      | (Some p, label) =>
          if Bool.eqb p (up r) then r else
          MonitorResult (item_id r) (mr_target_type r) (mr_target_id r) (mr_check_type r)
            (map (fun y => if String.eqb (metric y) "avail" then avail p else y) (samples r)) p
            (strip (msg r +:+ " (overridden: Proxmox reports " +:+ label +:+ " " +:+ (if p then "running" else "stopped") +:+ ")"))
            (checked_at r) (mr_outcome r) (details r) (run_id r) None
      | (None, _) => r
      end
  end.

Definition adjusted (now : Z) (s : db) (results : list monitor_result) : list monitor_result :=
  let batch := List.filter is_completed results in
  map (fun r => if is_completed r then override batch now s r else r) results.

Section Path.
(** [datetime.isoformat] and [round(seconds, 1)]. *)
Variable isoformat : Z -> string.
Variable round1 : Z -> Z.

(** *** The vantage's condition *)

(** [last_status or PENDING]. *)
Definition shown_status (m : monitor) : string := default Monitor.PENDING (t ← Monitor.last_status (core m); or_none t).

(** [_record_execution_event]: one event per change of reason. *)
Definition record_execution_event (i : Z) (m : monitor) (reason : option string) (s : db) : db :=
  match reason with
  | None => s
  | Some reason =>
      let repeated := match list.last (List.filter (fun e => Monitor.ev_item e =? i) (events s)) with
                      | Some e => String.eqb (Monitor.ev_type e) EVENT_EXECUTION && String.eqb (Monitor.ev_msg e) reason
                      | None => false
                      end in
      if repeated then s
      else with_events (events s ++ [Monitor.MonitorEvent i EVENT_EXECUTION (Monitor.last_status (core m)) (shown_status m) reason None]) s
  end.

Definition record_execution_condition (i : Z) (status : string) (reason : option string) (at_ : Z) (s : db) : option json * db :=
  match monitors s !! i with
  | None => (None, s)
  | Some m =>
      let trimmed := t ← reason; clip 128 <$> or_none t in
      (Some (JObj [("monitor_id", JInt i); ("probe_execution_status", JStr status);
                   ("probe_execution_reason", match trimmed with Some t => JStr t | None => JNull end); ("ts", JStr (isoformat at_))]),
       update_monitor_row i (set_execution (Some status) trimmed) (record_execution_event i m trimmed s))
  end.

(** *** [persist_results] *)

Definition metadata (r : monitor_result) : option json :=
  let d := match details r with Some v => if falsy v then [] else [("details", v)] | None => [] end in
  let reasons := flat_map (fun x => match error_reason x with
                                    | Some e => if String.eqb e EmptyString then [] else [JObj [("metric", JStr (metric x)); ("error_reason", JStr e)]]
                                    | None => []
                                    end) (samples r) in
  match d ++ match reasons with [] => [] | _ => [("error_reasons", JList reasons)] end with [] => None | fs => Some (JObj fs) end.

(** [_apply_execution_error]. *)
Definition apply_execution_error (r : monitor_result) (s : db) : option json * db :=
  let reason := match execution_reason r with Some e => if String.eqb e EmptyString then mr_outcome r else e | None => mr_outcome r end in
  let s := match run_id r with
           | Some rid => update_run rid (closed ExecutionError (Some (mr_outcome r)) (Some (clip 64 reason)) (checked_at r)
                                           (or_none (clip 2000 (msg r))) (metadata r)) s
           | None => s
           end in
  record_execution_condition (item_id r) EXECUTION_UNAVAILABLE (Some reason) (checked_at r) s.

(** [_complete_run]. *)
Definition complete_run (r : monitor_result) (s : db) : db :=
  match run_id r with
  | None => s
  | Some rid =>
      match runs s !! rid with
      | None => s
      | Some row =>
          update_monitor_row (item_id r) (fun m => set_execution (Some EXECUTION_READY) None (set_last_result (checked_at r) m))
            (update_run rid (closed Completed (Some (mr_outcome r)) (error_code row) (checked_at r) (Some (clip 2000 (msg r))) (metadata r)) s)
      end
  end.

(** [apply_result] on the tables. *)
Definition apply_result (r : monitor_result) (s : db) : option Monitor.transition * db :=
  match monitors s !! item_id r with
  | None => (None, s)
  | Some m =>
      let '(i, e, t) := Monitor.apply_to round1 (core m) (Monitor.Check (up r) (msg r) (checked_at r)) in
      (t, with_events (events s ++ option_list e) (with_monitors (<[item_id r := set_core i m]> (monitors s)) s))
  end.

Definition persist_one (r : monitor_result) (s : db) : option Monitor.transition * option json * db :=
  if is_completed r then
    let '(t, s) := apply_result r s in
    (t, Some (JObj [("monitor_id", JInt (item_id r)); ("status", JStr (if up r then "up" else "down")); ("msg", JStr (msg r));
                    ("ts", JStr (isoformat (checked_at r)))]), complete_run r s)
  else let '(l, s) := apply_execution_error r s in (None, l, s).

Fixpoint persist_all (results : list monitor_result) (p : persisted) (s : db) : persisted * db :=
  match results with
  | [] => (p, s)
  | r :: results =>
      let '(t, l, s) := persist_one r s in
      persist_all results (Persisted (written p) (transitions p ++ option_list t) (live_status p ++ option_list l)) s
  end.

Definition persist_results (now : Z) (results : list monitor_result) (s : db) : persisted * db :=
  let results := adjusted now s results in
  let rows := flat_map sample_points (List.filter is_completed results) in
  persist_all results (Persisted (Z.of_nat (length rows)) [] []) (add_points rows s).
End Path.
End Probe.
