(* ===== verification/ProbeIngest.v ===== *)
(** The ingest of [probe.result] ([services/agent_probe.py]): the size limits,
    the authentication of the run, the deadline, idempotency, and what reaches
    the shared result path. *)
From S2P Require Import Prelude Sha256 Json Canonical Redaction ProbeSecrets Monitor ProbeRuns.
Import Json.
Open Scope Z_scope.

Module Ingest.
Import Secrets Probe.
#[local] Open Scope cb_scope.

Definition MAX_DETAILS_BYTES : Z := 64 * 1024.
Definition MAX_MSG_CHARS : nat := 2000.
Definition MAX_SAMPLES : nat := 64.
Definition LATE_RESULT_GRACE : Z := 30 * 1000000.
Definition OUTCOMES : list string := [OUTCOME_COMPLETED; OUTCOME_EXECUTION_ERROR; OUTCOME_CANCELLED; OUTCOME_REJECTED].
Definition ERROR_LATE_RESULT : string := "late_result".
Definition ERROR_FOR_OUTCOME : list (string * string) :=
  [(OUTCOME_EXECUTION_ERROR, "agent_execution_error"); (OUTCOME_REJECTED, "agent_rejected"); (OUTCOME_CANCELLED, "agent_cancelled")].
Definition REASON_AGENT_CANCELLED : string := "agent_cancelled".
Definition EVENT_PROTOCOL_VIOLATION : string := "protocol_violation".
Definition EVENT_CAPABILITY_VIOLATION : string := "capability_violation".

Inductive disposition := Accepted | AuditOnly | Late | Duplicate.

(** [InvalidProbeResult] and the event type it is audited under. *)
Record refusal := InvalidProbeResult { why : string; event_type : string }.
Definition invalid (m : string) : refusal := InvalidProbeResult m EVENT_PROTOCOL_VIOLATION.
Definition violation (m : string) : refusal := InvalidProbeResult m EVENT_CAPABILITY_VIOLATION.

(** [ProbeResultPayload]. *)
Record payload := Payload {
  pl_run_id : string;
  pl_monitor_id : Z;
  pl_outcome : string;
  pl_up : bool;
  pl_started_at : Z;
  pl_finished_at : Z;
  pl_samples : list sample;
  pl_msg : string;
  pl_details : option (list (string * json))
}.

(** [json.dumps(v, separators=(",", ":"))]. *)
Fixpoint compact (v : json) : string :=
  match v with
  | JList l => "[" +:+ join "," (map compact l) +:+ "]"
  | JObj fs => "{" +:+ join "," (map (fun '(k, x) => dump_str k +:+ ":" +:+ compact x) fs) +:+ "}"
  | v => dumps false v
  end.

Section Payload.
(** [ProbeResultPayload.model_validate], [None] for a [ValidationError]; [repr]. *)
Variable model_validate : list (string * json) -> option payload.
Variable repr : string -> string.

Definition size_ok (p : list (string * json)) : result refusal unit :=
  guard! match dict_get "details" p with
         | Some JNull | None => true
         | Some d => Z.of_nat (String.length (compact d)) <=? MAX_DETAILS_BYTES
         end else invalid ("details exceeds " +:+ pretty MAX_DETAILS_BYTES +:+ " bytes") ;;
  guard! match dict_get "samples" p with Some (JList l) => (length l <=? MAX_SAMPLES)%nat | _ => true end
    else invalid ("samples exceeds " +:+ pretty (Z.of_nat MAX_SAMPLES) +:+ " entries") ;;
  Ok tt.

(** An over-long message is cut, not refused. *)
Definition clip_msg (p : list (string * json)) : list (string * json) :=
  match dict_get "msg" p with
  | Some (JStr m) => if (MAX_MSG_CHARS <? String.length m)%nat then dict_set "msg" (JStr (clip MAX_MSG_CHARS m)) p else p
  | _ => p
  end.

Definition validate_probe_payload (v : json) : result refusal payload :=
  match v with
  | JObj p =>
      _ ← size_ok p;
      match model_validate (clip_msg p) with
      | None => Err (invalid "payload schema is invalid")
      | Some r =>
          guard! bool_decide (pl_outcome r ∈ OUTCOMES) else invalid ("unsupported outcome " +:+ repr (pl_outcome r)) ;;
          Ok r
      end
  | _ => Err (invalid "payload is not an object")
  end.

(** [_close_run]: what arrived, without monitor state. *)
Definition close_run (rid : string) (r : payload) (st : run_status) (err m : string) (d : option json) (at_ : Z) (s : db) : db :=
  update_run rid (closed st (Some (pl_outcome r)) (Some err) at_ (or_none (clip MAX_MSG_CHARS m))
                    (match d with Some v => if falsy v then None else Some (JObj [("details", v)]) | None => None end)) s.

Variable isoformat : Z -> string.
Variable round1 : Z -> Z.

(** The record handed to the shared path. *)
Definition record_of (rid : string) (i : Z) (mon : monitor) (r : payload) (m : string) (d : option json) : monitor_result :=
  MonitorResult i (target_type mon) (target_id mon) (check_type mon) (pl_samples r) (pl_up r) m (pl_finished_at r) (pl_outcome r) d
    (Some rid) (dict_get (pl_outcome r) ERROR_FOR_OUTCOME).

(** Past the deadline and its grace. *)
Definition late (row : run) (now : Z) : bool := match deadline_at row with Some d => d + LATE_RESULT_GRACE <? now | None => false end.

(** A validated result for the agent's own open run. *)
Definition settle (rid : string) (row : run) (mon : monitor) (r : payload) (now : Z) (s : db) : disposition * db :=
  let secrets := secret_values (params mon) in
  let m := redact_text (pl_msg r) secrets in
  let d := (fun fs => scrub (JObj fs) secrets) <$> pl_details r in
  let s := update_run rid (set_started (pl_started_at r)) s in
  if late row now then (Late, close_run rid r Expired ERROR_LATE_RESULT m d now s)
  else if String.eqb (pl_outcome r) OUTCOME_CANCELLED
  then (AuditOnly, close_run rid r Cancelled REASON_AGENT_CANCELLED m d (pl_finished_at r) s)
  else
    let s := (persist_results isoformat round1 now [record_of rid (monitor_id row) mon r m d] s).2 in
    (if bool_decide (pl_outcome r ∈ [OUTCOME_EXECUTION_ERROR; OUTCOME_REJECTED]) then AuditOnly else Accepted, s).

(** [agent] is the authenticated agent, [active] its status; [now] the server's
    clock. *)
Definition ingest_probe_result (agent : Z) (active : bool) (v : json) (now : Z) (s : db) : result refusal (disposition * db) :=
  guard! active else invalid "agent is not active" ;;
  r ← validate_probe_payload v;
  match runs s !! pl_run_id r with
  | None => Err (violation ("unknown run " +:+ repr (pl_run_id r)))
  | Some row =>
      guard! agent_id row =? agent else violation "run belongs to another agent" ;;
      guard! monitor_id row =? pl_monitor_id r else violation "run does not belong to that monitor" ;;
      match monitors s !! monitor_id row with
      | None => Err (invalid "monitor no longer exists")
      | Some mon =>
          if negb (open_status (r_status row)) then Ok (Duplicate, s)
          else Ok (settle (pl_run_id r) row mon r now s)
      end
  end.

(** The part of [ingest_probe_result] that reads: the run and the monitor are
    read without a lock, and what follows ([settle]) writes by primary key
    whatever became of the run since.  [None] is a duplicate. *)
Definition ingest_read (agent : Z) (active : bool) (v : json) (s : db) : result refusal (option (run * monitor * payload)) :=
  guard! active else invalid "agent is not active" ;;
  r ← validate_probe_payload v;
  match runs s !! pl_run_id r with
  | None => Err (violation ("unknown run " +:+ repr (pl_run_id r)))
  | Some row =>
      guard! agent_id row =? agent else violation "run belongs to another agent" ;;
      guard! monitor_id row =? pl_monitor_id r else violation "run does not belong to that monitor" ;;
      match monitors s !! monitor_id row with
      | None => Err (invalid "monitor no longer exists")
      | Some mon => Ok (if negb (open_status (r_status row)) then None else Some (row, mon, r))
      end
  end.

(** Nothing in between. *)
Lemma ingest_split agent active v now s :
  ingest_probe_result agent active v now s =
  q ← ingest_read agent active v s;
  Ok match q with None => (Duplicate, s) | Some (row, mon, r) => settle (pl_run_id r) row mon r now s end.
Proof.
  unfold ingest_probe_result, ingest_read. destruct active; [| done]. destruct (validate_probe_payload v) as [r |]; cbn [mbind result_bind]; [| done].
  destruct (runs s !! pl_run_id r) as [row |]; [| done]. destruct (agent_id row =? agent); [| done].
  destruct (monitor_id row =? pl_monitor_id r); [| done]. destruct (monitors s !! monitor_id row); [| done].
  by destruct (negb _).
Qed.
End Payload.
End Ingest.
