(* ===== verification/ProbeLeases.v ===== *)
(** The life of a probe run apart from its result
    ([services/monitoring/scheduler.py], [services/monitoring/probe_reconcile.py],
    [services/monitor_service.py], [workers/monitor_probe_dispatch.py]): opening,
    dispatch bookkeeping, cancellation by the five events that retire it, expiry,
    staleness and retention. *)
From S2P Require Import Prelude Sha256 Json Canonical Redaction ProbeSecrets Monitor ProbeRuns ProbeIngest.
Import Json.
Open Scope Z_scope.

Module Leases.
Import Probe.
#[local] Open Scope cb_scope.

Definition SECOND : Z := 1000000.

(** *** Opening a run *)

Definition is_open (mid : Z) (r : run) : bool := (monitor_id r =? mid) && open_status (r_status r).

(** [_ACTIVE_RUN_SQL], [_active_run_exists] without an exception. *)
Definition active_run (mid : Z) (s : db) : bool := existsb (fun p => is_open mid p.2) (map_to_list (runs s)).

Definition mark (i : Z) (status : string) (reason : option string) (s : db) : db := update_monitor_row i (set_execution (Some status) reason) s.

(** [_INSERT_RUN_SQL] under its constraints: the unique token, the partial
    unique index, the foreign key. *)
Definition insert_run (rid : string) (mid agent now deadline : Z) (s : db) : option db :=
  if bool_decide (is_Some (runs s !! rid)) || active_run mid s || negb (bool_decide (is_Some (monitors s !! mid))) then None
  else Some (with_runs (<[rid := Run mid agent Queued now None (Some (now + deadline)) None None None None None None 0 now]> (runs s)) s).

Definition IN_FLIGHT : string := "previous_run_in_flight".

(** [_create_probe_run]: whether the run was opened. *)
Definition create_probe_run (rid : string) (mid agent deadline now : Z) (s : db) : bool * db :=
  if active_run mid s then (false, mark mid "running" (Some IN_FLIGHT) s)
  else match insert_run rid mid agent now deadline s with
       | Some s => (true, mark mid "queued" None s)
       | None => (false, mark mid "running" (Some IN_FLIGHT) s)
       end.

Definition set_due (t : Z) (m : monitor) : monitor :=
  let i := core m in
  set_core (Monitor.Item (Monitor.item_id i) (Monitor.name i) (Monitor.interval_secs i) (Monitor.retry_interval_secs i) (Monitor.max_retries i)
              (Monitor.last_status i) (Monitor.consecutive_failures i) (Monitor.last_polled_at i) (Monitor.last_status_change_at i) (Some t)) m.

Definition DISPATCH_FAILED : string := "dispatch_failed".

(** [_record_dispatch_failure]; [jitter] is the random delay. *)
Definition record_dispatch_failure (rid : string) (mid jitter now : Z) (s : db) : db :=
  let s := update_run rid (fun r => closed ExecutionError (outcome r) (Some DISPATCH_FAILED) now (r_msg r) (result_metadata r) r) s in
  update_monitor_row mid (fun m => set_execution (Some EXECUTION_UNAVAILABLE) (Some DISPATCH_FAILED) (set_due (now + jitter) m)) s.

(** [_close_unavailable]. *)
Definition close_unavailable (rid : string) (mid : Z) (reason : string) (detail : option string) (now : Z) (s : db) : db :=
  let s := update_run rid (fun r => closed ExecutionError (outcome r) (Some reason) now
                                      (match detail with Some d => if String.eqb d EmptyString then r_msg r else Some (clip 2000 d) | None => r_msg r end)
                                      (result_metadata r) r) s in
  mark mid EXECUTION_UNAVAILABLE (Some (clip 128 reason)) s.

(** *** Cancellation *)

Record cancel := ProbeCancel { c_agent : Z; c_run : string; c_reason : string }.

Definition retire (st : run_status) (reason : string) (now : Z) (r : run) : run :=
  closed st (outcome r) (Some reason) now (r_msg r) (result_metadata r) r.

(** [_close_active_runs] over the runs [sel] picks. *)
Definition close_active_runs (sel : run -> bool) (reason : string) (now : Z) (s : db) : list cancel * db :=
  let hit r := sel r && open_status (r_status r) in
  (map (fun p => ProbeCancel (agent_id p.2) p.1 reason) (List.filter (fun p => hit p.2) (map_to_list (runs s))),
   with_runs ((fun r => if hit r then retire Cancelled (clip 64 reason) now r else r) <$> runs s) s).

Definition cancel_monitor_probe_runs (ids : list Z) (reason : string) (now : Z) (s : db) : list cancel * db :=
  close_active_runs (fun r => bool_decide (monitor_id r ∈ ids)) reason now s.

Section Conditions.
Variable isoformat : Z -> string.

(** The same condition recorded for several monitors. *)
Fixpoint record_conditions (ids : list Z) (status reason : string) (now : Z) (s : db) : list json * db :=
  match ids with
  | [] => ([], s)
  | i :: ids =>
      let '(l, s) := record_execution_condition isoformat i status (Some reason) now s in
      let '(ls, s) := record_conditions ids status reason now s in
      (option_list l ++ ls, s)
  end.

(** The agent's assignments, in order of id. *)
Definition assignments (agent : Z) (s : db) : list Z :=
  py_sorted Z.leb (List.filter (fun p => bool_decide (probe_agent_id p.2 = Some agent)) (map_to_list (monitors s))).*1.

Definition cancel_agent_probe_runs (agent : Z) (reason : string) (now : Z) (s : db) : (list cancel * list json) * db :=
  let '(cs, s) := close_active_runs (fun r => agent_id r =? agent) reason now s in
  let '(ls, s) := record_conditions (assignments agent s) EXECUTION_UNAVAILABLE reason now s in
  ((cs, ls), s).

(** *** Monitors *)

Definition CANCEL_MONITOR_PAUSED : string := "monitor_paused".
Definition CANCEL_MONITOR_DELETED : string := "monitor_deleted".
Definition CANCEL_MONITOR_REASSIGNED : string := "monitor_reassigned".

Definition set_enabled (b : bool) (m : monitor) : monitor :=
  MkMonitor (core m) b (host m) (check_type m) (params m) (target_type m) (target_id m) (probe_agent_id m)
    (probe_execution_status m) (probe_execution_reason m) (probe_last_dispatched_at m) (probe_last_result_at m).

Definition pause_event (i : Z) (paused : bool) (m : monitor) : Monitor.monitor_event :=
  Monitor.MonitorEvent i (if paused then "paused" else "resumed") (Monitor.last_status (core m)) (shown_status m)
    (if paused then "paused by user" else "resumed by user") None.

Definition pause_row (paused : bool) (now : Z) (m : monitor) : monitor :=
  let m := set_enabled (negb paused) m in if paused then m else set_due now m.

Definition set_paused (i : Z) (paused : bool) (now : Z) (s : db) : option (list cancel * db) :=
  match monitors s !! i with
  | None => None
  | Some m =>
      let s := update_monitor_row i (pause_row paused now) s in
      let '(cs, s) := if paused then cancel_monitor_probe_runs [i] CANCEL_MONITOR_PAUSED now s else ([], s) in
      Some (cs, with_events (events s ++ [pause_event i paused m]) s)
  end.

Fixpoint pause_all (ids : list Z) (paused : bool) (now : Z) (s : db) : db :=
  match ids with
  | [] => s
  | i :: ids =>
      match monitors s !! i with
      | None => pause_all ids paused now s
      | Some m =>
          let s := update_monitor_row i (pause_row paused now) s in
          pause_all ids paused now (with_events (events s ++ [pause_event i paused m]) s)
      end
  end.

Definition target_monitors (type : string) (id : Z) (s : db) : list Z :=
  py_sorted Z.leb
    (List.filter (fun p => bool_decide (target_type p.2 = Some type) && bool_decide (target_id p.2 = Some id)) (map_to_list (monitors s))).*1.

Definition set_target_paused (type : string) (id : Z) (paused : bool) (now : Z) (s : db) : option (list cancel * db) :=
  match target_monitors type id s with
  | [] => None
  | ids =>
      let '(cs, s) := if paused then cancel_monitor_probe_runs ids CANCEL_MONITOR_PAUSED now s else ([], s) in
      Some (cs, pause_all ids paused now s)
  end.

(** [delete_monitor]: the runs and events go with the row. *)
Definition delete_monitor (i now : Z) (s : db) : option (list cancel * db) :=
  match monitors s !! i with
  | None => None
  | Some _ =>
      let '(cs, s) := cancel_monitor_probe_runs [i] CANCEL_MONITOR_DELETED now s in
      Some (cs, Db (delete i (monitors s)) (filter (fun p => monitor_id p.2 <> i) (runs s))
                  (List.filter (fun e => negb (Monitor.ev_item e =? i)) (events s)) (points s) (hardware s) (compute_units s))
  end.

(** *** Assignments *)

(** [None] for an agent that does not exist, otherwise its tenant; the tenant
    of a monitor's target. *)
Variable agent_tenant : Z -> option (option Z).
Variable target_tenant : option string -> option Z -> option Z.

Inductive assignment_error := UnknownAgent (agent : Z) | OtherTenant (agent : Z) | InvalidConfig.

Definition validate_probe_assignment (agent : option Z) (type : option string) (id : option Z) : result assignment_error unit :=
  match agent with
  | None => Ok tt
  | Some a =>
      match agent_tenant a with
      | None => Err (UnknownAgent a)
      | Some None => Ok tt
      | Some (Some t) =>
          match target_tenant type id with
          | Some t' => if t' =? t then Ok tt else Err (OtherTenant a)
          | None => Ok tt
          end
      end
  end.

(** [create_monitor] under the next id of the table. *)
Definition create_monitor (i : Z) (nm ct h : string) (config : json) (interval retries : Z) (retry_interval : option Z) (on : bool)
    (type : option string) (id agent : option Z) (now : Z) (s : db) : result assignment_error db :=
  _ ← validate_probe_assignment agent type id;
  let row := Monitor.Item i nm interval retry_interval retries (Some Monitor.PENDING) 0 None None (Some now) in
  Ok (with_monitors (<[i := MkMonitor row on h ct config type id agent None None None None]> (monitors s)) s).

(** [MonitorUpdate]: the fields the caller set; [None] is unset. *)
Record update := MonitorUpdate {
  u_config : option json;
  u_agent : option (option Z);
  u_name : option string;
  u_host : option string;
  u_interval : option Z;
  u_max_retries : option Z;
  u_retry_interval : option (option Z);
  u_enabled : option bool;
  u_target_type : option (option string);
  u_target_id : option (option Z)
}.

(** [CONFIG_MODELS[check_type]], [None] for a refusal. *)
Variable config_model : string -> json -> option json.

Definition apply_fields (u : update) (m : monitor) : monitor :=
  let i := core m in
  MkMonitor
    (Monitor.Item (Monitor.item_id i) (default (Monitor.name i) (u_name u)) (default (Monitor.interval_secs i) (u_interval u))
       (default (Monitor.retry_interval_secs i) (u_retry_interval u)) (default (Monitor.max_retries i) (u_max_retries u))
       (Monitor.last_status i) (Monitor.consecutive_failures i) (Monitor.last_polled_at i) (Monitor.last_status_change_at i) (Monitor.next_due_at i))
    (default (enabled m) (u_enabled u)) (default (host m) (u_host u)) (check_type m) (params m)
    (default (target_type m) (u_target_type u)) (default (target_id m) (u_target_id u)) (probe_agent_id m)
    (probe_execution_status m) (probe_execution_reason m) (probe_last_dispatched_at m) (probe_last_result_at m).

Definition set_params (p : json) (m : monitor) : monitor :=
  MkMonitor (core m) (enabled m) (host m) (check_type m) p (target_type m) (target_id m) (probe_agent_id m)
    (probe_execution_status m) (probe_execution_reason m) (probe_last_dispatched_at m) (probe_last_result_at m).

(** Another vantage: the condition of the old one says nothing about it. *)
Definition reassign (a : option Z) (m : monitor) : monitor :=
  MkMonitor (core m) (enabled m) (host m) (check_type m) (params m) (target_type m) (target_id m) a None None
    (probe_last_dispatched_at m) (probe_last_result_at m).

Definition update_monitor (i : Z) (u : update) (now : Z) (s : db) : result assignment_error (option (list cancel * db)) :=
  match monitors s !! i with
  | None => Ok None
  | Some m =>
      p ← match u_config u with
          | None => Ok None
          | Some c => match config_model (check_type m) c with Some p => Ok (Some p) | None => Err InvalidConfig end
          end;
      let s := match p with Some p => update_monitor_row i (set_params p) s | None => s end in
      q ← match u_agent u with
          | Some a =>
              if bool_decide (a = probe_agent_id m) then Ok ([], s) else
              _ ← validate_probe_assignment a (default (target_type m) (u_target_type u)) (default (target_id m) (u_target_id u));
              let '(cs, s) := cancel_monitor_probe_runs [i] CANCEL_MONITOR_REASSIGNED now s in
              Ok (cs, update_monitor_row i (reassign a) s)
          | None => Ok ([], s)
          end;
      Ok (Some (q.1, update_monitor_row i (apply_fields u) q.2))
  end.

(** *** Reconciliation *)

Definition RESULT_TIMEOUT_GRACE : Z := Ingest.LATE_RESULT_GRACE.
Definition EXPIRE_LIMIT : nat := 500.
Definition REASON_RESULT_TIMEOUT : string := "result_timeout".

Definition overdue (now : Z) (r : run) : bool :=
  open_status (r_status r) && (default (scheduled_at r) (deadline_at r) <? now - RESULT_TIMEOUT_GRACE).

(** The runs one pass writes off, oldest first. *)
Definition overdue_runs (now : Z) (s : db) : list (string * run) :=
  take EXPIRE_LIMIT (py_sorted (fun p q => scheduled_at p.2 <=? scheduled_at q.2) (List.filter (fun p => overdue now p.2) (map_to_list (runs s)))).

Definition expire_overdue_runs (now : Z) (s : db) : (Z * list json) * db :=
  let hit := overdue_runs now s in
  let s := with_runs (map_imap (fun rid r => Some (if bool_decide (rid ∈ hit.*1) then retire Expired REASON_RESULT_TIMEOUT now r else r)) (runs s)) s in
  let '(ls, s) := record_conditions (map (fun p => monitor_id p.2) hit) EXECUTION_UNAVAILABLE REASON_RESULT_TIMEOUT now s in
  ((Z.of_nat (length hit), ls), s).

(** *** Retention *)

Definition purge_probe_runs (retention_days now : Z) (s : db) : Z * db :=
  let kept := filter (fun p => now - retention_days * 86400 * SECOND <= created_at p.2) (runs s) in
  (Z.of_nat (size (runs s)) - Z.of_nat (size kept), with_runs kept s).
End Conditions.
End Leases.
