(* ===== verification/ProbeDispatch.v ===== *)
(** Handing a run to its agent ([services/monitoring/probe_eligibility.py],
    [workers/monitor_probe_dispatch.py]) and reconciliation
    ([services/monitoring/probe_reconcile.py]): the preconditions of an
    assignment over the agent registry and the agent's network scope, the
    dispatch with the moments before and after the frame is published, expiry and
    staleness. *)
From S2P Require Import Prelude Sha256 Json Canonical Regex Ip AgentScope AgentCapabilities AgentRegistry Redaction ProbeSecrets Monitor ProbeRuns ProbeIngest ProbeLeases.
Import Json Ip.
Open Scope Z_scope.

Module Dispatch.
Import Probe Leases.
#[local] Open Scope cb_scope.

#[local] Existing Instance Registry.status_eq_dec.

Definition CAPABILITY : string := "remote_probe".
Definition READINESS_COLLECTORS : list (string * string) :=
  [("icmp", "probe.icmp"); ("tcp", "probe.tcp"); ("http", "probe.http"); ("dns", "probe.dns")].
Definition USABLE_READINESS_STATES : list string := ["ready"; "degraded"].
Definition READINESS_MAX_AGE : Z := 2700 * SECOND.

(** What dispatch reads besides the monitor tables: the registry, presence and
    connection ownership in Redis, the readiness rows, the networks an agent
    reported, tenants, and name resolution. *)
Record env := Env {
  registry : Registry.db;
  online : Z -> bool;
  owned : Z -> bool;
  readiness : gmap (Z * string) (string * option Z);
  networks_of : Z -> option (list json);
  tenant_of_agent : Z -> option Z;
  tenant_of_target : option string -> option Z -> option Z;
  resolve : string -> list string
}.

Record eligibility := Eligibility { ok : bool; reason : option string; detail : option string }.
Definition denied (r : string) (d : option string) : eligibility := Eligibility false (Some r) d.

Definition readiness_denial (e : env) (agent : Z) (ct : string) (now : Z) : option eligibility :=
  match dict_get ct READINESS_COLLECTORS with
  | None => None
  | Some collector =>
      match readiness e !! (agent, collector) with
      | Some (st, Some t) =>
          if t <? now - READINESS_MAX_AGE then Some (denied "readiness_unknown" (Some collector))
          else if bool_decide (st ∈ USABLE_READINESS_STATES) then None
          else Some (denied "readiness_unavailable" (Some (collector +:+ ":" +:+ st)))
      | _ => Some (denied "readiness_unknown" (Some collector))
      end
  end.

(** [_active_run_exists]. *)
Definition active_run_except (mid : Z) (ignore : option string) (s : db) : bool :=
  existsb (fun p => is_open mid p.2 && negb (bool_decide (ignore = Some p.1))) (map_to_list (runs s)).

Section Eligibility.
Context {T : IpText}.
(** [str] of a JSON value that is not text. *)
Variable repr_of : json -> string.

(** [derive_agent_scope] with the grant's effective configuration. *)
Definition derive_agent_scope (e : env) (agent : Z) (config : Capabilities.config) : result AgentScope.py_error AgentScope.scope :=
  AgentScope.derive_scope repr_of (networks_of e agent) (Some config).

(** [structured_grants_dict(db, agent_id).get(capability)]. *)
Definition structured_grant (e : env) (agent : Z) (capability : string) : option (bool * Capabilities.config) :=
  (fun g => (Registry.enabled g, Capabilities.dict_or (Capabilities.default_config_for capability) (Registry.g_config g)))
    <$> Registry.grants (registry e) !! (agent, capability).

(** [_is_ip_literal]. *)
Definition is_ip_literal (h : string) : bool := bool_decide (is_Some (parse_ip (strip h))).

Definition in_scope (e : env) (agent : Z) (config : Capabilities.config) (h : string) : result AgentScope.py_error (option eligibility) :=
  sc ← derive_agent_scope e agent config;
  let resolved := if is_ip_literal h then None else Some (resolve e h) in
  if match resolved with Some [] => true | _ => false end then Ok (Some (denied "unresolved_host" (Some h))) else
  d ← AgentScope.evaluate sc h resolved;
  Ok (if AgentScope.allowed d then None
      else Some (denied "out_of_scope" (Some (AgentScope.reason d +:+ ":" +:+ default h (t ← AgentScope.decided_by d; or_none t))))).

(** Refused only when both sides carry a tenant and they differ. *)
Definition tenant_denial (e : env) (a : Z) (m : monitor) : option eligibility :=
  match tenant_of_agent e a, tenant_of_target e (target_type m) (target_id m) with
  | Some t, Some t' => if t =? t' then None else Some (denied "tenant_mismatch" (Some (pretty t' +:+ "!=" +:+ pretty t)))
  | _, _ => None
  end.

Definition evaluate_eligibility (e : env) (agent : option Z) (ignore : option string) (mid : Z) (m : monitor) (now : Z) (s : db)
    : result AgentScope.py_error eligibility :=
  match (match agent with Some a => Some a | None => probe_agent_id m end) with
  | None => Ok (denied "agent_missing" None)
  | Some a =>
      match Registry.agents (registry e) !! a with
      | None => Ok (denied "agent_missing" None)
      | Some row =>
          if negb (bool_decide (Registry.a_status row = Registry.Active))
          then Ok (denied "agent_inactive" (Some (Registry.status_name (Registry.a_status row)))) else
          match structured_grant e a CAPABILITY with
          | Some (true, config) =>
              if negb (online e a) then Ok (denied "agent_offline" None) else
              if negb (owned e a) then Ok (denied "no_link_owner" None) else
              match readiness_denial e a (check_type m) now with
              | Some d => Ok d
              | None =>
                  match tenant_denial e a m with
                  | Some d => Ok d
                  | None =>
                      sc ← in_scope e a config (host m);
                      match sc with
                      | Some d => Ok d
                      | None => Ok (if active_run_except mid ignore s then denied IN_FLIGHT None else Eligibility true None None)
                      end
                  end
              end
          | _ => Ok (denied "capability_disabled" None)
          end
      end
  end.

(** *** Dispatch *)

(** What the worker holds when it has published the assignment: the run as it
    was read before the preconditions were checked. *)
Record intent := Intent { i_run : string; i_monitor : Z; i_agent : Z; i_attempts : Z }.

Inductive dispatched := Idle | Refused (s : db) | Published (i : intent).

(** [dispatch_run] up to the publication; [delivered] is what Redis answered. *)
Definition dispatch_begin (e : env) (rid : string) (delivered : bool) (now : Z) (s : db) : result AgentScope.py_error dispatched :=
  match runs s !! rid with
  | None => Ok Idle
  | Some r =>
      if negb (bool_decide (r_status r = Queued)) then Ok Idle else
      match monitors s !! monitor_id r with
      | None => Ok Idle
      | Some m =>
          d ← evaluate_eligibility e (Some (agent_id r)) (Some rid) (monitor_id r) m now s;
          if negb (ok d) then
            Ok (Refused (close_unavailable rid (monitor_id r) (match reason d with Some x => if String.eqb x EmptyString then "ineligible" else x | None => "ineligible" end)
                           (detail d) now s))
          else match deadline_at r with
               | None => Ok (Refused (close_unavailable rid (monitor_id r) "invalid_run" None now s))
               | Some _ =>
                   if delivered then Ok (Published (Intent rid (monitor_id r) (agent_id r) (attempt_count r)))
                   else Ok (Refused (close_unavailable rid (monitor_id r) DISPATCH_FAILED None now s))
               end
      end
  end.

Definition set_dispatched (n now : Z) (r : run) : run :=
  Run (monitor_id r) (agent_id r) Dispatched (scheduled_at r) (Some now) (deadline_at r) (started_at r) (completed_at r)
    (outcome r) (r_msg r) (error_code r) (result_metadata r) (n + 1) (created_at r).

Definition set_running (now : Z) (m : monitor) : monitor :=
  MkMonitor (core m) (enabled m) (host m) (check_type m) (params m) (target_type m) (target_id m) (probe_agent_id m)
    (Some "running") None (Some now) (probe_last_result_at m).

Inductive db_error := StaleData | IntegrityError.

(** The writes after the publication, by primary key and under the partial
    unique index. *)
Definition dispatch_commit (i : intent) (now : Z) (s : db) : result db_error db :=
  match runs s !! i_run i, monitors s !! i_monitor i with
  | Some r, Some _ =>
      if active_run_except (i_monitor i) (Some (i_run i)) s then Err IntegrityError
      else Ok (update_monitor_row (i_monitor i) (set_running now) (with_runs (<[i_run i := set_dispatched (i_attempts i) now r]> (runs s)) s))
  | _, _ => Err StaleData
  end.

(** [dispatch_run] when nothing happens in between. *)
Definition dispatch_run (e : env) (rid : string) (delivered : bool) (now : Z) (s : db) : result AgentScope.py_error (bool * db) :=
  d ← dispatch_begin e rid delivered now s;
  match d with
  | Idle => Ok (false, s)
  | Refused s => Ok (false, s)
  | Published i => match dispatch_commit i now s with Ok s => Ok (true, s) | Err _ => Ok (false, s) end
  end.
End Eligibility.

(** *** Reconciliation *)

Definition STALE_INTERVAL_MULTIPLIER : Z := 2.
Definition STALE_LIMIT : nat := 500.
Definition REASON_NO_RECENT_RESULT : string := "no_recent_result".

(** [_STALE_CANDIDATES_SQL]. *)
Definition stale_candidate (e : env) (now : Z) (s : db) (i : Z) (m : monitor) : bool :=
  match probe_agent_id m, probe_last_result_at m with
  | Some a, Some t =>
      enabled m
      && match Registry.agents (registry e) !! a with Some row => bool_decide (Registry.a_status row = Registry.Active) | None => false end
      && default false (Registry.grants_dict a CAPABILITY (registry e))
      && (t <? now - STALE_INTERVAL_MULTIPLIER * Monitor.interval_secs (core m) * SECOND)
      && negb (bool_decide (probe_execution_status m = Some EXECUTION_UNAVAILABLE) || bool_decide (probe_execution_status m = Some EXECUTION_STALE))
      && negb (active_run i s)
  | _, _ => false
  end.

(** [_fresh_readiness] for one monitor's collector. *)
Definition ready_now (e : env) (now a : Z) (ct : string) : bool :=
  match dict_get ct READINESS_COLLECTORS with
  | None => false
  | Some collector =>
      match readiness e !! (a, collector) with
      | Some (st, Some t) => bool_decide (st ∈ USABLE_READINESS_STATES) && (now - READINESS_MAX_AGE <=? t)
      | _ => false
      end
  end.

Definition stale_monitors (e : env) (now : Z) (s : db) : list Z :=
  let candidates := take STALE_LIMIT (py_sorted (fun p q => default 0 (probe_last_result_at p.2) <=? default 0 (probe_last_result_at q.2))
                                        (List.filter (fun p => stale_candidate e now s p.1 p.2) (map_to_list (monitors s)))) in
  (List.filter (fun p => match probe_agent_id p.2 with Some a => online e a && ready_now e now a (check_type p.2) | None => false end) candidates).*1.

Section Reconcile.
Variable isoformat : Z -> string.

Definition mark_stale (e : env) (now : Z) (s : db) : list json * db :=
  record_conditions isoformat (stale_monitors e now s) EXECUTION_STALE REASON_NO_RECENT_RESULT now s.

(** [reconcile]: the live refreshes, published after the commit. *)
Definition reconcile (e : env) (now : Z) (s : db) : list json * db :=
  let '((_, l1), s) := expire_overdue_runs isoformat now s in
  let '(l2, s) := mark_stale e now s in
  (l1 ++ l2, s).
End Reconcile.
End Dispatch.
