(* ===== verification/ProbeTheorems.v ===== *)
(** What remote probing guarantees: one result per run, whatever happens in
    between; a vantage that cannot run a check never moves the target's state;
    silent agents cannot wedge a monitor; assignments stay inside the agent's
    scope; and where a dispatch overlaps a result, what the code does instead. *)
From S2P Require Import Prelude Sha256 Json Canonical Regex Ip AgentScope AgentCapabilities AgentRegistry Redaction ProbeSecrets Monitor ProbeRuns ProbeIngest ProbeLeases ProbeDispatch.
Import Json Ip.
Open Scope Z_scope.

Module ProbeTheorems.
Import Probe Ingest Leases Dispatch.

(** *** What an operation does to the leases *)

(** The lease [r'] is [r], possibly closed. *)
Definition same_lease (r r' : run) : Prop :=
  monitor_id r' = monitor_id r /\ agent_id r' = agent_id r /\ deadline_at r' = deadline_at r /\
  (open_status (r_status r') = true -> open_status (r_status r) = true).

(** Runs are closed or removed, never opened or added. *)
Definition leases_kept (s s' : db) : Prop :=
  forall rid r', runs s' !! rid = Some r' -> exists r, runs s !! rid = Some r /\ same_lease r r'.

#[export] Instance same_lease_preorder : PreOrder same_lease.
Proof. split; [by intros r | intros r1 r2 r3 (H1 & H2 & H3 & H4) (E1 & E2 & E3 & E4); unfold same_lease; split_and!; [congruence .. | auto]]. Qed.

#[export] Instance leases_kept_preorder : PreOrder leases_kept.
Proof.
  split.
  - intros s rid r Hr. exists r. split; [done | reflexivity].
  - intros s1 s2 s3 H12 H23 rid r3 (r2 & (r1 & Hr1 & H1)%H12 & H2)%H23. exists r1. split; [done | by etrans].
Qed.

Lemma leases_same s s' : runs s' = runs s -> leases_kept s s'.
Proof. intros E rid r. rewrite E. intros Hr. exists r. split; [done | reflexivity]. Qed.

Lemma leases_update rid f s : (forall r, runs s !! rid = Some r -> same_lease r (f r)) -> leases_kept s (update_run rid f s).
Proof.
  intros Hf. unfold update_run. destruct (runs s !! rid) as [r |] eqn:E; [| reflexivity]. intros rid' r'. cbn [runs with_runs].
  rewrite lookup_insert_Some. intros [[<- <-] | [_ Hr']]; [exists r; split; [done | by apply Hf] | exists r'; split; [done | reflexivity]].
Qed.

Lemma leases_closed rid st out err at_ m meta s : open_status st = false -> leases_kept s (update_run rid (closed st out err at_ m meta) s).
Proof. intros Hst. apply leases_update. intros r _. unfold same_lease, closed. cbn. rewrite Hst. by split_and!. Qed.

Lemma runs_update_monitor_row i f s : runs (update_monitor_row i f s) = runs s.
Proof. unfold update_monitor_row. by destruct (monitors s !! i). Qed.

Lemma monitors_update_run rid f s : monitors (update_run rid f s) = monitors s.
Proof. unfold update_run. by destruct (runs s !! rid). Qed.

Lemma runs_execution_event i m reason s : runs (record_execution_event i m reason s) = runs s.
Proof. unfold record_execution_event. destruct reason as [x |]; [| done]. by destruct (match list.last _ with Some _ => _ | None => _ end). Qed.

Lemma monitors_execution_event i m reason s : monitors (record_execution_event i m reason s) = monitors s.
Proof. unfold record_execution_event. destruct reason as [x |]; [| done]. by destruct (match list.last _ with Some _ => _ | None => _ end). Qed.

Lemma points_execution_event i m reason s : points (record_execution_event i m reason s) = points s.
Proof. unfold record_execution_event. destruct reason as [x |]; [| done]. by destruct (match list.last _ with Some _ => _ | None => _ end). Qed.

Lemma runs_condition iso i st reason at_ s : runs (record_execution_condition iso i st reason at_ s).2 = runs s.
Proof.
  unfold record_execution_condition. destruct (monitors s !! i) as [m |]; [| done]. cbn [snd].
  by rewrite runs_update_monitor_row, runs_execution_event.
Qed.

Lemma runs_conditions iso ids st reason at_ s : runs (record_conditions iso ids st reason at_ s).2 = runs s.
Proof.
  revert s. induction ids as [| i ids IH]; intros s; cbn [record_conditions]; [done |].
  pose proof (runs_condition iso i st (Some reason) at_ s) as E. destruct (record_execution_condition _ _ _ _ _ _) as [l s1]. cbn [snd] in E.
  pose proof (IH s1) as E'. destruct (record_conditions _ _ _ _ _ _) as [ls s2]. cbn [snd] in *. congruence.
Qed.

Lemma leases_close_active sel reason now s : leases_kept s (close_active_runs sel reason now s).2.
Proof.
  intros rid r'. cbn [close_active_runs snd runs with_runs]. rewrite lookup_fmap. destruct (runs s !! rid) as [r |]; [| done].
  cbn [fmap option_fmap option_map]. intros [= <-]. exists r. split; [done |]. by destruct (sel r && _).
Qed.

(** *** What an operation does to the targets *)

(** The target's state, apart from when it is checked next. *)
Definition target (m : monitor) : option string * Z * option Z * option Z :=
  (Monitor.last_status (core m), Monitor.consecutive_failures (core m), Monitor.last_polled_at (core m), Monitor.last_status_change_at (core m)).

Definition INERT : list string := [EVENT_EXECUTION; "paused"; "resumed"].

(** No sample, no change of a target's state, and no event but the inert ones. *)
Record targets_kept (s s' : db) : Prop := {
  kept_points : points s' = points s;
  kept_rows : forall i m', monitors s' !! i = Some m' -> exists m, monitors s !! i = Some m /\ target m' = target m;
  kept_events : forall e, e ∈ events s' -> e ∈ events s \/ Monitor.ev_type e ∈ INERT
}.

#[export] Instance targets_kept_preorder : PreOrder targets_kept.
Proof.
  split.
  - intros s. split; [done | intros i m Hm; by exists m | by left].
  - intros s1 s2 s3 [P1 R1 E1] [P2 R2 E2]. split; [congruence | |].
    + intros i m3 (m2 & (m1 & Hm1 & H1)%R1 & H2)%R2. exists m1. split; [done | congruence].
    + intros e [H | H]%E2; [by apply E1 | by right].
Qed.

Lemma targets_update i f s : (forall m, target (f m) = target m) -> targets_kept s (update_monitor_row i f s).
Proof.
  intros Hf. unfold update_monitor_row. destruct (monitors s !! i) as [m |] eqn:E; [| reflexivity]. split; [done | | by left].
  intros j m'. cbn [monitors with_monitors]. rewrite lookup_insert_Some. intros [[<- <-] | [_ Hj]]; [by exists m | by exists m'].
Qed.

Lemma targets_update_run rid f s : targets_kept s (update_run rid f s).
Proof. unfold update_run. destruct (runs s !! rid); [| reflexivity]. split; [done | intros i m Hm; by exists m | by left]. Qed.

Lemma targets_with_runs m s : targets_kept s (with_runs m s).
Proof. split; [done | intros i x Hx; by exists x | by left]. Qed.

Lemma targets_event l s : Forall (fun e => Monitor.ev_type e ∈ INERT) l -> targets_kept s (with_events (events s ++ l) s).
Proof.
  intros Hl. split; [done | intros i m Hm; by exists m |]. intros e [He | He]%elem_of_app; [by left | right]. rewrite Forall_forall in Hl. by apply Hl.
Qed.

Lemma targets_execution_event i m reason s : targets_kept s (record_execution_event i m reason s).
Proof.
  unfold record_execution_event. destruct reason as [x |]; [| reflexivity]. destruct (match list.last _ with Some _ => _ | None => _ end); [reflexivity |].
  apply targets_event, Forall_singleton. by left.
Qed.

Lemma targets_condition iso i st reason at_ s : targets_kept s (record_execution_condition iso i st reason at_ s).2.
Proof.
  unfold record_execution_condition. destruct (monitors s !! i) as [m |]; [| reflexivity]. cbn [snd].
  etrans; [apply targets_execution_event | by apply targets_update].
Qed.

Lemma targets_conditions iso ids st reason at_ s : targets_kept s (record_conditions iso ids st reason at_ s).2.
Proof.
  revert s. induction ids as [| i ids IH]; intros s; cbn [record_conditions]; [reflexivity |].
  pose proof (targets_condition iso i st (Some reason) at_ s) as E. destruct (record_execution_condition _ _ _ _ _ _) as [l s1]. cbn [snd] in E.
  pose proof (IH s1) as E'. destruct (record_conditions _ _ _ _ _ _) as [ls s2]. cbn [snd] in *. by etrans.
Qed.

(** *** Each operation *)

(** Both at once: what every operation but an accepted result does. *)
Definition quiet (s s' : db) : Prop := leases_kept s s' /\ targets_kept s s'.

#[export] Instance quiet_preorder : PreOrder quiet.
Proof. split; [intros s; split; reflexivity | intros s1 s2 s3 [L1 T1] [L2 T2]; split; by etrans]. Qed.

Lemma quiet_update i f s : (forall m, target (f m) = target m) -> quiet s (update_monitor_row i f s).
Proof. intros Hf. split; [apply leases_same, runs_update_monitor_row | by apply targets_update]. Qed.

Lemma quiet_update_run rid f s : (forall r, runs s !! rid = Some r -> same_lease r (f r)) -> quiet s (update_run rid f s).
Proof. intros Hf. split; [by apply leases_update | apply targets_update_run]. Qed.

Lemma quiet_close rid f s : (forall r, same_lease r (f r)) -> quiet s (update_run rid f s).
Proof. intros Hf. by apply quiet_update_run. Qed.

Lemma quiet_mark i st reason s : quiet s (mark i st reason s).
Proof. by apply quiet_update. Qed.

Lemma quiet_condition iso i st reason at_ s : quiet s (record_execution_condition iso i st reason at_ s).2.
Proof. split; [apply leases_same, runs_condition | apply targets_condition]. Qed.

Lemma quiet_conditions iso ids st reason at_ s : quiet s (record_conditions iso ids st reason at_ s).2.
Proof. split; [apply leases_same, runs_conditions | apply targets_conditions]. Qed.

Lemma quiet_close_active sel reason now s : quiet s (close_active_runs sel reason now s).2.
Proof. split; [apply leases_close_active | apply targets_with_runs]. Qed.

Lemma quiet_unavailable rid mid reason detail now s : quiet s (close_unavailable rid mid reason detail now s).
Proof. unfold close_unavailable. etrans; [| apply quiet_mark]. by apply quiet_close. Qed.

Lemma quiet_dispatch_failure rid mid jitter now s : quiet s (record_dispatch_failure rid mid jitter now s).
Proof. unfold record_dispatch_failure. etrans; [| by apply quiet_update]. by apply quiet_close. Qed.

Lemma quiet_pause i paused now s cs s' : set_paused i paused now s = Some (cs, s') -> quiet s s'.
Proof.
  unfold set_paused. destruct (monitors s !! i) as [m |]; [| done].
  assert (quiet s (update_monitor_row i (pause_row paused now) s)) as H1 by (apply quiet_update; intros x; by destruct paused).
  generalize (update_monitor_row i (pause_row paused now) s), H1. intros s1 Hs1.
  assert (forall x, quiet x (with_events (events x ++ [pause_event i paused m]) x)) as He.
  { intros x. split; [by apply leases_same |]. apply targets_event, Forall_singleton. unfold pause_event, INERT. cbn. destruct paused; set_solver. }
  destruct paused.
  - pose proof (quiet_close_active (fun r => bool_decide (monitor_id r ∈ [i])) CANCEL_MONITOR_PAUSED now s1) as H2. unfold cancel_monitor_probe_runs.
    destruct (close_active_runs _ _ _ _) as [cs1 s2]. cbn [snd] in H2. intros [= <- <-]. etrans; [exact Hs1 |]. etrans; [exact H2 | apply He].
  - intros [= <- <-]. etrans; [exact Hs1 | apply He].
Qed.

Lemma quiet_pause_all ids paused now s : quiet s (pause_all ids paused now s).
Proof.
  revert s. induction ids as [| i ids IH]; intros s; cbn [pause_all]; [reflexivity |]. destruct (monitors s !! i) as [m |]; [| apply IH].
  etrans; [| apply IH]. etrans; [apply (quiet_update i (pause_row paused now)); intros x; by destruct paused |].
  split; [by apply leases_same |]. apply targets_event, Forall_singleton. unfold pause_event, INERT. cbn. destruct paused; set_solver.
Qed.

Lemma quiet_pause_target type id paused now s cs s' : set_target_paused type id paused now s = Some (cs, s') -> quiet s s'.
Proof.
  unfold set_target_paused. destruct (target_monitors type id s) as [| i ids]; [done |]. destruct paused.
  - unfold cancel_monitor_probe_runs. pose proof (quiet_close_active (fun r => bool_decide (monitor_id r ∈ i :: ids)) CANCEL_MONITOR_PAUSED now s) as H2.
    destruct (close_active_runs _ _ _ _) as [cs1 s2]. cbn [snd] in H2. intros [= <- <-]. etrans; [exact H2 | exact (quiet_pause_all (i :: ids) true now s2)].
  - intros [= <- <-]. exact (quiet_pause_all (i :: ids) false now s).
Qed.

Lemma quiet_delete i now s cs s' : delete_monitor i now s = Some (cs, s') -> quiet s s'.
Proof.
  unfold delete_monitor. destruct (monitors s !! i); [| done]. unfold cancel_monitor_probe_runs.
  pose proof (quiet_close_active (fun r => bool_decide (monitor_id r ∈ [i])) CANCEL_MONITOR_DELETED now s) as H2.
  destruct (close_active_runs _ _ _ _) as [cs1 s1]. cbn [snd] in H2. intros [= <- <-]. etrans; [exact H2 |]. split.
  - intros rid r. cbn [runs]. rewrite map_lookup_filter_Some. intros [Hr _]. exists r. split; [done | reflexivity].
  - split; [done | |].
    + intros j m'. cbn [monitors]. rewrite lookup_delete_Some. intros [_ Hm]. by exists m'.
    + intros e. cbn [events]. rewrite list_elem_of_In, filter_In. intros [He _]. left. by apply list_elem_of_In.
Qed.

Lemma quiet_cancel_agent iso agent reason now s : quiet s (cancel_agent_probe_runs iso agent reason now s).2.
Proof.
  unfold cancel_agent_probe_runs. pose proof (quiet_close_active (fun r => agent_id r =? agent) reason now s) as H1.
  destruct (close_active_runs _ _ _ _) as [cs s1]. cbn [snd] in H1.
  pose proof (quiet_conditions iso (assignments agent s1) EXECUTION_UNAVAILABLE reason now s1) as H2.
  destruct (record_conditions _ _ _ _ _ _) as [ls s2]. cbn [snd] in *. by etrans.
Qed.

Lemma quiet_update_monitor at_ tt_ cm i u now s p : update_monitor at_ tt_ cm i u now s = Ok p -> match p with Some (_, s') => quiet s s' | None => True end.
Proof.
  unfold update_monitor. destruct (monitors s !! i) as [m |]; [| by intros [= <-]].
  destruct (match u_config u with Some _ => _ | None => _ end) as [pm |]; cbn [mbind result_bind]; [| done].
  assert (quiet s (match pm with Some p => update_monitor_row i (set_params p) s | None => s end)) as H1
    by (destruct pm; [by apply quiet_update | reflexivity]).
  revert H1. generalize (match pm with Some p => update_monitor_row i (set_params p) s | None => s end). intros s1 H1.
  assert (forall cs s2, quiet s1 s2 -> @Ok assignment_error _ (Some (cs, update_monitor_row i (apply_fields u) s2)) = Ok p -> match p with Some (_, s') => quiet s s' | None => True end) as Hf.
  { intros cs s2 H2 [= <-]. etrans; [exact H1 |]. etrans; [exact H2 |]. by apply quiet_update. }
  destruct (u_agent u) as [a |]; [| by apply (Hf [] s1)]. destruct (bool_decide _); [by apply (Hf [] s1) |].
  destruct (validate_probe_assignment _ _ _ _ _); cbn [mbind result_bind]; [| done]. unfold cancel_monitor_probe_runs.
  pose proof (quiet_close_active (fun r => bool_decide (monitor_id r ∈ [i])) CANCEL_MONITOR_REASSIGNED now s1) as H2.
  destruct (close_active_runs _ _ _ _) as [cs s2]. cbn [snd fst] in *. apply Hf. etrans; [exact H2 | by apply quiet_update].
Qed.

Lemma create_spec rid mid agent dl now s b s' :
  create_probe_run rid mid agent dl now s = (b, s') ->
  targets_kept s s' /\
  if b then runs s !! rid = None /\ active_run mid s = false /\
            runs s' = <[rid := Run mid agent Queued now None (Some (now + dl)) None None None None None None 0 now]> (runs s)
  else runs s' = runs s.
Proof.
  unfold create_probe_run. destruct (active_run mid s) eqn:Ea.
  { intros [= <- <-]. split; [apply quiet_mark | apply runs_update_monitor_row]. }
  unfold insert_run. rewrite Ea, orb_false_r. destruct (bool_decide_reflect (is_Some (runs s !! rid))) as [Hr | Hr]; cbn [orb].
  { intros [= <- <-]. split; [apply quiet_mark | apply runs_update_monitor_row]. }
  destruct (negb _); intros [= <- <-]; (split; [| unfold mark; rewrite runs_update_monitor_row]); [apply quiet_mark | done | |].
  - etrans; [apply targets_with_runs | apply quiet_mark].
  - split_and!; [by apply eq_None_not_Some | done | done].
Qed.

Lemma quiet_expire iso now s : quiet s (expire_overdue_runs iso now s).2.
Proof.
  unfold expire_overdue_runs. cbv zeta. match goal with |- context [with_runs ?m s] => set (s1 := with_runs m s) end.
  assert (quiet s s1) as H1.
  { split; [| apply targets_with_runs]. intros rid r'. subst s1. cbn [runs with_runs]. rewrite map_lookup_imap.
    destruct (runs s !! rid) as [r |]; [| done]. cbn [mbind option_bind]. intros [= <-]. exists r. split; [done |]. by destruct (bool_decide _). }
  pose proof (quiet_conditions iso (map (fun p => monitor_id p.2) (overdue_runs now s)) EXECUTION_UNAVAILABLE REASON_RESULT_TIMEOUT now s1) as H2.
  destruct (record_conditions _ _ _ _ _ _) as [ls s2]. cbn [snd] in *. by etrans.
Qed.

Lemma quiet_reconcile iso e now s : quiet s (reconcile iso e now s).2.
Proof.
  unfold reconcile, mark_stale. pose proof (quiet_expire iso now s) as H1. destruct (expire_overdue_runs _ _ _) as [[n l1] s1]. cbn [snd] in H1.
  pose proof (quiet_conditions iso (stale_monitors e now s1) EXECUTION_STALE REASON_NO_RECENT_RESULT now s1) as H2.
  destruct (record_conditions _ _ _ _ _ _) as [ls s2]. cbn [snd] in *. by etrans.
Qed.

Lemma quiet_purge days now s : quiet s (purge_probe_runs days now s).2.
Proof.
  split; [| apply targets_with_runs]. intros rid r. cbn [purge_probe_runs snd runs with_runs]. rewrite map_lookup_filter_Some.
  intros [Hr _]. exists r. split; [done | reflexivity].
Qed.

Section Eligible.
Context {T : IpText}.
Variable repr_of : json -> string.

Lemma dispatch_begin_spec e rid delivered now s d :
  dispatch_begin repr_of e rid delivered now s = Ok d ->
  match d with
  | Idle => True
  | Dispatch.Refused s' => quiet s s'
  | Published i => exists r m, runs s !! rid = Some r /\ r_status r = Queued /\ monitors s !! monitor_id r = Some m /\ is_Some (deadline_at r) /\
      i = Intent rid (monitor_id r) (agent_id r) (attempt_count r) /\
      exists el, evaluate_eligibility repr_of e (Some (agent_id r)) (Some rid) (monitor_id r) m now s = Ok el /\ ok el = true
  end.
Proof.
  unfold dispatch_begin. destruct (runs s !! rid) as [r |]; [| by intros [= <-]].
  destruct (bool_decide_reflect (r_status r = Queued)) as [Hq |]; cbn [negb]; [| by intros [= <-]].
  destruct (monitors s !! monitor_id r) as [m |] eqn:Em; [| by intros [= <-]].
  destruct (evaluate_eligibility _ _ _ _ _ _ _ _) as [el |] eqn:Ee; cbn [mbind result_bind]; [| done].
  destruct (ok el) eqn:Eok; cbn [negb]; [| intros [= <-]; apply quiet_unavailable].
  destruct (deadline_at r) as [dl |] eqn:Ed; [| intros [= <-]; apply quiet_unavailable].
  destruct delivered; intros [= <-]; [| apply quiet_unavailable].
  exists r, m. rewrite Ed. split_and!; try done. by exists el.
Qed.

Lemma set_dispatched_lease n now r : open_status (r_status r) = true -> same_lease r (set_dispatched n now r).
Proof. intros H. by split_and!. Qed.

Lemma quiet_dispatch e rid delivered now s b s' : dispatch_run repr_of e rid delivered now s = Ok (b, s') -> quiet s s'.
Proof.
  unfold dispatch_run. destruct (dispatch_begin _ _ _ _ _ _) as [d |] eqn:Ed; cbn [mbind result_bind]; [| done].
  apply dispatch_begin_spec in Ed. destruct d as [| s1 | i]; [by intros [= <- <-] | by intros [= <- <-] |].
  destruct Ed as (r & m & Hr & Hq & Hm & _ & -> & _). unfold dispatch_commit. cbn [i_run i_monitor i_attempts]. rewrite Hr, Hm.
  destruct (active_run_except _ _ _); intros [= <- <-]; [reflexivity |]. etrans; [| by apply quiet_update].
  split; [| apply targets_with_runs]. intros rid' r'. cbn [runs with_runs]. rewrite lookup_insert_Some. intros [[<- <-] | [_ Hr']].
  - exists r. split; [done |]. apply set_dispatched_lease. by rewrite Hq.
  - exists r'. split; [done | reflexivity].
Qed.
End Eligible.

(** *** The result path *)

Lemma override_fields batch now s r :
  let r' := override batch now s r in
  item_id r' = item_id r /\ mr_outcome r' = mr_outcome r /\ run_id r' = run_id r /\ checked_at r' = checked_at r.
Proof.
  cbv zeta. unfold override. destruct (list.last _) as [x |]; [| done]. destruct (negb _); [done |].
  destruct (proxmox_opinion _ _ _ _) as [[p |] label]; [| done]. by destruct (Bool.eqb p (up r)).
Qed.

Section Results.
Variable isoformat : Z -> string.
Variable round1 : Z -> Z.

Lemma persist_other now r s :
  mr_outcome r <> OUTCOME_COMPLETED -> quiet s (persist_results isoformat round1 now [r] s).2 /\
  forall rid r', run_id r = Some rid -> runs (persist_results isoformat round1 now [r] s).2 !! rid = Some r' -> open_status (r_status r') = false.
Proof.
  intros Ho. unfold persist_results, adjusted. cbn [map List.filter]. assert (is_completed r = false) as Hc by (by apply String.eqb_neq).
  rewrite Hc. cbn [List.filter flat_map length]. rewrite Hc. cbn [flat_map length persist_all]. unfold persist_one. rewrite Hc.
  assert (add_points [] s = s) as Ea by (destruct s; unfold add_points; cbn; by rewrite app_nil_r). rewrite Ea.
  destruct (apply_execution_error _ _ _) as [l s1] eqn:E. cbn [persist_all snd]. unfold apply_execution_error in E.
  match type of E with record_execution_condition _ _ _ _ _ ?x = _ => set (s2 := x) in E end.
  assert (s1 = (record_execution_condition isoformat (item_id r) EXECUTION_UNAVAILABLE
     (Some (match execution_reason r with Some e => if String.eqb e EmptyString then mr_outcome r else e | None => mr_outcome r end)) (checked_at r) s2).2) as ->
    by (by rewrite E).
  split.
  - etrans; [| apply quiet_condition]. subst s2. destruct (run_id r) as [rid |]; [| reflexivity]. by apply quiet_close.
  - intros rid r' Er. rewrite runs_condition. subst s2. rewrite Er. unfold update_run. destruct (runs s !! rid) as [row |] eqn:Hr; [| congruence].
    cbn [runs with_runs]. rewrite lookup_insert_eq. by intros [= <-].
Qed.

(** A completed result of an existing run and monitor. *)
Lemma persist_completed now r s rid row m :
  mr_outcome r = OUTCOME_COMPLETED -> run_id r = Some rid -> runs s !! rid = Some row -> monitors s !! item_id r = Some m ->
  exists s' r' row' m', (persist_results isoformat round1 now [r] s).2 = s' /\
    r' = override [r] now s r /\
    points s' = points s ++ sample_points r' /\
    runs s' = <[rid := row']> (runs s) /\ r_status row' = Completed /\ same_lease row row' /\ result_metadata row' = metadata r' /\
    monitors s' = <[item_id r := m']> (monitors s) /\
    target m' = target (set_core (Monitor.apply_to round1 (core m) (Monitor.Check (up r') (msg r') (checked_at r'))).1.1 m) /\
    probe_agent_id m' = probe_agent_id m /\ params m' = params m /\
    events s' = events s ++ option_list (Monitor.apply_to round1 (core m) (Monitor.Check (up r') (msg r') (checked_at r'))).1.2.
Proof.
  intros Ho Er Hr Hm. unfold persist_results, adjusted. cbn [map List.filter]. assert (is_completed r = true) as Hc by (by apply String.eqb_eq).
  rewrite Hc. set (r' := override [r] now s r). destruct (override_fields [r] now s r) as (F1 & F2 & F3 & F4). fold r' in F1, F2, F3, F4.
  assert (is_completed r' = true) as Hc' by (unfold is_completed; rewrite F2; by apply String.eqb_eq).
  cbn [List.filter]. rewrite Hc'. cbn [flat_map persist_all]. rewrite app_nil_r. unfold persist_one. rewrite Hc'.
  unfold apply_result. cbn [monitors add_points]. rewrite F1, Hm.
  destruct (Monitor.apply_to round1 (core m) _) as [[ci ev] tr] eqn:Ea. cbn [persist_all snd fst].
  unfold complete_run. rewrite F3, Er. cbn [runs with_events with_monitors add_points]. rewrite Hr.
  unfold update_run. cbn [runs with_events with_monitors add_points]. rewrite Hr. unfold update_monitor_row.
  cbn [monitors with_runs with_events with_monitors add_points]. rewrite F1, lookup_insert_eq.
  eexists _, r', _, _. split; [reflexivity |]. cbn [points runs monitors events with_runs with_events with_monitors add_points].
  rewrite insert_insert_eq, Ea. split_and!; done.
Qed.
End Results.

Section Agents.
Variable model_validate : list (string * json) -> option payload.
Variable repr : string -> string.
Variable isoformat : Z -> string.
Variable round1 : Z -> Z.
Abbreviation ingest := (ingest_probe_result model_validate repr isoformat round1).
Abbreviation validate := (validate_probe_payload model_validate repr).

(** An accepted result: who sent it for what, and all it changed. *)
Record accepted (agent : Z) (r : payload) (now : Z) (s s' : db) (row : run) (m : monitor) : Prop := {
  acc_run : runs s !! pl_run_id r = Some row;
  acc_agent : agent_id row = agent;
  acc_monitor : monitor_id row = pl_monitor_id r;
  acc_row : monitors s !! monitor_id row = Some m;
  acc_open : open_status (r_status row) = true;
  acc_in_time : forall d, deadline_at row = Some d -> now <= d + LATE_RESULT_GRACE;
  acc_outcome : pl_outcome r = OUTCOME_COMPLETED;
  acc_closed : exists row', runs s' = <[pl_run_id r := row']> (runs s) /\ r_status row' = Completed /\ same_lease row row';
  acc_target : exists c m', monitors s' = <[monitor_id row := m']> (monitors s) /\ Monitor.checked_at c = pl_finished_at r /\
    target m' = target (set_core (Monitor.apply_to round1 (core m) c).1.1 m);
  acc_points : exists l, points s' = points s ++ l /\ Forall (fun p => p_item p = monitor_id row /\ p_ts p = pl_finished_at r) l
}.

(** What an accepted result writes, in the state it finds. *)
Record applied (r : payload) (now : Z) (s s' : db) (row : run) (m : monitor) : Prop := {
  app_in_time : forall d, deadline_at row = Some d -> now <= d + LATE_RESULT_GRACE;
  app_outcome : pl_outcome r = OUTCOME_COMPLETED;
  app_closed : exists row', runs s' = <[pl_run_id r := row']> (runs s) /\ r_status row' = Completed /\ same_lease row row';
  app_target : exists c m', monitors s' = <[monitor_id row := m']> (monitors s) /\ Monitor.checked_at c = pl_finished_at r /\
    target m' = target (set_core (Monitor.apply_to round1 (core m) c).1.1 m);
  app_points : exists l, points s' = points s ++ l /\ Forall (fun p => p_item p = monitor_id row /\ p_ts p = pl_finished_at r) l
}.

(** The result was judged by the run [row0] and the monitor [m0] as they were
    read; the run and the monitor are now [row] and [m]. *)
Lemma settled_later rid row0 m0 row m r now s d s' :
  pl_outcome r ∈ OUTCOMES -> runs s !! rid = Some row -> monitors s !! monitor_id row = Some m -> rid = pl_run_id r ->
  monitor_id row0 = monitor_id row -> deadline_at row0 = deadline_at row -> settle isoformat round1 rid row0 m0 r now s = (d, s') ->
  (d = Accepted /\ applied r now s s' row m) \/
  (d <> Accepted /\ d <> Duplicate /\ quiet s s' /\ forall r', runs s' !! rid = Some r' -> open_status (r_status r') = false).
Proof.
  intros Hout Hr Hm -> Emid Edl. unfold settle. cbv zeta. rewrite Emid. assert (late row0 now = late row now) as -> by (unfold late; by rewrite Edl).
  set (secrets := Secrets.secret_values (params m0)).
  set (txt := Secrets.redact_text (pl_msg r) secrets). set (dt := _ <$> pl_details r).
  assert (quiet s (update_run (pl_run_id r) (set_started (pl_started_at r)) s)) as H1 by by apply quiet_close.
  assert (runs (update_run (pl_run_id r) (set_started (pl_started_at r)) s) = <[pl_run_id r := set_started (pl_started_at r) row]> (runs s)) as Eruns
    by (unfold update_run; by rewrite Hr).
  assert (monitors (update_run (pl_run_id r) (set_started (pl_started_at r)) s) = monitors s) as Emon by apply monitors_update_run.
  assert (points (update_run (pl_run_id r) (set_started (pl_started_at r)) s) = points s) as Ept by apply H1.
  revert H1 Eruns Emon Ept. generalize (update_run (pl_run_id r) (set_started (pl_started_at r)) s). intros s1 H1 Eruns Emon Ept.
  assert (forall st err at_, open_status st = false -> quiet s (close_run (pl_run_id r) r st err txt dt at_ s1) /\
            forall r', runs (close_run (pl_run_id r) r st err txt dt at_ s1) !! pl_run_id r = Some r' -> open_status (r_status r') = false) as Hclose.
  { intros st err at_ Hst. split; [etrans; [exact H1 |]; split; [by apply leases_closed | apply targets_update_run] |].
    intros r'. unfold close_run, update_run. rewrite Eruns, lookup_insert_eq. cbn [runs with_runs]. rewrite ?Eruns, insert_insert_eq, lookup_insert_eq. by intros [= <-]. }
  destruct (late row now) eqn:El.
  { intros [= <- <-]. right. destruct (Hclose Expired ERROR_LATE_RESULT now eq_refl). by split_and!. }
  destruct (String.eqb_spec (pl_outcome r) OUTCOME_CANCELLED) as [Ec | Ec].
  { intros [= <- <-]. right. destruct (Hclose Cancelled REASON_AGENT_CANCELLED (pl_finished_at r) eq_refl). by split_and!. }
  set (rec := record_of (pl_run_id r) (monitor_id row) m0 r txt dt).
  assert (pl_outcome r = OUTCOME_COMPLETED \/ pl_outcome r ∈ [OUTCOME_EXECUTION_ERROR; OUTCOME_REJECTED]) as [Eo | Eo] by (unfold OUTCOMES in Hout; set_solver).
  - rewrite Eo. rewrite bool_decide_false by (unfold OUTCOME_COMPLETED, OUTCOME_EXECUTION_ERROR, OUTCOME_REJECTED; set_solver). intros [= <- <-]. left. split; [done |].
    destruct (persist_completed isoformat round1 now rec s1 (pl_run_id r) (set_started (pl_started_at r) row) m) as
      (s2 & rec' & row' & m' & -> & Erec & Hp & Hruns & Hst & Hl & _ & Hmons & Ht & _); [done | done | rewrite Eruns; apply lookup_insert_eq | by rewrite Emon |].
    destruct (override_fields [rec] now s1 rec) as (F1 & _ & _ & F4). rewrite <- Erec in F1, F4.
    split; try done.
    + intros dl Hd. unfold late in El. rewrite Hd in El. apply Z.ltb_ge in El. done.
    + exists row'. rewrite Hruns, Eruns, insert_insert_eq. done.
    + eexists _, m'. rewrite Hmons, Emon. split_and!; [done | | exact Ht]. done.
    + exists (sample_points rec'). rewrite Hp, Ept. split; [done |]. apply Forall_forall. intros p Hin. unfold sample_points in Hin.
      apply list_elem_of_In, in_map_iff in Hin as (x & <- & _). cbn [p_item p_ts]. by rewrite F1, F4.
  - rewrite bool_decide_true by done. intros [= <- <-]. right. split; [done |].
    destruct (persist_other isoformat round1 now rec s1) as [H2 H3].
    { subst rec. cbn [mr_outcome record_of]. intros E. rewrite E in Eo. unfold OUTCOME_COMPLETED, OUTCOME_EXECUTION_ERROR, OUTCOME_REJECTED in Eo. set_solver. }
    split; [done |]. split; [by etrans |]. intros r' Hr'. by eapply H3.
Qed.

Lemma settled_result rid row m r now s d s' :
  pl_outcome r ∈ OUTCOMES -> runs s !! rid = Some row -> monitors s !! monitor_id row = Some m -> open_status (r_status row) = true -> rid = pl_run_id r ->
  monitor_id row = pl_monitor_id r -> settle isoformat round1 rid row m r now s = (d, s') ->
  (d = Accepted /\ accepted (agent_id row) r now s s' row m) \/
  (d <> Accepted /\ d <> Duplicate /\ quiet s s' /\ forall r', runs s' !! rid = Some r' -> open_status (r_status r') = false).
Proof.
  intros Hout Hr Hm Hopen -> Hmon E.
  destruct (settled_later _ row m row m r now s d s' Hout Hr Hm eq_refl eq_refl eq_refl E) as [[-> []] | H]; [left; by repeat split | by right].
Qed.

Lemma validated_outcome v r : validate v = Ok r -> pl_outcome r ∈ OUTCOMES.
Proof.
  unfold validate_probe_payload. destruct v; try done. destruct (size_ok _); cbn [mbind result_bind]; [| done].
  destruct (model_validate _) as [p |]; [| done]. destruct (bool_decide_reflect (pl_outcome p ∈ OUTCOMES)); [| done]. by intros [= <-].
Qed.

Lemma ingest_spec agent active v now s d s' :
  ingest agent active v now s = Ok (d, s') ->
  exists r row m, validate v = Ok r /\ active = true /\ runs s !! pl_run_id r = Some row /\ agent_id row = agent /\ monitor_id row = pl_monitor_id r /\
    monitors s !! monitor_id row = Some m /\
    ((d = Duplicate /\ s' = s /\ open_status (r_status row) = false) \/
     (d = Accepted /\ accepted agent r now s s' row m) \/
     (d <> Accepted /\ d <> Duplicate /\ quiet s s' /\ open_status (r_status row) = true /\
      forall r', runs s' !! pl_run_id r = Some r' -> open_status (r_status r') = false)).
Proof.
  unfold ingest_probe_result. destruct active; [| done]. destruct (validate v) as [r |] eqn:Ev; cbn [mbind result_bind]; [| done].
  destruct (runs s !! pl_run_id r) as [row |] eqn:Hr; [| done]. destruct (Z.eqb_spec (agent_id row) agent) as [Ha |]; [| done].
  destruct (Z.eqb_spec (monitor_id row) (pl_monitor_id r)) as [Hmon |]; [| done]. destruct (monitors s !! monitor_id row) as [m |] eqn:Hm; [| done].
  intros E. exists r, row, m. split_and!; try done. destruct (open_status (r_status row)) eqn:Eo; cbn [negb] in E; [| injection E as <- <-; by left].
  right. pose proof (validated_outcome _ _ Ev) as Hout.
  injection E as E. destruct (settled_result _ row m r now s d s' Hout Hr Hm Eo eq_refl Hmon E) as [[-> H] | (H1 & H2 & H3 & H4)].
  - left. split; [done |]. by rewrite <- Ha.
  - right. by split_and!.
Qed.
End Agents.
End ProbeTheorems.
