(* ===== verification/ProbeHistory.v ===== *)
(** Histories of remote probing: the scheduler, the dispatcher, the agents'
    results, operators and the reconciliation pass in any order.  The dispatcher
    and the ingest of a result read a run, wait, and write it later; between the
    two anything may happen. *)
From S2P Require Import Prelude Sha256 Json Canonical Regex Ip AgentScope AgentCapabilities AgentRegistry Redaction ProbeSecrets Monitor ProbeRuns ProbeIngest ProbeLeases ProbeDispatch ProbeTheorems.
Import Json Ip.
Open Scope Z_scope.

Module ProbeHistory.
Import Probe Ingest Leases Dispatch ProbeTheorems.

(** What an observer of the monitors sees of a transaction: a run opened under a
    token; a run whose result reached its monitor, [late] when the run was
    closed after the result was judged; a closed run that a dispatch opened
    again; a check of the server's own; or none of these. *)
Inductive label := Quiet | Minted (rid : string) | Moved (rid : string) (late : bool) | Reopened (rid : string) | Polled.
#[export] Instance label_eq_dec : EqDecision label. Proof. solve_decision. Defined.

Section History.
Context {T : IpText}.
Variable model_validate : list (string * json) -> option payload.
Variable repr : string -> string.
Variable isoformat : Z -> string.
Variable round1 : Z -> Z.
Variable repr_of : json -> string.
Variable agent_tenant : Z -> option (option Z).
Variable target_tenant : option string -> option Z -> option Z.
Variable config_model : string -> json -> option json.

(** A run that was open when it was read and is closed when it is written. *)
Definition overtaken (before now : run) : bool := open_status (r_status before) && negb (open_status (r_status now)).

(** [step_dispatched] and [step_result] write what was read in an earlier state
    [s0]; the monitor, the agent and the deadline of a run never change. *)
Inductive step : label -> db -> db -> Prop :=
| step_open rid mid agent dl now s s' : create_probe_run rid mid agent dl now s = (true, s') -> step (Minted rid) s s'
| step_in_flight rid mid agent dl now s s' : create_probe_run rid mid agent dl now s = (false, s') -> step Quiet s s'
| step_unsent rid mid jitter now s : step Quiet s (record_dispatch_failure rid mid jitter now s)
| step_undelivered rid mid why detail now s : step Quiet s (close_unavailable rid mid why detail now s)
| step_refused e rid delivered now s s' : dispatch_begin repr_of e rid delivered now s = Ok (Dispatch.Refused s') -> step Quiet s s'
| step_dispatched e delivered now0 s0 r0 i now s r s' :
    dispatch_begin repr_of e (i_run i) delivered now0 s0 = Ok (Published i) -> runs s0 !! i_run i = Some r0 ->
    runs s !! i_run i = Some r -> monitor_id r = i_monitor i -> dispatch_commit i now s = Ok s' ->
    step (if overtaken r0 r then Reopened (i_run i) else Quiet) s s'
| step_result agent active v s0 row0 m0 r now s row m d s' :
    ingest_read model_validate repr agent active v s0 = Ok (Some (row0, m0, r)) ->
    runs s !! pl_run_id r = Some row -> monitors s !! monitor_id row = Some m ->
    monitor_id row0 = monitor_id row -> agent_id row0 = agent_id row -> deadline_at row0 = deadline_at row ->
    settle isoformat round1 (pl_run_id r) row0 m0 r now s = (d, s') ->
    step (match d with Accepted => Moved (pl_run_id r) (overtaken row0 row) | _ => Quiet end) s s'
| step_poll results now s :
    Forall (fun r => run_id r = None) results -> step Polled s (persist_results isoformat round1 now results s).2
| step_claim i due s : step Quiet s (update_monitor_row i (set_due due) s)
| step_pause i paused now s cs s' : set_paused i paused now s = Some (cs, s') -> step Quiet s s'
| step_pause_target type id paused now s cs s' : set_target_paused type id paused now s = Some (cs, s') -> step Quiet s s'
| step_delete i now s cs s' : delete_monitor i now s = Some (cs, s') -> step Quiet s s'
| step_update i u now s cs s' : update_monitor agent_tenant target_tenant config_model i u now s = Ok (Some (cs, s')) -> step Quiet s s'
| step_add i nm ct h config interval retries ri on type id agent now s s' :
    monitors s !! i = None ->
    create_monitor agent_tenant target_tenant i nm ct h config interval retries ri on type id agent now s = Ok s' -> step Quiet s s'
| step_cancel_agent agent why now s : step Quiet s (cancel_agent_probe_runs isoformat agent why now s).2
| step_reconcile e now s : step Quiet s (reconcile isoformat e now s).2
| step_purge days now s : step Quiet s (purge_probe_runs days now s).2
| step_inventory hw cu s : step Quiet s (Db (monitors s) (runs s) (events s) (points s) hw cu).

Inductive steps : db -> list label -> db -> Prop :=
| steps_nil s : steps s [] s
| steps_snoc s0 ls s l s' : steps s0 ls s -> step l s s' -> steps s0 (ls ++ [l]) s'.

Definition minted (ls : list label) : list string := omap (fun l => match l with Minted rid => Some rid | _ => None end) ls.
Definition moved (ls : list label) : list string := omap (fun l => match l with Moved rid _ => Some rid | _ => None end) ls.

Definition count (p : label -> bool) (ls : list label) : nat := length (List.filter p ls).

(** How often the result of a run reached its monitor, and how often a
    transaction acted on a reading of the run that no longer held. *)
Definition times_moved (rid : string) : list label -> nat := count (fun l => match l with Moved x _ => String.eqb x rid | _ => false end).
Definition overlaps (rid : string) : list label -> nat :=
  count (fun l => match l with Moved x late => String.eqb x rid && late | Reopened x => String.eqb x rid | _ => false end).

(** At most one run in flight per monitor. *)
Definition one_open (s : db) : Prop :=
  forall rid rid' r r', runs s !! rid = Some r -> runs s !! rid' = Some r' -> open_status (r_status r) = true ->
    open_status (r_status r') = true -> monitor_id r = monitor_id r' -> rid = rid'.

Lemma one_open_kept s s' : leases_kept s s' -> one_open s -> one_open s'.
Proof.
  intros H Ho rid rid' r r' Hr Hr' E1 E2 Em. apply H in Hr as (r0 & Hr0 & M0 & _ & _ & O0). apply H in Hr' as (r1 & Hr1 & M1 & _ & _ & O1).
  apply (Ho rid rid' r0 r1); auto. congruence.
Qed.

Lemma active_run_false mid s : active_run mid s = false -> forall rid r, runs s !! rid = Some r -> open_status (r_status r) = true -> monitor_id r <> mid.
Proof.
  unfold active_run. rewrite existsb_false. intros H rid r Hr Ho Em. specialize (H (rid, r)). unfold is_open in H. cbn [snd] in H.
  rewrite Em, Z.eqb_refl, Ho in H. by discriminate H; apply elem_of_map_to_list.
Qed.

Lemma one_open_create rid mid agent dl now s s' : create_probe_run rid mid agent dl now s = (true, s') -> one_open s -> one_open s'.
Proof.
  intros (_ & Hn & Ha & Hr)%create_spec Ho. pose proof (active_run_false _ _ Ha) as Hmid. intros a b ra rb. rewrite Hr, !lookup_insert_Some.
  intros [[<- <-] | [Na Ra]] [[<- <-] | [Nb Rb]] O1 O2 Em; [done | | |].
  - destruct (Hmid _ _ Rb O2). by symmetry.
  - by destruct (Hmid _ _ Ra O1).
  - by apply (Ho a b ra rb).
Qed.

(** A batch of the server's own checks leaves the runs alone. *)
Lemma runs_poll results p s :
  Forall (fun r => run_id r = None) results -> runs (persist_all isoformat round1 results p s).2 = runs s.
Proof.
  intros H. revert p s. induction H as [| r results Hr _ IH]; intros p s; cbn [persist_all]; [done |].
  destruct (persist_one isoformat round1 r s) as [[t l] s1] eqn:E. rewrite IH. clear IH. unfold persist_one in E.
  destruct (is_completed r).
  - destruct (apply_result round1 r s) as [t' s2] eqn:E2. injection E as <- <- <-. unfold complete_run. rewrite Hr.
    unfold apply_result in E2. destruct (monitors s !! item_id r) as [m |]; [| by injection E2 as <- <-].
    destruct (Monitor.apply_to _ _ _) as [[ci ev] tr]. by injection E2 as <- <-.
  - destruct (apply_execution_error isoformat r s) as [l' s2] eqn:E2. injection E as <- <- <-. unfold apply_execution_error in E2. rewrite Hr in E2.
    pose proof (f_equal snd E2) as E3. cbn [snd] in E3. by rewrite <- E3, runs_condition.
Qed.

Lemma leases_poll results now s :
  Forall (fun r => run_id r = None) results -> leases_kept s (persist_results isoformat round1 now results s).2.
Proof.
  intros H. apply leases_same. unfold persist_results. rewrite runs_poll; [done |]. apply Forall_forall. intros r Hr. unfold adjusted in Hr.
  apply list_elem_of_In, in_map_iff in Hr as (x & <- & Hx%list_elem_of_In). rewrite Forall_forall in H. specialize (H x Hx).
  destruct (is_completed x); [| done]. by destruct (override_fields (List.filter is_completed results) now s x) as (_ & _ & -> & _).
Qed.

Lemma commit_spec i now s s' :
  dispatch_commit i now s = Ok s' ->
  exists r, runs s !! i_run i = Some r /\ active_run_except (i_monitor i) (Some (i_run i)) s = false /\
    runs s' = <[i_run i := set_dispatched (i_attempts i) now r]> (runs s) /\ targets_kept s s'.
Proof.
  unfold dispatch_commit. destruct (runs s !! i_run i) as [r |]; [| done]. destruct (monitors s !! i_monitor i); [| done].
  destruct (active_run_except _ _ _); [done |]. intros [= <-]. exists r. rewrite runs_update_monitor_row. split_and!; try done.
  etrans; [apply targets_with_runs | by apply targets_update].
Qed.

Lemma read_spec agent active v s row m r :
  ingest_read model_validate repr agent active v s = Ok (Some (row, m, r)) ->
  validate_probe_payload model_validate repr v = Ok r /\ active = true /\ runs s !! pl_run_id r = Some row /\ agent_id row = agent /\
  monitor_id row = pl_monitor_id r /\ monitors s !! monitor_id row = Some m /\ open_status (r_status row) = true.
Proof.
  unfold ingest_read. destruct active; [| done]. destruct (validate_probe_payload _ _ v) as [r' |]; cbn [mbind result_bind]; [| done].
  destruct (runs s !! pl_run_id r') as [row' |] eqn:Er; [| done]. destruct (Z.eqb_spec (agent_id row') agent); [| done].
  destruct (Z.eqb_spec (monitor_id row') (pl_monitor_id r')); [| done]. destruct (monitors s !! monitor_id row') as [m' |] eqn:Em; [| done].
  destruct (open_status (r_status row')) eqn:Eo; cbn [negb]; [| done]. intros [= <- <- <-]. by split_and!.
Qed.

(** A result, in whatever state it is written. *)
Lemma result_spec agent active v s0 row0 m0 r now s row m d s' :
  ingest_read model_validate repr agent active v s0 = Ok (Some (row0, m0, r)) ->
  runs s !! pl_run_id r = Some row -> monitors s !! monitor_id row = Some m ->
  monitor_id row0 = monitor_id row -> deadline_at row0 = deadline_at row ->
  settle isoformat round1 (pl_run_id r) row0 m0 r now s = (d, s') ->
  (d = Accepted /\ applied round1 r now s s' row m) \/ (d <> Accepted /\ quiet s s').
Proof.
  intros (Hv & _)%read_spec Hr Hm E1 E2 Hs.
  destruct (settled_later repr _ _ _ row0 m0 row m r now s d s' (validated_outcome _ _ _ _ Hv) Hr Hm eq_refl E1 E2 Hs) as [H | (H1 & _ & H2 & _)]; [by left | by right].
Qed.

(** What a quiet transaction, or one that opens a run again, leaves alone. *)
Lemma inert_step l s s' : step l s s' -> match l with Quiet | Reopened _ => True | _ => False end ->
  points s' = points s /\
  (forall i m m', monitors s !! i = Some m -> monitors s' !! i = Some m' -> target m' = target m) /\
  (forall e, e ∈ events s' -> e ∈ events s \/ Monitor.ev_type e ∈ INERT).
Proof.
  assert (forall x, targets_kept s x -> points x = points s /\
            (forall i m m', monitors s !! i = Some m -> monitors x !! i = Some m' -> target m' = target m) /\
            (forall e, e ∈ events x -> e ∈ events s \/ Monitor.ev_type e ∈ INERT)) as Hq.
  { intros x [HP HR HE]. split_and!; try done. intros i m m' Hm (m0 & Hm0 & Ht)%HR. congruence. }
  intros Hst Hl. inversion Hst; subst; clear Hst; try done.
  - match goal with H : create_probe_run _ _ _ _ _ _ = _ |- _ => apply create_spec in H as [Ht Hr] end. by apply Hq.
  - apply Hq, quiet_dispatch_failure.
  - apply Hq, quiet_unavailable.
  - rename select (dispatch_begin _ _ _ _ _ _ = _) into Hsel. apply dispatch_begin_spec in Hsel. by apply Hq, Hsel.
  - rename select (dispatch_commit _ _ _ = _) into Hsel. apply commit_spec in Hsel as (_ & _ & _ & _ & Hsel). by apply Hq.
  - rename select (settle _ _ _ _ _ _ _ _ = _) into Hsel. eapply result_spec in Hsel as [[-> _] | [_ Hsel]]; [done | | done ..]. by apply Hq, Hsel.
  - apply Hq. by apply quiet_update.
  - apply Hq. by eapply quiet_pause.
  - apply Hq. by eapply quiet_pause_target.
  - apply Hq. by eapply quiet_delete.
  - match goal with H : update_monitor _ _ _ _ _ _ _ = _ |- _ => apply quiet_update_monitor in H end. by apply Hq, H.
  - match goal with H : create_monitor _ _ _ _ _ _ _ _ _ _ _ _ _ _ _ _ = _ |- _ => unfold create_monitor in H end.
    destruct (validate_probe_assignment _ _ _ _ _); [| done]. match goal with H : _ = Ok s' |- _ => injection H as <- end.
    split_and!; [done | | by left]. intros j m m' Hm. cbn [monitors with_monitors]. rewrite lookup_insert_ne; congruence.
  - apply Hq, quiet_cancel_agent.
  - apply Hq, quiet_reconcile.
  - apply Hq, quiet_purge.
  - split_and!; [done | | by left]. cbn [monitors]. congruence.
Qed.

Lemma quiet_step s s' : step Quiet s s' -> leases_kept s s'.
Proof.
  intros Hst. inversion Hst; subst; clear Hst.
  - match goal with H : create_probe_run _ _ _ _ _ _ = _ |- _ => apply create_spec in H as [Ht Hr] end. by apply leases_same.
  - apply quiet_dispatch_failure.
  - apply quiet_unavailable.
  - rename select (dispatch_begin _ _ _ _ _ _ = _) into Hsel. apply dispatch_begin_spec in Hsel. apply Hsel.
  - rename select (dispatch_commit _ _ _ = _) into Hsel. apply commit_spec in Hsel as (r' & Hr & _ & Er & _). assert (r' = r) as -> by congruence.
    rename select (dispatch_begin _ _ _ _ _ _ = _) into Hb. apply dispatch_begin_spec in Hb as (q & _ & Hq & Eq & _). assert (q = r0) as -> by congruence.
    rename select ((if overtaken _ _ then _ else _) = _) into El. unfold overtaken in El. rewrite Eq in El. cbn [open_status andb] in El.
    destruct (open_status (r_status r)) eqn:Eo; [| done]. intros rid x. rewrite Er, lookup_insert_Some. intros [[<- <-] | [_ Hx]].
    + exists r. split; [done |]. by apply set_dispatched_lease.
    + exists x. split; [done | reflexivity].
  - rename select (settle _ _ _ _ _ _ _ _ = _) into Hsel. eapply result_spec in Hsel as [[-> _] | [_ Hsel]]; [done | apply Hsel | done ..].
  - by apply quiet_update.
  - by eapply quiet_pause.
  - by eapply quiet_pause_target.
  - by eapply quiet_delete.
  - match goal with H : update_monitor _ _ _ _ _ _ _ = _ |- _ => apply quiet_update_monitor in H end. apply H.
  - match goal with H : create_monitor _ _ _ _ _ _ _ _ _ _ _ _ _ _ _ _ = _ |- _ => unfold create_monitor in H end.
    destruct (validate_probe_assignment _ _ _ _ _); [| done]. match goal with H : _ = Ok s' |- _ => injection H as <- end. by apply leases_same.
  - apply quiet_cancel_agent.
  - apply quiet_reconcile.
  - apply quiet_purge.
  - by apply leases_same.
Qed.

(** *** One result per run *)

(** Every token in the table was minted; a result reached a monitor at most once
    more than there were overlaps, and not more often while the run is open. *)
Record spent (ls : list label) (s : db) : Prop := {
  spent_minted : forall rid r, runs s !! rid = Some r -> rid ∈ minted ls;
  spent_moved : forall rid, rid ∈ moved ls -> rid ∈ minted ls;
  spent_times : forall rid, (times_moved rid ls <= 1 + overlaps rid ls)%nat;
  spent_free : forall rid r, runs s !! rid = Some r -> open_status (r_status r) = true -> (times_moved rid ls <= overlaps rid ls)%nat;
  spent_open : one_open s
}.

Lemma minted_snoc ls l : minted (ls ++ [l]) = minted ls ++ match l with Minted rid => [rid] | _ => [] end.
Proof. unfold minted. rewrite omap_app. by destruct l. Qed.

Lemma moved_snoc ls l : moved (ls ++ [l]) = moved ls ++ match l with Moved rid _ => [rid] | _ => [] end.
Proof. unfold moved. rewrite omap_app. by destruct l. Qed.

Lemma count_snoc p ls l : count p (ls ++ [l]) = (count p ls + if p l then 1 else 0)%nat.
Proof. unfold count. rewrite List.filter_app, length_app. cbn [List.filter]. by destruct (p l). Qed.

Lemma times_zero rid ls : rid ∉ moved ls -> times_moved rid ls = 0%nat.
Proof.
  unfold times_moved, count. induction ls as [| l ls IH]; cbn [moved omap list_omap List.filter]; [done |]. intros H.
  destruct l as [| x | x b | x |]; try (by apply IH). destruct (String.eqb_spec x rid) as [-> |]; [destruct H; by left |].
  apply IH. intros Hin. apply H. by right.
Qed.

(** Closing and removing runs. *)
Lemma spent_kept ls l s s' : leases_kept s s' -> match l with Quiet | Polled => True | _ => False end -> spent ls s -> spent (ls ++ [l]) s'.
Proof.
  intros HL Hl [H1 H2 H3 H4 H5].
  assert (minted (ls ++ [l]) = minted ls /\ moved (ls ++ [l]) = moved ls /\ forall rid, times_moved rid (ls ++ [l]) = times_moved rid ls /\
          overlaps rid (ls ++ [l]) = overlaps rid ls) as (E1 & E2 & E3).
  { unfold times_moved, overlaps. setoid_rewrite count_snoc. rewrite minted_snoc, moved_snoc. destruct l; try done; rewrite ?app_nil_r; split_and!; try done; intros; lia. }
  split; rewrite ?E1, ?E2; try done.
  - intros rid r' (r & Hr & _)%HL. by eapply H1.
  - intros rid. destruct (E3 rid) as [-> ->]. apply H3.
  - intros rid r' (r & Hr & _ & _ & _ & Ho)%HL Hop. destruct (E3 rid) as [-> ->]. by eapply H4, Ho.
  - by eapply one_open_kept.
Qed.

(** A result is written. *)
Lemma spent_result ls s s' r now row0 row m :
  open_status (r_status row0) = true -> runs s !! pl_run_id r = Some row -> applied round1 r now s s' row m ->
  spent ls s -> spent (ls ++ [Moved (pl_run_id r) (overtaken row0 row)]) s'.
Proof.
  intros Hop0 Hr [_ _ (row' & Hruns & Hst & Hl) _ _] [H1 H2 H3 H4 H5]. unfold overtaken. rewrite Hop0. cbn [andb].
  assert (leases_kept s s') as HL.
  { intros rid x. rewrite Hruns, lookup_insert_Some. intros [[<- <-] | [_ Hx]]; [by exists row | exists x; split; [done | reflexivity]]. }
  split; rewrite ?minted_snoc, ?moved_snoc, ?app_nil_r.
  - intros rid x (y & Hy & _)%HL. by eapply H1.
  - intros rid [Hm | ->%list_elem_of_singleton]%elem_of_app; [by apply H2 | by eapply H1].
  - intros rid. unfold times_moved, overlaps. rewrite !count_snoc. fold (times_moved rid ls) (overlaps rid ls). specialize (H3 rid).
    destruct (String.eqb_spec (pl_run_id r) rid) as [<- |]; cbn [andb]; [| lia]. specialize (H4 _ _ Hr).
    destruct (open_status (r_status row)); cbn [negb]; [| lia]. specialize (H4 eq_refl). lia.
  - intros rid x Hx Ho. rewrite Hruns, lookup_insert_Some in Hx. destruct Hx as [[<- <-] | [Hne Hx]]; [by rewrite Hst in Ho |].
    unfold times_moved, overlaps. rewrite !count_snoc. fold (times_moved rid ls) (overlaps rid ls). specialize (H4 rid x Hx Ho).
    destruct (String.eqb_spec (pl_run_id r) rid) as [| _]; [done |]. cbn [andb]. lia.
  - by eapply one_open_kept.
Qed.

(** A dispatch opens a closed run again. *)
Lemma spent_reopened ls i r now s s' :
  runs s !! i_run i = Some r -> monitor_id r = i_monitor i -> dispatch_commit i now s = Ok s' -> spent ls s -> spent (ls ++ [Reopened (i_run i)]) s'.
Proof.
  intros Hr Hm (r' & Hr' & Ha & Hruns & _)%commit_spec [H1 H2 H3 H4 H5]. assert (r' = r) as -> by congruence.
  split; rewrite ?minted_snoc, ?moved_snoc, ?app_nil_r.
  - intros rid x. rewrite Hruns, lookup_insert_Some. intros [[<- _] | [_ Hx]]; by eapply H1.
  - done.
  - intros rid. unfold times_moved, overlaps. rewrite !count_snoc. fold (times_moved rid ls) (overlaps rid ls). specialize (H3 rid).
    destruct (String.eqb _ _); lia.
  - intros rid x Hx Ho. unfold times_moved, overlaps. rewrite !count_snoc. fold (times_moved rid ls) (overlaps rid ls).
    rewrite Hruns, lookup_insert_Some in Hx. destruct Hx as [[<- <-] | [Hne Hx]].
    + rewrite String.eqb_refl. specialize (H3 (i_run i)). lia.
    + specialize (H4 rid x Hx Ho). lia.
  - assert (forall rid x, runs s !! rid = Some x -> open_status (r_status x) = true -> monitor_id x = i_monitor i -> rid = i_run i) as Hal.
    { intros rid x Hx Ho Ex. unfold active_run_except in Ha. rewrite existsb_false in Ha.
      specialize (Ha (rid, x) (proj2 (elem_of_map_to_list _ _ _) Hx)). cbn [fst snd] in Ha. unfold is_open in Ha.
      rewrite Ex, Z.eqb_refl, Ho in Ha. cbn [andb] in Ha. destruct (bool_decide_reflect (Some (i_run i) = Some rid)) as [[= ->] |]; done. }
    intros a b ra rb. rewrite Hruns, !lookup_insert_Some. intros [[<- <-] | [Na Ra]] [[<- <-] | [Nb Rb]] O1 O2 Em; cbn [monitor_id set_dispatched] in Em.
    + done.
    + symmetry. apply (Hal b rb Rb O2). congruence.
    + apply (Hal a ra Ra O1). congruence.
    + by apply (H5 a b ra rb).
Qed.

Lemma spent_step ls l s s' : step l s s' -> NoDup (minted (ls ++ [l])) -> spent ls s -> spent (ls ++ [l]) s'.
Proof.
  intros Hst Hnd Hs. destruct l as [| rid | rid b | rid |].
  - apply (spent_kept _ _ s); [by apply quiet_step | done | done].
  - inversion Hst; subst; [| by destruct (overtaken _ _) | by destruct d]. rename select (create_probe_run _ _ _ _ _ _ = _) into Hc.
    pose proof (one_open_create _ _ _ _ _ _ _ Hc) as Ho. apply create_spec in Hc as (_ & Hn & _ & Hr). rewrite minted_snoc in Hnd.
    apply NoDup_app in Hnd as (_ & Hnew & _). destruct Hs as [H1 H2 H3 H4 H5]. split; rewrite ?minted_snoc, ?moved_snoc, ?app_nil_r.
    + intros rid' r'. rewrite Hr, lookup_insert_Some, elem_of_app. intros [[<- _] | [_ Hr']]; [right; by left | left; by eapply H1].
    + intros rid' Hm%H2. apply elem_of_app. by left.
    + intros rid'. unfold times_moved, overlaps. rewrite !count_snoc, !Nat.add_0_r. apply H3.
    + intros rid' r' Hr' Hop. unfold times_moved, overlaps. rewrite !count_snoc, !Nat.add_0_r. fold (times_moved rid' ls) (overlaps rid' ls).
      rewrite Hr, lookup_insert_Some in Hr'. destruct Hr' as [[<- _] | [_ Hr']]; [| by eapply H4].
      rewrite times_zero; [lia |]. intros Hm%H2. destruct (Hnew rid Hm). by left.
    + by apply Ho.
  - inversion Hst; subst; [by destruct (overtaken _ _) |]. destruct d; [| done ..]. simplify_eq.
    rename select (ingest_read _ _ _ _ _ _ = _) into Hread. pose proof (read_spec _ _ _ _ _ _ _ Hread) as (_ & _ & _ & _ & _ & _ & Hop).
    rename select (settle _ _ _ _ _ _ _ _ = _) into Hsel. eapply result_spec in Hsel as [[_ Hsel] | [? _]]; [| done ..]. by eapply spent_result.
  - inversion Hst; subst; [| by destruct d]. destruct (overtaken r0 r); [| done]. simplify_eq. by eapply spent_reopened.
  - inversion Hst; subst; [by destruct (overtaken _ _) | by destruct d |]. apply (spent_kept _ _ s); [by apply leases_poll | done | done].
Qed.

Lemma steps_spent s0 ls s : steps s0 ls s -> runs s0 = ∅ -> NoDup (minted ls) -> spent ls s.
Proof.
  induction 1 as [s | s0 ls s l s' Hsteps IH Hst]; intros E Hnd.
  - split; [| by intros rid ?%elem_of_nil | intros rid; cbn; lia | |].
    + intros rid r. by rewrite E, lookup_empty.
    + intros rid r. by rewrite E, lookup_empty.
    + intros rid rid' r r'. by rewrite E, lookup_empty.
  - eapply spent_step; [done | done |]. apply IH; [done |]. rewrite minted_snoc in Hnd. by apply NoDup_app in Hnd as (? & _).
Qed.

(** C23: one result per run.  In any history in which tokens are not minted twice,
    with results repeated, replayed, late or forged, cancellations, expiry and
    retention in any order, dispatches and results interrupted by anything
    between their reading of the run and their writing, the result of a run
    reaches its monitor at most once more than there were overlaps on that run
    (a dispatch that wrote a run closed since it was read, or a result written to
    a run closed since the result was judged); so at most once when there was
    none.  It does so only for a run that was opened, and never two runs of a
    monitor are in flight. *)
Theorem one_result_per_run s0 ls s :
  steps s0 ls s -> runs s0 = ∅ -> NoDup (minted ls) ->
  (forall rid, (times_moved rid ls <= 1 + overlaps rid ls)%nat) /\ (forall rid, rid ∈ moved ls -> rid ∈ minted ls) /\ one_open s.
Proof. intros Hs E Hnd. by destruct (steps_spent s0 ls s Hs E Hnd) as [_ H2 H3 _ H5]. Qed.

(** C24: an unavailable vantage is not a down target.  A transaction that is neither the
    server's own check nor an accepted result -- a dispatch, failed or not, an
    execution error, a refused, late or cancelled result, a cancellation, an
    expiry, a staleness mark -- writes no sample, leaves the status, the failure
    count and the times of every target, and adds no transition event. *)
Theorem vantage_is_not_target l s s' :
  step l s s' -> match l with Quiet | Reopened _ => True | _ => False end ->
  points s' = points s /\
  (forall i m m', monitors s !! i = Some m -> monitors s' !! i = Some m' -> target m' = target m) /\
  (forall e, e ∈ events s' -> e ∈ events s \/ Monitor.ev_type e ∈ INERT).
Proof. apply inert_step. Qed.

(** a result that moves a monitor is authentic.  It came from the agent the run
    was opened for, names the run's monitor, found the run open, arrived no
    later than the grace after its deadline and reports a completed check; the
    run is closed by it, and no other run, no other monitor and no other
    monitor's history changes. *)
Theorem moved_is_authentic agent active v now s d s' :
  ingest_probe_result model_validate repr isoformat round1 agent active v now s = Ok (d, s') ->
  (points s' <> points s \/ exists i m m', monitors s !! i = Some m /\ monitors s' !! i = Some m' /\ target m' <> target m) ->
  active = true /\ d = Accepted /\ exists r row m, validate_probe_payload model_validate repr v = Ok r /\ accepted round1 agent r now s s' row m.
Proof.
  intros (r & row & m & Hv & Hact & _ & _ & _ & _ & Hc)%ingest_spec Hch. split; [done |].
  assert (quiet s s' -> False) as Hno.
  { intros [_ [HP HR _]]. destruct Hch as [Hp | (i & x & x' & Hx & (x0 & Hx0 & Ht)%HR & Hne)]; [done | congruence]. }
  destruct Hc as [(_ & -> & _) | [(-> & Ha) | (_ & _ & Hq & _)]]; [by destruct Hno | | by destruct Hno]. split; [done |]. by exists r, row, m.
Qed.
End History.
End ProbeHistory.
