(* ===== verification/ProbeClaim.v ===== *)
(** The clock of the monitors ([services/monitoring/scheduler.py],
    [workers/monitor_scheduler.py], [services/monitor_service.py]): how long an
    agent gets, which due checks a tick takes from which vantage, what becomes of
    them, and the check an operator asks for. *)
From Stdlib Require Import QArith Qminmax.
From S2P Require Import Prelude Sha256 Json Canonical Regex Ip AgentScope AgentCapabilities AgentRegistry Redaction ProbeSecrets Monitor ProbeRuns ProbeIngest ProbeLeases ProbeDispatch ProbeTheorems ProbeHistory.
Import Json Ip.
Open Scope Z_scope.

Module Claim.
Import Probe Leases Dispatch ProbeTheorems ProbeHistory.
#[local] Open Scope cb_scope.

(** *** The deadline of a run *)

Section Deadline.
(** [float(v)] and [int(v)], [None] for the exception; floats as rationals. *)
Variable to_float : json -> option Q.
Variable to_int : json -> option Z.

Definition PROBE_DEADLINE_HEADROOM_S : Q := 10.
Definition PROBE_DEADLINE_MIN_S : Q := 20.
Definition PROBE_BUDGET_MAX_S : Q := 600.
Definition TCP_ADDRESS_FANOUT : Q := 2.

Definition positive_float (params : list (string * json)) (key : string) (dflt : Q) : Q :=
  match dict_get key params with
  | None => dflt
  | Some v => match to_float v with Some x => if Qle_bool x 0 then dflt else x | None => dflt end
  end.

Definition positive_int (params : list (string * json)) (key : string) (dflt : Z) : Z :=
  match dict_get key params with
  | None => dflt
  | Some v => match to_int v with Some x => if 0 <? x then x else dflt | None => dflt end
  end.

Definition check_budget_seconds (check_type : string) (params : list (string * json)) : Q :=
  if String.eqb check_type "icmp" then (inject_Z (positive_int params "packet_count" 5) * positive_float params "timeout" (3 # 2))%Q
  else if String.eqb check_type "tcp" then
    let attempts := match dict_get "ports" params with Some (JList (_ :: _ as l)) => Z.of_nat (length l) | _ => 1 end in
    (inject_Z attempts * TCP_ADDRESS_FANOUT * positive_float params "timeout" 1)%Q
  else if String.eqb check_type "http" then (2 * positive_float params "timeout" 10)%Q
  else if String.eqb check_type "dns" then positive_float params "timeout" 5
  else 0%Q.

Definition probe_deadline_seconds (check_type : string) (params : list (string * json)) : Q :=
  let budget := check_budget_seconds check_type params in
  let budget := if negb (Qle_bool budget PROBE_BUDGET_MAX_S) then PROBE_BUDGET_MAX_S else budget in
  Qmax (budget + PROBE_DEADLINE_HEADROOM_S) PROBE_DEADLINE_MIN_S.

(** Whatever the free-form configuration holds. *)
Lemma deadline_bounded ct params : (20 <= probe_deadline_seconds ct params <= 610)%Q.
Proof.
  unfold probe_deadline_seconds, PROBE_DEADLINE_MIN_S. cbv zeta. split; [apply Q.le_max_r |]. apply Q.max_lub; [| discriminate].
  apply (Qle_trans _ (600 + 10)); [| discriminate]. apply Qplus_le_compat; [| apply Qle_refl].
  destruct (Qle_bool _ PROBE_BUDGET_MAX_S) eqn:E; [by apply Qle_bool_iff | apply Qle_refl].
Qed.
End Deadline.

(** *** The claim *)

Abbreviation row := (Z * monitor)%type.

(** [coalesce(probe_agent_id, 0)]. *)
Definition vantage (r : row) : Z := default 0 (probe_agent_id r.2).
Definition due_at (r : row) : Z := default 0 (Monitor.next_due_at (core r.2)).

Definition is_due (now : Z) (r : row) : bool :=
  enabled r.2 && match Monitor.next_due_at (core r.2) with Some t => t <=? now | None => false end.

(** The due rows among those the query could lock, in the order it met them. *)
Definition due_rows (scan : list Z) (now : Z) (s : db) : list row :=
  List.filter (is_due now) (omap (fun i => (i,.) <$> monitors s !! i) scan).

Definition earliest (l : list row) : list row := py_sorted (fun x y => due_at x <=? due_at y) l.

(** [row_number() OVER (PARTITION BY vantage ORDER BY next_due_at)], over rows in
    that order; [seen] are the vantages met so far. *)
Fixpoint ranked_from (seen : list Z) (l : list row) : list (nat * row) :=
  match l with
  | [] => []
  | x :: l => (S (count_occ Z.eq_dec seen (vantage x)), x) :: ranked_from (vantage x :: seen) l
  end.

Definition round_robin (x y : nat * row) : bool :=
  (x.1 <? y.1)%nat || ((x.1 =? y.1)%nat && (due_at x.2 <=? due_at y.2)).

(** [_CLAIM_SQL]: the rows taken. *)
Definition claimed (batch per_vantage oversample : nat) (scan : list Z) (now : Z) (s : db) : list row :=
  let locked := take oversample (earliest (due_rows scan now s)) in
  (take batch (py_sorted round_robin (List.filter (fun x => (x.1 <=? per_vantage)%nat) (ranked_from [] locked)))).*2.

Fixpoint reschedule (jitter : Z -> Z) (now : Z) (l : list row) (s : db) : db :=
  match l with
  | [] => s
  | (i, m) :: l => reschedule jitter now l (update_monitor_row i (set_due (now + Monitor.interval_secs (core m) * SECOND + jitter i)) s)
  end.

Definition claim_due_items (batch per_vantage oversample : nat) (scan : list Z) (jitter : Z -> Z) (now : Z) (s : db) : list row * db :=
  let l := claimed batch per_vantage oversample scan now s in (l, reschedule jitter now l s).

(** *** Enqueueing *)

Section Enqueue.
(** [secrets.token_hex(16)] for the monitor's new run, what the broker answers
    for it, the retry delay drawn, and the deadline in microseconds. *)
Variable token : Z -> string.
Variable sent : Z -> bool.
Variable retry : Z -> Z.
Variable deadline : string -> json -> Z.

Definition enqueue_one (now : Z) (r : row) (s : db) : bool * db :=
  match probe_agent_id r.2 with
  | None => (sent r.1, s)
  | Some a =>
      let '(opened, s) := create_probe_run (token r.1) r.1 a (deadline (check_type r.2) (params r.2)) now s in
      if negb opened then (false, s)
      else if sent r.1 then (true, s)
      else (false, record_dispatch_failure (token r.1) r.1 (retry r.1) now s)
  end.

Fixpoint enqueue_all (now : Z) (l : list row) (n : Z) (s : db) : Z * db :=
  match l with
  | [] => (n, s)
  | r :: l => let '(b, s) := enqueue_one now r s in enqueue_all now l (if b then n + 1 else n) s
  end.

Definition enqueue_due (batch per_vantage oversample : nat) (scan : list Z) (jitter : Z -> Z) (now : Z) (s : db) : Z * db :=
  let '(l, s) := claim_due_items batch per_vantage oversample scan jitter now s in enqueue_all now l 0 s.

Variable isoformat : Z -> string.

(** [tick]; [broken] when the reconciliation raised and was rolled back. *)
Definition tick (e : env) (broken : bool) (batch per_vantage oversample : nat) (scan : list Z) (jitter : Z -> Z) (now : Z) (s : db) : Z * db :=
  let s := if broken then s else (reconcile isoformat e now s).2 in
  enqueue_due batch per_vantage oversample scan jitter now s.

(** *** Check now *)

Record check_dispatch := CheckDispatch { cd_ok : bool; cd_reason : option string; found : bool }.

Context {T : IpText}.
Variable repr_of : json -> string.

Definition run_immediate_check (e : env) (i now : Z) (s : db) : result AgentScope.py_error (check_dispatch * db) :=
  match monitors s !! i with
  | None => Ok (CheckDispatch false None false, s)
  | Some m =>
      match probe_agent_id m with
      | None => Ok (CheckDispatch true None true, s)
      | Some a =>
          d ← evaluate_eligibility repr_of e None None i m now s;
          if negb (ok d) then Ok (CheckDispatch false (reason d) true, s) else
          let '(opened, s) := create_probe_run (token i) i a (deadline (check_type m) (params m)) now s in
          if negb opened then Ok (CheckDispatch false (Some IN_FLIGHT) true, s)
          else if sent i then Ok (CheckDispatch true None true, s)
          else Ok (CheckDispatch false (Some DISPATCH_FAILED) true, close_unavailable (token i) i DISPATCH_FAILED None now s)
      end
  end.
End Enqueue.

(** *** Fairness *)

Lemma due_elem scan now s r : r ∈ due_rows scan now s <-> r.1 ∈ scan /\ monitors s !! r.1 = Some r.2 /\ is_due now r = true.
Proof.
  unfold due_rows. rewrite list_elem_of_In, filter_In, <- list_elem_of_In, list_elem_of_omap. destruct r as [i m]. cbn [fst snd]. split.
  - intros [(j & Hj & Hm) Hd]. destruct (monitors s !! j) as [m' |] eqn:E; [| done]. cbn in Hm. by simplify_eq.
  - intros (Hi & Hm & Hd). split; [| done]. exists i. by rewrite Hm.
Qed.

Lemma due_nodup scan now s : NoDup scan -> NoDup (due_rows scan now s).*1.
Proof.
  intros Hn. unfold due_rows. induction Hn as [| i scan Hi _ IH]; [constructor |]. cbn [omap list_omap].
  destruct (monitors s !! i) as [m |]; [| exact IH]. cbn [fmap option_fmap option_map List.filter].
  destruct (is_due now (i, m)); [| exact IH]. rewrite fmap_cons. constructor; [| exact IH]. cbn [fst].
  intros ([j m'] & -> & Hin)%list_elem_of_fmap. apply list_elem_of_In, filter_In in Hin as [Hin%list_elem_of_In _].
  apply list_elem_of_omap in Hin as (k & Hk & E). destruct (monitors s !! k); [| done]. cbn in E. simplify_eq. done.
Qed.

Lemma earliest_ordered l : StronglySorted (in_order (fun x y => due_at x <=? due_at y)) (earliest l).
Proof. apply py_sorted_ordered; intros *; rewrite !Z.leb_le; lia. Qed.

Lemma round_robin_ordered l : StronglySorted (in_order round_robin) (py_sorted round_robin l).
Proof.
  apply py_sorted_ordered; unfold round_robin; intros *; rewrite !orb_true_iff, !andb_true_iff, !Nat.ltb_lt, !Nat.eqb_eq, !Z.leb_le; lia.
Qed.

Lemma ranked_rows seen l : (ranked_from seen l).*2 = l.
Proof. revert seen. induction l as [| x l IH]; intros seen; [done |]. cbn [ranked_from]. rewrite fmap_cons. by rewrite IH. Qed.

(** Ranks continue where the vantage's earlier rows left off. *)
Lemma ranked_above seen l x : x ∈ ranked_from seen l -> (count_occ Z.eq_dec seen (vantage x.2) < x.1)%nat.
Proof.
  revert seen. induction l as [| y l IH]; intros seen; cbn [ranked_from]; [by intros ?%elem_of_nil |].
  intros [-> | Hx]%elem_of_cons; [cbn; lia |]. specialize (IH _ Hx). cbn [count_occ] in IH. destruct (Z.eq_dec _ _); lia.
Qed.

Definition slot (x : nat * row) : Z * nat := (vantage x.2, x.1).

(** A vantage has one row of each rank. *)
Lemma ranked_slots seen l : NoDup (slot <$> ranked_from seen l).
Proof.
  revert seen. induction l as [| y l IH]; intros seen; cbn [ranked_from]; [constructor |]. rewrite fmap_cons. constructor; [| apply IH].
  intros (x & E & Hx)%list_elem_of_fmap. apply ranked_above in Hx. unfold slot in E. cbn [fst snd] in E. injection E as E1 E2.
  cbn [count_occ] in Hx. rewrite <- E1 in Hx. destruct (Z.eq_dec (vantage y) (vantage y)); [lia | done].
Qed.

(** The first row of each vantage is its most overdue. *)
Lemma ranked_first seen l v :
  StronglySorted (in_order (fun x y => due_at x <=? due_at y)) l -> v ∉ seen -> v ∈ vantage <$> l ->
  exists x, (1%nat, x) ∈ ranked_from seen l /\ vantage x = v /\ forall y, y ∈ l -> vantage y = v -> due_at x <= due_at y.
Proof.
  intros Hs. revert seen. induction Hs as [| y l Hs IH Hy]; intros seen Hv Hin; [by apply elem_of_nil in Hin |].
  cbn [ranked_from]. destruct (decide (vantage y = v)) as [<- | Hne].
  - exists y. assert (count_occ Z.eq_dec seen (vantage y) = 0%nat) as -> by (apply count_occ_not_In; by rewrite <- list_elem_of_In).
    split_and!; [by left | done |]. intros z [-> | Hz]%elem_of_cons _; [lia |]. rewrite Forall_forall in Hy. specialize (Hy z Hz).
    unfold in_order in Hy. by apply Z.leb_le in Hy.
  - rewrite fmap_cons in Hin. apply elem_of_cons in Hin as [? | Hin]; [done |].
    destruct (IH (vantage y :: seen)) as (x & Hx & Ev & Hmin); [set_solver | done |]. exists x. split_and!; [by right | done |].
    intros z [-> | Hz]%elem_of_cons Ez; [done | by apply Hmin].
Qed.

(** The ranked rows a tick takes, before they lose their rank. *)
Definition taken (batch per_vantage oversample : nat) (scan : list Z) (now : Z) (s : db) : list (nat * row) :=
  take batch (py_sorted round_robin (List.filter (fun x => (x.1 <=? per_vantage)%nat) (ranked_from [] (take oversample (earliest (due_rows scan now s)))))).

Lemma nodup_filter {A B} (f : A -> B) (q : A -> bool) l : NoDup (f <$> l) -> NoDup (f <$> List.filter q l).
Proof.
  induction l as [| x l IH]; [done |]. rewrite fmap_cons. intros [Hx Hn]%NoDup_cons. cbn [List.filter]. destruct (q x); [| by apply IH].
  rewrite fmap_cons. constructor; [| by apply IH]. intros (y & E & Hy)%list_elem_of_fmap. apply Hx. rewrite E.
  apply list_elem_of_fmap_2. by apply list_elem_of_In, filter_In, proj1, list_elem_of_In in Hy.
Qed.

Lemma nodup_take {A B} (f : A -> B) n l : NoDup (f <$> l) -> NoDup (f <$> take n l).
Proof. rewrite <- (take_drop n l) at 1. rewrite fmap_app. by intros (? & _)%NoDup_app. Qed.

Lemma taken_slots batch pv os scan now s : NoDup (slot <$> taken batch pv os scan now s).
Proof. apply nodup_take. rewrite py_sorted_perm. apply nodup_filter, ranked_slots. Qed.

Lemma taken_elem batch pv os scan now s x :
  x ∈ taken batch pv os scan now s -> (1 <= x.1 <= pv)%nat /\ x.2 ∈ due_rows scan now s.
Proof.
  intros (i & Hi%list_elem_of_lookup_2 & _)%elem_of_take. rewrite py_sorted_perm in Hi. apply list_elem_of_In, filter_In in Hi as [Hi%list_elem_of_In Hpv].
  apply Nat.leb_le in Hpv. pose proof (ranked_above _ _ _ Hi) as Hr. split; [lia |]. apply (list_elem_of_fmap_2 snd) in Hi. rewrite ranked_rows in Hi.
  apply elem_of_take in Hi as (j & Hj%list_elem_of_lookup_2 & _). unfold earliest in Hj. by rewrite py_sorted_perm in Hj.
Qed.

(** No vantage takes more than its share. *)
Lemma share_bounded batch pv os scan now s v :
  (length (List.filter (fun r => (vantage r =? v)%Z) (claimed batch pv os scan now s)) <= pv)%nat.
Proof.
  set (l := List.filter (fun x : nat * row => vantage x.2 =? v) (taken batch pv os scan now s)).
  assert (List.filter (fun r => vantage r =? v) (claimed batch pv os scan now s) = l.*2) as ->.
  { unfold claimed. fold (taken batch pv os scan now s). subst l. induction (taken batch pv os scan now s) as [| x t IH]; [done |].
    rewrite fmap_cons. cbn [List.filter]. destruct (vantage x.2 =? v); [rewrite fmap_cons |]; by rewrite IH. }
  rewrite length_fmap, <- (length_fmap fst l). transitivity (length (seq 1 pv)); [| by rewrite length_seq]. apply NoDup_incl_length.
  - apply NoDup_ListNoDup. pose proof (nodup_filter _ (fun x : nat * row => vantage x.2 =? v) _ (taken_slots batch pv os scan now s)) as H. fold l in H.
    assert (forall x, x ∈ l -> vantage x.2 = v) as Hv.
    { intros x Hx%list_elem_of_In. apply filter_In in Hx as [_ Hx]. by apply Z.eqb_eq. }
    clearbody l. induction l as [| x l IH]; [constructor |]. rewrite fmap_cons in *. apply NoDup_cons in H as [Hx Hn]. constructor; [| apply IH; [done | set_solver]].
    intros (y & E & Hy)%list_elem_of_fmap. apply Hx. apply list_elem_of_fmap. exists y. split; [| done]. unfold slot. f_equal; [| done].
    rewrite (Hv y) by (by right). apply Hv. by left.
  - intros n Hn. apply list_elem_of_In, list_elem_of_fmap in Hn as (x & -> & Hx%list_elem_of_In). subst l. apply filter_In in Hx as [Hx%list_elem_of_In _].
    apply taken_elem in Hx as [Hx _]. apply in_seq. lia.
Qed.

(** The vantages with a due check. *)
Definition waiting_vantages (scan : list Z) (now : Z) (s : db) : gset Z := list_to_set (vantage <$> due_rows scan now s).

(** The first rows of the vantages come before every second row. *)
Lemma first_taken batch pv os scan now s x :
  (1 <= pv)%nat -> (size (waiting_vantages scan now s) <= batch)%nat ->
  (1%nat, x) ∈ ranked_from [] (take os (earliest (due_rows scan now s))) -> x ∈ claimed batch pv os scan now s.
Proof.
  intros Hpv Hsize Hx. unfold claimed. set (S := py_sorted _ _).
  assert ((1%nat, x) ∈ S) as HS.
  { subst S. rewrite py_sorted_perm. apply list_elem_of_In, filter_In. split; [by apply list_elem_of_In | by apply Nat.leb_le]. }
  rewrite <- (take_drop batch S) in HS. apply elem_of_app in HS as [HS | HS]; [by apply (list_elem_of_fmap_2 snd) in HS |]. exfalso.
  pose proof (round_robin_ordered (List.filter (fun x => (x.1 <=? pv)%nat) (ranked_from [] (take os (earliest (due_rows scan now s)))))) as Hord.
  fold S in Hord. rewrite <- (take_drop batch S) in Hord.
  assert (NoDup (slot <$> take batch S ++ drop batch S)) as Hn.
  { rewrite take_drop. subst S. rewrite py_sorted_perm. apply nodup_filter, ranked_slots. }
  assert (forall y, y ∈ take batch S -> y.1 = 1%nat) as Hone.
  { intros y Hy. pose proof (StronglySorted_app_1_elem_of _ _ _ y (1%nat, x) Hord Hy HS) as H. unfold in_order, round_robin in H. cbn [fst] in H.
    destruct (taken_elem batch pv os scan now s y Hy) as [Hy1 _]. rewrite orb_true_iff, andb_true_iff, Nat.ltb_lt, Nat.eqb_eq in H. lia. }
  set (vs := (fun y : nat * row => vantage y.2) <$> (take batch S ++ [(1%nat, x)])).
  assert (NoDup vs) as Hvs.
  { apply list_elem_of_split in HS as (l1 & l2 & Ed). rewrite Ed in Hn.
    assert (NoDup (slot <$> (take batch S ++ [(1%nat, x)]))) as Hn'.
    { rewrite !fmap_app in *. apply NoDup_app in Hn as (H1 & H2 & H3). apply NoDup_app. split_and!; [done | | apply NoDup_singleton].
      intros z Hz ->%list_elem_of_singleton. apply (H2 _ Hz). apply elem_of_app. right. by left. }
    assert (forall y, y ∈ take batch S ++ [(1%nat, x)] -> y.1 = 1%nat) as Hall by (intros y [Hy | ->%list_elem_of_singleton]%elem_of_app; [by apply Hone | done]).
    subst vs. clear -Hn' Hall. induction (take batch S ++ [(1%nat, x)]) as [| y l IH]; [constructor |]. rewrite fmap_cons in *. apply NoDup_cons in Hn' as [Hy Hn].
    constructor; [| apply IH; [done | set_solver]]. intros (z & E & Hz)%list_elem_of_fmap. apply Hy, list_elem_of_fmap. exists z. split; [| done].
    unfold slot. f_equal; [done |]. rewrite (Hall y), (Hall z); [done | by right | by left]. }
  assert (list_to_set vs ⊆ waiting_vantages scan now s) as Hsub.
  { intros v. unfold waiting_vantages. rewrite !elem_of_list_to_set. intros (y & -> & Hy)%list_elem_of_fmap. apply (list_elem_of_fmap_2 vantage).
    apply elem_of_app in Hy as [Hy | ->%list_elem_of_singleton]; [by apply (taken_elem batch pv os scan now s y) |]. cbn [snd].
    apply (list_elem_of_fmap_2 snd) in Hx. rewrite ranked_rows in Hx. apply elem_of_take in Hx as (j & Hj%list_elem_of_lookup_2 & _).
    unfold earliest in Hj. by rewrite py_sorted_perm in Hj. }
  apply subseteq_size in Hsub. rewrite size_list_to_set in Hsub by done. subst vs. rewrite length_fmap, length_app, length_take in Hsub. cbn [length] in Hsub.
  assert (drop batch S <> []) as Hne by (intros E; rewrite E in HS; by apply elem_of_nil in HS).
  assert (batch < length S)%nat by (destruct (le_lt_dec (length S) batch); [by destruct Hne; apply drop_ge | done]). lia.
Qed.

Lemma claimed_due batch pv os scan now s r : r ∈ claimed batch pv os scan now s -> r ∈ due_rows scan now s.
Proof. intros (x & -> & Hx)%list_elem_of_fmap. by apply (taken_elem batch pv os scan now s x). Qed.

Lemma claimed_nodup batch pv os scan now s : NoDup scan -> NoDup (claimed batch pv os scan now s).*1.
Proof.
  intros Hn. unfold claimed. rewrite <- list_fmap_compose. apply nodup_take. rewrite py_sorted_perm. apply nodup_filter.
  rewrite list_fmap_compose, ranked_rows. apply nodup_take. unfold earliest. rewrite py_sorted_perm. by apply due_nodup.
Qed.

(** The claimed rows are moved on, the others left alone. *)
Lemma reschedule_spec jitter now l s i m :
  NoDup l.*1 -> (forall r, r ∈ l -> monitors s !! r.1 = Some r.2) -> monitors s !! i = Some m ->
  monitors (reschedule jitter now l s) !! i =
  Some (if bool_decide (i ∈ l.*1) then set_due (now + Monitor.interval_secs (core m) * SECOND + jitter i) m else m).
Proof.
  revert s m. induction l as [| [j mj] l IH]; intros s m Hn Hl Hm; cbn [reschedule]; [by rewrite bool_decide_false by (by intros ?%elem_of_nil) |].
  rewrite fmap_cons in Hn. apply NoDup_cons in Hn as [Hj Hn]. cbn [fst] in Hj. pose proof (Hl (j, mj) ltac:(by left)) as Hmj. cbn [fst snd] in Hmj.
  assert (monitors (update_monitor_row j (set_due (now + Monitor.interval_secs (core mj) * SECOND + jitter j)) s) =
          <[j := set_due (now + Monitor.interval_secs (core mj) * SECOND + jitter j) mj]> (monitors s)) as E by (unfold update_monitor_row; by rewrite Hmj).
  assert (forall r, r ∈ l -> monitors (update_monitor_row j (set_due (now + Monitor.interval_secs (core mj) * SECOND + jitter j)) s) !! r.1 = Some r.2) as Hl'.
  { intros r Hr. rewrite E, lookup_insert_ne; [by apply Hl; right |]. intros ->. apply Hj. by apply (list_elem_of_fmap_2 fst). }
  rewrite fmap_cons. cbn [fst]. destruct (decide (j = i)) as [<- | Hne].
  - assert (m = mj) as -> by congruence. rewrite (IH _ (set_due (now + Monitor.interval_secs (core mj) * SECOND + jitter j) mj)); [| done | done | by rewrite E, lookup_insert_eq].
    rewrite (bool_decide_false (j ∈ l.*1)) by done. by rewrite bool_decide_true by (by left).
  - rewrite (IH _ m); [| done | done | by rewrite E, lookup_insert_ne]. by rewrite (bool_decide_ext (i ∈ l.*1) (i ∈ j :: l.*1)) by set_solver.
Qed.

(** the claim shares a tick fairly.  A tick takes at most the batch, no more
    than its share for any one vantage, only enabled checks that are due; each
    is next due an interval later and no other schedule moves.  And no vantage
    is starved: while the due checks fit the oversampling and the vantages with
    a due check the batch, each of these vantages gets its most overdue check,
    however many another has waiting. *)
Theorem claim_fair batch per_vantage oversample scan jitter now s l s' :
  NoDup scan -> claim_due_items batch per_vantage oversample scan jitter now s = (l, s') ->
  (length l <= batch)%nat /\
  (forall v, (length (List.filter (fun r => (vantage r =? v)%Z) l) <= per_vantage)%nat) /\
  (forall r, r ∈ l -> r.1 ∈ scan /\ monitors s !! r.1 = Some r.2 /\ is_due now r = true) /\
  (forall i m, monitors s !! i = Some m -> monitors s' !! i =
     Some (if bool_decide (i ∈ l.*1) then set_due (now + Monitor.interval_secs (core m) * SECOND + jitter i) m else m)) /\
  ((1 <= per_vantage)%nat -> (length (due_rows scan now s) <= oversample)%nat -> (size (waiting_vantages scan now s) <= batch)%nat ->
   forall v, v ∈ waiting_vantages scan now s ->
     exists r, r ∈ l /\ vantage r = v /\ forall r', r' ∈ due_rows scan now s -> vantage r' = v -> due_at r <= due_at r').
Proof.
  intros Hn [= <- <-]. split_and!.
  - unfold claimed. rewrite length_fmap, length_take. lia.
  - apply share_bounded.
  - intros r Hr%claimed_due. by apply due_elem.
  - intros i m Hm. apply reschedule_spec; [by apply claimed_nodup | | done]. intros r (_ & Hr & _)%claimed_due%due_elem. done.
  - intros Hpv Hos Hv v Hin. assert (take oversample (earliest (due_rows scan now s)) = earliest (due_rows scan now s)) as E.
    { apply take_ge. unfold earliest. by rewrite py_sorted_perm. }
    assert (forall r, r ∈ earliest (due_rows scan now s) <-> r ∈ due_rows scan now s) as Hel by (intros r; unfold earliest; by rewrite py_sorted_perm).
    destruct (ranked_first [] (earliest (due_rows scan now s)) v (earliest_ordered _)) as (x & Hx & Ev & Hmin); [apply not_elem_of_nil | |].
    { unfold waiting_vantages in Hin. apply elem_of_list_to_set, list_elem_of_fmap in Hin as (r & -> & Hr). apply list_elem_of_fmap. exists r. by rewrite Hel. }
    exists x. split_and!; [| done | intros r' Hr'; by apply Hmin, Hel]. apply first_taken; [done | done | by rewrite E].
Qed.

(** *** The tick as a history *)

Section Histories.
Context {T : IpText}.
Variable model_validate : list (string * json) -> option Ingest.payload.
Variable repr : string -> string.
Variable isoformat : Z -> string.
Variable round1 : Z -> Z.
Variable repr_of : json -> string.
Variable agent_tenant : Z -> option (option Z).
Variable target_tenant : option string -> option Z -> option Z.
Variable config_model : string -> json -> option json.
Variable token : Z -> string.
Variable sent : Z -> bool.
Variable retry : Z -> Z.
Variable deadline : string -> json -> Z.
Abbreviation hsteps := (steps model_validate repr isoformat round1 repr_of agent_tenant target_tenant config_model).

Lemma steps_app s0 ls s ls' s' : hsteps s0 ls s -> hsteps s ls' s' -> hsteps s0 (ls ++ ls') s'.
Proof.
  intros H1. induction 1 as [s | s ls' s2 l s' H2 IH Hst]; [by rewrite app_nil_r |]. rewrite app_assoc. by eapply steps_snoc; [apply IH |].
Qed.

Lemma reschedule_steps jitter now l s : exists ls, hsteps s ls (reschedule jitter now l s) /\ minted ls = [] /\ moved ls = [].
Proof.
  revert s. induction l as [| [i m] l IH]; intros s; cbn [reschedule]; [exists []; split_and!; [constructor | done | done] |].
  destruct (IH (update_monitor_row i (set_due (now + Monitor.interval_secs (core m) * SECOND + jitter i)) s)) as (ls & H1 & H2 & H3). exists ([Quiet] ++ ls).
  split_and!; [| by cbn | by cbn]. eapply steps_app; [| exact H1]. apply (steps_snoc _ _ _ _ _ _ _ _ s [] s); [constructor | constructor].
Qed.

(** What one claimed check adds to the history. *)
Lemma enqueue_steps now l n s : exists ls, hsteps s ls (enqueue_all token sent retry deadline now l n s).2 /\ minted ls `sublist_of` (token <$> l.*1) /\ moved ls = [].
Proof.
  revert n s. induction l as [| r l IH]; intros n s; cbn [enqueue_all]; [exists []; split_and!; [constructor | done | done] |].
  assert (forall ls1 b s1, hsteps s ls1 s1 -> minted ls1 `sublist_of` [token r.1] -> moved ls1 = [] -> exists ls,
            hsteps s ls (enqueue_all token sent retry deadline now l (if b : bool then n + 1 else n) s1).2 /\ minted ls `sublist_of` (token <$> (r :: l).*1) /\ moved ls = []) as Hk.
  { intros ls1 b s1 H1 H2 H3. destruct (IH (if b then n + 1 else n) s1) as (ls & L1 & L2 & L3). exists (ls1 ++ ls). split_and!; [by eapply steps_app | |].
    - rewrite !fmap_cons. unfold minted in *. rewrite omap_app. change (token r.1 :: (token <$> l.*1)) with ([token r.1] ++ (token <$> l.*1)). by apply sublist_app.
    - unfold moved in *. by rewrite omap_app, H3, L3. }
  assert (forall x, hsteps x [] x) as Hnil by constructor. unfold enqueue_one. destruct (probe_agent_id r.2) as [a |]; [| apply (Hk [] (sent r.1) s); [done | apply sublist_nil_l | done]].
  destruct (create_probe_run _ _ _ _ _ _) as [b s1] eqn:Ec. destruct b; cbn [negb].
  - assert (hsteps s ([] ++ [Minted (token r.1)]) s1) as H1 by (eapply steps_snoc; [constructor | by eapply step_open]).
    destruct (sent r.1); [apply (Hk _ true s1 H1); done |]. apply (Hk _ false _ (steps_snoc _ _ _ _ _ _ _ _ _ _ _ _ _ H1 (step_unsent _ _ _ _ _ _ _ _ (token r.1) r.1 (retry r.1) now s1))); done.
  - apply (Hk [Quiet] false s1); [| apply sublist_nil_l | done]. apply (steps_snoc _ _ _ _ _ _ _ _ s [] s); [constructor | by eapply step_in_flight].
Qed.

(** A tick is a history of the transactions above: what holds of histories holds
    of the scheduler, whatever the broker answers and whether or not the
    reconciliation failed.  It opens no run but under the fresh tokens of the
    checks it claimed, and moves no target. *)
Lemma tick_history e broken batch pv os scan jitter now s :
  exists ls, hsteps s ls (tick token sent retry deadline isoformat e broken batch pv os scan jitter now s).2 /\ moved ls = [] /\
    minted ls `sublist_of` (token <$> (claimed batch pv os scan now (if broken then s else (reconcile isoformat e now s).2)).*1).
Proof.
  unfold tick, enqueue_due, claim_due_items. set (s1 := if broken then s else _).
  assert (exists ls, hsteps s ls s1 /\ minted ls = [] /\ moved ls = []) as (l1 & H1 & M1 & V1).
  { subst s1. destruct broken; [exists []; split_and!; [constructor | done | done] |]. exists ([] ++ [Quiet]). split_and!; [| done | done].
    eapply steps_snoc; [constructor | apply step_reconcile]. }
  destruct (reschedule_steps jitter now (claimed batch pv os scan now s1) s1) as (l2 & H2 & M2 & V2).
  destruct (enqueue_steps now (claimed batch pv os scan now s1) 0 (reschedule jitter now (claimed batch pv os scan now s1) s1)) as (l3 & H3 & M3 & V3).
  exists (l1 ++ l2 ++ l3). unfold minted, moved in *. rewrite !omap_app, M1, M2, V1, V2, V3. split_and!; [| done | done].
  eapply steps_app; [exact H1 |]. by eapply steps_app.
Qed.

(** So is a check asked for by hand. *)
Lemma check_now_history e i now s d s' :
  run_immediate_check token sent deadline repr_of e i now s = Ok (d, s') ->
  exists ls, hsteps s ls s' /\ moved ls = [] /\ minted ls `sublist_of` [token i].
Proof.
  assert (forall x, hsteps x [] x) as Hnil by constructor. unfold run_immediate_check. intros E.
  assert (s' = s -> exists ls, hsteps s ls s' /\ moved ls = [] /\ minted ls `sublist_of` [token i]) as Hs.
  { intros ->. exists []. split_and!; [done | done | apply sublist_nil_l]. }
  destruct (monitors s !! i) as [m |]; [| injection E as _ <-; by apply Hs]. destruct (probe_agent_id m) as [a |]; [| injection E as _ <-; by apply Hs].
  destruct (evaluate_eligibility _ _ _ _ _ _ _ _) as [el |]; cbn [mbind result_bind] in E; [| done].
  destruct (ok el); cbn [negb] in E; [| injection E as _ <-; by apply Hs]. destruct (create_probe_run _ _ _ _ _ _) as [b s1] eqn:Ec. destruct b; cbn [negb] in E.
  - assert (hsteps s ([] ++ [Minted (token i)]) s1) as H1 by (eapply steps_snoc; [constructor | by eapply step_open]).
    destruct (sent i); injection E as _ <-; [by eexists |]. eexists. split; [eapply steps_snoc; [exact H1 | apply step_undelivered] | done].
  - injection E as _ <-. exists ([] ++ [Quiet]). split_and!; [eapply steps_snoc; [constructor | by eapply step_in_flight] | done | apply sublist_nil_l].
Qed.
End Histories.

(** Three checks of one agent and one of the server, two slots, at most one each. *)
Definition lab_row (i : Z) (agent : option Z) (due : Z) : monitor :=
  MkMonitor (Monitor.Item i "host" 60 None 0 None 0 None None (Some due)) true "192.168.8.9" "icmp" JNull None None agent None None None None.
Definition lab_table : db := Db (list_to_map [(1, lab_row 1 (Some 9) 10); (2, lab_row 2 (Some 9) 20); (3, lab_row 3 (Some 9) 30); (4, lab_row 4 None 40)]) ∅ [] [] ∅ ∅.

Lemma claim_fair_witness :
  (claim_due_items 2 1 10 [1; 2; 3; 4] (fun _ => 0) 50 lab_table).1.*1 = [1; 4] /\
  exists r, r ∈ (claim_due_items 2 1 10 [1; 2; 3; 4] (fun _ => 0) 50 lab_table).1 /\ vantage r = 0.
Proof.
  split; [vm_compute; reflexivity |].
  destruct (claim_fair 2 1 10 [1; 2; 3; 4] (fun _ => 0) 50 lab_table _ _ ltac:(apply (bool_decide_unpack _); vm_compute; exact I) (surjective_pairing _))
    as (_ & _ & _ & _ & H).
  destruct (H ltac:(lia) ltac:(apply (bool_decide_unpack _); vm_compute; exact I) ltac:(apply (bool_decide_unpack _); vm_compute; exact I) 0
              ltac:(apply (bool_decide_unpack _); vm_compute; exact I)) as (r & H1 & H2 & _). by exists r.
Defined.

End Claim.
