(* ===== verification/ProbeLiveness.v ===== *)
(** Silent agents cannot wedge a monitor: the reconciliation pass closes every
    overdue run after boundedly many passes, at the moment the ingest stops
    accepting its result. *)
From S2P Require Import Prelude Sha256 Json Canonical Regex Ip AgentScope AgentCapabilities AgentRegistry Redaction ProbeSecrets Monitor ProbeRuns ProbeIngest ProbeLeases ProbeDispatch ProbeTheorems ProbeHistory.
Import Json Ip.
Open Scope Z_scope.

Module ProbeLiveness.
Import Probe Ingest Leases Dispatch ProbeTheorems ProbeHistory.

Lemma size_filter_notin `{Countable K} {A} (m : gmap K A) (ks : list K) :
  NoDup ks -> (forall k, k ∈ ks -> is_Some (m !! k)) -> size (filter (fun p => p.1 ∉ ks) m) = (size m - length ks)%nat.
Proof.
  intros Hnd Hin. rewrite <- !(size_dom (D := gset K)).
  assert (dom (filter (fun p => p.1 ∉ ks) m) = dom m ∖ list_to_set ks) as ->.
  { apply set_eq. intros k. rewrite elem_of_difference, !elem_of_dom, elem_of_list_to_set. unfold is_Some. setoid_rewrite map_lookup_filter_Some. naive_solver. }
  rewrite size_difference, size_list_to_set; [done | done |]. intros k. rewrite elem_of_list_to_set, elem_of_dom. apply Hin.
Qed.

(** The runs in flight that were scheduled no later than [t]. *)
Definition waiting (t : Z) (m : gmap string run) : gmap string run :=
  filter (fun p => open_status (r_status p.2) = true /\ scheduled_at p.2 <= t) m.

(** What the expiry pass does to the runs. *)
Lemma expire_runs iso now s :
  runs (expire_overdue_runs iso now s).2 =
  map_imap (fun rid r => Some (if bool_decide (rid ∈ (overdue_runs now s).*1) then retire Expired REASON_RESULT_TIMEOUT now r else r)) (runs s).
Proof.
  unfold expire_overdue_runs. cbv zeta. match goal with |- context [with_runs ?m s] => set (s1 := with_runs m s) end.
  pose proof (runs_conditions iso (map (fun p => monitor_id p.2) (overdue_runs now s)) EXECUTION_UNAVAILABLE REASON_RESULT_TIMEOUT now s1) as H2.
  destruct (record_conditions _ _ _ _ _ _) as [ls s2]. cbn [snd] in *. by rewrite H2.
Qed.

Lemma reconcile_runs iso e now s : runs (reconcile iso e now s).2 = runs (expire_overdue_runs iso now s).2.
Proof.
  unfold reconcile, mark_stale. destruct (expire_overdue_runs iso now s) as [[n l1] s1]. cbn [snd].
  pose proof (runs_conditions iso (stale_monitors e now s1) EXECUTION_STALE REASON_NO_RECENT_RESULT now s1) as H.
  destruct (record_conditions _ _ _ _ _ _) as [ls s2]. by cbn [snd] in *.
Qed.

Lemma overdue_elem now s p : p ∈ overdue_runs now s -> runs s !! p.1 = Some p.2 /\ overdue now p.2 = true.
Proof.
  unfold overdue_runs. intros (i & Hi%list_elem_of_lookup_2 & _)%elem_of_take. rewrite py_sorted_perm in Hi.
  apply list_elem_of_In, filter_In in Hi as [Hi%list_elem_of_In Ho]. destruct p as [rid r]. by apply elem_of_map_to_list in Hi.
Qed.

Lemma overdue_nodup now s : NoDup (overdue_runs now s).*1.
Proof.
  unfold overdue_runs. set (l := List.filter _ _).
  assert (NoDup l.*1) as Hl.
  { subst l. generalize (NoDup_fst_map_to_list (runs s)). generalize (map_to_list (runs s)). induction l as [| [k r] l IH]; [constructor |].
    rewrite fmap_cons. intros [Hk Hn]%NoDup_cons. cbn [List.filter]. destruct (overdue now _); [| by apply IH]. rewrite fmap_cons. constructor; [| by apply IH].
    cbn [fst]. intros Hin. apply Hk. apply list_elem_of_fmap in Hin as ([k' r'] & E & Hin). cbn [fst] in E. subst k'. apply list_elem_of_In, filter_In in Hin as [Hin _].
    apply list_elem_of_fmap. exists (k, r'). split; [done |]. by apply list_elem_of_In. }
  assert (NoDup (py_sorted (fun p q => scheduled_at p.2 <=? scheduled_at q.2) l).*1) as Hs by by rewrite py_sorted_perm.
  rewrite <- (take_drop EXPIRE_LIMIT (py_sorted _ l)) in Hs. rewrite fmap_app in Hs. by apply NoDup_app in Hs as (? & _).
Qed.

Lemma scheduled_ordered l : StronglySorted (in_order (fun p q : string * run => scheduled_at p.2 <=? scheduled_at q.2)) (py_sorted (fun p q => scheduled_at p.2 <=? scheduled_at q.2) l).
Proof.
  apply py_sorted_ordered.
  - intros x y. rewrite !Z.leb_le. lia.
  - intros x y z. rewrite !Z.leb_le. lia.
Qed.

(** A run in flight past its grace is closed by the pass, or the pass closed
    [EXPIRE_LIMIT] runs scheduled no later. *)
Lemma pass_progress iso e now s rid r :
  runs s !! rid = Some r -> overdue now r = true ->
  (exists r', runs (reconcile iso e now s).2 !! rid = Some r' /\ open_status (r_status r') = false) \/
  (runs (reconcile iso e now s).2 !! rid = Some r /\
   size (waiting (scheduled_at r) (runs (reconcile iso e now s).2)) = (size (waiting (scheduled_at r) (runs s)) - EXPIRE_LIMIT)%nat /\
   (EXPIRE_LIMIT <= size (waiting (scheduled_at r) (runs s)))%nat).
Proof.
  intros Hr Ho. rewrite reconcile_runs, expire_runs, !map_lookup_imap, Hr. cbn [mbind option_bind].
  destruct (bool_decide_reflect (rid ∈ (overdue_runs now s).*1)) as [Hin | Hnot]; [left; by eexists |]. right. split; [done |].
  assert (length (overdue_runs now s) = EXPIRE_LIMIT /\ forall p, p ∈ overdue_runs now s -> scheduled_at p.2 <= scheduled_at r) as [Hlen Hle].
  { unfold overdue_runs in *. set (l := py_sorted _ _) in *. assert ((rid, r) ∈ l) as Hin.
    { subst l. rewrite py_sorted_perm. apply list_elem_of_In, filter_In. split; [| done]. by apply list_elem_of_In, elem_of_map_to_list. }
    rewrite <- (take_drop EXPIRE_LIMIT l) in Hin. apply elem_of_app in Hin as [Hin | Hin]; [destruct Hnot; by apply (list_elem_of_fmap_2 fst) in Hin |].
    split.
    - rewrite length_take. assert (drop EXPIRE_LIMIT l <> []) as Hne by (intros E; rewrite E in Hin; by apply elem_of_nil in Hin).
      destruct (le_lt_dec EXPIRE_LIMIT (length l)) as [Hl | Hl]; [lia |]. destruct Hne. apply drop_ge. lia.
    - intros p Hp. pose proof (scheduled_ordered (List.filter (fun p => overdue now p.2) (map_to_list (runs s)))) as Hs. fold l in Hs.
      rewrite <- (take_drop EXPIRE_LIMIT l) in Hs. pose proof (StronglySorted_app_1_elem_of _ _ _ p (rid, r) Hs Hp Hin) as H. unfold in_order in H. cbn in H. lia. }
  assert (forall k, k ∈ (overdue_runs now s).*1 -> is_Some (waiting (scheduled_at r) (runs s) !! k)) as Hsub.
  { intros k ([k' r'] & -> & Hp)%list_elem_of_fmap. exists r'. cbn [fst]. destruct (overdue_elem now s _ Hp) as [Hk Hov]. cbn [fst snd] in *.
    apply map_lookup_filter_Some. cbn. split; [done |]. unfold overdue in Hov. apply andb_true_iff in Hov as [Hop _]. split; [done |]. by apply (Hle _ Hp). }
  assert (size (filter (fun p => p.1 ∉ (overdue_runs now s).*1) (waiting (scheduled_at r) (runs s))) = (size (waiting (scheduled_at r) (runs s)) - EXPIRE_LIMIT)%nat) as Hsize.
  { rewrite size_filter_notin; [by rewrite length_fmap, Hlen | apply overdue_nodup | done]. }
  split.
  - rewrite <- Hsize. f_equal. apply map_eq. intros k. apply option_eq. intros r'. unfold waiting. rewrite !map_lookup_filter_Some, map_lookup_imap. cbn [fst snd].
    destruct (runs s !! k) as [rk |]; cbn [mbind option_bind]; [| naive_solver].
    destruct (bool_decide_reflect (k ∈ (overdue_runs now s).*1)) as [Hk | Hk]; [| naive_solver].
    split; [intros ([= <-] & Hop & _); done | naive_solver].
  - rewrite <- Hlen, <- (length_fmap fst), <- (size_list_to_set (C := gset string) (overdue_runs now s).*1 (overdue_nodup now s)), <- (size_dom (D := gset string)).
    apply subseteq_size. intros k. rewrite elem_of_list_to_set, elem_of_dom. apply Hsub.
Qed.

(** Passes of the reconciliation at given times. *)
Fixpoint reconcile_all (iso : Z -> string) (passes : list (env * Z)) (s : db) : db :=
  match passes with [] => s | (e, now) :: passes => reconcile_all iso passes (reconcile iso e now s).2 end.

Lemma reconcile_kept iso e now s rid r :
  runs s !! rid = Some r -> exists r', runs (reconcile iso e now s).2 !! rid = Some r' /\ same_lease r r'.
Proof.
  intros Hr. rewrite reconcile_runs, expire_runs, map_lookup_imap, Hr. cbn [mbind option_bind]. eexists. split; [reflexivity |].
  by destruct (bool_decide _).
Qed.

Lemma reconcile_all_closed iso passes s rid r :
  runs s !! rid = Some r -> open_status (r_status r) = false ->
  exists r', runs (reconcile_all iso passes s) !! rid = Some r' /\ open_status (r_status r') = false.
Proof.
  revert s r. induction passes as [| [e now] passes IH]; intros s r Hr Ho; cbn [reconcile_all]; [by exists r |].
  destruct (reconcile_kept iso e now s rid r Hr) as (r' & Hr' & _ & _ & _ & Hop). apply (IH _ r'); [done |].
  destruct (open_status (r_status r')); [| done]. by rewrite Hop in Ho.
Qed.

Lemma overdue_later now now' r : overdue now r = true -> now <= now' -> overdue now' r = true.
Proof. unfold overdue. rewrite !andb_true_iff, !Z.ltb_lt. intros [H1 H2] H. split; [done | lia]. Qed.

Lemma passes_close iso passes now s rid r :
  runs s !! rid = Some r -> overdue now r = true -> Forall (fun p => now <= p.2) passes ->
  (size (waiting (scheduled_at r) (runs s)) <= EXPIRE_LIMIT * length passes)%nat ->
  exists r', runs (reconcile_all iso passes s) !! rid = Some r' /\ open_status (r_status r') = false.
Proof.
  intros Hr Ho Hp. revert s Hr. induction Hp as [| [e now'] passes Hnow Hp IH]; intros s Hr Hle; cbn [reconcile_all].
  - cbn [length] in Hle. assert (waiting (scheduled_at r) (runs s) = ∅) as E by (apply map_size_empty_inv; lia).
    assert (waiting (scheduled_at r) (runs s) !! rid = Some r) as Hw.
    { apply map_lookup_filter_Some. cbn. split; [done |]. unfold overdue in Ho. apply andb_true_iff in Ho as [Ho _]. split; [done | lia]. }
    by rewrite E in Hw.
  - cbn [snd] in Hnow. destruct (pass_progress iso e now' s rid r Hr (overdue_later _ _ _ Ho Hnow)) as [(r' & Hr' & Hc) | (Hr' & Hs & _)].
    + by apply (reconcile_all_closed iso passes _ rid r').
    + apply IH; [done |]. cbn [length] in Hle. rewrite Hs. lia.
Qed.

Lemma reconcile_monitors iso e now s i : is_Some (monitors s !! i) -> is_Some (monitors (reconcile iso e now s).2 !! i).
Proof.
  assert (forall ids st why x, is_Some (monitors x !! i) -> is_Some (monitors (record_conditions iso ids st why now x).2 !! i)) as Hc.
  { induction ids as [| j ids IH]; intros st why x Hx; cbn [record_conditions]; [done |].
    assert (is_Some (monitors (record_execution_condition iso j st (Some why) now x).2 !! i)) as H1.
    { unfold record_execution_condition. destruct (monitors x !! j) as [m |]; [| done]. cbn [snd]. unfold update_monitor_row.
      rewrite monitors_execution_event. destruct (monitors x !! j) as [m' |]; [| by rewrite monitors_execution_event].
      cbn [monitors with_monitors]. rewrite ?monitors_execution_event. apply lookup_insert_is_Some'. by right. }
    destruct (record_execution_condition _ _ _ _ _ _) as [l s1]. cbn [snd] in H1. specialize (IH st why s1 H1).
    by destruct (record_conditions _ _ _ _ _ _) as [ls s2]. }
  intros Hi. unfold reconcile, mark_stale, expire_overdue_runs. cbv zeta. match goal with |- context [with_runs ?m s] => set (s1 := with_runs m s) end.
  pose proof (Hc (map (fun p => monitor_id p.2) (overdue_runs now s)) EXECUTION_UNAVAILABLE REASON_RESULT_TIMEOUT s1 Hi) as H1.
  destruct (record_conditions _ _ _ _ _ _) as [ls s2]. cbn [snd] in H1. pose proof (Hc (stale_monitors e now s2) EXECUTION_STALE REASON_NO_RECENT_RESULT s2 H1) as H2.
  by destruct (record_conditions _ _ _ _ _ _) as [ls' s3].
Qed.

(** C25: a silent agent cannot wedge its monitor.  A run is written off from the very
    instant its result would be refused as late; and once that instant has
    passed, after one pass for every 500 runs in flight scheduled no later, in
    whatever order the table returns them, the run is closed and the monitor
    takes a new one. *)
Theorem overdue_run_released iso passes s rid r rid' agent dl now now' :
  one_open s -> runs s !! rid = Some r -> is_Some (monitors s !! monitor_id r) -> runs s !! rid' = None ->
  open_status (r_status r) = true ->
  (forall d, deadline_at r = Some d -> overdue now r = late r now) /\
  (overdue now r = true -> Forall (fun p => now <= p.2) passes ->
   (size (waiting (scheduled_at r) (runs s)) <= EXPIRE_LIMIT * length passes)%nat ->
   exists s', create_probe_run rid' (monitor_id r) agent dl now' (reconcile_all iso passes s) = (true, s')).
Proof.
  intros Hone Hr Hm Hn Hop. split.
  { intros d Hd. unfold overdue, late, RESULT_TIMEOUT_GRACE. rewrite Hop, Hd. cbn [andb default id].
    destruct (Z.ltb_spec d (now - LATE_RESULT_GRACE)), (Z.ltb_spec (d + LATE_RESULT_GRACE) now); lia. }
  intros Ho Hp Hle. destruct (passes_close iso passes now s rid r Hr Ho Hp Hle) as (r' & Hr' & Hc).
  assert (leases_kept s (reconcile_all iso passes s) /\ is_Some (monitors (reconcile_all iso passes s) !! monitor_id r)) as [HL Hm'].
  { clear -Hm. revert s Hm. induction passes as [| [e t] passes IH]; intros s Hm; cbn [reconcile_all]; [split; [reflexivity | done] |].
    destruct (IH (reconcile iso e t s).2 (reconcile_monitors _ _ _ _ _ Hm)) as [HL Hm']. split; [| done]. etrans; [apply quiet_reconcile | exact HL]. }
  unfold create_probe_run, insert_run. assert (active_run (monitor_id r) (reconcile_all iso passes s) = false) as ->.
  { apply existsb_false. intros [k x] Hx%elem_of_map_to_list. cbn [snd]. unfold is_open. destruct (Z.eqb_spec (monitor_id x) (monitor_id r)) as [Em |]; [| done].
    destruct (open_status (r_status x)) eqn:Ox; [| done]. destruct (HL k x Hx) as (x0 & Hx0 & M0 & _ & _ & O0).
    assert (k = rid) as -> by (apply (Hone k rid x0 r); auto; congruence). congruence. }
  rewrite bool_decide_false, bool_decide_true; [by eexists | done |]. intros [x (x0 & Hx0 & _)%HL]. congruence.
Qed.
End ProbeLiveness.
