(* ===== verification/ProbeSafety.v ===== *)
(** Where an assignment may go, what an overlapping dispatch does to a closed
    run, and which secrets are kept out of the stored results. *)
From S2P Require Import Prelude Sha256 Json Canonical Regex Ip AgentScope AgentCapabilities AgentRegistry AgentIdentity Redaction ProbeSecrets Monitor ProbeRuns ProbeIngest ProbeLeases ProbeDispatch ProbeTheorems ProbeHistory ProbeLiveness.
Import Json Ip.
Open Scope Z_scope.

Module ProbeSafety.
Import Probe Ingest Leases Dispatch ProbeTheorems ProbeHistory.
#[local] Existing Instance Registry.status_eq_dec.

(** *** Assignments *)

Section Assignments.
Context {T : IpText}.
Variable repr_of : json -> string.

(** The preconditions of an assignment that went out. *)
Record assignable (e : env) (a mid : Z) (ignore : option string) (m : monitor) (s : db) (config : Capabilities.config) : Prop := {
  as_active : exists row, Registry.agents (registry e) !! a = Some row /\ Registry.a_status row = Registry.Active;
  as_granted : structured_grant e a CAPABILITY = Some (true, config);
  as_online : online e a = true /\ owned e a = true;
  as_tenant : forall t t', tenant_of_agent e a = Some t -> tenant_of_target e (target_type m) (target_id m) = Some t' -> t = t';
  as_alone : forall rid r, runs s !! rid = Some r -> monitor_id r = mid -> open_status (r_status r) = true -> ignore = Some rid
}.

Lemma active_except_false mid ignore s : active_run_except mid ignore s = false <->
  forall rid r, runs s !! rid = Some r -> monitor_id r = mid -> open_status (r_status r) = true -> ignore = Some rid.
Proof.
  unfold active_run_except. rewrite existsb_false. split.
  - intros H rid r Hr Em Ho. specialize (H (rid, r) (proj2 (elem_of_map_to_list _ _ _) Hr)). cbn [fst snd] in H. unfold is_open in H.
    rewrite Em, Z.eqb_refl, Ho in H. cbn [andb] in H. by destruct (bool_decide_reflect (ignore = Some rid)).
  - intros H [rid r] Hr%elem_of_map_to_list. cbn [fst snd]. unfold is_open. destruct (Z.eqb_spec (monitor_id r) mid) as [Em |]; [| done].
    destruct (open_status (r_status r)) eqn:Eo; [| done]. cbn [andb]. by rewrite bool_decide_true by by eapply H.
Qed.

Lemma eligible_assignable e a ignore mid m now s el :
  evaluate_eligibility repr_of e (Some a) ignore mid m now s = Ok el -> ok el = true ->
  exists config, assignable e a mid ignore m s config /\ in_scope repr_of e a config (host m) = Ok None.
Proof.
  unfold evaluate_eligibility. destruct (Registry.agents (registry e) !! a) as [row |] eqn:Ea; [| by intros [= <-]].
  destruct (bool_decide_reflect (Registry.a_status row = Registry.Active)) as [Hact |]; cbn [negb]; [| by intros [= <-]].
  destruct (structured_grant e a CAPABILITY) as [[[] config] |] eqn:Eg; [| by intros [= <-] ..].
  destruct (online e a) eqn:Eon; cbn [negb]; [| by intros [= <-]]. destruct (owned e a) eqn:Eow; cbn [negb]; [| by intros [= <-]].
  destruct (readiness_denial e a (check_type m) now) as [d |] eqn:Er.
  { intros [= <-]. unfold readiness_denial in Er. destruct (dict_get _ _); [| done]. destruct (readiness e !! _) as [[st [t |]] |]; try (injection Er as <-; done).
    destruct (t <? _); [by injection Er as <- |]. destruct (bool_decide _); [done |]. by injection Er as <-. }
  destruct (tenant_denial e a m) as [d |] eqn:Et.
  { intros [= <-]. unfold tenant_denial in Et. destruct (tenant_of_agent e a) as [t |], (tenant_of_target e (target_type m) (target_id m)) as [t' |]; try done. destruct (t =? t'); [done |]. by injection Et as <-. }
  destruct (in_scope repr_of e a config (host m)) as [[d |] |] eqn:Es; cbn [mbind result_bind]; [| | done].
  { intros [= <-]. unfold in_scope in Es. destruct (derive_agent_scope _ _ _ _); cbn [mbind result_bind] in Es; [| done].
    destruct (match (if is_ip_literal _ then _ else _) with Some [] => true | _ => false end); [by injection Es as <- |].
    destruct (AgentScope.evaluate _ _ _) as [dd |]; cbn [mbind result_bind] in Es; [| done]. destruct (AgentScope.allowed dd); [done |]. by injection Es as <-. }
  destruct (active_run_except mid ignore s) eqn:Eact; intros [= <-]; [done |]. intros _. exists config. split; [| done]. split; try done.
  - by exists row.
  - intros t t' E1 E2. unfold tenant_denial in Et. rewrite E1, E2 in Et. destruct (Z.eqb_spec t t'); [done | discriminate Et].
  - by apply active_except_false.
Qed.

Context {L : IpTextLaws T}.

(** C26: an assignment stays inside the agent's scope.  When the dispatcher
    publishes a run, the run is queued, its agent is active, online with an owned
    link and granted the capability; the agent and the target do not carry
    different tenants (either may carry none); the monitor has no other run in
    flight; and every address the monitor's host stands for, at least one, lies
    outside the special-use space and every excluded network, in a private
    network of one of this agent's own reported interfaces (if its grant derives
    those) or in a network the administrator added to the grant. *)
Theorem assignment_confined e rid delivered now s i :
  dispatch_begin repr_of e rid delivered now s = Ok (Published i) ->
  exists r m config, runs s !! rid = Some r /\ r_status r = Queued /\ monitors s !! monitor_id r = Some m /\
    i = Intent rid (monitor_id r) (agent_id r) (attempt_count r) /\
    assignable e (agent_id r) (monitor_id r) (Some rid) m s config /\
    exists a l, AgentScope.judged (host m) (if is_ip_literal (host m) then None else Some (resolve e (host m))) = Some (a :: l) /\
      forall x, x ∈ a :: l -> AgentScope.granted repr_of (default [] (networks_of e (agent_id r))) config x.
Proof.
  intros (r & m & Hr & Hq & Hm & _ & Hi & el & Hel & Hok)%dispatch_begin_spec.
  destruct (eligible_assignable _ _ _ _ _ _ _ _ Hel Hok) as (config & Has & Hsc). exists r, m, config. split_and!; try done.
  unfold in_scope in Hsc. destruct (derive_agent_scope _ _ _ _) as [sc |] eqn:Esc; cbn [mbind result_bind] in Hsc; [| done].
  destruct (match (if is_ip_literal _ then _ else _) with Some [] => true | _ => false end); [done |].
  destruct (AgentScope.derived_scope_bounded repr_of _ _ sc (host m) (if is_ip_literal (host m) then None else Some (resolve e (host m))) Esc) as (dd & Hdd & Hall).
  rewrite Hdd in Hsc. cbn [mbind result_bind] in Hsc. apply Hall. by destruct (AgentScope.allowed dd).
Qed.
End Assignments.

(** *** A dispatch that overlaps *)

Section Overlap.
Context {T : IpText}.
Variable repr_of : json -> string.
Variable model_validate : list (string * json) -> option payload.
Variable repr : string -> string.
Variable isoformat : Z -> string.
Variable round1 : Z -> Z.
Abbreviation ingest := (ingest_probe_result model_validate repr isoformat round1).

Lemma active_except_kept mid rid s s' : leases_kept s s' -> active_run_except mid (Some rid) s = false -> active_run_except mid (Some rid) s' = false.
Proof.
  intros HL. unfold active_run_except. rewrite !existsb_false. intros H [k r'] Hk%elem_of_map_to_list. cbn [fst snd].
  destruct (HL k r' Hk) as (r & Hr & M & _ & _ & O). specialize (H (k, r) (proj2 (elem_of_map_to_list _ _ _) Hr)). cbn [fst snd] in H.
  unfold is_open in *. rewrite M. destruct (monitor_id r =? mid); [| done]. destruct (open_status (r_status r')); [| done]. by rewrite O in H.
Qed.

(** Whatever closed the run after it was published, the worker's commit opens
    it again. *)
Lemma commit_reopens e rid delivered now s i s1 now2 row m :
  dispatch_begin repr_of e rid delivered now s = Ok (Published i) -> leases_kept s s1 ->
  runs s1 !! rid = Some row -> monitors s1 !! monitor_id row = Some m ->
  exists s2, dispatch_commit i now2 s1 = Ok s2 /\ runs s2 = <[rid := set_dispatched (i_attempts i) now2 row]> (runs s1) /\
    monitors s2 = <[monitor_id row := set_running now2 m]> (monitors s1).
Proof.
  intros (r & m0 & Hr & _ & _ & _ & -> & el & Hel & Hok)%dispatch_begin_spec HL Hrow Hm.
  destruct (eligible_assignable _ _ _ _ _ _ _ _ _ Hel Hok) as (config & Has & _). pose proof (proj2 (active_except_false _ _ _) (as_alone _ _ _ _ _ _ _ Has)) as Hal.
  destruct (HL rid row Hrow) as (r0 & Hr0 & M & _). assert (r0 = r) as -> by congruence. rewrite M in *.
  unfold dispatch_commit. cbn [i_run i_monitor i_attempts]. rewrite Hrow, Hm, (active_except_kept _ _ _ _ HL Hal).
  unfold update_monitor_row. cbn [monitors with_runs]. rewrite Hm. by eexists.
Qed.

Lemma accepted_leases agent r now s s' row m : accepted round1 agent r now s s' row m -> leases_kept s s'.
Proof.
  intros [Hrow _ _ _ _ _ _ (row' & Hruns & _ & Hl) _ _] rid r'. rewrite Hruns, lookup_insert_Some.
  intros [[<- <-] | [_ Hr]]; [by exists row | exists r'; split; [done | reflexivity]].
Qed.

Lemma ingest_accepts agent v r now s row m :
  validate_probe_payload model_validate repr v = Ok r -> runs s !! pl_run_id r = Some row -> agent_id row = agent ->
  monitor_id row = pl_monitor_id r -> monitors s !! monitor_id row = Some m -> open_status (r_status row) = true -> late row now = false ->
  pl_outcome r = OUTCOME_COMPLETED -> exists s', ingest agent true v now s = Ok (Accepted, s').
Proof.
  intros Hv Hr <- Hmon Hm Ho Hl Hc. unfold ingest_probe_result. rewrite Hv. cbn [mbind result_bind]. rewrite Hr, Z.eqb_refl, Hmon, Z.eqb_refl.
  rewrite Hmon in Hm. rewrite Hm, Ho. cbn [negb]. unfold settle. rewrite Hl, Hc. eexists. reflexivity.
Qed.

(** a run the worker has published but not yet committed can be closed in between,
    and the commit opens it again.  If its result is accepted in that gap, the
    same result is accepted a second time, until the deadline's grace has
    passed; if the monitor is paused in that gap, the cancelled run is in flight
    again. *)
Theorem dispatch_reopens e rid delivered now s i now2 :
  dispatch_begin repr_of e rid delivered now s = Ok (Published i) ->
  (forall agent v r now1 s1 now3, validate_probe_payload model_validate repr v = Ok r -> pl_run_id r = rid ->
     ingest agent true v now1 s = Ok (Accepted, s1) -> (forall row, runs s !! rid = Some row -> late row now3 = false) ->
     exists s2 s3, dispatch_commit i now2 s1 = Ok s2 /\ ingest agent true v now3 s2 = Ok (Accepted, s3)) /\
  (forall now1 cs s1, set_paused (i_monitor i) true now1 s = Some (cs, s1) ->
     exists s2 row, dispatch_commit i now2 s1 = Ok s2 /\ runs s2 !! rid = Some row /\ open_status (r_status row) = true).
Proof.
  intros Hb. pose proof (dispatch_begin_spec _ _ _ _ _ _ _ Hb) as (r0 & m0 & Hr0 & _ & Hm0 & _ & Hi & _). split.
  - intros agent v r now1 s1 now3 Hv <- (r' & row & m & Hv' & _ & _ & _ & _ & _ & Hc)%ingest_spec Hlate.
    assert (r' = r) as -> by congruence. destruct Hc as [(? & _) | [(_ & Ha) | (? & _)]]; [done | | done].
    pose proof (accepted_leases _ _ _ _ _ _ _ Ha) as HL. destruct Ha as [Hrow Hag Hmon Hmr _ _ Hout (row' & Hruns & Hst & Hl) (c & m' & Hms & _) _].
    destruct Hl as (M & A & D & _).
    destruct (commit_reopens _ _ _ _ _ _ s1 now2 row' m' Hb HL) as (s2 & Hc2 & R2 & M2); [by rewrite Hruns, lookup_insert_eq | by rewrite M, Hms, lookup_insert_eq |].
    destruct (ingest_accepts agent v r now3 s2 (set_dispatched (i_attempts i) now2 row') (set_running now2 m')) as [s3 H3]; try done.
    + by rewrite R2, lookup_insert_eq.
    + by cbn; rewrite A.
    + by cbn; rewrite M.
    + cbn [monitor_id set_dispatched]. by rewrite M2, lookup_insert_eq.
    + specialize (Hlate row Hrow). unfold late in *. cbn [deadline_at set_dispatched]. by rewrite D.
    + by exists s2, s3.
  - intros now1 cs s1 Hp. assert (leases_kept s s1) as HL by by eapply quiet_pause. subst i. cbn [i_monitor] in Hp.
    assert (exists row m, runs s1 !! rid = Some row /\ monitors s1 !! monitor_id row = Some m) as (row & m & Hrow & Hm).
    { unfold set_paused in Hp. rewrite Hm0 in Hp. unfold cancel_monitor_probe_runs, close_active_runs, update_monitor_row in Hp. rewrite Hm0 in Hp.
      injection Hp as _ <-. cbn [runs monitors with_runs with_events with_monitors]. rewrite lookup_fmap, Hr0. cbn [fmap option_fmap option_map].
      eexists _, _. split; [reflexivity |]. case_match; cbn [monitor_id retire closed]; by rewrite lookup_insert_eq. }
    destruct (commit_reopens _ _ _ _ _ _ s1 now2 row m Hb HL Hrow Hm) as (s2 & Hc2 & R2 & _). exists s2. eexists. split; [done |].
    rewrite R2, lookup_insert_eq. done.
Qed.
End Overlap.
End ProbeSafety.
