(* ===== verification/ProbeLab.v ===== *)
(** A monitored host probed by the agent that enrolled in [AgentIdentity]: one
    run opened, handed out, answered; and the same with the agent silent, with
    the answer racing the dispatcher, and with a credential in the answer. *)
From S2P Require Import Prelude Sha256 Json Canonical Regex Ip AgentScope AgentCapabilities AgentRegistry AgentIdentity Redaction ProbeSecrets Monitor ProbeRuns ProbeIngest ProbeLeases ProbeDispatch ProbeTheorems ProbeHistory ProbeLiveness ProbeSafety.
Import Json Ip.
Open Scope Z_scope.

Module ProbeLab.
Import Probe Ingest Leases Dispatch ProbeTheorems ProbeHistory ProbeLiveness ProbeSafety.

Definition lab_monitor : monitor :=
  MkMonitor (Monitor.Item 5 "nas" 60 None 2 (Some Monitor.UP) 0 None None (Some 0)) true "192.168.8.9" "icmp" Secrets.lab_params
    (Some "hardware") (Some 3) (Some 1) None None None None.

Definition lab_db : db := Db {[5 := lab_monitor]} ∅ [] [] ∅ ∅.

Definition lab_env : env :=
  Env Identity.lab_active (fun _ => true) (fun _ => true) {[(1, "probe.icmp") := ("ready", Some 0)]} (fun _ => Some AgentScope.lab_facts)
    (fun _ => None) (fun _ _ => None) (fun _ => []).

Definition lab_result (outcome : string) : payload :=
  Payload "r1" 5 outcome true 20 30 [Sample "avail" (JFloat "1.0") None; Sample "login" JNull (Some "refused hunter2xx")] "ok" None.

Definition lab_validate (fs : list (string * json)) : option payload :=
  match dict_get "outcome" fs with Some (JStr o) => Some (lab_result o) | _ => None end.

Definition lab_frame (outcome : string) : json := JObj [("outcome", JStr outcome)].
Abbreviation lab_ingest := (ingest_probe_result lab_validate (fun s => s) (fun _ => "") (fun z => z)).

Definition lab_opened : db := (create_probe_run "r1" 5 1 (10 * SECOND) 0 lab_db).2.
Definition lab_dispatched : db :=
  match dispatch_run AgentScope.no_repr lab_env "r1" true 10 lab_opened with Ok (_, s) => s | Err _ => lab_opened end.
Definition lab_ingested (outcome : string) (now : Z) (s : db) : db :=
  match lab_ingest 1 true (lab_frame outcome) now s with Ok (_, s) => s | Err _ => s end.

Abbreviation lab_step := (step lab_validate (fun s => s) (fun _ => "") (fun z => z) AgentScope.no_repr (fun _ => None) (fun _ _ => None) (fun _ _ => None)).
Abbreviation lab_steps := (steps lab_validate (fun s => s) (fun _ => "") (fun z => z) AgentScope.no_repr (fun _ => None) (fun _ _ => None) (fun _ _ => None)).

Definition lab_intent : intent := Intent "r1" 5 1 0.

Lemma lab_published : dispatch_begin AgentScope.no_repr lab_env (i_run lab_intent) true 10 lab_opened = Ok (Published lab_intent).
Proof. vm_compute. reflexivity. Qed.

(** The answer arrives before the dispatcher commits, and once more after. *)
Definition lab_early : db := lab_ingested "completed" 11 lab_opened.
Definition lab_reopened : db := match dispatch_commit lab_intent 12 lab_early with Ok s => s | Err _ => lab_early end.
Definition lab_twice : db := lab_ingested "completed" 13 lab_reopened.
Definition lab_history : list label := [Minted "r1"; Moved "r1" false; Reopened "r1"; Moved "r1" false].

Definition row_of (s : db) : run :=
  match runs s !! "r1" with Some r => r | None => Run 0 0 Queued 0 None None None None None None None None 0 0 end.
Definition mon_of (s : db) : monitor := match monitors s !! 5 with Some m => m | None => lab_monitor end.

(** A result judged and written in one state. *)
Lemma lab_result_step outcome now s d s' :
  ingest_read lab_validate (fun s => s) 1 true (lab_frame outcome) s = Ok (Some (row_of s, mon_of s, lab_result outcome)) ->
  runs s !! "r1" = Some (row_of s) -> monitors s !! monitor_id (row_of s) = Some (mon_of s) ->
  settle (fun _ => "") (fun z => z) "r1" (row_of s) (mon_of s) (lab_result outcome) now s = (d, s') ->
  lab_step (match d with Accepted => Moved "r1" (overtaken (row_of s) (row_of s)) | _ => Quiet end) s s'.
Proof. intros H1 H2 H3 H4. by apply (step_result _ _ _ _ _ _ _ _ 1 true (lab_frame outcome) s (row_of s) (mon_of s) (lab_result outcome) now s (row_of s) (mon_of s) d s'). Qed.

Lemma lab_raced : lab_steps lab_db lab_history lab_twice.
Proof.
  apply (steps_snoc _ _ _ _ _ _ _ _ _ [Minted "r1"; Moved "r1" false; Reopened "r1"] lab_reopened (Moved "r1" false)).
  1: apply (steps_snoc _ _ _ _ _ _ _ _ _ [Minted "r1"; Moved "r1" false] lab_early (Reopened "r1")).
  1: apply (steps_snoc _ _ _ _ _ _ _ _ _ [Minted "r1"] lab_opened (Moved "r1" false)).
  1: apply (steps_snoc _ _ _ _ _ _ _ _ _ [] lab_db (Minted "r1")); [constructor |].
  - apply (step_open _ _ _ _ _ _ _ _ "r1" 5 1 (10 * SECOND) 0). vm_compute. reflexivity.
  - apply (lab_result_step "completed" 11 lab_opened Accepted); vm_compute; reflexivity.
  - apply (step_dispatched _ _ _ _ _ _ _ _ lab_env true 10 lab_opened (row_of lab_opened) lab_intent 12 lab_early (row_of lab_early) lab_reopened); [exact lab_published | vm_compute; reflexivity ..].
  - apply (lab_result_step "completed" 13 lab_reopened Accepted); vm_compute; reflexivity.
Qed.

Lemma one_result_per_run_witness :
  times_moved "r1" lab_history = 2%nat /\ overlaps "r1" lab_history = 1%nat /\ (times_moved "r1" lab_history <= 1 + overlaps "r1" lab_history)%nat.
Proof.
  split; [reflexivity |]. split; [reflexivity |].
  refine (proj1 (one_result_per_run lab_validate (fun s => s) (fun _ => "") (fun z => z) AgentScope.no_repr (fun _ => None) (fun _ _ => None) (fun _ _ => None)
                   lab_db lab_history lab_twice lab_raced eq_refl _) "r1").
  apply NoDup_singleton.
Defined.

(** An execution error at the agent: the run is closed, the target keeps UP. *)
Lemma vantage_is_not_target_witness :
  (exists m, monitors (lab_ingested "execution_error" 50 lab_dispatched) !! 5 = Some m /\
     probe_execution_status m = Some EXECUTION_UNAVAILABLE /\ target m = target lab_monitor) /\
  points (lab_ingested "execution_error" 50 lab_dispatched) = points lab_dispatched.
Proof.
  split; [eexists; vm_compute; split_and!; reflexivity |].
  refine (proj1 (vantage_is_not_target lab_validate (fun s => s) (fun _ => "") (fun z => z) AgentScope.no_repr (fun _ => None) (fun _ _ => None) (fun _ _ => None)
                   Quiet lab_dispatched (lab_ingested "execution_error" 50 lab_dispatched) _ I)).
  apply (lab_result_step "execution_error" 50 lab_dispatched AuditOnly); vm_compute; reflexivity.
Defined.

Lemma moved_is_authentic_witness : exists r row m,
  accepted (fun z => z) 1 r 50 lab_dispatched (lab_ingested "completed" 50 lab_dispatched) row m.
Proof.
  destruct (moved_is_authentic lab_validate (fun s => s) (fun _ => "") (fun z => z) 1 true (lab_frame "completed") 50 lab_dispatched Accepted
              (lab_ingested "completed" 50 lab_dispatched)) as (_ & _ & r & row & m & _ & H).
  - vm_compute. reflexivity.
  - left. vm_compute. discriminate.
  - by exists r, row, m.
Defined.

(** The agent never answers. *)
Definition lab_run : run :=
  Run 5 1 Dispatched 0 (Some 10) (Some (10 * SECOND)) None None None None None None 1 0.

Lemma lab_runs : runs lab_dispatched = {["r1" := lab_run]}.
Proof. vm_compute. reflexivity. Qed.

Lemma lab_one_open : one_open lab_dispatched.
Proof. intros a b ra rb. rewrite lab_runs, !lookup_singleton_Some. by intros [<- _] [<- _]. Qed.

Lemma overdue_run_released_witness : exists s',
  create_probe_run "r2" 5 1 (10 * SECOND) (42 * SECOND) (reconcile_all (fun _ => "") [(lab_env, 41 * SECOND)] lab_dispatched) = (true, s').
Proof.
  destruct (overdue_run_released (fun _ => "") [(lab_env, 41 * SECOND)] lab_dispatched "r1" lab_run "r2" 1 (10 * SECOND) (41 * SECOND) (42 * SECOND) lab_one_open)
    as [_ H].
  - rewrite lab_runs. apply lookup_singleton_eq.
  - apply (bool_decide_unpack _). vm_compute. exact I.
  - rewrite lab_runs. reflexivity.
  - reflexivity.
  - apply H; [vm_compute; reflexivity | by constructor |].
    transitivity (size (runs lab_dispatched)); [apply map_size_filter |]. rewrite lab_runs, map_size_singleton. vm_compute. lia.
Defined.

Lemma assignment_confined_witness : exists r m config, runs lab_opened !! "r1" = Some r /\
  assignable lab_env (agent_id r) (monitor_id r) (Some "r1") m lab_opened config.
Proof.
  destruct (assignment_confined AgentScope.no_repr lab_env "r1" true 10 lab_opened lab_intent lab_published) as (r & m & config & Hr & _ & _ & _ & H & _).
  by exists r, m, config.
Defined.

(** The answer arrives before the dispatcher commits. *)
Lemma dispatch_reopens_witness : exists i s2 s3,
  dispatch_begin AgentScope.no_repr lab_env "r1" true 10 lab_opened = Ok (Published i) /\
  dispatch_commit i 12 (lab_ingested "completed" 11 lab_opened) = Ok s2 /\ lab_ingest 1 true (lab_frame "completed") 13 s2 = Ok (Accepted, s3).
Proof.
  assert (dispatch_begin AgentScope.no_repr lab_env "r1" true 10 lab_opened = Ok (Published (Intent "r1" 5 1 0))) as Hb by (vm_compute; reflexivity).
  destruct (dispatch_reopens AgentScope.no_repr lab_validate (fun s => s) (fun _ => "") (fun z => z) lab_env "r1" true 10 lab_opened _ 12 Hb) as [H _].
  destruct (H 1 (lab_frame "completed") (lab_result "completed") 11 (lab_ingested "completed" 11 lab_opened) 13) as (s2 & s3 & H2 & H3).
  - vm_compute. reflexivity.
  - reflexivity.
  - vm_compute. reflexivity.
  - intros row. vm_compute. intros [= <-]. reflexivity.
  - by exists (Intent "r1" 5 1 0), s2, s3.
Defined.

(** The reason of a sample is stored as the agent wrote it. *)
Example sample_reason_unredacted :
  match runs (lab_ingested "completed" 50 lab_dispatched) !! "r1" with
  | Some r => match result_metadata r with Some (JObj fs) => dict_get "error_reasons" fs | _ => None end
  | None => None
  end = Some (JList [JObj [("metric", JStr "login"); ("error_reason", JStr "refused hunter2xx")]]).
Proof. vm_compute. reflexivity. Qed.
End ProbeLab.
