(* ===== verification/DiscoveryJobs.v ===== *)
(** Discovery jobs an agent executes ([db/models/discovery.py],
    [services/discovery_admission.py], [services/discovery_eligibility.py],
    [services/discovery_dispatch.py], [services/agent_discovery.py]): the job row
    with the lease it carries, the limits of a request, the dispatch with the
    moments at which it waits, cancellation and the terminal writes.

    A conditional UPDATE with a row count is [compare_and_set]; the code between
    two awaits is one function on the tables. *)
From S2P Require Import Prelude Sha256 Json Canonical Regex Ip AgentScope AgentCapabilities AgentRegistry Redaction ProbeSecrets Monitor ProbeRuns ProbeIngest ProbeLeases ProbeDispatch.
Import Json Ip.
Open Scope Z_scope.

Module Discovery.
Import Dispatch.
#[local] Open Scope cb_scope.
#[local] Existing Instance Registry.status_eq_dec.

(** *** Tables *)

Inductive status := Queued | Running | Completed | Failed | Cancelled.
#[export] Instance status_eq_dec : EqDecision status. Proof. solve_decision. Defined.

Inductive lease_status := LQueued | LDispatched | LRunning | LCompleted | LExecutionError | LExpired | LCancelled.
#[export] Instance lease_status_eq_dec : EqDecision lease_status. Proof. solve_decision. Defined.

Inductive classification := New | Matched | Conflict.

(** The columns of [ScanJob]: what was asked for and never changes, the lease,
    the counters, and the rest. Times in microseconds; [created_at] is what the
    text column parses to. *)
Record request := Request {
  scan_agent_id : option Z;
  profile_id : option Z;
  tenant_id : option Z;
  label : option string;
  target_cidr : option string;
  created_at : option Z
}.

Record lease := Lease { dispatch_id : option string; dispatch_status : option lease_status; deadline_at : option Z; scope_version : option string }.

Record tally := Tally {
  finding_count : Z;
  hosts_found : Z;
  hosts_new : Z;
  hosts_updated : Z;
  hosts_conflict : Z;
  last_finding_at : option Z
}.

Record job := Job {
  asked : request;
  job_status : status;
  started_at : option Z;
  completed_at : option Z;
  progress_phase : option string;
  progress_message : string;
  error_reason : option string;
  error_text : option string;
  held : lease;
  counts : tally
}.

(** A row of [scan_results] an agent reported. *)
Record scan_result := ScanResult { r_agent : Z; r_tenant : option Z; r_address : string; r_state : classification }.

(** [results] under [uq_scan_results_job_finding]; [audit] holds the discovery
    entries and [violations] the capability violations this path records;
    [inventory] is what results are classified against and enrich. *)
Record db (W : Type) := Db {
  jobs : gmap Z job;
  results : gmap (Z * string) scan_result;
  audit : list (string * Z);
  violations : list (Z * string);
  inventory : W
}.
Arguments Db {W}.
Arguments jobs {W}.
Arguments results {W}.
Arguments audit {W}.
Arguments violations {W}.
Arguments inventory {W}.

Definition open_job (st : status) : bool := match st with Queued | Running => true | _ => false end.
Definition open_dispatch (st : option lease_status) : bool := match st with Some (LDispatched | LRunning) => true | _ => false end.

(** The job's prefixes. *)
Definition split_targets (target : option string) : list string :=
  List.filter (fun s => negb (String.eqb s EmptyString)) (map strip (split_on ","%char (default EmptyString target))).
Definition job_targets (r : request) : list string := split_targets (target_cidr r).

Definition with_lease (st : status) (phase : option string) (m : string) (l : lease) (started : option Z) (j : job) : job :=
  Job (asked j) st started (completed_at j) phase m (error_reason j) (error_text j) l (counts j).

Definition set_status (st : status) (ls : lease_status) (phase : string) (m : string) (reason text : option string) (now : Z) (j : job) : job :=
  Job (asked j) st (started_at j) (Some now) (Some phase) m reason text
    (Lease (dispatch_id (held j)) (Some ls) (deadline_at (held j)) (scope_version (held j))) (counts j).

Section Tables.
Context {W : Type}.
Implicit Types s : db W.

Definition with_jobs (m : gmap Z job) s : db W := Db m (results s) (audit s) (violations s) (inventory s).
Definition with_results (m : gmap (Z * string) scan_result) (w : W) s : db W := Db (jobs s) m (audit s) (violations s) w.
Definition add_audit (action : string) (i : Z) s : db W := Db (jobs s) (results s) (audit s ++ [(action, i)]) (violations s) (inventory s).
Definition add_violation (agent : Z) (reason : string) s : db W := Db (jobs s) (results s) (audit s) (violations s ++ [(agent, reason)]) (inventory s).

(** [UPDATE scan_jobs SET ... WHERE id = i AND guard], and whether it hit. *)
Definition compare_and_set (i : Z) (guard : job -> bool) (f : job -> job) s : bool * db W :=
  match jobs s !! i with
  | Some j => if guard j then (true, with_jobs (<[i := f j]> (jobs s)) s) else (false, s)
  | None => (false, s)
  end.

Definition is_open (j : job) : bool := open_job (job_status j).

(** *** The terminal writes *)

Definition lease_status_for (st : status) : lease_status :=
  match st with Completed => LCompleted | Cancelled => LCancelled | _ => LExecutionError end.
Definition phase_for (st : status) : string := match st with Completed => "done" | Cancelled => "cancelled" | _ => "failed" end.

(** [finalize_agent_job]: whether this call closed the job. *)
Definition finalize_agent_job (i : Z) (st : status) (reason text : option string) (now : Z) s : bool * db W :=
  let '(hit, s) := compare_and_set i is_open (set_status st (lease_status_for st) (phase_for st) (default EmptyString text) reason text now) s in
  if negb hit then (false, s) else
  (true, match st with Completed => add_audit "scan_completed" i s | Failed => add_audit "scan_failed" i s | _ => s end).

(** [_transition_terminal]; columns left unnamed keep their value. *)
Definition transition_terminal (i : Z) (st : status) (reason text : option string) (m : string) (now : Z) s : bool * db W :=
  compare_and_set i is_open
    (fun j => set_status st (lease_status_for st) (phase_for st) m
                (match reason with Some _ => reason | None => error_reason j end) (match text with Some _ => text | None => error_text j end) now j) s.

(** *** Cancellation *)

Record cancel := DiscoveryCancel { c_agent : Z; c_token : string; c_job : Z; c_reason : option string }.

(** [_open_agent_jobs], oldest first. *)
Definition open_agent_jobs (agent profile : option Z) s : list Z :=
  py_sorted Z.leb
    (List.filter (fun p => bool_decide (is_Some (scan_agent_id (asked p.2))) && is_open p.2
                           && match agent with Some a => bool_decide (scan_agent_id (asked p.2) = Some a) | None => true end
                           && match profile with Some q => bool_decide (profile_id (asked p.2) = Some q) | None => true end)
       (map_to_list (jobs s))).*1.

(** [_close_jobs] on jobs selected earlier. *)
Fixpoint close_jobs (ids : list Z) (reason : option string) (now : Z) s : list cancel * db W :=
  match ids with
  | [] => ([], s)
  | i :: ids =>
      let '(hit, s1) := transition_terminal i Cancelled reason reason EmptyString now s in
      let here := match hit, jobs s !! i with
                  | true, Some j => match dispatch_id (held j), scan_agent_id (asked j) with
                                    | Some t, Some a => [DiscoveryCancel a t i reason]
                                    | _, _ => []
                                    end
                  | _, _ => []
                  end in
      let '(rest, s2) := close_jobs ids reason now s1 in
      (here ++ rest, s2)
  end.

Definition cancel_agent_dispatches (agent : Z) (reason : option string) (now : Z) s : list cancel * db W :=
  close_jobs (open_agent_jobs (Some agent) None s) reason now s.

Definition cancel_profile_dispatches (profile : Z) (reason : string) (now : Z) s : list cancel * db W :=
  close_jobs (open_agent_jobs None (Some profile) s) (Some reason) now s.

(** [cancel_job_dispatch]: whether it closed the job; [None] for the reason. *)
Definition cancel_job_dispatch (i : Z) (now : Z) s : bool * list cancel * db W :=
  match jobs s !! i with
  | None => (false, [], s)
  | Some j =>
      match scan_agent_id (asked j) with
      | None => (false, [], s)
      | Some a =>
          if negb (is_open j) then (false, [], s) else
          let '(hit, s) := transition_terminal i Cancelled None None EmptyString now s in
          (hit, if hit then match dispatch_id (held j) with Some t => [DiscoveryCancel a t i None] | None => [] end else [], s)
      end
  end.

(** *** Waiting for a slot *)

Definition running_scan_count s : Z := Z.of_nat (size (filter (fun p => job_status p.2 = Running) (jobs s))).
Definition max_concurrent_scans (setting : option Z) : Z := Z.max 1 (match setting with Some 0 | None => 2 | Some z => z end).

Definition PHASE_WAITING_FOR_AGENT : string := "waiting_for_agent".
Definition PHASE_DISPATCHED : string := "dispatched".

Definition created_le (p q : Z * job) : bool :=
  let c x := default 0 (created_at (asked x.2)) in (c p <? c q) || ((c p =? c q) && (p.1 <=? q.1)).

(** [_schedule_queued_scan_jobs]: the jobs handed to the executor. *)
Definition schedule_queued_scan_jobs (setting : option Z) s : list Z :=
  let slots := max_concurrent_scans setting - running_scan_count s in
  if slots <=? 0 then [] else
  (take (Z.to_nat slots)
     (py_sorted created_le
        (List.filter (fun p => bool_decide (job_status p.2 = Queued) && negb (bool_decide (progress_phase p.2 = Some PHASE_WAITING_FOR_AGENT)))
           (map_to_list (jobs s))))).*1.
End Tables.

(** *** The limits of a request ([discovery_admission]) *)

Definition MAX_DISCOVERY_TARGETS : nat := 16.
Definition MAX_DISCOVERY_PORTS : nat := 32.
Definition NMAP_OVERRIDE_PREFIX : string := "__nmap_override__:".

Definition digit (c : ascii) : bool := Regex.digit c.
Definition port_char (c : ascii) : bool := digit c || Ascii.eqb c "," || Ascii.eqb c "-".

Fixpoint take_while (p : ascii -> bool) (s : string) : string :=
  match s with String c r => if p c then String c (take_while p r) else EmptyString | EmptyString => EmptyString end.

(** [_PORT_SPEC_RE.search]: the first [-p] followed by a port list. *)
Fixpoint port_spec (s : string) : option string :=
  match s with
  | EmptyString => None
  | String c r =>
      match (if Ascii.eqb c "-" then match r with String d t => if Ascii.eqb d "p" then Some t else None | EmptyString => None end else None) with
      | Some t =>
          let spec := take_while port_char (lstrip t) in
          if String.eqb spec EmptyString then port_spec r else Some spec
      | None => port_spec r
      end
  end.

(** [int(s)] of a fragment of digits and dashes. *)
Definition digits_value (s : string) : option Z :=
  if String.eqb s EmptyString then None else
  if str_forallb digit s then Some (foldl (fun acc c => acc * 10 + (Z.of_nat (nat_of_ascii c) - 48)) 0 (list_ascii_of_string s)) else None.

(** [part.partition("-")]. *)
Fixpoint partition_dash (s : string) : string * string :=
  match s with
  | EmptyString => (EmptyString, EmptyString)
  | String c r => if Ascii.eqb c "-" then (EmptyString, r) else let '(a, b) := partition_dash r in (String c a, b)
  end.

Definition port_range (part : string) : list Z :=
  let '(low, high) := partition_dash part in
  match digits_value low, (if String.eqb high EmptyString then digits_value low else digits_value high) with
  | Some first, Some last => seqZ first (last - first + 1)
  | _, _ => []
  end.

(** [_iter_requested_tcp_ports]. *)
Definition requested_ports (nmap_arguments : option string) : list Z :=
  match port_spec (default EmptyString nmap_arguments) with
  | None => []
  | Some spec => flat_map port_range (split_on ","%char spec)
  end.

Definition first_ungranted_tcp_port (nmap_arguments : option string) (granted : list Z) : option Z :=
  List.find (fun p => negb (bool_decide (p ∈ granted))) (requested_ports nmap_arguments).

Definition requested_tcp_ports (nmap_arguments : option string) (granted : list Z) : list Z :=
  remove_dups (List.filter (fun p => bool_decide (p ∈ granted)) (requested_ports nmap_arguments)).

(** [config.get(k)] as an integer that is not a boolean. *)
Definition int_setting (k : string) (c : Capabilities.config) : option Z :=
  match dict_get k c with Some (JInt z) => Some z | _ => None end.

(** The bounds and defaults the capability registry states. *)
Definition bound (k : string) : Z * Z := default (0, 0) (dict_get k Capabilities.LOCAL_DISCOVERY_BOUNDS).
Definition default_setting (k : string) : Z := default 0 (int_setting k Capabilities.LOCAL_DISCOVERY_DEFAULT_CONFIG).

Definition MAX_ADDRESSES_PER_JOB : Z := Eval vm_compute in (bound "max_addresses_per_job").2.
Definition DEFAULT_ADDRESS_CEILING : Z := Eval vm_compute in default_setting "max_addresses_per_job".

Definition granted_address_ceiling (c : Capabilities.config) : Z :=
  match int_setting "max_addresses_per_job" c with
  | Some raw => if raw <=? 0 then DEFAULT_ADDRESS_CEILING else Z.min raw MAX_ADDRESSES_PER_JOB
  | None => DEFAULT_ADDRESS_CEILING
  end.

Definition granted_tcp_ports (c : Capabilities.config) : list Z :=
  match dict_get "tcp_ports" c with
  | Some (JList l) => remove_dups (omap (fun v => match v with JInt z => Some z | _ => None end) l)
  | _ => []
  end.

(** [job_nmap_arguments]; [profile_arguments] reads the profile's column. *)
Definition job_nmap_arguments (profile_arguments : Z -> option string) (r : request) : option string :=
  match (l ← label r; if startswith NMAP_OVERRIDE_PREFIX l then Some (String.substring (String.length NMAP_OVERRIDE_PREFIX) (String.length l) l) else None) with
  | Some x => Some x
  | None =>
      match profile_id r with
      | Some p => if p =? 0 then None else
                  match profile_arguments p with Some a => if String.eqb a EmptyString then None else Some a | None => None end
      | None => None
      end
  end.

Definition MIN_JOB_TIMEOUT_S : Z := Eval vm_compute in (bound "job_timeout_seconds").1.
Definition MAX_JOB_TIMEOUT_S : Z := Eval vm_compute in (bound "job_timeout_seconds").2.
Definition DEFAULT_JOB_TIMEOUT_S : Z := Eval vm_compute in default_setting "job_timeout_seconds".

Definition job_timeout_seconds (c : Capabilities.config) : Z :=
  match int_setting "job_timeout_seconds" c with
  | Some raw => Z.max MIN_JOB_TIMEOUT_S (Z.min raw MAX_JOB_TIMEOUT_S)
  | None => DEFAULT_JOB_TIMEOUT_S
  end.

Definition request_ports (nmap_arguments : option string) (granted : list Z) : list Z :=
  match requested_tcp_ports nmap_arguments granted with [] => py_sorted Z.leb granted | l => py_sorted Z.leb l end.
End Discovery.
