(* ===== verification/DiscoveryDispatch.v ===== *)
(** Dispatching a discovery job to its agent
    ([services/discovery_eligibility.py], [services/agent_discovery.py]) and the
    reconciliation pass ([services/agent_discovery_reconcile.py]).

    A dispatch waits twice, for Redis and for the publication, so it is three
    functions: the row as it was read, the claim, and what is made of the claim
    once the agent's eligibility is known. *)
From S2P Require Import Prelude Sha256 Json Canonical Regex Ip AgentScope AgentCapabilities AgentRegistry Redaction ProbeSecrets Monitor ProbeRuns ProbeIngest ProbeLeases ProbeDispatch DiscoveryJobs.
Import Json Ip.
Open Scope Z_scope.

Module DiscoveryDispatch.
Import Dispatch Discovery.
#[local] Open Scope cb_scope.
#[local] Existing Instance Registry.status_eq_dec.

Definition CAPABILITY : string := "local_discovery".
Definition SECOND : Z := 1000000.

Section Dispatching.
Context {T : IpText} {W : Type}.
Variable repr_of : json -> string.
(** [int(v)] of a setting that is not zero-like, [None] for the exception;
    [safe_log_fragment]; the profile's [nmap_arguments]. *)
Variable to_int : json -> option Z.
Variable fragment : string -> string.
Variable profile_arguments : Z -> option string.
Implicit Types s : db W.

Definition reason_text (code : string) (address : option string) : string :=
  match address with None => code | Some a => code +:+ ": " +:+ fragment a end.

(** *** Eligibility *)

Definition discovery_grant_config (e : env) (agent : Z) : Capabilities.config :=
  match structured_grant e agent CAPABILITY with Some (_, c) => c | None => [] end.

Definition derive_discovery_scope (e : env) (agent : Z) (c : Capabilities.config) : result AgentScope.py_error AgentScope.scope :=
  derive_agent_scope repr_of e agent c.

Definition REQUIRED_READINESS_COLLECTORS : list string := ["discovery.tcp"].

(** [_readiness_denial] for one collector, then for all. *)
Definition collector_denial (e : env) (agent now : Z) (collector : string) : option eligibility :=
  let fresh := match readiness e !! (agent, collector) with
               | Some (st, Some t) => if now - READINESS_MAX_AGE <=? t then Some st else None
               | _ => None
               end in
  match fresh with
  | None => Some (denied "readiness_unknown" (Some collector))
  | Some st =>
      if String.eqb st "ready" then None
      else Some (denied (if String.eqb st "degraded" then "readiness_degraded" else "readiness_unavailable") (Some (collector +:+ ":" +:+ st)))
  end.

Definition discovery_readiness_denial (e : env) (agent now : Z) : option eligibility :=
  head (omap (collector_denial e agent now) REQUIRED_READINESS_COLLECTORS).

(** The first target the scope refuses. *)
Fixpoint targets_denial (sc : AgentScope.scope) (targets : list string) : result AgentScope.py_error (option eligibility) :=
  match targets with
  | [] => Ok None
  | cidr :: targets =>
      d ← AgentScope.network_in_scope sc cidr;
      if AgentScope.allowed d then targets_denial sc targets
      else Ok (Some (denied "out_of_scope" (Some (AgentScope.reason d +:+ ":" +:+ default cidr (t ← AgentScope.decided_by d; Probe.or_none t)))))
  end.

Definition discovery_eligibility (e : env) (agent : option Z) (targets : list string) (tenant : option Z) (require_online : bool) (now : Z)
    : result AgentScope.py_error eligibility :=
  match agent with
  | None => Ok (denied "agent_missing" None)
  | Some a =>
      match Registry.agents (registry e) !! a with
      | None => Ok (denied "agent_missing" None)
      | Some row =>
          if negb (bool_decide (Registry.a_status row = Registry.Active))
          then Ok (denied "agent_inactive" (Some (Registry.status_name (Registry.a_status row)))) else
          match structured_grant e a CAPABILITY with
          | Some (true, config) =>
              if require_online && negb (online e a) then Ok (denied "agent_offline" None) else
              if require_online && negb (owned e a) then Ok (denied "no_link_owner" None) else
              match discovery_readiness_denial e a now with
              | Some d => Ok d
              | None =>
                  match tenant_of_agent e a, tenant with
                  | Some t, Some t' =>
                      if negb (t =? t') then Ok (denied "tenant_mismatch" (Some (pretty t' +:+ "!=" +:+ pretty t))) else
                      sc ← derive_discovery_scope e a config;
                      d ← targets_denial sc targets;
                      Ok (default (Eligibility true None None) d)
                  | _, _ =>
                      sc ← derive_discovery_scope e a config;
                      d ← targets_denial sc targets;
                      Ok (default (Eligibility true None None) d)
                  end
              end
          | _ => Ok (denied "capability_disabled" None)
          end
      end
  end.

Inductive location_error := LocationError (agent : Z) (why : string) (d : option string) | PyError (e : AgentScope.py_error).

(** [validate_agent_execution_location], asked when a profile is saved and a job
    created. *)
Definition validate_agent_execution_location (e : env) (agent : option Z) (targets : list string) (nmap_arguments : option string) (tenant : option Z)
    (now : Z) : result location_error unit :=
  match agent with
  | None => Ok tt
  | Some a =>
      match discovery_eligibility e agent targets tenant false now with
      | Err x => Err (PyError x)
      | Ok d =>
          if negb (ok d) then Err (LocationError a (default EmptyString (reason d)) (detail d)) else
          let config := discovery_grant_config e a in
          match first_ungranted_tcp_port nmap_arguments (granted_tcp_ports config) with
          | Some p => Err (LocationError a "port_not_granted" (Some (pretty p)))
          | None =>
              let ceiling := granted_address_ceiling config in
              let count := AgentScope.address_count targets in
              if ceiling <? count then Err (LocationError a "address_limit_exceeded" (Some (pretty count +:+ ">" +:+ pretty ceiling))) else Ok tt
          end
      end
  end.

(** *** The claim *)

(** Queued and without a lease. *)
Definition claimable (j : job) : bool :=
  bool_decide (job_status j = Queued) && (bool_decide (dispatch_status (held j) = None) || bool_decide (dispatch_status (held j) = Some LQueued)).

(** The row a dispatcher starts from. *)
Definition dispatch_read (i : Z) s : option (Z * request) :=
  match jobs s !! i with
  | None => None
  | Some j =>
      match scan_agent_id (asked j) with
      | None => None
      | Some a =>
          if claimable j then Some (a, asked j) else None
      end
  end.

(** What a dispatcher holds after its claim. *)
Record claim := Claim { cl_job : Z; cl_agent : Z; cl_asked : request; cl_token : string; cl_version : string; cl_deadline : Z; cl_config : Capabilities.config }.

Definition token_used (token : string) s : bool := existsb (fun p => bool_decide (dispatch_id (held p.2) = Some token)) (map_to_list (jobs s)).

(** [_claim]: the compare-and-set under [uq_scan_jobs_dispatch_id]. *)
Definition take_lease (i : Z) (token version : string) (deadline now : Z) s : bool * db W :=
  if token_used token s then (false, s) else
  compare_and_set i claimable
    (with_lease Running (Some PHASE_DISPATCHED) EmptyString (Lease (Some token) (Some LDispatched) (Some deadline) (Some version)) (Some now)) s.

Definition ERROR_DISPATCH_FAILED : string := "dispatch_failed".

Definition dispatch_claim (e : env) (i agent : Z) (r : request) (token : string) (now : Z) s : result AgentScope.py_error (option claim * db W) :=
  let n := length (job_targets r) in
  if (MAX_DISCOVERY_TARGETS <? n)%nat
  then Ok (None, (finalize_agent_job i Failed (Some ERROR_DISPATCH_FAILED)
                    (Some (reason_text "target_limit_exceeded" (Some (pretty (Z.of_nat n) +:+ ">" +:+ pretty (Z.of_nat MAX_DISCOVERY_TARGETS))))) now s).2)
  else
    let config := discovery_grant_config e agent in
    sc ← derive_discovery_scope e agent config;
    let deadline := now + job_timeout_seconds config * SECOND in
    let '(hit, s) := take_lease i token (AgentScope.version sc) deadline now s in
    Ok (if hit then Some (Claim i agent r token (AgentScope.version sc) deadline config) else None, s).

(** *** After the claim *)

(** [_lease_clause]. *)
Definition holds_lease (token : string) (j : job) : bool :=
  bool_decide (dispatch_id (held j) = Some token) && bool_decide (dispatch_status (held j) = Some LDispatched) && bool_decide (job_status j = Running).

Definition lease_still_held (i : Z) (token : string) s : bool :=
  match jobs s !! i with Some j => holds_lease token j | None => false end.

Definition DISPATCH_DEADLINE_S : Z := 900.

Definition release_to_waiting (i : Z) (token : string) (now : Z) s : bool * db W :=
  compare_and_set i (holds_lease token)
    (with_lease Queued (Some PHASE_WAITING_FOR_AGENT) EmptyString (Lease None (Some LQueued) (Some (now + DISPATCH_DEADLINE_S * SECOND)) None) None) s.

Definition WAITING_REASONS : list string := ["agent_offline"; "no_link_owner"].
Definition ERROR_AGENT_UNAVAILABLE : string := "agent_unavailable".
Definition ERROR_SCOPE_CHANGED : string := "scope_changed".
Definition ERROR_REASON_FOR_DENIAL : list (string * string) := [("capability_disabled", "capability_disabled"); ("out_of_scope", ERROR_SCOPE_CHANGED)].

(** The [discovery.request] that goes out. *)
Record frame := Frame {
  f_token : string;
  f_job : Z;
  f_targets : list string;
  f_ports : list Z;
  f_host_timeout : Z;
  f_hosts : Z;
  f_version : string;
  f_deadline : Z
}.

(** [int(config.get(k) or 0) or default]. *)
Definition setting_or (k : string) (c : Capabilities.config) : result AgentScope.py_error Z :=
  match dict_get k c with
  | None => Ok (default_setting k)
  | Some v =>
      if falsy v then Ok (default_setting k) else
      match to_int v with
      | Some z => Ok (if z =? 0 then default_setting k else z)
      | None => Err AgentScope.TypeError
      end
  end.

(** [_discovery_request_frame] with the bounds of [DiscoveryRequestPayload]. *)
Definition request_frame (c : claim) (ports : list Z) : result AgentScope.py_error frame :=
  timeout ← setting_or "host_timeout_ms" (cl_config c);
  hosts ← setting_or "max_concurrent_hosts" (cl_config c);
  guard! (length (job_targets (cl_asked c)) <=? MAX_DISCOVERY_TARGETS)%nat && (length ports <=? MAX_DISCOVERY_PORTS)%nat
         && (String.length (cl_version c) <=? 64)%nat && Nat.eqb (String.length (cl_token c)) 32 && str_forallb (fun x => Regex.digit x || (bool_decide (x ∈ list_ascii_of_string "abcdef"))) (cl_token c)
    else AgentScope.ValueError "payload" ;;
  Ok (Frame (cl_token c) (cl_job c) (job_targets (cl_asked c)) ports timeout hosts (cl_version c) (cl_deadline c)).

(** What the dispatcher sends, if anything. *)
Definition dispatch_settle (e : env) (c : claim) (delivered : bool) (now : Z) s : result AgentScope.py_error (option frame * db W) :=
  let fail reason text := Ok (None, (finalize_agent_job (cl_job c) Failed (Some reason) text now s).2) in
  let targets := job_targets (cl_asked c) in
  d ← discovery_eligibility e (Some (cl_agent c)) targets (tenant_id (cl_asked c)) true now;
  if negb (ok d) then
    let why := default EmptyString (reason d) in
    if bool_decide (why ∈ WAITING_REASONS) then Ok (None, (release_to_waiting (cl_job c) (cl_token c) now s).2)
    else fail (default ERROR_AGENT_UNAVAILABLE (dict_get why ERROR_REASON_FOR_DENIAL)) (Some (reason_text why (detail d)))
  else
    let nmap := job_nmap_arguments profile_arguments (cl_asked c) in
    let granted := granted_tcp_ports (cl_config c) in
    match first_ungranted_tcp_port nmap granted with
    | Some p => fail ERROR_DISPATCH_FAILED (Some (reason_text "port_not_granted" (Some (pretty p))))
    | None =>
        let ceiling := granted_address_ceiling (cl_config c) in
        let count := AgentScope.address_count targets in
        if ceiling <? count
        then fail ERROR_DISPATCH_FAILED (Some (reason_text "address_limit_exceeded" (Some (pretty count +:+ ">" +:+ pretty ceiling))))
        else
          f ← request_frame c (request_ports nmap granted);
          if negb (lease_still_held (cl_job c) (cl_token c) s) then Ok (None, s)
          else if negb delivered then fail ERROR_DISPATCH_FAILED None
          else Ok (Some f, s)
    end.

(** [dispatch_discovery_job] when nothing happens in between: whether a request
    was published. *)
Definition dispatch_discovery_job (e : env) (i : Z) (token : string) (delivered : bool) (now : Z) s : result AgentScope.py_error (bool * db W) :=
  match dispatch_read i s with
  | None => Ok (false, s)
  | Some (a, r) =>
      p ← dispatch_claim e i a r token now s;
      match p.1 with
      | None => Ok (false, p.2)
      | Some c => q ← dispatch_settle e c delivered now p.2; Ok (bool_decide (is_Some q.1), q.2)
      end
  end.

(** *** Scope changes *)

(** [_scope_moved_under]. *)
Definition scope_moved_under (sc : AgentScope.scope) (j : job) : result AgentScope.py_error bool :=
  match dispatch_id (held j) with
  | Some _ => Ok (negb (bool_decide (scope_version (held j) = Some (AgentScope.version sc))))
  | None => d ← targets_denial sc (job_targets (asked j)); Ok (bool_decide (is_Some d))
  end.

Fixpoint moved_jobs (sc : AgentScope.scope) (ids : list Z) s : result AgentScope.py_error (list Z) :=
  match ids with
  | [] => Ok []
  | i :: ids =>
      b ← match jobs s !! i with Some j => scope_moved_under sc j | None => Ok false end;
      rest ← moved_jobs sc ids s;
      Ok (if (b : bool) then i :: rest else rest)
  end.

Definition cancel_scope_changed_dispatches (e : env) (agent : Z) (now : Z) s : result AgentScope.py_error (list cancel * db W) :=
  sc ← derive_discovery_scope e agent (discovery_grant_config e agent);
  ids ← moved_jobs sc (open_agent_jobs (Some agent) None s) s;
  Ok (close_jobs ids (Some ERROR_SCOPE_CHANGED) now s).

(** *** Reconciliation *)

Definition LATE_FINDING_GRACE : Z := 30 * SECOND.
Definition EXPIRE_LIMIT : nat := 200.
Definition DRAIN_LIMIT : nat := 200.
Definition ERROR_AGENT_DISCONNECTED : string := "agent_disconnected".

(** [_horizon]. *)
Definition horizon (j : job) (moment : Z) : Z :=
  match deadline_at (held j) with
  | Some d => d
  | None => default moment (created_at (asked j)) + DISPATCH_DEADLINE_S * SECOND
  end.

Definition mark_expired (j : job) : job :=
  Job (asked j) (job_status j) (started_at j) (completed_at j) (progress_phase j) (progress_message j) (error_reason j) (error_text j)
    (Lease (dispatch_id (held j)) (Some LExpired) (deadline_at (held j)) (scope_version (held j))) (counts j).

(** [_expire]. *)
Definition expire (i : Z) (why : string) (now : Z) s : bool * db W :=
  let '(closed, s) := finalize_agent_job i Failed (Some why) (Some why) now s in
  if closed then (true, (compare_and_set i (fun _ => true) mark_expired s).2) else (false, s).

(** The candidates of a pass, oldest id first. *)
Definition candidates (p : job -> bool) s : list Z :=
  take EXPIRE_LIMIT (py_sorted Z.leb (List.filter (fun q => bool_decide (is_Some (scan_agent_id (asked q.2))) && p q.2) (map_to_list (jobs s))).*1).

Fixpoint expire_all (ids : list Z) (cutoff moment : Z) (why : string) s : Z * db W :=
  match ids with
  | [] => (0, s)
  | i :: ids =>
      match jobs s !! i with
      | None => expire_all ids cutoff moment why s
      | Some j =>
          if cutoff <=? horizon j moment then expire_all ids cutoff moment why s else
          let '(hit, s) := expire i why moment s in
          let '(n, s) := expire_all ids cutoff moment why s in
          ((if hit then 1 else 0) + n, s)
      end
  end.

Definition dead_lease (j : job) : bool := is_open j && open_dispatch (dispatch_status (held j)).
Definition parked (j : job) : bool := bool_decide (job_status j = Queued) && bool_decide (progress_phase j = Some PHASE_WAITING_FOR_AGENT).

Definition expire_dead_leases (moment : Z) s : Z * db W :=
  expire_all (candidates dead_lease s) (moment - LATE_FINDING_GRACE) moment ERROR_AGENT_DISCONNECTED s.

Definition expire_parked_jobs (moment : Z) s : Z * db W :=
  expire_all (candidates parked s) moment moment ERROR_AGENT_UNAVAILABLE s.

(** [_drain_queued_jobs] over the candidates; [token] mints the dispatches' tokens,
    [delivered] is what Redis answers, [now] the clock of each dispatch. *)
Fixpoint drain_all (e : env) (token : Z -> string) (delivered : Z -> bool) (now : Z -> Z) (ids : list Z) (slots : Z) s
    : result AgentScope.py_error (Z * Z * db W) :=
  match ids with
  | [] => Ok (0, 0, s)
  | i :: ids =>
      if slots <=? 0 then Ok (0, 0, s) else
      match jobs s !! i with
      | None => drain_all e token delivered now ids slots s
      | Some j =>
          match scan_agent_id (asked j) with
          | None => r ← drain_all e token delivered now ids (slots - 1) s; Ok (r.1.1, r.1.2 + 1, r.2)
          | Some a =>
              if bool_decide (progress_phase j = Some PHASE_WAITING_FOR_AGENT) && negb (online e a) then drain_all e token delivered now ids slots s else
              p ← dispatch_discovery_job e i (token i) (delivered i) (now i) s;
              if negb p.1 then drain_all e token delivered now ids slots p.2
              else r ← drain_all e token delivered now ids (slots - 1) p.2; Ok (r.1.1 + 1, r.1.2, r.2)
          end
      end
  end.

Definition drain_queued_jobs (e : env) (setting : option Z) (token : Z -> string) (delivered : Z -> bool) (now : Z -> Z) s
    : result AgentScope.py_error (Z * Z * db W) :=
  let slots := max_concurrent_scans setting - running_scan_count s in
  if slots <=? 0 then Ok (0, 0, s) else
  drain_all e token delivered now
    (take DRAIN_LIMIT (py_sorted created_le (List.filter (fun p => bool_decide (job_status p.2 = Queued)) (map_to_list (jobs s))))).*1 slots s.

(** [reconcile]: jobs expired, parked jobs given up, dispatched, scheduled. *)
Definition reconcile (e : env) (setting : option Z) (token : Z -> string) (delivered : Z -> bool) (now : Z -> Z) (moment : Z) s
    : result AgentScope.py_error ((Z * Z * Z * Z) * db W) :=
  let '(disconnected, s) := expire_dead_leases moment s in
  let '(unavailable, s) := expire_parked_jobs moment s in
  r ← drain_queued_jobs e setting token delivered now s;
  Ok ((disconnected, unavailable, r.1.1, r.1.2), r.2).
End Dispatching.
End DiscoveryDispatch.
