(* ===== verification/DiscoveryIngest.v ===== *)
(** The ingest of [discovery.finding] ([services/agent_discovery.py]): what is
    judged of a frame before anything is written, and what an accepted finding
    or summary writes.  Other connections may write between the two, so they are
    two functions. *)
From S2P Require Import Prelude Sha256 Json Canonical Regex Ip AgentScope AgentCapabilities AgentRegistry Redaction ProbeSecrets Monitor ProbeRuns ProbeIngest ProbeLeases ProbeDispatch DiscoveryJobs DiscoveryDispatch.
Import Json Ip.
Open Scope Z_scope.

Module DiscoveryIngest.
Import Dispatch Discovery DiscoveryDispatch.
#[local] Open Scope cb_scope.
#[local] Existing Instance Registry.status_eq_dec.

Definition MAX_FINDING_BYTES : Z := 16 * 1024.
Definition SUMMARY_FINDING_ALLOWANCE : Z := 4.
Definition MAX_FINDINGS_PER_DISPATCH : Z := MAX_ADDRESSES_PER_JOB + SUMMARY_FINDING_ALLOWANCE.
Definition DISCOVERY_KIND_HOST : string := "host".
Definition DISCOVERY_KIND_SUMMARY : string := "summary".
Definition EVENT_PROTOCOL_VIOLATION : string := "protocol_violation".
Definition EVENT_CAPABILITY_VIOLATION : string := "capability_violation".

(** [DiscoveryFindingPayload]: what the ingest reads. *)
Record finding := Finding {
  fd_dispatch : string;
  fd_job : Z;
  fd_id : string;
  kind : string;
  ip_address : option string;
  mac_address : option string;
  hostname : option string;
  outcome : option string;
  fd_hosts_found : option Z;
  error_code : option string
}.

Inductive disposition := Accepted | Duplicate | Summary | CancelledDispatch.

(** [InvalidDiscoveryFinding]. *)
Record refusal := InvalidFinding { why : string; event_type : string; audited : bool }.

Section Ingest.
Context {T : IpText} {W : Type}.
Variable repr_of : json -> string.
Variable fragment : string -> string.
(** [DiscoveryFindingPayload.model_validate]. *)
Variable model_validate : list (string * json) -> option finding.
(** How the inventory classifies a finding and what the review queue and the
    enrichment make of it ([discovery_result_service], [discovery_enrich]). *)
Variable classify : W -> request -> finding -> string -> classification.
Variable absorb : W -> request -> finding -> string -> W.
Implicit Types s : db W.

Abbreviation reason_text := (reason_text fragment).

Definition reject (code : string) (address : option string) : refusal := InvalidFinding (reason_text code address) EVENT_PROTOCOL_VIOLATION false.
Definition violation (code : string) (address : option string) : refusal := InvalidFinding (reason_text code address) EVENT_CAPABILITY_VIOLATION false.

Definition validate_finding_payload (v : json) : result refusal finding :=
  match v with
  | JObj fs =>
      guard! Z.of_nat (String.length (Ingest.compact v)) <=? MAX_FINDING_BYTES
        else InvalidFinding ("finding exceeds " +:+ pretty MAX_FINDING_BYTES +:+ " bytes") EVENT_PROTOCOL_VIOLATION false ;;
      match model_validate fs with
      | None => Err (InvalidFinding "payload schema is invalid" EVENT_PROTOCOL_VIOLATION false)
      | Some f =>
          guard! String.eqb (kind f) DISCOVERY_KIND_HOST || String.eqb (kind f) DISCOVERY_KIND_SUMMARY
            else InvalidFinding ("unsupported finding kind " +:+ fragment (kind f)) EVENT_PROTOCOL_VIOLATION false ;;
          Ok f
      end
  | _ => Err (InvalidFinding "payload is not an object" EVENT_PROTOCOL_VIOLATION false)
  end.

(** [_authenticated_job]: the job whose lease the frame quotes. *)
Definition job_of_token (token : string) s : option (Z * job) :=
  List.find (fun p => bool_decide (dispatch_id (held p.2) = Some token)) (map_to_list (jobs s)).

Definition authenticated_job (agent : Z) (tenant : option Z) (f : finding) s : result refusal (Z * job) :=
  match job_of_token (fd_dispatch f) s with
  | None => Err (violation "unknown_dispatch" None)
  | Some (i, j) =>
      guard! bool_decide (scan_agent_id (asked j) = Some agent) else violation "dispatch_owner_mismatch" None ;;
      guard! i =? fd_job f else violation "dispatch_job_mismatch" None ;;
      guard! bool_decide (tenant_id (asked j) = tenant) else violation "tenant_mismatch" None ;;
      Ok (i, j)
  end.

Definition status_name (st : status) : string :=
  match st with Queued => "queued" | Running => "running" | Completed => "completed" | Failed => "failed" | Cancelled => "cancelled" end.
Definition lease_name (st : lease_status) : string :=
  match st with
  | LQueued => "queued" | LDispatched => "dispatched" | LRunning => "running" | LCompleted => "completed"
  | LExecutionError => "execution_error" | LExpired => "expired" | LCancelled => "cancelled"
  end.
Definition shown (j : job) : string := match dispatch_status (held j) with Some l => lease_name l | None => status_name (job_status j) end.

(** Past the lease's deadline and its grace. *)
Definition late (j : job) (now : Z) : bool := match deadline_at (held j) with Some d => d + LATE_FINDING_GRACE <? now | None => false end.

(** [_assert_dispatch_open]. *)
Definition assert_dispatch_open (j : job) (now : Z) (is_summary : bool) : result refusal (option disposition) :=
  if bool_decide (dispatch_status (held j) = Some LCancelled) || bool_decide (job_status j = Cancelled) then
    if is_summary then Ok (Some CancelledDispatch)
    else Err (InvalidFinding (reason_text "dispatch_closed" (Some (shown j))) EVENT_PROTOCOL_VIOLATION true)
  else if negb (open_dispatch (dispatch_status (held j))) || negb (is_open j) then Err (reject "dispatch_closed" (Some (shown j)))
  else if late j now then Err (reject "late_finding" None)
  else Ok None.

Definition normalize_ip (ip : string) : string := match parse_ip (strip ip) with Some a => str_ip a | None => ip end.

Definition in_job_targets (r : request) (address : string) : bool :=
  match parse_ip address with
  | None => false
  | Some a => existsb (fun t => match ip_network false t with Some n => contains n a | None => false end) (job_targets r)
  end.

(** [_authorized_address]; a decision that cannot be read is the exception. *)
Definition authorized_address (j : job) (f : finding) (sc : AgentScope.scope) : result refusal string :=
  match (a ← ip_address f; Probe.or_none a) with
  | None => Err (reject "missing_address" None)
  | Some ip =>
      let address := normalize_ip ip in
      let address := if String.eqb address EmptyString then ip else address in
      guard! in_job_targets (asked j) address else violation "out_of_target" (Some address) ;;
      guard! bool_decide (scope_version (held j) = Some (AgentScope.version sc)) else violation ERROR_SCOPE_CHANGED (Some address) ;;
      match AgentScope.evaluate sc address None with
      | Ok d => guard! AgentScope.allowed d else violation (AgentScope.reason d) (Some address) ;; Ok address
      | Err _ => Err (InvalidFinding EmptyString EVENT_PROTOCOL_VIOLATION false)
      end
  end.

Definition max_findings_per_dispatch (c : Capabilities.config) : Z :=
  match int_setting "max_addresses_per_job" c with
  | Some raw => if raw <=? 0 then MAX_FINDINGS_PER_DISPATCH else Z.min raw MAX_ADDRESSES_PER_JOB + SUMMARY_FINDING_ALLOWANCE
  | None => MAX_FINDINGS_PER_DISPATCH
  end.

Definition dispatch_finding_ceiling (r : request) (c : Capabilities.config) : Z :=
  Z.min (max_findings_per_dispatch c) (AgentScope.address_count (job_targets r) + SUMMARY_FINDING_ALLOWANCE).

(** What a frame was judged to be. *)
Inductive verdict :=
| Ignored (d : disposition)
| Close (i : Z) (j : job) (f : finding)
| Record (i : Z) (r : request) (f : finding) (address : string) (ceiling : Z).

(** [ingest_discovery_finding] up to its first write; [e] gives the agent's
    status, tenant, grant and networks. *)
Definition ingest_read (e : env) (agent : Z) (v : json) (now : Z) s : result refusal verdict :=
  guard! match Registry.agents (registry e) !! agent with
         | Some row => bool_decide (Registry.a_status row = Registry.Active)
         | None => false
         end else reject "agent_inactive" None ;;
  f ← validate_finding_payload v;
  p ← authenticated_job agent (tenant_of_agent e agent) f s;
  let is_summary := String.eqb (kind f) DISCOVERY_KIND_SUMMARY in
  c ← assert_dispatch_open p.2 now is_summary;
  match c with
  | Some d => Ok (Ignored d)
  | None =>
      if is_summary then Ok (Close p.1 p.2 f) else
      let config := discovery_grant_config e agent in
      match derive_discovery_scope repr_of e agent config with
      | Err _ => Err (InvalidFinding EmptyString EVENT_PROTOCOL_VIOLATION false)
      | Ok sc => address ← authorized_address p.2 f sc; Ok (Record p.1 (asked p.2) f address (dispatch_finding_ceiling (asked p.2) config))
      end
  end.

(** *** The terminal summary *)

Definition status_for_outcome (o : string) : status :=
  if String.eqb o "completed" then Completed else if String.eqb o "cancelled" then Cancelled else Failed.

Definition error_for_outcome (o : string) : option string :=
  match status_for_outcome o with
  | Completed | Cancelled => None
  | _ => Some (if String.eqb o "rejected" then "agent_rejected" else "agent_execution_error")
  end.

(** [_summary_error_text]. *)
Definition summary_error_text (j : job) (reason code : option string) : option string :=
  match reason with
  | None => None
  | Some r =>
      match (c ← code; Probe.or_none c) with
      | None => Some r
      | Some c => Some (r +:+ ": " +:+ fragment c
                        +:+ (if String.eqb c "deadline_exceeded" then "; partial_results_retained=" +:+ pretty (finding_count (counts j)) else EmptyString))
      end
  end.

Definition finalize_from_summary (i : Z) (j : job) (f : finding) (now : Z) s : disposition * db W :=
  let o := default EmptyString (outcome f) in
  (Summary, (finalize_agent_job i (status_for_outcome o) (error_for_outcome o) (summary_error_text j (error_for_outcome o) (error_code f)) now s).2).

(** *** A host finding *)

Definition count_finding (c : classification) (now : Z) (t : tally) : tally :=
  Tally (finding_count t + 1) (hosts_found t + 1) (match c with New => hosts_new t + 1 | _ => hosts_new t end)
    (match c with Matched => hosts_updated t + 1 | _ => hosts_updated t end)
    (match c with Conflict => hosts_conflict t + 1 | _ => hosts_conflict t end) (Some now).

Definition set_counts (f : tally -> tally) (j : job) : job :=
  Job (asked j) (job_status j) (started_at j) (completed_at j) (progress_phase j) (progress_message j) (error_reason j) (error_text j) (held j) (f (counts j)).

(** [_close_over_ceiling]; [logged] when the violation window admits another entry. *)
Definition close_over_ceiling (agent i ceiling : Z) (logged : bool) (now : Z) s : db W :=
  let text := reason_text "finding_ceiling_exceeded" (Some (pretty ceiling)) in
  let s := (transition_terminal i Failed (Some "agent_execution_error") (Some text) text now s).2 in
  if logged then add_violation agent text s else s.

(** [_record_host_finding]; a replay or a job that is gone violates a constraint. *)
Definition record_host_finding (agent i : Z) (r : request) (f : finding) (address : string) (ceiling : Z) (logged : bool) (now : Z) s
    : result refusal disposition * db W :=
  if bool_decide (is_Some (results s !! (i, fd_id f))) || negb (bool_decide (is_Some (jobs s !! i))) then (Ok Duplicate, s) else
  let c := classify (inventory s) r f address in
  let s1 := with_results (<[(i, fd_id f) := ScanResult agent (tenant_id r) address c]> (results s)) (absorb (inventory s) r f address) s in
  let '(hit, s2) := compare_and_set i (fun j => finding_count (counts j) <? ceiling) (set_counts (count_finding c now)) s1 in
  if hit then (Ok Accepted, s2)
  else (Err (InvalidFinding (reason_text "finding_ceiling_exceeded" (Some (pretty ceiling))) EVENT_CAPABILITY_VIOLATION true),
        close_over_ceiling agent i ceiling logged now s).

Definition ingest_write (agent : Z) (v : verdict) (logged : bool) (now : Z) s : result refusal disposition * db W :=
  match v with
  | Ignored d => (Ok d, s)
  | Close i j f => let '(d, s) := finalize_from_summary i j f now s in (Ok d, s)
  | Record i r f address ceiling => record_host_finding agent i r f address ceiling logged now s
  end.

(** [ingest_discovery_finding] when nothing happens in between. *)
Definition ingest_discovery_finding (e : env) (agent : Z) (v : json) (logged : bool) (now : Z) s : result refusal disposition * db W :=
  match ingest_read e agent v now s with
  | Err r => (Err r, s)
  | Ok x => ingest_write agent x logged now s
  end.
End Ingest.
End DiscoveryIngest.
