(* ===== verification/DiscoveryHistory.v ===== *)
(** Histories of agent discovery: dispatchers, connections, operators and the
    reconciliation pass in any order, each stopped at any of its waits.  What a
    dispatcher or a connection has read stays true to the row only as far as the
    compare-and-sets make it. *)
From S2P Require Import Prelude Sha256 Json Canonical Regex Ip AgentScope AgentCapabilities AgentRegistry Redaction ProbeSecrets Monitor ProbeRuns ProbeIngest ProbeLeases ProbeDispatch DiscoveryJobs DiscoveryDispatch DiscoveryIngest.
Import Json Ip.
Open Scope Z_scope.

Module DiscoveryHistory.
Import Dispatch Discovery DiscoveryDispatch DiscoveryIngest.

(** *** What the operations do to a row *)

(** A row that may have been closed, but is the same job, was not moved from one
    terminal status to another, and holds no lease it did not hold. *)
Record settles (j j' : job) : Prop := {
  st_asked : asked j' = asked j;
  st_token : dispatch_id (held j') = dispatch_id (held j);
  st_counts : counts j' = counts j;
  st_open : is_open j' = true -> j' = j;
  st_final : is_open j = false -> job_status j' = job_status j
}.

#[export] Instance settles_preorder : PreOrder settles.
Proof.
  split.
  - intros j. by split.
  - intros j1 j2 j3 [A1 B1 C1 O1 F1] [A2 B2 C2 O2 F2]. split; [congruence .. | |].
    + intros H. pose proof (O2 H) as E. subst j3. by apply O1.
    + intros H. assert (is_open j2 = false) as H2 by (destruct (is_open j2) eqn:E; [rewrite (O1 eq_refl) in E; congruence | done]).
      by rewrite F2, F1.
Qed.

Section Rows.
Context {W : Type}.
Implicit Types s : db W.

(** Every job is kept, possibly closed, and nothing else is touched. *)
Record jobs_settle s s' : Prop := {
  js_results : results s' = results s;
  js_inventory : inventory s' = inventory s;
  js_jobs : forall i, option_Forall2 settles (jobs s !! i) (jobs s' !! i);
  js_audit : exists l, audit s' = audit s ++ l /\ NoDup l.*2 /\
    forall i, i ∈ l.*2 -> exists j j', jobs s !! i = Some j /\ is_open j = true /\ jobs s' !! i = Some j' /\ is_open j' = false
}.

Lemma option_settles_refl (o : option job) : option_Forall2 settles o o.
Proof. destruct o; constructor. reflexivity. Qed.

#[export] Instance jobs_settle_refl : Reflexive jobs_settle.
Proof. intros s. split; [done | done | intros i; apply option_settles_refl |]. exists []. rewrite app_nil_r. split_and!; [done | constructor | by intros i ?%elem_of_nil]. Qed.

#[export] Instance jobs_settle_trans : Transitive jobs_settle.
Proof.
  intros s1 s2 s3 [R1 I1 J1 (l1 & A1 & N1 & H1)] [R2 I2 J2 (l2 & A2 & N2 & H2)]. split; [congruence | congruence | |].
  - intros i. specialize (J1 i). specialize (J2 i). destruct J1 as [j1 j2 S12 |]; inversion J2; subst; constructor. by etrans.
  - exists (l1 ++ l2). rewrite A2, A1, app_assoc. rewrite fmap_app. split_and!; [done | |].
    + apply NoDup_app. split_and!; [done | | done]. intros i (j & j' & _ & _ & Hj' & Hc)%H1 (k & k' & Hk & Ho & _)%H2. rewrite Hj' in Hk. by simplify_eq; congruence.
    + intros i [Hi | Hi]%elem_of_app.
      * destruct (H1 i Hi) as (j & j' & Hj & Ho & Hj' & Hc). specialize (J2 i). rewrite Hj' in J2. inversion J2 as [? j3 S |]; subst. exists j, j3. split_and!; try done.
        destruct (is_open j3) eqn:E; [| done]. rewrite (st_open _ _ S E) in E. congruence.
      * destruct (H2 i Hi) as (j2 & j3 & Hj2 & Ho & Hj3 & Hc). specialize (J1 i). rewrite Hj2 in J1. inversion J1 as [j ? S |]; subst. exists j, j3. split_and!; try done.
        by rewrite <- (st_open _ _ S Ho).
Qed.

Lemma settles_closed st ls phase m reason text now j :
  is_open j = true -> open_job st = false -> settles j (set_status st ls phase m reason text now j).
Proof. intros Ho Hst. split; try done; unfold is_open in *; cbn; intros; congruence. Qed.

(** A compare-and-set that closes open jobs. *)
Lemma settle_cas i f s :
  (forall j, is_open j = true -> settles j (f j)) -> jobs_settle s (compare_and_set i is_open f s).2.
Proof.
  intros Hf. unfold compare_and_set. destruct (jobs s !! i) as [j |] eqn:E; [| reflexivity]. destruct (is_open j) eqn:Eo; [| reflexivity].
  split; cbn; [done | done | | exists []; rewrite app_nil_r; split_and!; [done | constructor | by intros ? ?%elem_of_nil]]. intros k. destruct (decide (i = k)) as [<- | Hne].
  - rewrite lookup_insert_eq, E. constructor. by apply Hf.
  - rewrite lookup_insert_ne by done. apply option_settles_refl.
Qed.

Lemma settle_transition i st reason text m now s : open_job st = false -> jobs_settle s (transition_terminal i st reason text m now s).2.
Proof. intros Hst. apply settle_cas. intros j Ho. by apply settles_closed. Qed.

Lemma settle_audit i action s s1 j j' :
  jobs_settle s s1 -> audit s1 = audit s -> jobs s !! i = Some j -> is_open j = true -> jobs s1 !! i = Some j' -> is_open j' = false ->
  jobs_settle s (add_audit action i s1).
Proof.
  intros [R I J _] Ha Hj Ho Hj' Hc. split; [done | done | done |]. exists [(action, i)]. cbn. rewrite Ha. split_and!; [done | apply NoDup_singleton |].
  intros k ->%list_elem_of_singleton. by exists j, j'.
Qed.

Lemma settle_finalize i st reason text now s : open_job st = false -> jobs_settle s (finalize_agent_job i st reason text now s).2.
Proof.
  intros Hst. unfold finalize_agent_job. set (f := set_status _ _ _ _ _ _ _).
  assert (jobs_settle s (compare_and_set i is_open f s).2) as H by (apply settle_cas; intros j Ho; by apply settles_closed).
  destruct (compare_and_set i is_open f s) as [hit s1] eqn:E. cbn [snd] in H. destruct hit; cbn [negb]; [| done]. cbn [snd].
  unfold compare_and_set in E. destruct (jobs s !! i) as [j |] eqn:Ej; [| done]. destruct (is_open j) eqn:Eo; [| done]. injection E as <-.
  assert (forall action, jobs_settle s (add_audit action i (with_jobs (<[i := f j]> (jobs s)) s))) as Ha.
  { intros action. apply (settle_audit i action s _ j (f j)); try done. cbn. by rewrite lookup_insert_eq. }
  destruct st; try done; apply Ha.
Qed.

Lemma settle_close_jobs ids reason now s : jobs_settle s (close_jobs ids reason now s).2.
Proof.
  revert s. induction ids as [| i ids IH]; intros s; cbn [close_jobs]; [reflexivity |].
  pose proof (settle_transition i Cancelled reason reason EmptyString now s eq_refl) as H. destruct (transition_terminal _ _ _ _ _ _ _) as [hit s1]. cbn [snd] in H.
  specialize (IH s1). destruct (close_jobs ids reason now s1) as [rest s2]. cbn [snd] in *. by etrans.
Qed.

Lemma settle_cancel i now s : jobs_settle s (cancel_job_dispatch i now s).2.
Proof.
  unfold cancel_job_dispatch. destruct (jobs s !! i) as [j |]; [| reflexivity]. destruct (scan_agent_id (asked j)); [| reflexivity].
  destruct (is_open j); cbn [negb]; [| reflexivity].
  pose proof (settle_transition i Cancelled None None EmptyString now s eq_refl) as H. by destruct (transition_terminal _ _ _ _ _ _ _).
Qed.

Lemma settle_expire i why now s : jobs_settle s (expire i why now s).2.
Proof.
  unfold expire. pose proof (settle_finalize i Failed (Some why) (Some why) now s eq_refl) as H.
  destruct (finalize_agent_job i Failed (Some why) (Some why) now s) as [c s1] eqn:E. cbn [snd] in H. destruct c; [| done]. cbn [snd]. etrans; [exact H |].
  assert (exists j1, jobs s1 !! i = Some j1 /\ is_open j1 = false) as (j1 & Hj1 & Hc).
  { unfold finalize_agent_job, compare_and_set in E. destruct (jobs s !! i) as [j |]; [| done]. destruct (is_open j); [| done]. cbn in E.
    injection E as <-. cbn. rewrite lookup_insert_eq. by eexists. }
  unfold compare_and_set. rewrite Hj1. cbn [snd]. split; cbn; [done | done | | exists []; rewrite app_nil_r; split_and!; [done | constructor | by intros ? ?%elem_of_nil]]. intros k. destruct (decide (i = k)) as [<- | Hne].
  - rewrite lookup_insert_eq, Hj1. constructor. split; try done. intros Ho. unfold is_open in *. cbn in Ho. congruence.
  - rewrite lookup_insert_ne by done. apply option_settles_refl.
Qed.
End Rows.

(** *** Worlds *)

(** The tables, the dispatchers that hold a claim, what dispatchers have read
    and what connections have judged. *)
Record world (W : Type) := World {
  tables : db W;
  dispatchers : list claim;
  readers : list (Z * (Z * request));
  judged : list (Z * verdict)
}.
Arguments World {W}.
Arguments tables {W}.
Arguments dispatchers {W}.
Arguments readers {W}.
Arguments judged {W}.

(** [Stored] names the job, the finding and the class it was given. *)
Inductive label := Silent | Minted (token : string) | Published (f : frame) | Stored (i : Z) (id : string) (c : classification).

Definition minted (ls : list label) : list string := omap (fun l => match l with Minted t => Some t | _ => None end) ls.
Definition published (ls : list label) : list frame := omap (fun l => match l with Published f => Some f | _ => None end) ls.
Definition stored (ls : list label) : list (Z * classification) := omap (fun l => match l with Stored i _ c => Some (i, c) | _ => None end) ls.

Definition new_job (r : request) : job :=
  Job r Queued None None None EmptyString None None (Lease None None None None) (Tally 0 0 0 0 0 None).

Section Histories.
Context {T : IpText} {W : Type}.
Variable repr_of : json -> string.
Variable to_int : json -> option Z.
Variable fragment : string -> string.
Variable profile_arguments : Z -> option string.
Variable model_validate : list (string * json) -> option finding.
Variable classify : W -> request -> finding -> string -> classification.
Variable absorb : W -> request -> finding -> string -> W.
Implicit Types s : db W.

(** What becomes of a stored row: its class may be decided again and its address
    normalised ([apply_merge]'s accept, [backfill_pending_matched]). *)
Record revised (y y' : scan_result) : Prop := {
  rv_agent : r_agent y' = r_agent y;
  rv_tenant : r_tenant y' = r_tenant y;
  rv_address : rtc (fun x x' => x' = normalize_ip x) (r_address y) (r_address y')
}.

(** Rows revised, or purged by their age. *)
Definition results_kept (m m' : gmap (Z * string) scan_result) : Prop :=
  forall k y', m' !! k = Some y' -> exists y, m !! k = Some y /\ revised y y'.

(** A job of the server's own scanner ([step_server]) is written by it as it
    likes, counters included; [step_review] is the review queue, the startup
    backfill and the purge of old results.  Jobs past the retention period,
    which the purge deletes whole, are not followed. *)
Inductive step : label -> world W -> world W -> Prop :=
| step_create i r s ds rs js : jobs s !! i = None ->
    step Silent (World s ds rs js) (World (with_jobs (<[i := new_job r]> (jobs s)) s) ds rs js)
| step_server i j j' s ds rs js : jobs s !! i = Some j -> scan_agent_id (asked j) = None -> is_open j = true ->
    asked j' = asked j -> held j' = held j ->
    step Silent (World s ds rs js) (World (with_jobs (<[i := j']> (jobs s)) s) ds rs js)
| step_inventory x s ds rs js : step Silent (World s ds rs js) (World (Db (jobs s) (results s) (audit s) (violations s) x) ds rs js)
| step_review m x s ds rs js : results_kept (results s) m -> step Silent (World s ds rs js) (World (with_results m x s) ds rs js)
| step_read i a r s ds rs js : dispatch_read i s = Some (a, r) -> step Silent (World s ds rs js) (World s ds ((i, (a, r)) :: rs) js)
| step_claim e i a r token now c s s' ds rs js : (i, (a, r)) ∈ rs -> dispatch_claim repr_of fragment e i a r token now s = Ok (Some c, s') ->
    step (Minted token) (World s ds rs js) (World s' (c :: ds) rs js)
| step_lost e i a r token now s s' ds rs js : (i, (a, r)) ∈ rs -> dispatch_claim repr_of fragment e i a r token now s = Ok (None, s') ->
    step Silent (World s ds rs js) (World s' ds rs js)
| step_settle e c delivered now o s s' ds ds' rs js :
    dispatch_settle repr_of to_int fragment profile_arguments e c delivered now s = Ok (o, s') ->
    step (match o with Some f => Published f | None => Silent end) (World s (ds ++ c :: ds') rs js) (World s' (ds ++ ds') rs js)
| step_crash c s ds ds' rs js : step Silent (World s (ds ++ c :: ds') rs js) (World s (ds ++ ds') rs js)
| step_close ids why now s ds rs js : step Silent (World s ds rs js) (World (close_jobs ids why now s).2 ds rs js)
| step_cancel i now s ds rs js : step Silent (World s ds rs js) (World (cancel_job_dispatch i now s).2 ds rs js)
| step_expire i why now s ds rs js : step Silent (World s ds rs js) (World (expire i why now s).2 ds rs js)
| step_judge e a v now x s ds rs js : ingest_read repr_of fragment model_validate e a v now s = Ok x ->
    step Silent (World s ds rs js) (World s ds rs ((a, x) :: js))
| step_write a x logged now r s s' ds rs js : (a, x) ∈ js -> ingest_write fragment classify absorb a x logged now s = (r, s') ->
    step (match x, r with Record i rq f addr _, Ok Accepted => Stored i (fd_id f) (classify (inventory s) rq f addr) | _, _ => Silent end) (World s ds rs js) (World s' ds rs js).

Inductive steps : world W -> list label -> world W -> Prop :=
| steps_nil w : steps w [] w
| steps_snoc w0 ls w l w' : steps w0 ls w -> step l w w' -> steps w0 (ls ++ [l]) w'.

(** An installation before its first discovery. *)
Definition initial (x : W) : world W := World (Db ∅ ∅ [] [] x) [] [] [].

(** *** What each waiting operation does *)

Lemma claim_spec e i a r token now c s s' :
  dispatch_claim repr_of fragment e i a r token now s = Ok (Some c, s') ->
  cl_job c = i /\ cl_agent c = a /\ cl_asked c = r /\ cl_token c = token /\ token_used token s = false /\
  exists j l, jobs s !! i = Some j /\ claimable j = true /\
    s' = with_jobs (<[i := with_lease Running (Some PHASE_DISPATCHED) EmptyString l (Some now) j]> (jobs s)) s /\
    dispatch_id l = Some token /\ dispatch_status l = Some LDispatched.
Proof.
  unfold dispatch_claim. destruct (_ <? _)%nat; [done |]. destruct (derive_discovery_scope _ _ _ _) as [sc |]; cbn [mbind result_bind]; [| done].
  unfold take_lease. destruct (token_used token s) eqn:Et; [done |]. unfold compare_and_set. destruct (jobs s !! i) as [j |] eqn:Ej; [| done].
  destruct (claimable j) eqn:Ec; [| done]. intros [= <- <-]. split_and!; try done. exists j. eexists. split_and!; try done; reflexivity.
Qed.

Lemma lost_spec e i a r token now s s' :
  dispatch_claim repr_of fragment e i a r token now s = Ok (None, s') -> jobs_settle s s'.
Proof.
  unfold dispatch_claim. destruct (_ <? _)%nat.
  { intros [= <-]. by apply settle_finalize. }
  destruct (derive_discovery_scope _ _ _ _) as [sc |]; cbn [mbind result_bind]; [| done].
  unfold take_lease. destruct (token_used token s); [intros [= <-]; reflexivity |]. unfold compare_and_set. destruct (jobs s !! i) as [j |]; [| intros [= <-]; reflexivity].
  destruct (claimable j); [done |]. intros [= <-]. reflexivity.
Qed.

(** Giving the claim back. *)
Lemma release_spec i token now s :
  (release_to_waiting i token now s).2 = s \/
  exists j j', jobs s !! i = Some j /\ holds_lease token j = true /\ (release_to_waiting i token now s).2 = with_jobs (<[i := j']> (jobs s)) s /\
    asked j' = asked j /\ counts j' = counts j /\ is_open j' = true /\ dispatch_id (held j') = None.
Proof.
  unfold release_to_waiting, compare_and_set. destruct (jobs s !! i) as [j |]; [| by left]. destruct (holds_lease token j) eqn:E; [| by left].
  right. exists j. eexists. split_and!; try done; reflexivity.
Qed.

(** The request quotes the claim. *)
Lemma frame_spec c ports f :
  request_frame to_int c ports = Ok f ->
  f_job f = cl_job c /\ f_token f = cl_token c /\ f_targets f = job_targets (cl_asked c) /\ f_ports f = ports /\ f_version f = cl_version c.
Proof.
  unfold request_frame. destruct (setting_or to_int "host_timeout_ms" _); cbn [mbind result_bind]; [| done].
  destruct (setting_or to_int "max_concurrent_hosts" _); cbn [mbind result_bind]; [| done]. destruct (_ && _); [| done]. by intros [= <-].
Qed.

Lemma settle_cases e c delivered now o s s' :
  dispatch_settle repr_of to_int fragment profile_arguments e c delivered now s = Ok (o, s') ->
  match o with
  | Some f => s' = s /\ lease_still_held (cl_job c) (cl_token c) s = true /\ f_job f = cl_job c /\ f_token f = cl_token c
  | None => jobs_settle s s' \/ s' = (release_to_waiting (cl_job c) (cl_token c) now s).2
  end.
Proof.
  unfold dispatch_settle. destruct (discovery_eligibility _ _ _ _ _ _ _) as [d |]; cbn [mbind result_bind]; [| done].
  assert (forall why text, jobs_settle s (finalize_agent_job (cl_job c) Failed (Some why) text now s).2) as Hf by (intros; by apply settle_finalize).
  destruct (ok d); cbn [negb].
  - destruct (first_ungranted_tcp_port _ _); [intros [= <- <-]; by left |]. destruct (_ <? _); [intros [= <- <-]; by left |].
    destruct (request_frame _ _ _) as [f |] eqn:Ef; cbn [mbind result_bind]; [| done].
    destruct (lease_still_held _ _ _) eqn:Eh; cbn [negb]; [| intros [= <- <-]; left; reflexivity]. destruct delivered; cbn [negb]; intros [= <- <-]; [| by left].
    by apply frame_spec in Ef as (-> & -> & _).
  - destruct (bool_decide _); intros [= <- <-]; [by right | by left].
Qed.

Lemma write_spec a x logged now r s s' :
  ingest_write fragment classify absorb a x logged now s = (r, s') ->
  match x, r with
  | Record i rq f addr ceiling, Ok Accepted =>
      let c := classify (inventory s) rq f addr in
      results s !! (i, fd_id f) = None /\ exists j now, jobs s !! i = Some j /\ finding_count (counts j) < ceiling /\
        jobs s' = <[i := set_counts (count_finding c now) j]> (jobs s) /\
        results s' = <[(i, fd_id f) := ScanResult a (tenant_id rq) addr c]> (results s) /\ audit s' = audit s
  | _, _ => jobs_settle s s'
  end.
Proof.
  destruct x as [d | i j f | i rq f addr ceiling]; cbn [ingest_write].
  - intros [= <- <-]. reflexivity.
  - unfold finalize_from_summary. intros [= <- <-]. apply settle_finalize. unfold status_for_outcome. by repeat destruct (String.eqb _ _).
  - unfold record_host_finding. destruct (bool_decide_reflect (is_Some (results s !! (i, fd_id f)))) as [Hd | Hd]; cbn [orb]; [intros [= <- <-]; reflexivity |].
    destruct (bool_decide_reflect (is_Some (jobs s !! i))) as [[j Hj] | Hj]; cbn [negb]; [| intros [= <- <-]; reflexivity].
    unfold compare_and_set. cbn [jobs with_results]. rewrite Hj. destruct (Z.ltb_spec (finding_count (counts j)) ceiling).
    + intros [= <- <-]. split; [by apply eq_None_not_Some |]. exists j, now. split_and!; [done | done | reflexivity | reflexivity | done].
    + intros [= <- <-]. unfold close_over_ceiling. set (s1 := (transition_terminal _ _ _ _ _ _ _).2).
      assert (jobs_settle s s1) as H1 by by apply settle_transition. destruct logged; [| done]. destruct H1 as [R I J A]. by split.
Qed.

(** *** One request per job *)

(** Claims hold distinct minted tokens; a published job is closed or still under
    the token it was published with, which no dispatcher holds any more. *)
Record leased (ls : list label) (w : world W) : Prop := {
  le_nodup : NoDup (cl_token <$> dispatchers w);
  le_minted : forall t, t ∈ cl_token <$> dispatchers w -> t ∈ minted ls;
  le_rows : forall i j t, jobs (tables w) !! i = Some j -> dispatch_id (held j) = Some t -> t ∈ minted ls;
  le_claims : forall c, c ∈ dispatchers w -> exists j, jobs (tables w) !! cl_job c = Some j /\ asked j = cl_asked c /\ scan_agent_id (asked j) = Some (cl_agent c);
  le_readers : forall i a r, (i, (a, r)) ∈ readers w -> exists j, jobs (tables w) !! i = Some j /\ asked j = r /\ scan_agent_id r = Some a;
  le_published : forall f, f ∈ published ls -> f_token f ∈ minted ls /\ ~ (f_token f ∈ cl_token <$> dispatchers w) /\
    exists j, jobs (tables w) !! f_job f = Some j /\ is_Some (scan_agent_id (asked j)) /\
      (is_open j = true -> job_status j = Running /\ dispatch_id (held j) = Some (f_token f));
  le_once : NoDup (f_job <$> published ls)
}.

(** Labels that mint and publish nothing. *)
Definition plain (l : label) : Prop := match l with Silent | Stored _ _ _ => True | _ => False end.

Lemma plain_logs ls l : plain l -> minted (ls ++ [l]) = minted ls /\ published (ls ++ [l]) = published ls.
Proof. unfold minted, published. rewrite !omap_app. destruct l; try done; intros _; by rewrite !app_nil_r. Qed.

(** Closing jobs, and losing dispatchers. *)
Lemma leased_settle ls l s s' ds ds' rs js js' :
  plain l -> jobs_settle s s' -> sublist ds' ds -> leased ls (World s ds rs js) -> leased (ls ++ [l]) (World s' ds' rs js').
Proof.
  intros Hl HJ Hds [H1 H2 H3 H4 H5 H6 H7]. destruct (plain_logs ls l Hl) as [E1 E2]. cbn [tables dispatchers readers] in *.
  assert (sublist (cl_token <$> ds') (cl_token <$> ds)) as Htok by by apply fmap_sublist.
  assert (forall i j, jobs s !! i = Some j -> exists j', jobs s' !! i = Some j' /\ settles j j') as Hfw.
  { intros i j Hj. pose proof (js_jobs _ _ HJ i) as H. rewrite Hj in H. inversion H as [? j' S |]; subst. by exists j'. }
  split; rewrite ?E1, ?E2; cbn [tables dispatchers readers]; try done.
  - by eapply sublist_NoDup.
  - intros t Ht. apply H2. by eapply elem_of_sublist.
  - intros i j' t Hj' Ht. pose proof (js_jobs _ _ HJ i) as H. rewrite Hj' in H. inversion H as [j ? S E |]; subst.
    eapply H3; [by symmetry |]. by rewrite <- (st_token _ _ S).
  - intros c Hc. destruct (H4 c) as (j & Hj & Ea & Eg); [by eapply elem_of_sublist |]. destruct (Hfw _ _ Hj) as (j' & Hj' & S). exists j'. rewrite (st_asked _ _ S). by split_and!.
  - intros i a r Hr. destruct (H5 i a r Hr) as (j & Hj & Ea & Eg). destruct (Hfw _ _ Hj) as (j' & Hj' & S). exists j'. rewrite (st_asked _ _ S). by split_and!.
  - intros f Hf. destruct (H6 f Hf) as (Hm & Hn & j & Hj & Hag & Hop). split; [done |]. split; [intros Hin; apply Hn; by eapply elem_of_sublist |].
    destruct (Hfw _ _ Hj) as (j' & Hj' & S). exists j'. rewrite (st_asked _ _ S). split_and!; [done | done |].
    intros Ho. pose proof (st_open _ _ S Ho) as ->. by apply Hop.
Qed.

(** Rewriting one row of the same job. *)
Lemma leased_row ls l s s' ds ds' rs js js' i j j' :
  plain l -> jobs s !! i = Some j -> jobs s' = <[i := j']> (jobs s) -> asked j' = asked j -> sublist ds' ds ->
  (forall t, dispatch_id (held j') = Some t -> t ∈ minted ls) ->
  (forall f, f ∈ published ls -> f_job f = i -> is_open j' = true -> job_status j' = Running /\ dispatch_id (held j') = Some (f_token f)) ->
  leased ls (World s ds rs js) -> leased (ls ++ [l]) (World s' ds' rs js').
Proof.
  intros Hl Hj Ejobs Ea Hds Htok Hpub [H1 H2 H3 H4 H5 H6 H7]. destruct (plain_logs ls l Hl) as [E1 E2]. cbn [tables dispatchers readers] in *.
  assert (sublist (cl_token <$> ds') (cl_token <$> ds)) as Hst by by apply fmap_sublist.
  assert (forall k jk, jobs s !! k = Some jk -> exists jk', jobs s' !! k = Some jk' /\ asked jk' = asked jk) as Hfw.
  { intros k jk Hk. rewrite Ejobs. destruct (decide (i = k)) as [<- | Hne]; [exists j'; rewrite lookup_insert_eq; split; [done | congruence] |].
    exists jk. by rewrite lookup_insert_ne. }
  split; rewrite ?E1, ?E2; cbn [tables dispatchers readers]; try done.
  - by eapply sublist_NoDup.
  - intros t Ht. apply H2. by eapply elem_of_sublist.
  - intros k jk t. rewrite Ejobs, lookup_insert_Some. intros [[<- <-] | [_ Hk]] Ht; [by apply Htok | by eapply H3].
  - intros c Hc. destruct (H4 c) as (x & Hx & Ex & Eg); [by eapply elem_of_sublist |]. destruct (Hfw _ _ Hx) as (x' & Hx' & E). exists x'. rewrite E. by split_and!.
  - intros k a r Hr. destruct (H5 k a r Hr) as (x & Hx & Ex & Eg). destruct (Hfw _ _ Hx) as (x' & Hx' & E). exists x'. rewrite E. by split_and!.
  - intros f Hf. destruct (H6 f Hf) as (Hm & Hn & x & Hx & Hag & Hop). split; [done |]. split; [intros Hin; apply Hn; by eapply elem_of_sublist |].
    rewrite Ejobs. destruct (decide (i = f_job f)) as [Ei | Hne].
    + exists j'. rewrite <- Ei, lookup_insert_eq. assert (x = j) as -> by congruence. rewrite Ea. split_and!; [done | done |]. by apply Hpub.
    + exists x. by rewrite lookup_insert_ne.
Qed.

Lemma holds_spec token j : holds_lease token j = true -> dispatch_id (held j) = Some token /\ job_status j = Running.
Proof. unfold holds_lease. by intros [[H1%bool_decide_eq_true _]%andb_true_iff H2%bool_decide_eq_true]%andb_true_iff. Qed.

(** While a dispatcher holds its token, its job has not been published. *)
Lemma unpublished ls s ds rs js c j :
  leased ls (World s ds rs js) -> c ∈ ds -> jobs s !! cl_job c = Some j -> holds_lease (cl_token c) j = true -> forall f, f ∈ published ls -> f_job f <> cl_job c.
Proof.
  intros H Hc Hj [Ht Hr]%holds_spec f Hf Ef. destruct (le_published _ _ H f Hf) as (_ & Hn & x & Hx & _ & Hop). cbn [tables dispatchers] in *.
  rewrite Ef, Hj in Hx. injection Hx as <-. destruct Hop as [_ E]; [unfold is_open; by rewrite Hr |].
  apply Hn. rewrite Ht in E. injection E as <-. by apply (list_elem_of_fmap_2 cl_token).
Qed.

Lemma tokens_minted_snoc ls l : minted (ls ++ [l]) = minted ls ++ match l with Minted t => [t] | _ => [] end.
Proof. unfold minted. rewrite omap_app. by destruct l. Qed.

Lemma published_snoc ls l : published (ls ++ [l]) = published ls ++ match l with Published f => [f] | _ => [] end.
Proof. unfold published. rewrite omap_app. by destruct l. Qed.

Lemma leased_claim ls e i a r token now c s s' ds rs js :
  (i, (a, r)) ∈ rs -> dispatch_claim repr_of fragment e i a r token now s = Ok (Some c, s') -> token ∉ minted ls ->
  leased ls (World s ds rs js) -> leased (ls ++ [Minted token]) (World s' (c :: ds) rs js).
Proof.
  intros Hr (Ei & Eg & Er & Et & _ & j & l & Hj & Hc & -> & Hl & _)%claim_spec Hnew [H1 H2 H3 H4 H5 H6 H7]. cbn [tables dispatchers readers] in *.
  assert (job_status j = Queued) as Hq by (unfold claimable in Hc; by apply andb_true_iff in Hc as [?%bool_decide_eq_true _]).
  set (j' := with_lease _ _ _ _ _ _).
  assert (forall k jk, jobs s !! k = Some jk -> exists jk', <[i := j']> (jobs s) !! k = Some jk' /\ asked jk' = asked jk) as Hfw.
  { intros k jk Hk. destruct (decide (i = k)) as [<- | Hne]; [exists j'; rewrite lookup_insert_eq; split; [done | by simplify_eq] |]. exists jk. by rewrite lookup_insert_ne. }
  split; rewrite ?tokens_minted_snoc, ?published_snoc, ?app_nil_r; cbn [tables dispatchers readers with_jobs jobs]; try done.
  - rewrite fmap_cons, Et. constructor; [| done]. intros Hin. by apply Hnew, H2.
  - intros t. rewrite fmap_cons, Et, elem_of_app. intros [-> | Ht]%elem_of_cons; [right; by left | left; by apply H2].
  - intros k jk t. rewrite lookup_insert_Some, elem_of_app. intros [[<- <-] | [_ Hk]] Ht; [right | left; by eapply H3].
    cbn in Ht. rewrite Hl in Ht. injection Ht as <-. by left.
  - intros x [-> | Hx]%elem_of_cons.
    + destruct (H5 i a r Hr) as (y & Hy & Ey & Ag). assert (y = j) as -> by congruence. exists j'. rewrite Ei, lookup_insert_eq. cbn. by rewrite Ey, Er, Eg.
    + destruct (H4 x Hx) as (y & Hy & Ey & Ag). destruct (Hfw _ _ Hy) as (y' & Hy' & E). exists y'. rewrite E. by split_and!.
  - intros k b q Hq'. destruct (H5 k b q Hq') as (y & Hy & Ey & Ag). destruct (Hfw _ _ Hy) as (y' & Hy' & E). exists y'. rewrite E. by split_and!.
  - intros f Hf. destruct (H6 f Hf) as (Hm & Hn & x & Hx & Hag & Hop). assert (f_job f <> i) as Hne.
    { intros E. rewrite E, Hj in Hx. injection Hx as <-. destruct Hop as [Hrun _]; [unfold is_open; by rewrite Hq |]. congruence. }
    split_and!; [apply elem_of_app; by left | | exists x; by rewrite lookup_insert_ne].
    rewrite fmap_cons, Et. intros [E | Hin]%elem_of_cons; [| done]. apply Hnew. by rewrite <- E.
Qed.

Lemma sublist_drop1 (ds ds' : list claim) c : sublist (ds ++ ds') (ds ++ c :: ds').
Proof. apply sublist_app; [done | by apply sublist_cons]. Qed.

Lemma leased_settled ls e c delivered now o s s' ds ds' rs js :
  dispatch_settle repr_of to_int fragment profile_arguments e c delivered now s = Ok (o, s') ->
  leased ls (World s (ds ++ c :: ds') rs js) ->
  leased (ls ++ [match o with Some f => Published f | None => Silent end]) (World s' (ds ++ ds') rs js).
Proof.
  intros Hc%settle_cases H. pose proof (sublist_drop1 ds ds' c) as Hsub. assert (c ∈ ds ++ c :: ds') as Hin by (apply elem_of_app; right; by left).
  destruct o as [f |].
  - destruct Hc as (-> & Hheld & Ej & Et). unfold lease_still_held in Hheld. destruct (jobs s !! cl_job c) as [j |] eqn:Hj; [| done].
    pose proof (unpublished ls s _ rs js c j H Hin Hj Hheld) as Hun. destruct (holds_spec _ _ Hheld) as [Ht Hr].
    destruct H as [H1 H2 H3 H4 H5 H6 H7]. cbn [tables dispatchers readers] in *.
    assert (cl_token c ∉ cl_token <$> (ds ++ ds')) as Hfree.
    { rewrite fmap_app, fmap_cons in H1. rewrite fmap_app. rewrite <- Permutation_middle in H1. by apply NoDup_cons in H1 as [? _]. }
    split; rewrite ?tokens_minted_snoc, ?published_snoc, ?app_nil_r; cbn [tables dispatchers readers]; try done.
    + eapply sublist_NoDup; [exact H1 | by apply fmap_sublist].
    + intros t Hx. apply H2. eapply elem_of_sublist; [exact Hx | by apply fmap_sublist].
    + intros x Hx. apply H4. by eapply elem_of_sublist.
    + intros g [Hg | ->%list_elem_of_singleton]%elem_of_app.
      * destruct (H6 g Hg) as (Hm & Hn & Hrest). split_and!; [done | | done]. intros Hx. apply Hn. eapply elem_of_sublist; [exact Hx | by apply fmap_sublist].
      * rewrite Et. split_and!; [apply H2; by apply (list_elem_of_fmap_2 cl_token) | done |]. exists j. rewrite Ej. split_and!; [done | | done].
        destruct (H4 c Hin) as (x & Hx & _ & Hag). rewrite Hj in Hx. injection Hx as <-. by eexists.
    + rewrite fmap_app. apply NoDup_app. split_and!; [done | | apply NoDup_singleton]. intros i (g & -> & Hg)%list_elem_of_fmap Hx%list_elem_of_singleton.
      apply (Hun g Hg). by rewrite Hx.
  - destruct Hc as [Hc | ->]; [by eapply leased_settle |].
    destruct (release_spec (cl_job c) (cl_token c) now s) as [-> | (j & j' & Hj & Hh & -> & Ea & _ & Ho & Hd)]; [by eapply (leased_settle _ _ s s) |].
    eapply (leased_row _ _ s _ _ _ _ _ _ (cl_job c) j j'); try done.
    + intros t. by rewrite Hd.
    + intros f Hf Ef. destruct (unpublished ls s _ rs js c j H Hin Hj Hh f Hf Ef).
Qed.

Lemma leased_more ls s ds rs rs' js js' :
  leased ls (World s ds rs js) -> (forall i a r, (i, (a, r)) ∈ rs' -> (i, (a, r)) ∈ rs \/ dispatch_read i s = Some (a, r)) ->
  leased (ls ++ [Silent]) (World s ds rs' js').
Proof.
  intros [H1 H2 H3 H4 H5 H6 H7] Hr. destruct (plain_logs ls Silent I) as [E1 E2]. split; rewrite ?E1, ?E2; cbn [tables dispatchers readers] in *; try done.
  intros i a r [Hin | Hd]%Hr; [by apply H5 |]. unfold dispatch_read in Hd. destruct (jobs s !! i) as [j |]; [| done].
  destruct (scan_agent_id (asked j)) as [b |] eqn:E; [| done]. destruct (claimable j); [| done]. injection Hd as <- <-. by exists j.
Qed.

(** A change that leaves the jobs alone. *)
Lemma leased_same ls s s' ds rs js : jobs s' = jobs s -> leased ls (World s ds rs js) -> leased (ls ++ [Silent]) (World s' ds rs js).
Proof. intros E [H1 H2 H3 H4 H5 H6 H7]. destruct (plain_logs ls Silent I) as [E1 E2]. split; rewrite ?E1, ?E2; cbn [tables dispatchers readers] in *; rewrite ?E; done. Qed.

Lemma leased_write ls a x logged now r s s' ds rs js :
  ingest_write fragment classify absorb a x logged now s = (r, s') -> leased ls (World s ds rs js) ->
  leased (ls ++ [match x, r with Record i rq f addr _, Ok Accepted => Stored i (fd_id f) (classify (inventory s) rq f addr) | _, _ => Silent end]) (World s' ds rs js).
Proof.
  intros Hw%write_spec H. destruct x as [d | i j f | i rq f addr ceiling]; [by eapply leased_settle .. |].
  destruct r as [[] |]; try by eapply leased_settle.
  destruct Hw as (_ & j & now' & Hj & _ & Ejobs & _). eapply (leased_row _ _ s _ _ _ _ _ _ i j); try done.
  - intros t. by apply (le_rows _ _ H i j).
  - intros g Hg Eg. destruct (le_published _ _ H g Hg) as (_ & _ & y & Hy & _ & Hop). cbn [tables] in Hy. rewrite Eg, Hj in Hy. injection Hy as <-. exact Hop.
Qed.

Lemma leased_step ls l w w' : step l w w' -> NoDup (minted (ls ++ [l])) -> leased ls w -> leased (ls ++ [l]) w'.
Proof.
  intros Hst Hnd H. destruct Hst as [i r s ds rs js Hn | i j j' s ds rs js Hj Hag Ho Ea Eh | x s ds rs js | m x s ds rs js Hm | i a r s ds rs js Hd | e i a r token now c s s' ds rs js Hr Hc
    | e i a r token now s s' ds rs js Hr Hc | e c delivered now o s s' ds ds' rs js Hc | c s ds ds' rs js | ids why now s ds rs js | i now s ds rs js | i why now s ds rs js
    | e a v now x s ds rs js Hj | a x logged now r s s' ds rs js Hx Hw].
  - destruct H as [H1 H2 H3 H4 H5 H6 H7]. destruct (plain_logs ls Silent I) as [E1 E2]. cbn [tables dispatchers readers] in *.
    assert (forall k jk, jobs s !! k = Some jk -> <[i := new_job r]> (jobs s) !! k = Some jk) as Hfw.
    { intros k jk Hk. rewrite lookup_insert_ne; [done |]. intros ->. congruence. }
    split; rewrite ?E1, ?E2; cbn [tables dispatchers readers jobs with_jobs]; try done.
    + intros k jk t. rewrite lookup_insert_Some. intros [[<- <-] | [_ Hk]] Ht; [done | by eapply H3].
    + intros c Hc. destruct (H4 c Hc) as (y & Hy & Hrest). exists y. by rewrite (Hfw _ _ Hy).
    + intros k a q Hq. destruct (H5 k a q Hq) as (y & Hy & Hrest). exists y. by rewrite (Hfw _ _ Hy).
    + intros f Hf. destruct (H6 f Hf) as (Hm & Hnt & y & Hy & Hrest). split_and!; [done | done |]. exists y. by rewrite (Hfw _ _ Hy).
  - eapply (leased_row _ _ s _ _ _ _ _ _ i j j'); try done.
    + intros t. rewrite Eh. by apply (le_rows _ _ H i j).
    + intros f Hf Ef. destruct (le_published _ _ H f Hf) as (_ & _ & y & Hy & [b Hb] & _). cbn [tables] in Hy. rewrite Ef, Hj in Hy. injection Hy as <-. congruence.
  - by apply (leased_same ls s).
  - by apply (leased_same ls s).
  - eapply leased_more; [exact H |]. intros k b q [[= -> -> ->] | Hin]%elem_of_cons; [by right | by left].
  - eapply leased_claim; [done | done | | done]. rewrite tokens_minted_snoc in Hnd. apply NoDup_app in Hnd as (_ & Hnew & _). intros Hin. apply (Hnew token Hin). by left.
  - eapply leased_settle; [done | by eapply lost_spec | done | done].
  - by eapply leased_settled.
  - eapply (leased_settle _ _ s s); [done | reflexivity | apply sublist_drop1 | exact H].
  - eapply leased_settle; [done | apply settle_close_jobs | done | done].
  - eapply leased_settle; [done | apply settle_cancel | done | done].
  - eapply leased_settle; [done | apply settle_expire | done | done].
  - eapply leased_more; [exact H |]. by left.
  - by eapply leased_write.
Qed.
(** *** What a step does to the jobs and the results *)

(** The same job, with the same counters when it is an agent's, not moved out of
    a terminal status. *)
Record keeps (j j' : job) : Prop := {
  kp_asked : asked j' = asked j;
  kp_counts : is_Some (scan_agent_id (asked j)) -> counts j' = counts j;
  kp_final : is_open j = false -> job_status j' = job_status j
}.

Inductive row_step : option job -> option job -> Prop :=
| row_none : row_step None None
| row_new r : row_step None (Some (new_job r))
| row_keeps j j' : keeps j j' -> row_step (Some j) (Some j').

Record quiet s s' : Prop := {
  qu_results : results_kept (results s) (results s');
  qu_rows : forall i, row_step (jobs s !! i) (jobs s' !! i);
  qu_audit : exists l, audit s' = audit s ++ l /\ NoDup l.*2 /\
    forall i, i ∈ l.*2 -> exists j j', jobs s !! i = Some j /\ is_open j = true /\ jobs s' !! i = Some j' /\ is_open j' = false
}.

Lemma row_refl (o : option job) : row_step o o.
Proof. destruct o; constructor. by split. Qed.

Lemma revised_refl y : revised y y.
Proof. by split. Qed.

Lemma results_kept_refl m : results_kept m m.
Proof. intros k y Hy. exists y. split; [done | apply revised_refl]. Qed.

Lemma quiet_settle s s' : jobs_settle s s' -> quiet s s'.
Proof.
  intros [R _ J A]. split; [rewrite R; apply results_kept_refl | | done]. intros i. destruct (J i) as [j j' [Ea _ Ec _ Ef] |]; constructor. by split.
Qed.

(** A change that closes nothing. *)
Lemma quiet_rows s s' : results_kept (results s) (results s') -> audit s' = audit s -> (forall i, row_step (jobs s !! i) (jobs s' !! i)) -> quiet s s'.
Proof. intros R A J. split; [done | done |]. exists []. rewrite app_nil_r. split_and!; [done | constructor | by intros ? ?%elem_of_nil]. Qed.

Lemma quiet_insert s i j' : row_step (jobs s !! i) (Some j') -> quiet s (with_jobs (<[i := j']> (jobs s)) s).
Proof.
  intros H. apply quiet_rows; [apply results_kept_refl | done |]. intros k. cbn. destruct (decide (i = k)) as [<- | Hne]; [by rewrite lookup_insert_eq |].
  rewrite lookup_insert_ne by done. apply row_refl.
Qed.

(** The job was open. *)
Lemma row_open s i j j' : jobs s !! i = Some j -> is_open j = true -> asked j' = asked j -> (is_Some (scan_agent_id (asked j)) -> counts j' = counts j) -> row_step (jobs s !! i) (Some j').
Proof. intros -> Ho Ea Ec. constructor. split; [done | done |]. by rewrite Ho. Qed.

Lemma claimable_open j : claimable j = true -> is_open j = true.
Proof. unfold claimable, is_open. by intros [->%bool_decide_eq_true _]%andb_true_iff. Qed.

Lemma holds_open token j : holds_lease token j = true -> is_open j = true.
Proof. intros [_ H]%holds_spec. unfold is_open. by rewrite H. Qed.

(** A finding that was written. *)
Record stores (w : world W) (a i : Z) (rq : request) (f : finding) (addr : string) (ceiling : Z) (c : classification) (s' : db W) : Prop := {
  sr_judged : (a, Record i rq f addr ceiling) ∈ judged w;
  sr_fresh : results (tables w) !! (i, fd_id f) = None;
  sr_row : exists j now, jobs (tables w) !! i = Some j /\ finding_count (counts j) < ceiling /\
    jobs s' = <[i := set_counts (count_finding c now) j]> (jobs (tables w));
  sr_results : results s' = <[(i, fd_id f) := ScanResult a (tenant_id rq) addr c]> (results (tables w));
  sr_audit : audit s' = audit (tables w)
}.

Lemma settle_quiet e c delivered now o s s' :
  dispatch_settle repr_of to_int fragment profile_arguments e c delivered now s = Ok (o, s') -> quiet s s'.
Proof.
  intros Hc%settle_cases. destruct o as [f |].
  - destruct Hc as (-> & _). by apply quiet_settle.
  - destruct Hc as [Hc | ->]; [by apply quiet_settle |].
    destruct (release_spec (cl_job c) (cl_token c) now s) as [-> | (j & j' & Hj & Hh & -> & Ea & Ec & Ho & Hd)]; [by apply quiet_settle |].
    apply quiet_insert. eapply row_open; [done | by eapply holds_open | done | done].
Qed.

Lemma step_effect l w w' : step l w w' ->
  (forall i id c, l <> Stored i id c) /\ quiet (tables w) (tables w') \/
  exists a i rq f addr ceiling c, l = Stored i (fd_id f) c /\ stores w a i rq f addr ceiling c (tables w').
Proof.
  intros [i r s ds rs js Hn | i j j' s ds rs js Hj Hag Ho Ea Eh | x s ds rs js | m x s ds rs js Hm | i a r s ds rs js Hd | e i a r token now c s s' ds rs js Hr Hc
    | e i a r token now s s' ds rs js Hr Hc | e c delivered now o s s' ds ds' rs js Hc | c s ds ds' rs js | ids why now s ds rs js | i now s ds rs js | i why now s ds rs js
    | e a v now x s ds rs js Hj | a x logged now r s s' ds rs js Hx Hw]; cbn [tables]; try (left; split; [done | by apply quiet_settle]).
  - left; split; [done |]. apply quiet_insert. rewrite Hn. constructor.
  - left; split; [done |]. apply quiet_insert. eapply row_open; try done. rewrite Hag. by intros [? ?].
  - left; split; [done |]. apply quiet_rows; [apply results_kept_refl | done |]. intros i. apply row_refl.
  - left; split; [done |]. apply quiet_rows; [done | done |]. intros i. apply row_refl.
  - left; split; [done |]. apply claim_spec in Hc as (_ & _ & _ & _ & _ & j & ls & Hj & Hc & -> & _). apply quiet_insert. eapply row_open; [done | by apply claimable_open | done | done].
  - left; split; [done |]. eapply quiet_settle, lost_spec, Hc.
  - left; split; [by destruct o | by eapply settle_quiet].
  - left; split; [done |]. apply quiet_settle, settle_close_jobs.
  - left; split; [done |]. apply quiet_settle, settle_cancel.
  - left; split; [done |]. apply quiet_settle, settle_expire.
  - apply write_spec in Hw. destruct x as [d | i j f | i rq f addr ceiling]; try (left; split; [done | by apply quiet_settle]).
    destruct r as [[] |]; try (left; split; [done | by apply quiet_settle]). right. destruct Hw as (Hf & j & now' & Hj & Hlt & Ejobs & Er & Ea).
    eexists a, i, rq, f, addr, ceiling, _. split; [done |]. split; [done | done | | done | done]. by exists j, now'.
Qed.

(** Jobs are never lost nor retargeted, and a closed one keeps its status. *)
Lemma step_job l w w' i j : step l w w' -> jobs (tables w) !! i = Some j ->
  exists j', jobs (tables w') !! i = Some j' /\ asked j' = asked j /\ (is_open j = false -> job_status j' = job_status j).
Proof.
  intros [(_ & [_ Q _]) | (a & k & rq & f & addr & ceiling & c & _ & [_ _ (y & now & Hy & _ & E) _ _])]%step_effect Hj.
  - specialize (Q i). rewrite Hj in Q. inversion Q as [| | ? j' [Ea Ec Ef]]; subst. by exists j'.
  - rewrite E. destruct (decide (k = i)) as [<- | Hne]; [| exists j; by rewrite lookup_insert_ne].
    eexists. rewrite lookup_insert_eq. split; [done |]. by assert (y = j) as -> by congruence.
Qed.
End Histories.
End DiscoveryHistory.
