(* ===== verification/DiscoverySchedule.v ===== *)
(** When discovery may run: the three pause scopes
    ([services/discovery_admission.py]), the routing of a job to the server
    scanner or its agent ([services/discovery_dispatch.py]) and the ceiling of
    concurrent scans ([services/discovery_scheduler.py],
    [services/agent_discovery_reconcile.py]). *)
From S2P Require Import Prelude Sha256 Json Canonical Regex Ip AgentScope AgentCapabilities AgentRegistry Redaction ProbeSecrets Monitor ProbeRuns ProbeIngest ProbeLeases ProbeDispatch DiscoveryJobs DiscoveryDispatch DiscoveryIngest DiscoveryHistory.
Import Json Ip.
Open Scope Z_scope.

Module DiscoverySchedule.
Import Dispatch Discovery DiscoveryDispatch DiscoveryHistory.

(** The columns of [DiscoveryProfile] the gates read. *)
Record profile := Profile { p_agent : option Z; paused_at : option Z; schedule_cron : option string; p_enabled : Z }.

Definition AGENT_DISCOVERY_PAUSE_KEY : string := "auto_discovery_paused".

(** The grant's flag, as [bulk_structured_grants_dict] resolves it. *)
Definition holds_agent (e : env) (a : Z) : bool :=
  match structured_grant e a CAPABILITY with
  | Some (_, config) => match dict_get AGENT_DISCOVERY_PAUSE_KEY config with Some (JBool true) => true | _ => false end
  | None => false
  end.

Definition paused_agent_ids (e : env) (ids : list Z) : list Z := List.filter (holds_agent e) (py_sorted Z.leb (remove_dups ids)).

Definition agent_scheduling_paused (e : env) (fleet : bool) (a : Z) : bool := fleet || bool_decide (a ∈ paused_agent_ids e [a]).

Definition held_by_any_scope (q : profile) (fleet_paused : bool) (held_agents : list Z) : bool :=
  if bool_decide (is_Some (paused_at q)) then true else
  match p_agent q with None => false | Some a => fleet_paused || bool_decide (a ∈ held_agents) end.

Definition has_cron (q : profile) : bool :=
  (p_enabled q =? 1) && match schedule_cron q with Some c => negb (String.eqb c EmptyString) | None => false end.

(** [profiles_due_for_scheduling]; [fleet] is [global_agent_discovery_paused]. *)
Definition profiles_due_for_scheduling (e : env) (fleet : bool) (profiles : list (Z * profile)) : list (Z * profile) :=
  let l := List.filter (fun p => has_cron p.2) profiles in
  let ids := remove_dups (omap (fun p => p_agent p.2) l) in
  let fleet_paused := match ids with [] => false | _ => fleet end in
  let held_agents := paused_agent_ids e ids in
  List.filter (fun p => negb (held_by_any_scope p.2 fleet_paused held_agents)) l.

Definition profile_scheduling_held (e : env) (fleet : bool) (q : profile) : bool :=
  match paused_at q, p_agent q with
  | None, Some a => held_by_any_scope q fleet (paused_agent_ids e [a])
  | _, _ => held_by_any_scope q false []
  end.

Lemma paused_elem e ids a : a ∈ paused_agent_ids e ids <-> a ∈ ids /\ holds_agent e a = true.
Proof. unfold paused_agent_ids. by rewrite list_elem_of_In, filter_In, <- list_elem_of_In, py_sorted_perm, elem_of_remove_dups. Qed.

(** What holds a profile. *)
Definition on_hold (e : env) (fleet : bool) (q : profile) : Prop :=
  is_Some (paused_at q) \/ exists a, p_agent q = Some a /\ (fleet = true \/ holds_agent e a = true).

Lemma held_on_hold e fleet q ids :
  (forall a, p_agent q = Some a -> a ∈ ids) -> held_by_any_scope q fleet (paused_agent_ids e ids) = true <-> on_hold e fleet q.
Proof.
  intros Hids. unfold held_by_any_scope, on_hold. case_bool_decide as Hp; [split; [by left | done] |]. destruct (p_agent q) as [a |].
  - rewrite orb_true_iff, bool_decide_eq_true, paused_elem. split.
    + intros [Hf | [_ Hh]]; right; exists a; auto.
    + intros [H | (b & [= <-] & [Hf | Hh])]; [done | by left | right; auto].
  - split; [done |]. intros [H | (b & Hb & _)]; done.
Qed.

Lemma fire_on_hold e fleet q : profile_scheduling_held e fleet q = true <-> on_hold e fleet q.
Proof.
  unfold profile_scheduling_held, on_hold. destruct (paused_at q) eqn:Ep, (p_agent q) eqn:Ea;
    unfold held_by_any_scope; rewrite Ep, ?Ea, ?(bool_decide_true (is_Some _)) by done; try (split; [by left; eexists | done]).
  - rewrite bool_decide_false by by intros []. rewrite orb_true_iff, bool_decide_eq_true, paused_elem. split.
    + intros [Hf | [_ Hh]]; right; eauto.
    + intros [[] | (b & [= <-] & [Hf | Hh])]; [done | by left | right; split; [by left | done]].
  - rewrite bool_decide_false by by intros []. split; [done |]. intros [[] | (b & Hb & _)]; done.
Qed.

(** The bulk reader of the registration. *)
Lemma due_on_hold e fleet (profiles : list (Z * profile)) i q : (i, q) ∈ profiles -> has_cron q = true ->
  let ids := remove_dups (omap (fun p => p_agent p.2) (List.filter (fun p : Z * profile => has_cron p.2) profiles)) in
  held_by_any_scope q (match ids with [] => false | _ => fleet end) (paused_agent_ids e ids) = true <-> on_hold e fleet q.
Proof.
  intros Hin Hc ids. assert (forall a, p_agent q = Some a -> a ∈ ids) as Hids.
  { intros a Ha. apply elem_of_remove_dups, list_elem_of_omap. exists (i, q). split; [| done]. apply list_elem_of_In, filter_In. by rewrite <- list_elem_of_In. }
  destruct ids as [| a ids'] eqn:E; [| by apply held_on_hold]. unfold held_by_any_scope, on_hold. case_bool_decide; [split; [by left | done] |].
  destruct (p_agent q) as [a |]; [by specialize (Hids a eq_refl); apply elem_of_nil in Hids |]. split; [done |]. by intros [| (a & ? & _)].
Qed.

(** The schedule that is registered and the gate asked when a cron fires agree on
    every profile: one is registered exactly when it is enabled, has a cron and
    would not be held at fire time, and it is held exactly by its own pause or,
    when an agent runs it, by the fleet's or that agent's. *)
Theorem pause_gates_agree e fleet profiles i q : (i, q) ∈ profiles ->
  ((i, q) ∈ profiles_due_for_scheduling e fleet profiles <-> has_cron q = true /\ profile_scheduling_held e fleet q = false) /\
  (profile_scheduling_held e fleet q = true <-> on_hold e fleet q).
Proof.
  intros Hin. split; [| apply fire_on_hold]. unfold profiles_due_for_scheduling. set (l := List.filter _ profiles). cbv zeta.
  rewrite list_elem_of_In, filter_In, <- list_elem_of_In, negb_true_iff. cbn [snd].
  assert ((i, q) ∈ l <-> has_cron q = true) as Hl by (unfold l; rewrite list_elem_of_In, filter_In, <- list_elem_of_In; naive_solver).
  rewrite Hl. split; intros [Hc Hh]; (split; [done |]); apply not_true_iff_false in Hh; apply not_true_iff_false; rewrite fire_on_hold in *; intros Ho; apply Hh.
  - by apply (due_on_hold e fleet profiles i q Hin Hc).
  - by apply (due_on_hold e fleet profiles i q Hin Hc) in Ho.
Qed.

(** *** Routing *)

Section Routing.
Context {T : IpText} {W : Type}.
Variable repr_of : json -> string.
Variable to_int : json -> option Z.
Variable fragment : string -> string.
Variable profile_arguments : Z -> option string.
Implicit Types s : db W.

Definition job_scan_agent_id (i : Z) s : option Z := j ← jobs s !! i; scan_agent_id (asked j).

Definition agent_dispatch_slot_available (setting : option Z) s : bool := running_scan_count s <? max_concurrent_scans setting.

(** [execute_scan_job]; [run_scan_job] is the server scanner. *)
Definition execute_scan_job (run_scan_job : Z -> db W -> db W) (e : env) (setting : option Z) (i : Z) (token : string) (delivered : bool) (now : Z) s
    : result AgentScope.py_error (db W) :=
  match job_scan_agent_id i s with
  | None => Ok (run_scan_job i s)
  | Some _ =>
      if negb (agent_dispatch_slot_available setting s) then Ok s else
      p ← dispatch_discovery_job repr_of to_int fragment profile_arguments e i token delivered now s; Ok p.2
  end.
(** *** The ceiling *)

Definition runs_now (j : job) : Z := if bool_decide (job_status j = Running) then 1 else 0.

(** Replacing a queued row. *)
Lemma running_insert i j x s s' : jobs s !! i = Some j -> job_status j = Queued -> jobs s' = <[i := x]> (jobs s) ->
  running_scan_count s' = running_scan_count s + runs_now x.
Proof.
  intros Hj Hq E. unfold running_scan_count, runs_now. rewrite E. case_bool_decide as Hx.
  - rewrite map_filter_insert_True by done. rewrite map_size_insert_None; [lia |]. apply map_lookup_filter_None. right. intros y Hy. rewrite Hj in Hy. injection Hy as <-.
    cbn. by rewrite Hq.
  - rewrite map_filter_insert_not'; [lia | done |]. intros y Hy. rewrite Hj in Hy. injection Hy as <-. cbn. by rewrite Hq.
Qed.

Lemma claimable_queued j : claimable j = true -> job_status j = Queued.
Proof. unfold claimable. by intros [H%bool_decide_eq_true _]%andb_true_iff. Qed.

Lemma finalize_jobs i st reason text now s j : jobs s !! i = Some j -> is_open j = true ->
  jobs (finalize_agent_job i st reason text now s).2 = <[i := set_status st (lease_status_for st) (phase_for st) (default EmptyString text) reason text now j]> (jobs s).
Proof. intros Hj Ho. unfold finalize_agent_job, compare_and_set. rewrite Hj, Ho. cbn [negb snd]. by destruct st. Qed.

(** What becomes of a claim that still holds its lease. *)
Lemma settled_row e c delivered now o s s' j :
  dispatch_settle repr_of to_int fragment profile_arguments e c delivered now s = Ok (o, s') ->
  jobs s !! cl_job c = Some j -> dispatch_id (held j) = Some (cl_token c) -> dispatch_status (held j) = Some LDispatched -> job_status j = Running ->
  exists z, jobs s' = <[cl_job c := z]> (jobs s) /\ (o = None -> runs_now z = 0).
Proof.
  intros Hs Hj Ht Hd Hr. assert (is_open j = true) as Ho by (unfold is_open; by rewrite Hr).
  assert (holds_lease (cl_token c) j = true) as Hh by (unfold holds_lease; by rewrite !bool_decide_true).
  assert (forall why text, exists z, jobs (finalize_agent_job (cl_job c) Failed (Some why) text now s).2 = <[cl_job c := z]> (jobs s) /\ (o = None -> runs_now z = 0)) as Hf
    by (intros why text; rewrite (finalize_jobs _ _ _ _ _ _ j Hj Ho); eexists; by split).
  unfold dispatch_settle in Hs. destruct (discovery_eligibility _ _ _ _ _ _ _) as [v |]; cbn [mbind result_bind] in Hs; [| done]. destruct (ok v); cbn [negb] in Hs.
  - destruct (first_ungranted_tcp_port _ _); [by injection Hs as <- <- |]. destruct (_ <? _); [by injection Hs as <- <- |].
    destruct (request_frame _ _ _); cbn [mbind result_bind] in Hs; [| done]. unfold lease_still_held in Hs. rewrite Hj, Hh in Hs. cbn [negb] in Hs.
    destruct delivered; cbn [negb] in Hs; injection Hs as <- <-; [| done]. exists j. by rewrite insert_id.
  - destruct (bool_decide _); injection Hs as <- <-; [| done]. unfold release_to_waiting, compare_and_set. rewrite Hj, Hh. eexists. by split.
Qed.

(** Whatever comes of a dispatch that nobody interrupts, the row it claimed runs
    only if its request was published. *)
Lemma dispatch_row e i token delivered now s b s' :
  dispatch_discovery_job repr_of to_int fragment profile_arguments e i token delivered now s = Ok (b, s') ->
  (b = false /\ jobs s' = jobs s) \/
  exists j x, jobs s !! i = Some j /\ job_status j = Queued /\ jobs s' = <[i := x]> (jobs s) /\ (b = false -> runs_now x = 0).
Proof.
  unfold dispatch_discovery_job. destruct (dispatch_read i s) as [[a r] |] eqn:Er; [| intros [= <- <-]; by left].
  unfold dispatch_read in Er. destruct (jobs s !! i) as [j |] eqn:Hj; [| done]. destruct (scan_agent_id (asked j)); [| done].
  destruct (claimable j) eqn:Hc; [| done]. injection Er as <- <-. pose proof (claimable_queued j Hc) as Hq. pose proof (claimable_open j Hc) as Ho.
  destruct (dispatch_claim _ _ _ _ _ _ _ _ _) as [[[c |] s1] |] eqn:Ec; cbn [mbind result_bind fst snd]; [| | done].
  - apply claim_spec in Ec as (Ei & _ & _ & Et & _ & y & l & Hy & _ & -> & Hl & Hld). assert (y = j) as -> by congruence. set (x := with_lease _ _ _ l _ j). set (s1 := with_jobs _ _).
    destruct (dispatch_settle _ _ _ _ _ _ _ _ _) as [[o s2] |] eqn:Es; cbn [mbind result_bind fst snd]; [| done]. intros [= <- <-].
    right. exists j. assert (jobs s1 !! i = Some x) as Hx by (cbn; apply lookup_insert_eq).
    apply (settled_row e c delivered now o s1 s2) with (j := x) in Es; rewrite ?Ei, ?Et in *; [| done | exact Hl | exact Hld | done].
    destruct Es as (z' & Ez & Hz). exists z'. split_and!; [done | done | | intros E%bool_decide_eq_false; apply Hz; by apply eq_None_not_Some]. rewrite Ez. cbn. by rewrite insert_insert_eq.
  - intros [= <- <-]. unfold dispatch_claim in Ec. destruct (_ <? _)%nat.
    + injection Ec as <-. right. exists j. rewrite (finalize_jobs _ _ _ _ _ _ j Hj Ho). eexists. by split_and!.
    + destruct (derive_discovery_scope _ _ _ _); cbn [mbind result_bind] in Ec; [| done]. unfold take_lease in Ec. destruct (token_used token s); [injection Ec as <-; by left |].
      unfold compare_and_set in Ec. by rewrite Hj, Hc in Ec.
Qed.

(** A drain takes no more slots than it found free. *)
Lemma drain_all_bound e token delivered now ids slots s d n s' : 0 <= slots ->
  drain_all repr_of to_int fragment profile_arguments e token delivered now ids slots s = Ok (d, n, s') ->
  0 <= d /\ 0 <= n /\ d + n <= slots /\ running_scan_count s' + n <= running_scan_count s + slots.
Proof.
  revert slots s d n s'. induction ids as [| i ids IH]; intros slots s d n s' Hs; cbn [drain_all]; [intros [= <- <- <-]; lia |].
  destruct (Z.leb_spec slots 0); [intros [= <- <- <-]; lia |]. destruct (jobs s !! i) as [j |] eqn:Hj; [| by apply IH].
  destruct (scan_agent_id (asked j)) as [a |].
  - destruct (_ && _); [by apply IH |]. destruct (dispatch_discovery_job _ _ _ _ _ _ _ _ _ _) as [[b s1] |] eqn:Ed; cbn [mbind result_bind fst snd]; [| done].
    assert (running_scan_count s1 <= running_scan_count s + (if b then 1 else 0)) as Hr.
    { apply dispatch_row in Ed as [[-> E] | (y & x & Hy & Hq & E & Hb)].
      - unfold running_scan_count. rewrite E. lia.
      - rewrite (running_insert i y x s s1 Hy Hq E). destruct b; [unfold runs_now; case_bool_decide; lia |]. rewrite Hb by done. lia. }
    destruct b; cbn [negb]; [| intros HH%IH; lia].
    destruct (drain_all _ _ _ _ _ _ _ _ _ _ _) as [[[d1 n1] s2] |] eqn:Er; cbn [mbind result_bind fst snd]; [| done]. intros [= <- <- <-]. apply IH in Er; lia.
  - destruct (drain_all _ _ _ _ _ _ _ _ _ _ _) as [[[d1 n1] s2] |] eqn:Er; cbn [mbind result_bind fst snd]; [| done]. intros [= <- <- <-]. apply IH in Er; lia.
Qed.

(** a drain of the backlog keeps to the ceiling the operator set for all scans:
    the jobs it dispatched and the server scans it hands out, together with
    what was running, never exceed [max_concurrent_scans], or what was running
    when that was more already; and nothing is started without a free slot. *)
Theorem drain_within_ceiling e setting token delivered now s d n s' :
  drain_queued_jobs repr_of to_int fragment profile_arguments e setting token delivered now s = Ok (d, n, s') ->
  running_scan_count s' + n <= Z.max (max_concurrent_scans setting) (running_scan_count s) /\
  d + n <= Z.max 0 (max_concurrent_scans setting - running_scan_count s).
Proof.
  unfold drain_queued_jobs. destruct (Z.leb_spec (max_concurrent_scans setting - running_scan_count s) 0); [intros [= <- <- <-]; lia |].
  intros Hd%drain_all_bound; lia.
Qed.
End Routing.
End DiscoverySchedule.
