(* ===== verification/DiscoveryTheorems.v ===== *)
(** What agent discovery promises along every history of [DiscoveryHistory]:
    one request per job, final terminal states, counters that are the
    findings stored, findings confined to what was asked and granted when they
    were judged, and dead leases
    that end. *)
From S2P Require Import Prelude Sha256 Json Canonical Regex Ip AgentScope AgentCapabilities AgentRegistry Redaction ProbeSecrets Monitor ProbeRuns ProbeIngest ProbeLeases ProbeDispatch DiscoveryJobs DiscoveryDispatch DiscoveryIngest DiscoveryHistory.
Import Json Ip.
Open Scope Z_scope.

Module DiscoveryTheorems.
Import Dispatch Discovery DiscoveryDispatch DiscoveryIngest DiscoveryHistory.

Section Theorems.
Context {T : IpText} {W : Type}.
Variable repr_of : json -> string.
Variable to_int : json -> option Z.
Variable fragment : string -> string.
Variable profile_arguments : Z -> option string.
Variable model_validate : list (string * json) -> option finding.
Variable classify : W -> request -> finding -> string -> classification.
Variable absorb : W -> request -> finding -> string -> W.
Implicit Types s : db W.

Abbreviation step := (step repr_of to_int fragment profile_arguments model_validate classify absorb).
Abbreviation steps := (steps repr_of to_int fragment profile_arguments model_validate classify absorb).

(** Induction along a history. *)
Lemma history (P : list label -> world W -> Prop) w0 ls w :
  steps w0 ls w -> P [] w0 -> (forall ks l v v', P ks v -> step l v v' -> P (ks ++ [l]) v') -> P ls w.
Proof. induction 1; eauto. Qed.

Lemma leased_always x ls w : steps (initial x) ls w -> NoDup (minted ls) -> leased ls w.
Proof.
  intros Hst. pattern ls, w. eapply history; [exact Hst | |].
  - intros _. split; cbn [initial tables dispatchers readers jobs]; [apply NoDup_nil_2 | by intros ? ?%elem_of_nil | by intros | by intros ? ?%elem_of_nil | by intros ? ? ? ?%elem_of_nil | by intros ? ?%elem_of_nil | apply NoDup_nil_2].
  - intros ks l v v' IH Hs Hnd. eapply leased_step; [exact Hs | done |]. apply IH. unfold minted in *. rewrite omap_app in Hnd. by apply NoDup_app in Hnd as [? _].
Qed.

(** *** One request per job *)

(** C27: whatever dispatchers, reconciliation passes, operators and agents do in
    any order, a job is sent to its agent at most once, and while it is open it
    is under the token of the request that was sent. *)
Theorem one_request_per_job x ls w :
  steps (initial x) ls w -> NoDup (minted ls) ->
  NoDup (f_job <$> published ls) /\
  forall f, f ∈ published ls -> exists j, jobs (tables w) !! f_job f = Some j /\
    (is_open j = true -> job_status j = Running /\ dispatch_id (held j) = Some (f_token f)).
Proof.
  intros Hst Hnd. pose proof (leased_always x ls w Hst Hnd) as H. split; [apply (le_once _ _ H) |].
  intros f Hf. destruct (le_published _ _ H f Hf) as (_ & _ & j & Hj & _ & Ho). by exists j.
Qed.

(** *** Terminal states *)

Definition audited_once (w : world W) : Prop :=
  NoDup (audit (tables w)).*2 /\ forall i, i ∈ (audit (tables w)).*2 -> exists j, jobs (tables w) !! i = Some j /\ is_open j = false.

Lemma step_closed l w w' i j : step l w w' -> jobs (tables w) !! i = Some j -> is_open j = false ->
  exists j', jobs (tables w') !! i = Some j' /\ is_open j' = false.
Proof.
  intros Hs Hj Hc. destruct (step_job _ _ _ _ _ _ _ l w w' i j Hs Hj) as (j' & Hj' & _ & Hf). exists j'. split; [done |].
  unfold is_open in *. by rewrite (Hf Hc).
Qed.

Lemma audited_step l w w' : step l w w' -> audited_once w -> audited_once w'.
Proof.
  intros Hs [Hnd Hcl]. pose proof (fun i j => step_closed l w w' i j Hs) as Hkeep.
  destruct (step_effect _ _ _ _ _ _ _ l w w' Hs) as [(_ & [_ _ (k & Ea & Hk & Hc)]) | (a & i & rq & f & addr & ceiling & c & _ & [_ _ _ _ Ea])]; split; rewrite Ea.
  - rewrite fmap_app. apply NoDup_app. split_and!; [done | | done]. intros i (j & Hj & Hcj)%Hcl (j1 & _ & Hj1 & Ho & _)%Hc. rewrite Hj in Hj1. by simplify_eq; congruence.
  - intros i. rewrite fmap_app. intros [(j & Hj & Hcj)%Hcl | (_ & j' & _ & _ & Hj' & Hcj)%Hc]%elem_of_app; [by eapply Hkeep | by exists j'].
  - done.
  - intros i' (j & Hj & Hcj)%Hcl. by eapply Hkeep.
Qed.

Lemma audited_always x ls w : steps (initial x) ls w -> audited_once w.
Proof.
  intros Hst. pattern ls, w. eapply (history (fun _ => audited_once)); [exact Hst | |].
  - split; [constructor | by intros i ?%elem_of_nil].
  - intros ks l v v' IH Hs. by eapply audited_step.
Qed.

Lemma status_kept w0 ls w i j : steps w0 ls w -> jobs (tables w0) !! i = Some j ->
  exists j', jobs (tables w) !! i = Some j' /\ asked j' = asked j /\ (is_open j = false -> job_status j' = job_status j).
Proof.
  intros Hst Hj. pattern ls, w. eapply (history (fun _ w => exists j', jobs (tables w) !! i = Some j' /\ asked j' = asked j /\ (is_open j = false -> job_status j' = job_status j)));
    [exact Hst | by exists j |].
  intros ks l v v' (j1 & Hj1 & Ea & Hf) Hs. destruct (step_job _ _ _ _ _ _ _ l v v' i j1 Hs Hj1) as (j2 & Hj2 & Ea2 & Hf2). exists j2. split_and!; [done | congruence |].
  intros Ho. rewrite Hf2; [by apply Hf |]. unfold is_open in *. by rewrite (Hf Ho).
Qed.

(** a job that ended stays ended the way it did, whatever is in flight: a
    cancelled job is not completed by a late summary, a completed one not
    cancelled; what it was asked is never changed, and its end is audited at
    most once. *)
Theorem terminal_is_final x ls w ks w' i j :
  steps (initial x) ls w -> steps w ks w' -> jobs (tables w) !! i = Some j -> is_open j = false ->
  exists j', jobs (tables w') !! i = Some j' /\ job_status j' = job_status j /\ asked j' = asked j /\
    NoDup (audit (tables w')).*2.
Proof.
  intros H1 H2 Hj Hc. destruct (status_kept w ks w' i j H2 Hj) as (j' & Hj' & Ea & Hf). exists j'. split_and!; [done | by apply Hf | done |].
  refine (proj1 (history (fun _ => audited_once) w ks w' H2 (audited_always x ls w H1) _)). intros ? l v v' IH Hs. by eapply audited_step.
Qed.
(** *** The counters *)

(** The findings stored for a job along a history, in all or in one class. *)
Definition is_class (c : classification) (o : option classification) : bool :=
  match o, c with None, _ | Some New, New | Some Matched, Matched | Some Conflict, Conflict => true | _, _ => false end.
Definition counted (i : Z) (o : option classification) (p : Z * classification) : bool := (p.1 =? i) && is_class p.2 o.
Definition taken (i : Z) (o : option classification) (ls : list label) : Z := Z.of_nat (length (List.filter (counted i o) (stored ls))).

(** The rows of a job that are still there. *)
Definition rows (i : Z) s : Z := Z.of_nat (size (filter (fun k : Z * string => k.1 = i) (dom (results s)))).

Definition limit (r : request) : Z := Z.min MAX_FINDINGS_PER_DISPATCH (AgentScope.address_count (job_targets r) + SUMMARY_FINDING_ALLOWANCE).

(** The counters of an agent's job are the findings that were stored for it. *)
Record tallied (i : Z) (j : job) (ls : list label) s : Prop := {
  ta_count : finding_count (counts j) = taken i None ls;
  ta_found : hosts_found (counts j) = taken i None ls;
  ta_new : hosts_new (counts j) = taken i (Some New) ls;
  ta_updated : hosts_updated (counts j) = taken i (Some Matched) ls;
  ta_conflict : hosts_conflict (counts j) = taken i (Some Conflict) ls;
  ta_limit : finding_count (counts j) <= limit (asked j);
  ta_rows : rows i s <= finding_count (counts j)
}.

(** Normalised any number of times. *)
Definition readdressed : string -> string -> Prop := rtc (fun x x' => x' = normalize_ip x).

(** A stored row is of a finding that was judged. *)
Definition judged_row (w : world W) (i : Z) (k : string) (y : scan_result) : Prop :=
  exists r f addr ceiling, (r_agent y, Record i r f addr ceiling) ∈ judged w /\ fd_id f = k /\ r_tenant y = tenant_id r /\ readdressed addr (r_address y).

Record accounted (ls : list label) (w : world W) : Prop := {
  ac_jobs : forall i j, jobs (tables w) !! i = Some j -> is_Some (scan_agent_id (asked j)) -> tallied i j ls (tables w);
  ac_stored : forall i c, (i, c) ∈ stored ls -> is_Some (jobs (tables w) !! i);
  ac_results : forall i k y, results (tables w) !! (i, k) = Some y -> judged_row w i k y;
  ac_judged : forall a i r f addr ceiling, (a, Record i r f addr ceiling) ∈ judged w ->
    exists j, jobs (tables w) !! i = Some j /\ asked j = r /\ scan_agent_id r = Some a /\ in_job_targets r addr = true /\ ceiling <= limit r
}.

Lemma stored_snoc ls l : stored (ls ++ [l]) = stored ls ++ match l with Stored i _ c => [(i, c)] | _ => [] end.
Proof. unfold stored. rewrite omap_app. by destruct l. Qed.

Lemma taken_snoc i o ls l :
  taken i o (ls ++ [l]) = taken i o ls + match l with Stored k _ c => if counted i o (k, c) then 1 else 0 | _ => 0 end.
Proof.
  unfold taken. rewrite stored_snoc, List.filter_app, length_app. destruct l as [| | | k id c]; cbn [List.filter length]; try lia.
  destruct (counted i o (k, c)); cbn [length]; lia.
Qed.

Lemma taken_absent i o ls : (forall c, (i, c) ∉ stored ls) -> taken i o ls = 0.
Proof.
  intros H. unfold taken. induction (stored ls) as [| [k c] l IH]; cbn [List.filter]; [done |].
  unfold counted at 1. cbn [fst snd]. destruct (Z.eqb_spec k i) as [-> |]; cbn [andb].
  - destruct (H c). by left.
  - apply IH. intros c' Hc. apply (H c'). by right.
Qed.

(** Revising rows and purging them leaves no more of them. *)
Lemma rows_kept i s s' : results_kept (results s) (results s') -> rows i s' <= rows i s.
Proof.
  intros H. unfold rows. apply inj_le, subseteq_size. intros k. rewrite !elem_of_filter, !elem_of_dom. intros [Hi [y' Hy']].
  destruct (H k y' Hy') as (y & Hy & _). split; [done | by exists y].
Qed.

Lemma rows_insert i s s' k kid x : results s' = <[(k, kid) := x]> (results s) -> rows i s' <= rows i s + (if k =? i then 1 else 0).
Proof.
  intros E. unfold rows. rewrite E, dom_insert_L, filter_union_L by apply _. set (X := filter _ (dom (results s))). destruct (Z.eqb_spec k i) as [-> | Hne].
  - pose proof (size_union_alt (filter (fun k : Z * string => k.1 = i) {[(i, kid)]}) X) as H.
    pose proof (subseteq_size (filter (fun k : Z * string => k.1 = i) {[(i, kid)]}) ({[(i, kid)]} : gset (Z * string)) ltac:(set_solver)) as H1.
    pose proof (subseteq_size (X ∖ filter (fun k : Z * string => k.1 = i) {[(i, kid)]}) X ltac:(set_solver)). rewrite size_singleton in H1. lia.
  - assert (filter (fun k : Z * string => k.1 = i) ({[(k, kid)]} : gset (Z * string)) = ∅) as -> by set_solver. rewrite (left_id_L ∅ (∪)). lia.
Qed.

Lemma rows_absent i s : (forall k y, results s !! (i, k) = Some y -> False) -> rows i s = 0.
Proof.
  intros H. unfold rows. assert (filter (fun k : Z * string => k.1 = i) (dom (results s)) = ∅) as ->; [| done].
  apply set_eq. intros [k kid]. rewrite elem_of_filter, elem_of_dom. cbn. split; [| set_solver]. intros [-> [y Hy]]. by destruct (H kid y).
Qed.

Lemma covered_nonneg nets : 0 <= AgentScope.covered nets.
Proof.
  unfold AgentScope.covered. induction (AgentScope.outermost nets) as [| n l IH]; cbn; [done |]. unfold AgentScope.num_addresses at 1.
  pose proof (Z.pow_nonneg 2 (host_bits n)). lia.
Qed.

Lemma limit_nonneg r : 0 <= limit r.
Proof. unfold limit, AgentScope.address_count. pose proof (covered_nonneg). unfold MAX_FINDINGS_PER_DISPATCH, SUMMARY_FINDING_ALLOWANCE. apply Z.min_glb; [done |]. repeat apply Z.add_nonneg_nonneg; auto. done. Qed.

Lemma ceiling_limit r c : dispatch_finding_ceiling r c <= limit r.
Proof.
  unfold dispatch_finding_ceiling, limit. apply Z.min_le_compat_r. unfold max_findings_per_dispatch, MAX_FINDINGS_PER_DISPATCH.
  destruct (int_setting _ _) as [z |]; [| done]. destruct (_ <=? _); [done |]. lia.
Qed.
(** *** What a connection may record *)

Lemma token_spec token i j s : job_of_token token s = Some (i, j) -> jobs s !! i = Some j /\ dispatch_id (held j) = Some token.
Proof. unfold job_of_token. intros [H1 H2%bool_decide_eq_true]%find_some. split; [| done]. apply elem_of_map_to_list. by apply list_elem_of_In. Qed.

Lemma authenticated_spec a t f i j s : authenticated_job fragment a t f s = Ok (i, j) ->
  jobs s !! i = Some j /\ dispatch_id (held j) = Some (fd_dispatch f) /\ scan_agent_id (asked j) = Some a /\ i = fd_job f /\ tenant_id (asked j) = t.
Proof.
  unfold authenticated_job. destruct (job_of_token _ _) as [[k y] |] eqn:E; [| done]. apply token_spec in E as [Hj Ht].
  case_bool_decide; [| done]. destruct (Z.eqb_spec k (fd_job f)); [| done]. case_bool_decide; [| done]. intros [= <- <-]. by split_and!.
Qed.

Lemma open_spec j now b : assert_dispatch_open fragment j now b = Ok None ->
  is_open j = true /\ open_dispatch (dispatch_status (held j)) = true /\ late j now = false.
Proof.
  unfold assert_dispatch_open. destruct (bool_decide _ || bool_decide _); [by destruct b |].
  destruct (open_dispatch _), (is_open j); cbn [negb orb]; try done. by destruct (late j now).
Qed.

Lemma authorized_spec j f sc addr : authorized_address fragment j f sc = Ok addr ->
  in_job_targets (asked j) addr = true /\ scope_version (held j) = Some (AgentScope.version sc) /\
  exists d, AgentScope.evaluate sc addr None = Ok d /\ AgentScope.allowed d = true.
Proof.
  unfold authorized_address. destruct (mbind _ _) as [ip |]; [| done].
  match goal with |- context [in_job_targets _ ?a] => set (x := a) end. destruct (in_job_targets _ x) eqn:E1; [| done]. case_bool_decide; [| done].
  destruct (AgentScope.evaluate sc x None) as [d |] eqn:E2; [| done]. destruct (AgentScope.allowed d) eqn:E3; [| done]. intros [= <-]. split_and!; [done | done |]. by exists d.
Qed.

(** Everything a recorded finding was checked against. *)
Record admits (e : env) (a now i : Z) (f : finding) (addr : string) (ceiling : Z) (j : job) (sc : AgentScope.scope) : Prop := {
  ad_active : exists row, Registry.agents (registry e) !! a = Some row /\ Registry.a_status row = Registry.Active;
  ad_token : dispatch_id (held j) = Some (fd_dispatch f);
  ad_agent : scan_agent_id (asked j) = Some a;
  ad_tenant : tenant_id (asked j) = tenant_of_agent e a;
  ad_open : is_open j = true /\ open_dispatch (dispatch_status (held j)) = true /\ late j now = false;
  ad_target : in_job_targets (asked j) addr = true;
  ad_scope : derive_discovery_scope repr_of e a (discovery_grant_config e a) = Ok sc;
  ad_version : scope_version (held j) = Some (AgentScope.version sc);
  ad_allowed : exists d, AgentScope.evaluate sc addr None = Ok d /\ AgentScope.allowed d = true;
  ad_ceiling : ceiling = dispatch_finding_ceiling (asked j) (discovery_grant_config e a)
}.

Lemma record_spec e a v now i r f addr ceiling s :
  ingest_read repr_of fragment model_validate e a v now s = Ok (Record i r f addr ceiling) ->
  exists j sc, jobs s !! i = Some j /\ asked j = r /\ admits e a now i f addr ceiling j sc.
Proof.
  unfold ingest_read. destruct (Registry.agents _ !! a) as [row |] eqn:Erow; [| done]. case_bool_decide as Hact; [| done].
  destruct (validate_finding_payload _ _ _) as [g |]; cbn [mbind result_bind]; [| done].
  destruct (authenticated_job _ _ _ _ _) as [[k j] |] eqn:Eau; cbn [mbind result_bind fst snd]; [| done]. apply authenticated_spec in Eau as (Hj & Ht & Ha & _ & Hte).
  destruct (assert_dispatch_open _ _ _ _) as [[d |] |] eqn:Eo; cbn [mbind result_bind]; [done | | done]. apply open_spec in Eo.
  destruct (String.eqb _ _); [done |]. destruct (derive_discovery_scope _ _ _ _) as [sc |] eqn:Esc; [| done].
  destruct (authorized_address _ _ _ _) as [x |] eqn:Ead; cbn [mbind result_bind]; [| done]. apply authorized_spec in Ead as (H1 & H2 & H3).
  intros [= <- <- <- <- <-]. exists j, sc. split_and!; [done | done |]. split; try done. by exists row.
Qed.

Lemma judged_spec e a v now i r f addr ceiling s :
  ingest_read repr_of fragment model_validate e a v now s = Ok (Record i r f addr ceiling) ->
  exists j, jobs s !! i = Some j /\ asked j = r /\ scan_agent_id r = Some a /\ in_job_targets r addr = true /\ ceiling <= limit r.
Proof.
  intros (j & sc & Hj & <- & H)%record_spec. exists j. split_and!; [done | done | by apply (ad_agent _ _ _ _ _ _ _ _ _ H) | by apply (ad_target _ _ _ _ _ _ _ _ _ H) |].
  rewrite (ad_ceiling _ _ _ _ _ _ _ _ _ H). apply ceiling_limit.
Qed.

Lemma tallied_same i j j' ls l s s' :
  (forall id c, l <> Stored i id c) -> asked j' = asked j -> counts j' = counts j -> rows i s' <= rows i s -> tallied i j ls s -> tallied i j' (ls ++ [l]) s'.
Proof.
  intros Hl Ea Ec Er [H1 H2 H3 H4 H5 H6 H7].
  assert (forall o, taken i o (ls ++ [l]) = taken i o ls) as Ht.
  { intros o. rewrite taken_snoc. destruct l as [| | | k id c]; try lia. unfold counted. cbn [fst snd]. destruct (Z.eqb_spec k i) as [-> |]; cbn [andb]; [| lia]. by destruct (Hl id c). }
  split; rewrite ?Ec, ?Ea, ?Ht; try done. lia.
Qed.

Lemma tallied_new i r ls s :
  (forall c, (i, c) ∉ stored ls) -> (forall k x, results s !! (i, k) = Some x -> False) -> tallied i (new_job r) ls s.
Proof. intros Hs Hr. split; rewrite ?(taken_absent i _ ls Hs), ?rows_absent by done; cbn; try done. apply limit_nonneg. Qed.

Lemma tallied_count i j ls s s' kid x c now ceiling :
  results s' = <[(i, kid) := x]> (results s) -> finding_count (counts j) < ceiling -> ceiling <= limit (asked j) -> tallied i j ls s ->
  tallied i (set_counts (count_finding c now) j) (ls ++ [Stored i kid c]) s'.
Proof.
  intros E Hlt Hle [H1 H2 H3 H4 H5 H6 H7]. pose proof (rows_insert i s s' i kid _ E) as Hr. rewrite Z.eqb_refl in Hr.
  split; rewrite ?taken_snoc; unfold counted; cbn [set_counts counts asked count_finding finding_count hosts_found hosts_new hosts_updated hosts_conflict fst snd];
    rewrite ?Z.eqb_refl; cbn [andb]; try lia; destruct c; cbn [is_class]; lia.
Qed.

Lemma judged_step l w w' p : step l w w' -> p ∈ judged w' -> p ∈ judged w \/
  exists e v now, ingest_read repr_of fragment model_validate e p.1 v now (tables w) = Ok p.2.
Proof.
  intros Hs Hp. destruct Hs as [| | | | | | | | | | | | e a v now x s ds rs js Hj |]; try by left.
  cbn [judged] in *. apply elem_of_cons in Hp as [-> | Hp]; [right; by exists e, v, now | by left].
Qed.

Lemma judged_kept l w w' p : step l w w' -> p ∈ judged w -> p ∈ judged w'.
Proof. intros Hs Hp. destruct Hs; try done. cbn [judged] in *. by right. Qed.

Lemma judged_row_step l w w' i k y y' : step l w w' -> revised y y' -> judged_row w i k y -> judged_row w' i k y'.
Proof.
  intros Hs [Ea Et Er] (r & f & addr & ceiling & Hin & Hk & Hte & Hr). exists r, f, addr, ceiling. rewrite Ea, Et.
  split_and!; [by eapply judged_kept | done | done |]. unfold readdressed in *. by etrans.
Qed.

Lemma accounted_jobs ls l w w' : step l w w' -> accounted ls w ->
  forall i j, jobs (tables w') !! i = Some j -> is_Some (scan_agent_id (asked j)) -> tallied i j (ls ++ [l]) (tables w').
Proof.
  intros Hs [HJ HS HR HD] i j Hj Hag.
  destruct (step_effect _ _ _ _ _ _ _ l w w' Hs) as [(Hno & [Er Hrow _]) | (a & k & rq & f & addr & ceiling & c & -> & [Hin Hf (y & now & Hy & Hlt & Ej) Er _])].
  - specialize (Hrow i). rewrite Hj in Hrow. inversion Hrow as [| r E1 E2 | y ? [Ea Ec _] E1]; subst.
    + apply tallied_new.
      * intros c. rewrite stored_snoc, elem_of_app. intros [[x Hx]%HS | Hx]; [congruence |]. destruct l as [| | | k id c']; try by apply elem_of_nil in Hx. by destruct (Hno k id c').
      * intros kid x (y & Hy & _)%Er. destruct (HR _ _ _ Hy) as (r' & f & addr & ceiling & (y' & Hy' & _)%HD & _). congruence.
    + rewrite Ea in Hag. eapply tallied_same; [by apply Hno | done | by apply Ec | by apply rows_kept | by apply HJ].
  - destruct (HD _ _ _ _ _ _ Hin) as (y' & Hy' & <- & Hy'a & _ & Hle). assert (y' = y) as -> by congruence.
    rewrite Ej in Hj. apply lookup_insert_Some in Hj as [[<- <-] | [Hne Hj]].
    + eapply tallied_count; [done | done | done |]. apply HJ; [done | by eexists].
    + eapply tallied_same; [intros id c'; congruence | done | done | | by apply HJ]. pose proof (rows_insert i _ _ _ _ _ Er) as H. destruct (Z.eqb_spec k i); [done | lia].
Qed.

Lemma accounted_step ls l w w' : step l w w' -> accounted ls w -> accounted (ls ++ [l]) w'.
Proof.
  intros Hs Ha. pose proof (accounted_jobs ls l w w' Hs Ha) as HJ'. destruct Ha as [HJ HS HR HD].
  pose proof (fun i j => step_job _ _ _ _ _ _ _ l w w' i j Hs) as Hkeep. split; [exact HJ' | | |].
  - destruct (step_effect _ _ _ _ _ _ _ l w w' Hs) as [(Hno & _) | (a & k & rq & f & addr & ceiling & c & -> & [_ _ (y & now & Hy & _ & Ej) _ _])]; intros i c'; rewrite stored_snoc, elem_of_app.
    + intros [[x Hx]%HS | Hx]; [destruct (Hkeep i x Hx) as (x' & Hx' & _); by exists x' |]. destruct l as [| | | k id c]; try by apply elem_of_nil in Hx. by destruct (Hno k id c).
    + intros [[x Hx]%HS | [= -> ->]%list_elem_of_singleton]; [destruct (Hkeep i x Hx) as (x' & Hx' & _); by exists x' |]. destruct (Hkeep k y Hy) as (x' & Hx' & _). by exists x'.
  - destruct (step_effect _ _ _ _ _ _ _ l w w' Hs) as [(_ & [Er _ _]) | (a & k & rq & f & addr & ceiling & c & _ & [Hin Hf _ Er _])]; intros i kid y'.
    + intros (y & Hy & Hrv)%Er. eapply judged_row_step; [done | done | by apply HR].
    + rewrite Er. intros [[[= <- <-] <-] | [_ Hy]]%lookup_insert_Some.
      * exists rq, f, addr, ceiling. split_and!; [by eapply judged_kept | done | done | apply rtc_refl].
      * eapply judged_row_step; [done | apply revised_refl | by apply HR].
  - intros a i r f addr ceiling [Hin | (e & v & now & Hr)]%(judged_step l w w' _ Hs).
    + destruct (HD _ _ _ _ _ _ Hin) as (y & Hy & Er & Hrest). destruct (Hkeep i y Hy) as (j' & Hj' & Ea & _). exists j'. rewrite Ea. exact (conj Hj' (conj Er Hrest)).
    + cbn [fst snd] in Hr. apply judged_spec in Hr as (y & Hy & Er & Hrest). destruct (Hkeep i y Hy) as (j' & Hj' & Ea & _). exists j'. rewrite Ea. exact (conj Hj' (conj Er Hrest)).
Qed.

Lemma accounted_always x ls w : steps (initial x) ls w -> accounted ls w.
Proof.
  intros Hst. pattern ls, w. eapply history; [exact Hst | |].
  - split; cbn; [by intros i j | by intros i c ?%elem_of_nil | by intros i k y | by intros ? ? ? ? ? ? ?%elem_of_nil].
  - intros ks l v v' IH Hs. by eapply accounted_step.
Qed.


(** *** Confinement *)

(** What a judgement to record the finding rests on. *)
Definition confined (e : env) (a now i : Z) (r : request) (f : finding) (addr : string) s : Prop :=
  let config := discovery_grant_config e a in
  exists j x y,
    (jobs s !! i = Some j /\ asked j = r /\ dispatch_id (held j) = Some (fd_dispatch f) /\ is_open j = true /\ late j now = false /\
     scan_agent_id r = Some a /\ tenant_id r = tenant_of_agent e a) /\
    (exists sc, derive_discovery_scope repr_of e a config = Ok sc /\ scope_version (held j) = Some (AgentScope.version sc)) /\
    (parse_ip addr = Some x /\ exists t n, t ∈ job_targets r /\ ip_network false t = Some n /\ contains n x = true) /\
    AgentScope.parse_address (strip addr) = Some y /\ AgentScope.granted repr_of (default [] (networks_of e a)) config y.

Lemma recorded_confined `{!IpTextLaws T} e a v now i r f addr ceiling s :
  ingest_read repr_of fragment model_validate e a v now s = Ok (Record i r f addr ceiling) -> confined e a now i r f addr s.
Proof.
  intros (j & sc & Hj & <- & [_ Ht Ha Hte (Ho & _ & Hl) Hin Hsc Hv (d & Hd & Hall) _])%record_spec. unfold confined. cbv zeta.
  unfold in_job_targets in Hin. destruct (parse_ip addr) as [x |] eqn:Ex; [| done].
  apply existsb_exists in Hin as (t & Htin%list_elem_of_In & Hc). destruct (ip_network false t) as [n |] eqn:En; [| done].
  destruct (AgentScope.derived_scope_bounded repr_of _ _ sc addr None Hsc) as (d' & Hd' & Hb). rewrite Hd in Hd'. injection Hd' as <-.
  destruct (Hb Hall) as (y & l & Hy & Hxs). unfold AgentScope.judged in Hy. destruct (AgentScope.parse_address (strip addr)) as [y' |] eqn:Ey; [| done]. injection Hy as -> <-.
  exists j, x, y. split; [by split_and! |]. split; [by exists sc |]. split; [split; [done |]; by exists t, n |]. split; [done |]. apply (Hxs y). by left.
Qed.

(** Every judgement in hand was made at some earlier moment of the history. *)
Lemma judged_earlier x ls w a v : steps (initial x) ls w -> (a, v) ∈ judged w ->
  exists ls0 w0 ls1 e msg now, ls = ls0 ++ ls1 /\ steps (initial x) ls0 w0 /\ steps w0 ls1 w /\
    ingest_read repr_of fragment model_validate e a msg now (tables w0) = Ok v.
Proof.
  remember (initial x) as w00 eqn:E0. intros Hst. induction Hst as [w | w0 ls w l w' Hst IH Hs]; [subst; by intros ?%elem_of_nil |].
  intros [Hin | (e & msg & now & Hr)]%(judged_step l w w' _ Hs).
  - destruct (IH E0 Hin) as (ls0 & v0 & ls1 & e & msg & now & -> & H0 & H1 & Hr). exists ls0, v0, (ls1 ++ [l]), e, msg, now.
    split_and!; [by rewrite app_assoc | done | by eapply steps_snoc | done].
  - exists ls, w, [l], e, msg, now. split_and!; [done | done | | done]. apply (steps_snoc _ _ _ _ _ _ _ w [] w l w'); [constructor | done].
Qed.

(** C29: every stored row comes from a finding that, at an earlier moment of the
    history, was judged by what then held: its job was open, with a dispatch of
    the reporting agent that the frame quoted the token of, not past its
    deadline and grace, of the agent's own tenant, under a scope still in force;
    and its address lay in a network the job asked for, outside the special-use
    space and every excluded network, in a private network of an interface the
    agent reported or in one an administrator added.  The row is written later,
    when the job may have been closed; its address is that one, up to
    normalisation. *)
Theorem finding_confined `{!IpTextLaws T} x ls w i k y :
  steps (initial x) ls w -> results (tables w) !! (i, k) = Some y ->
  exists ls0 w0 ls1 e msg now r f addr ceiling, ls = ls0 ++ ls1 /\ steps (initial x) ls0 w0 /\ steps w0 ls1 w /\
    ingest_read repr_of fragment model_validate e (r_agent y) msg now (tables w0) = Ok (Record i r f addr ceiling) /\
    fd_id f = k /\ r_tenant y = tenant_id r /\ readdressed addr (r_address y) /\
    confined e (r_agent y) now i r f addr (tables w0).
Proof.
  intros Hst Hy. destruct (ac_results _ _ (accounted_always x ls w Hst) i k y Hy) as (r & f & addr & ceiling & Hin & Hk & Ht & Hr).
  destruct (judged_earlier x ls w _ _ Hst Hin) as (ls0 & w0 & ls1 & e & msg & now & E & H0 & H1 & Hread).
  exists ls0, w0, ls1, e, msg, now, r, f, addr, ceiling. split_and!; try done. by eapply recorded_confined.
Qed.

(** *** Leases that end *)

(** The row an expired job is left with. *)
Definition given_up (why : string) (moment : Z) (j : job) : job :=
  mark_expired (set_status Failed LExecutionError "failed" why (Some why) (Some why) moment j).

Lemma expire_jobs i why moment s :
  jobs (expire i why moment s).2 =
  match jobs s !! i with Some j => if is_open j then <[i := given_up why moment j]> (jobs s) else jobs s | None => jobs s end.
Proof.
  unfold expire, finalize_agent_job, compare_and_set. destruct (jobs s !! i) as [j |]; cbn [negb]; [| done]. destruct (is_open j); cbn [negb]; [| done].
  cbn [jobs with_jobs add_audit]. rewrite lookup_insert_eq. cbn [snd jobs with_jobs]. by rewrite insert_insert_eq.
Qed.

Lemma expire_row i k why moment s j : jobs s !! k = Some j ->
  jobs (expire i why moment s).2 !! k = Some (if bool_decide (i = k) && is_open j then given_up why moment j else j).
Proof.
  intros Hk. rewrite expire_jobs. case_bool_decide as E; cbn [andb].
  - subst k. rewrite Hk. destruct (is_open j); [by rewrite lookup_insert_eq | done].
  - destruct (jobs s !! i) as [y |]; [| done]. destruct (is_open y); [by rewrite lookup_insert_ne | done].
Qed.

(** The jobs a pass gives up, and no others. *)
Lemma expire_all_row ids cutoff moment why s i j : NoDup ids -> jobs s !! i = Some j ->
  jobs (expire_all ids cutoff moment why s).2 !! i = Some (if bool_decide (i ∈ ids) && (horizon j moment <? cutoff) && is_open j then given_up why moment j else j).
Proof.
  intros Hnd. revert s j. induction Hnd as [| k ids Hk Hnd IH]; intros s j Hj; cbn [expire_all]; [done |].
  assert (bool_decide (i ∈ k :: ids) = bool_decide (k = i) || bool_decide (i ∈ ids)) as ->
    by (apply eq_true_iff_eq; rewrite orb_true_iff, !bool_decide_eq_true, elem_of_cons; split; intros [E | E]; auto).
  assert (k = i -> bool_decide (i ∈ ids) = false) as Hno by (intros <-; by apply bool_decide_eq_false).
  assert (forall s1, jobs s1 !! i = Some j -> k <> i \/ (horizon j moment <? cutoff) && is_open j = false ->
    jobs (expire_all ids cutoff moment why s1).2 !! i = Some (if (bool_decide (k = i) || bool_decide (i ∈ ids)) && (horizon j moment <? cutoff) && is_open j then given_up why moment j else j)) as Hskip.
  { intros s1 H1 Hc. rewrite (IH s1 j H1). destruct (bool_decide_reflect (k = i)) as [E | E]; [| done]. rewrite (Hno E). cbn [orb andb]. destruct Hc as [Hc | ->]; done. }
  destruct (jobs s !! k) as [y |] eqn:Ek; [| apply Hskip; [done |]; left; intros ->; congruence].
  destruct (Z.leb_spec cutoff (horizon y moment)) as [Hle | Hlt].
  { apply Hskip; [done |]. destruct (decide (k = i)) as [-> |]; [right | by left]. assert (y = j) as -> by congruence. by rewrite (proj2 (Z.ltb_ge _ _)). }
  pose proof (expire_row k i why moment s j Hj) as Hr. destruct (expire k why moment s) as [hit s1]. cbn [snd] in Hr.
  specialize (Hskip s1). specialize (IH s1). destruct (expire_all ids cutoff moment why s1) as [n s2]. cbn [snd] in *.
  destruct (bool_decide_reflect (k = i)) as [-> | Hne]; cbn [andb] in Hr; [| apply Hskip; [done | by left]].
  assert (y = j) as -> by congruence. rewrite (proj2 (Z.ltb_lt _ _)) by done. cbn [orb andb]. rewrite (IH _ Hr), (Hno eq_refl). done.
Qed.

Lemma candidates_nodup p s : NoDup (candidates p s).
Proof.
  unfold candidates. eapply sublist_NoDup; [| apply sublist_take]. rewrite py_sorted_perm. eapply sublist_NoDup; [apply (NoDup_fst_map_to_list (jobs s)) |].
  apply fmap_sublist. induction (map_to_list (jobs s)) as [| x l IH]; cbn; [done |]. destruct (_ && _); by constructor.
Qed.

(** Every job the predicate selects, while the pass is not full. *)
Lemma candidates_elem p s i j : (length (candidates p s) < EXPIRE_LIMIT)%nat -> jobs s !! i = Some j -> is_Some (scan_agent_id (asked j)) ->
  bool_decide (i ∈ candidates p s) = p j.
Proof.
  intros Hlen Hj Ha. unfold candidates in *. set (l := List.filter _ _) in *. rewrite length_take, py_sorted_perm in Hlen. rewrite take_ge by (rewrite py_sorted_perm; lia).
  apply eq_true_iff_eq. rewrite bool_decide_eq_true, py_sorted_perm. rewrite list_elem_of_fmap. split.
  - intros ([k y] & -> & [Hin [_ Hp]%andb_true_iff]%list_elem_of_In%filter_In). cbn in *. apply list_elem_of_In, elem_of_map_to_list in Hin. assert (y = j) as -> by congruence. done.
  - intros Hp. exists (i, j). split; [done |]. apply list_elem_of_In, filter_In. split; [by apply list_elem_of_In, elem_of_map_to_list |]. cbn. by rewrite bool_decide_true, Hp.
Qed.
Lemma settle_expire_all ids cutoff moment why s : jobs_settle s (expire_all ids cutoff moment why s).2.
Proof.
  revert s. induction ids as [| i ids IH]; intros s; cbn [expire_all]; [reflexivity |]. destruct (jobs s !! i) as [j |]; [| apply IH].
  destruct (_ <=? _); [apply IH |]. pose proof (settle_expire i why moment s) as H. destruct (expire i why moment s) as [hit s1]. specialize (IH s1).
  destruct (expire_all ids cutoff moment why s1) as [n s2]. cbn [snd] in *. by etrans.
Qed.

(** a pass of the reconciliation ends a lease exactly when the ingest stops
    accepting findings for it: a dispatch whose deadline and grace are over is
    failed as [agent_disconnected] and marked expired, keeping its findings,
    and one the ingest still accepts findings for is left as it is. *)
Theorem lease_ends_with_ingest moment s i j d :
  (length (candidates dead_lease s) < EXPIRE_LIMIT)%nat ->
  jobs s !! i = Some j -> is_Some (scan_agent_id (asked j)) -> dead_lease j = true -> deadline_at (held j) = Some d ->
  let s' := (expire_dead_leases moment s).2 in
  results s' = results s /\
  (late j moment = false -> jobs s' !! i = Some j) /\
  (late j moment = true -> exists j', jobs s' !! i = Some j' /\ job_status j' = Failed /\ error_reason j' = Some ERROR_AGENT_DISCONNECTED /\
     dispatch_status (held j') = Some LExpired /\ counts j' = counts j /\ asked j' = asked j /\
     forall now b, exists e, assert_dispatch_open fragment j' now b = Err e).
Proof.
  intros Hlen Hj Ha Hdl Hd s'. unfold s', expire_dead_leases.
  pose proof (expire_all_row (candidates dead_lease s) (moment - LATE_FINDING_GRACE) moment ERROR_AGENT_DISCONNECTED s i j (candidates_nodup _ s) Hj) as Hr.
  rewrite (candidates_elem _ s i j Hlen Hj Ha), Hdl in Hr. unfold late. rewrite Hd. unfold horizon in Hr. rewrite Hd in Hr.
  assert (is_open j = true) as Ho by (unfold dead_lease in Hdl; by apply andb_true_iff in Hdl as [? _]). rewrite Ho, andb_true_r in Hr. cbn [andb] in Hr.
  split; [apply (js_results _ _ (settle_expire_all _ _ _ _ s)) |]. split; intros Hl.
  - rewrite Hr. destruct (Z.ltb_spec d (moment - LATE_FINDING_GRACE)); [| done]. apply Z.ltb_ge in Hl. lia.
  - rewrite Hr. destruct (Z.ltb_spec d (moment - LATE_FINDING_GRACE)); [| apply Z.ltb_lt in Hl; lia]. eexists. split_and!; [done | done | done | done | done | done |].
    intros now b. by eexists.
Qed.

(** *** Parked jobs *)

(** What parking leaves of the row. *)
Definition park (now : Z) (j : job) : job :=
  with_lease Queued (Some PHASE_WAITING_FOR_AGENT) EmptyString (Lease None (Some LQueued) (Some (now + DISPATCH_DEADLINE_S * SECOND)) None) None j.

(** Online, but no process holds its connection. *)
Record unowned (e : env) (a : Z) (j : job) (sc : AgentScope.scope) : Prop := {
  un_agent : scan_agent_id (asked j) = Some a;
  un_active : exists row, Registry.agents (registry e) !! a = Some row /\ Registry.a_status row = Registry.Active;
  un_grant : exists config, structured_grant e a CAPABILITY = Some (true, config);
  un_online : online e a = true;
  un_owned : owned e a = false;
  un_targets : (length (job_targets (asked j)) <= MAX_DISCOVERY_TARGETS)%nat;
  un_scope : derive_discovery_scope repr_of e a (discovery_grant_config e a) = Ok sc
}.

Lemma parked_again e a j sc i token delivered now s :
  unowned e a j sc -> jobs s !! i = Some j -> claimable j = true -> token_used token s = false ->
  dispatch_discovery_job repr_of to_int fragment profile_arguments e i token delivered now s = Ok (false, with_jobs (<[i := park now j]> (jobs s)) s).
Proof.
  intros [Ha (row & Hrow & Hact) (config & Hg) Hon How Hn Hsc] Hj Hc Ht.
  unfold dispatch_discovery_job, dispatch_read. rewrite Hj, Ha, Hc. unfold dispatch_claim. rewrite (proj2 (Nat.ltb_ge _ _)) by done. rewrite Hsc. cbn [mbind result_bind].
  unfold take_lease, compare_and_set. rewrite Ht, Hj, Hc. cbn [mbind result_bind fst snd]. unfold dispatch_settle, discovery_eligibility. cbn [cl_agent].
  rewrite Hrow, (bool_decide_true (_ = Registry.Active)) by done. cbn [negb]. rewrite Hg, Hon, How. cbn [andb negb mbind result_bind ok denied reason default]. rewrite bool_decide_true by (unfold WAITING_REASONS; right; left).
  unfold release_to_waiting, compare_and_set. cbn [cl_job cl_token jobs with_jobs]. rewrite lookup_insert_eq. unfold holds_lease. cbn. rewrite !bool_decide_true by done. cbn.
  by rewrite insert_insert_eq.
Qed.
(** The passes of the reconciliation at the given times. *)
Fixpoint passes (e : env) (setting : option Z) (token : Z -> Z -> string) (delivered : Z -> bool) (times : list Z) s : result AgentScope.py_error (db W) :=
  match times with
  | [] => Ok s
  | t :: times =>
      match reconcile repr_of to_int fragment profile_arguments e setting (token t) delivered (fun _ => t) t s with
      | Ok (_, s') => passes e setting token delivered times s'
      | Err x => Err x
      end
  end.

(** Each time is at most the parking horizon after the one before. *)
Fixpoint often (last : Z) (times : list Z) : Prop :=
  match times with [] => True | t :: times => t <= last + DISPATCH_DEADLINE_S * SECOND /\ often t times end.

Lemma candidates_single (p : job -> bool) i j s : jobs s = {[i := j]} -> candidates p s = [] \/ candidates p s = [i].
Proof. intros E. unfold candidates. rewrite E, map_to_list_singleton. cbn [List.filter snd]. destruct (_ && _); [by right | by left]. Qed.

Lemma expire_all_early ids cutoff moment why s : (forall i j, jobs s !! i = Some j -> cutoff <= horizon j moment) -> expire_all ids cutoff moment why s = (0, s).
Proof.
  intros H. induction ids as [| i ids IH]; cbn [expire_all]; [done |]. destruct (jobs s !! i) as [j |] eqn:E; [| done].
  by rewrite (proj2 (Z.leb_le _ _) (H i j E)).
Qed.

Lemma parked_pass e a j0 sc i setting token delivered t last s :
  unowned e a j0 sc -> jobs s = {[i := park last j0]} -> t <= last + DISPATCH_DEADLINE_S * SECOND ->
  reconcile repr_of to_int fragment profile_arguments e setting token delivered (fun _ => t) t s = Ok ((0, 0, 0, 0), with_jobs {[i := park t j0]} s).
Proof.
  intros Hu Es Ht. unfold reconcile, expire_dead_leases, expire_parked_jobs.
  assert (forall cutoff k j, cutoff <= t -> jobs s !! k = Some j -> cutoff <= horizon j t) as Hh.
  { intros cutoff k j Hc Hj. rewrite Es in Hj. apply lookup_singleton_Some in Hj as [<- <-]. cbn. lia. }
  rewrite (expire_all_early _ (t - LATE_FINDING_GRACE)) by (intros; apply (Hh _ i0); [unfold LATE_FINDING_GRACE, SECOND; lia | done]).
  rewrite expire_all_early by (intros; by apply (Hh _ i0)). unfold drain_queued_jobs.
  assert (running_scan_count s = 0) as ->.
  { unfold running_scan_count. rewrite Es, map_filter_singleton_False by done. done. }
  rewrite (proj2 (Z.leb_gt _ _)) by (unfold max_concurrent_scans; lia). rewrite Es, map_to_list_singleton. cbn [List.filter snd]. rewrite bool_decide_true by done.
  cbn [take py_sorted foldl insert_sorted DRAIN_LIMIT fmap list_fmap fst drain_all]. rewrite (proj2 (Z.leb_gt _ _)) by (unfold max_concurrent_scans; lia).
  rewrite Es, lookup_singleton_eq. cbn [park with_lease asked]. rewrite (un_agent _ _ _ _ Hu), (un_online _ _ _ _ Hu). cbn [negb]. rewrite andb_false_r.
  assert (unowned e a (park last j0) sc) as Hu' by by destruct Hu.
  rewrite (parked_again e a _ sc i (token i) (delivered i) t s Hu'); [| by rewrite Es, lookup_singleton_eq | done | unfold token_used; by rewrite Es, map_to_list_singleton].
  cbn [mbind result_bind fst snd negb drain_all]. by rewrite Es, insert_singleton_eq.
Qed.

(** a job parked for an agent that counts as online while no process holds
    its connection is given a fresh deadline by every pass that retries it, so
    that its deadline never arrives: after any number of passes, however long
    they take together, it is still waiting. *)
Theorem parked_treadmill e a j sc i setting token delivered times last s :
  unowned e a j sc -> jobs s = {[i := park last j]} -> often last times ->
  passes e setting token delivered times s = Ok (with_jobs {[i := park (default last (list.last times)) j]} s).
Proof.
  intros Hu. revert last s. induction times as [| t times IH]; intros last s Es Ho; cbn [passes].
  - destruct s. cbn in *. by subst.
  - destruct Ho as [Ht Ho]. rewrite (parked_pass e a j sc i setting (token t) delivered t last s Hu Es Ht).
    etrans; [by apply (IH t) |]. rewrite last_cons. by destruct (list.last times).
Qed.
End Theorems.
End DiscoveryTheorems.
