(* ===== verification/DiscoveryLab.v ===== *)
(** One discovery by the agent that enrolled in [AgentIdentity]: a job created,
    claimed, sent, answered with a host and cancelled; the same lease left to
    die; and the agent online with no process holding its connection. *)
From S2P Require Import Prelude Sha256 Json Canonical Regex Ip AgentScope AgentCapabilities AgentRegistry AgentIdentity Redaction ProbeSecrets Monitor ProbeRuns ProbeIngest ProbeLeases ProbeDispatch DiscoveryJobs DiscoveryDispatch DiscoveryIngest DiscoveryHistory DiscoverySchedule DiscoveryTheorems.
Import Json Ip.
Open Scope Z_scope.

Module DiscoveryLab.
Import Dispatch Discovery DiscoveryDispatch DiscoveryIngest DiscoveryHistory DiscoverySchedule DiscoveryTheorems.

Definition lab_request : request := Request (Some 1) None None None (Some "192.168.8.0/30") (Some 0).
Definition lab_token : string := "0123456789abcdef0123456789abcdef".
Definition lab_found : finding := Finding lab_token 7 "h1" "host" (Some "192.168.8.1") None None None None None.
Definition lab_validate (fs : list (string * json)) : option finding := Some lab_found.
Definition lab_frame : json := JObj [].
Definition lab_env (own : bool) : env :=
  Env Identity.lab_active (fun _ => true) (fun _ => own) {[(1, "discovery.tcp") := ("ready", Some 0)]} (fun _ => Some AgentScope.lab_facts)
    (fun _ => None) (fun _ _ => None) (fun _ => []).

Definition no_int (v : json) : option Z := match v with JInt z => Some z | _ => None end.
Definition same (s : string) : string := s.
Definition no_profile (p : Z) : option string := None.
Definition all_new (w : unit) (r : request) (f : finding) (a : string) : classification := New.
Definition absorbed (w : unit) (r : request) (f : finding) (a : string) : unit := tt.

Abbreviation lab_step := (step AgentScope.no_repr no_int same no_profile lab_validate all_new absorbed).
Abbreviation lab_steps := (steps AgentScope.no_repr no_int same no_profile lab_validate all_new absorbed).

Definition lab_created : db unit := Db {[7 := new_job lab_request]} ∅ [] [] tt.
Definition lab_claiming := dispatch_claim (T := ExplodedText) AgentScope.no_repr same (lab_env true) 7 1 lab_request lab_token 10 lab_created.
Definition lab_none : claim := Claim 0 0 lab_request "" "" 0 [].
Definition lab_claim : claim := match lab_claiming with Ok (Some c, _) => c | _ => lab_none end.
Definition lab_claimed : db unit := match lab_claiming with Ok (_, s) => s | _ => lab_created end.
Definition lab_sent : option frame :=
  match dispatch_settle AgentScope.no_repr no_int same no_profile (lab_env true) lab_claim true 20 lab_claimed with Ok (o, _) => o | Err _ => None end.
Definition lab_published : frame := default (Frame "" 0 [] [] 0 0 "" 0) lab_sent.
Definition lab_verdict : verdict := Record 7 lab_request lab_found "192.168.8.1" 8.
Definition lab_stored : db unit := (ingest_write same all_new absorbed 1 lab_verdict false 40 lab_claimed).2.
Definition lab_cancelled : db unit := (cancel_job_dispatch 7 50 lab_stored).2.

Example lab_discovery :
  (f_targets lab_published, f_ports lab_published, cl_deadline lab_claim) = (["192.168.8.0/30"], [22; 53; 80; 443; 445; 3389; 8000; 8080; 8443], 10 + 300 * SECOND) /\
  (fun x => (r_agent x, r_address x)) <$> results lab_stored !! (7, "h1") = Some (1, "192.168.8.1") /\
  job_status <$> jobs lab_cancelled !! 7 = Some Cancelled.
Proof. split_and!; vm_compute; reflexivity. Qed.
Definition lab_reads : list (Z * (Z * request)) := [(7, (1, lab_request))].
Definition lab_judged : list (Z * verdict) := [(1, lab_verdict)].
Definition lab_labels : list label := [Silent; Silent; Minted lab_token; Published lab_published; Silent; Stored 7 "h1" New].
Definition lab_world : world unit := World lab_stored [] lab_reads lab_judged.

Lemma lab_asked : lab_steps (initial tt) [Silent; Silent] (World lab_created [] lab_reads []).
Proof.
  apply (steps_snoc _ _ _ _ _ _ _ _ [Silent] (World lab_created [] [] []) Silent).
  1: apply (steps_snoc _ _ _ _ _ _ _ _ [] (initial tt) Silent); [constructor |].
  - by apply (step_create _ _ _ _ _ _ _ 7 lab_request).
  - apply step_read. reflexivity.
Qed.

Lemma lab_discovered : lab_steps (initial tt) lab_labels lab_world.
Proof.
  apply (steps_snoc _ _ _ _ _ _ _ _ [Silent; Silent; Minted lab_token; Published lab_published; Silent] (World lab_claimed [] lab_reads lab_judged) (Stored 7 "h1" New)).
  1: apply (steps_snoc _ _ _ _ _ _ _ _ [Silent; Silent; Minted lab_token; Published lab_published] (World lab_claimed [] lab_reads []) Silent).
  1: apply (steps_snoc _ _ _ _ _ _ _ _ [Silent; Silent; Minted lab_token] (World lab_claimed [lab_claim] lab_reads []) (Published lab_published)).
  1: apply (steps_snoc _ _ _ _ _ _ _ _ [Silent; Silent] (World lab_created [] lab_reads []) (Minted lab_token)); [exact lab_asked |].
  - apply (step_claim _ _ _ _ _ _ _ (lab_env true) 7 1 lab_request lab_token 10 lab_claim lab_created lab_claimed [] lab_reads []); [by left | vm_compute; reflexivity].
  - apply (step_settle _ _ _ _ _ _ _ (lab_env true) lab_claim true 20 (Some lab_published) lab_claimed lab_claimed [] [] lab_reads []). vm_compute. reflexivity.
  - apply (step_judge _ _ _ _ _ _ _ (lab_env true) 1 lab_frame 30 lab_verdict lab_claimed [] lab_reads []). vm_compute. reflexivity.
  - apply (step_write AgentScope.no_repr no_int same no_profile lab_validate all_new absorbed 1 lab_verdict false 40 (Ok Accepted) lab_claimed lab_stored [] lab_reads lab_judged); [by left | vm_compute; reflexivity].
Qed.

Lemma one_request_per_job_witness : lab_steps (initial tt) lab_labels lab_world /\ NoDup (f_job <$> published lab_labels).
Proof.
  split; [exact lab_discovered |].
  refine (proj1 (one_request_per_job AgentScope.no_repr no_int same no_profile lab_validate all_new absorbed tt lab_labels lab_world lab_discovered _)). apply NoDup_singleton.
Defined.

Lemma terminal_is_final_witness : exists j j', jobs lab_cancelled !! 7 = Some j /\ jobs lab_cancelled !! 7 = Some j' /\ job_status j' = job_status j.
Proof.
  assert (lab_steps (initial tt) (lab_labels ++ [Silent]) (World lab_cancelled [] lab_reads lab_judged)) as H
    by (eapply steps_snoc; [exact lab_discovered | apply (step_cancel _ _ _ _ _ _ _ 7 50 lab_stored)]).
  assert (exists j, jobs lab_cancelled !! 7 = Some j /\ is_open j = false) as (j & Hj & Ho) by (eexists; split; vm_compute; reflexivity). exists j.
  destruct (terminal_is_final AgentScope.no_repr no_int same no_profile lab_validate all_new absorbed tt _ _ [] _ 7 j H (steps_nil _ _ _ _ _ _ _ _) Hj Ho) as (j' & Hj' & E' & _).
  exists j'. exact (conj Hj (conj Hj' E')).
Defined.

(** The row is found in conflict by the review queue, then purged. *)
Definition lab_conflict : gmap (Z * string) scan_result := {[(7, "h1") := ScanResult 1 None "192.168.8.1" Conflict]}.
Definition lab_purged : db unit := with_results ∅ tt (with_results lab_conflict tt lab_stored).

Lemma lab_reviewed : lab_steps (initial tt) ((lab_labels ++ [Silent]) ++ [Silent]) (World lab_purged [] lab_reads lab_judged).
Proof.
  eapply steps_snoc; [eapply steps_snoc; [exact lab_discovered |] |].
  - apply (step_review _ _ _ _ _ _ _ lab_conflict tt lab_stored [] lab_reads lab_judged). intros k y' Hy. unfold lab_conflict in Hy. apply lookup_singleton_Some in Hy as [<- <-].
    exists (ScanResult 1 None "192.168.8.1" New). split; [vm_compute; reflexivity |]. split; [done | done | apply rtc_refl].
  - apply (step_review _ _ _ _ _ _ _ ∅ tt (with_results lab_conflict tt lab_stored) [] lab_reads lab_judged). by intros k y' ?%lookup_empty_Some.
Qed.


Lemma finding_confined_witness : exists y, results lab_stored !! (7, "h1") = Some y /\
  exists (w0 : world unit) e now r f addr, confined AgentScope.no_repr e (r_agent y) now 7 r f addr (tables w0).
Proof.
  assert (exists y, results lab_stored !! (7, "h1") = Some y) as [y Hy] by (eexists; vm_compute; reflexivity). exists y. split; [exact Hy |].
  destruct (finding_confined AgentScope.no_repr no_int same no_profile lab_validate all_new absorbed tt lab_labels lab_world 7 "h1" y lab_discovered Hy)
    as (ls0 & w0 & ls1 & e & msg & now & r & f & addr & ceiling & _ & _ & _ & _ & _ & _ & _ & H).
  exists w0, e, now, r, f, addr. exact H.
Defined.

(** The agent goes silent. *)
Lemma lease_ends_with_ingest_witness : exists j', jobs (expire_dead_leases (10 + 331 * SECOND) lab_stored).2 !! 7 = Some j' /\ job_status j' = Failed.
Proof.
  assert (exists j, jobs lab_stored !! 7 = Some j /\ is_Some (scan_agent_id (asked j)) /\ dead_lease j = true /\ deadline_at (held j) = Some (10 + 300 * SECOND) /\
    late j (10 + 331 * SECOND) = true) as (j & Hj & Ha & Hd & Ht & Hl)
    by (eexists; split; [vm_compute; reflexivity |]; split_and!; [by eexists | vm_compute; reflexivity ..]).
  destruct (lease_ends_with_ingest same (10 + 331 * SECOND) lab_stored 7 j (10 + 300 * SECOND)) as (_ & _ & H); [vm_compute; lia | exact Hj | exact Ha | exact Hd | exact Ht |].
  destruct (H Hl) as (j' & Hj' & Hst & _). exists j'. exact (conj Hj' Hst).
Defined.

(** Online, with no owner, for an hour of passes at five minutes. *)
Definition lab_parked : db unit := with_jobs {[7 := park 0 (new_job lab_request)]} lab_created.
Definition lab_times : list Z := map (fun k => k * (300 * SECOND)) (seqZ 1 12).

Lemma parked_treadmill_witness :
  passes AgentScope.no_repr no_int same no_profile (lab_env false) None (fun _ _ => lab_token) (fun _ => true) lab_times lab_parked
  = Ok (with_jobs {[7 := park (3600 * SECOND) (new_job lab_request)]} lab_parked).
Proof.
  assert (exists sc, derive_discovery_scope AgentScope.no_repr (lab_env false) 1 (discovery_grant_config (lab_env false) 1) = Ok sc) as [sc Hsc] by (eexists; vm_compute; reflexivity).
  apply (parked_treadmill AgentScope.no_repr no_int same no_profile (lab_env false) 1 (new_job lab_request) sc 7 None (fun _ _ => lab_token) (fun _ => true) lab_times 0 lab_parked).
  - split; [reflexivity | | | reflexivity | reflexivity | apply (bool_decide_unpack _); vm_compute; exact I | exact Hsc].
    + eexists. split; vm_compute; reflexivity.
    + eexists. vm_compute. reflexivity.
  - reflexivity.
  - vm_compute. split_and!; try discriminate. exact I.
Defined.
Lemma drain_within_ceiling_witness : exists s', drain_queued_jobs AgentScope.no_repr no_int same no_profile (lab_env true) (Some 1) (fun _ => lab_token) (fun _ => true) (fun _ => 10) lab_created
  = Ok (1, 0, s') /\ running_scan_count s' + 0 <= 1.
Proof.
  assert (drain_queued_jobs AgentScope.no_repr no_int same no_profile (lab_env true) (Some 1) (fun _ => lab_token) (fun _ => true) (fun _ => 10) lab_created = Ok (1, 0, lab_claimed)) as H
    by (vm_compute; reflexivity).
  exists lab_claimed. split; [exact H |].
  exact (proj1 (drain_within_ceiling AgentScope.no_repr no_int same no_profile (lab_env true) (Some 1) (fun _ => lab_token) (fun _ => true) (fun _ => 10) lab_created 1 0 lab_claimed H)).
Defined.
(** A finding judged before a cancellation is stored after it. *)
Example finding_after_cancellation :
  let s := (cancel_job_dispatch 7 35 lab_claimed).2 in
  let '(d, s') := ingest_write same all_new absorbed 1 lab_verdict false 40 s in
  d = Ok Accepted /\ (fun j => (job_status j, finding_count (counts j))) <$> jobs s' !! 7 = Some (Cancelled, 1).
Proof. vm_compute. split; reflexivity. Qed.
End DiscoveryLab.
