(* ===== verification/Delivery.v ===== *)
(** Notification delivery ([services/notification_routing.py],
    [services/notification_severity.py]): which destinations an alert goes to, the
    receipt each destination has with its claim lease, and the dispatch that
    claims, sends and records.  The receipt is shown to refine a small lease
    specification, from which exclusivity and finality follow for any
    interleaving of workers. *)
From S2P Require Import Prelude Json.
Import Json.
Open Scope Z_scope.

Module Delivery.

(** *** Severity thresholds *)

Definition SEVERITY_LADDER : list string := ["info"; "warning"; "critical"].

Definition SEVERITY_ALIASES (name : string) : option string :=
  if String.eqb name "warn" then Some "warning"
  else if bool_decide (name ∈ ["err"; "error"; "fatal"; "alert"; "emergency"]) then Some "critical"
  else if bool_decide (name ∈ ["debug"; "notice"]) then Some "info"
  else None.

Definition canonical_severity (v : string) : option string :=
  let name := lower (strip v) in
  if bool_decide (name ∈ SEVERITY_LADDER) then Some name else SEVERITY_ALIASES name.

(** [SEVERITY_LADDER.index(name)]. *)
Fixpoint index_in (l : list string) (x : string) : Z :=
  match l with [] => 0 | y :: l => if String.eqb y x then 0 else 1 + index_in l x end.

Definition alert_severity_rank (severity : string) : Z :=
  index_in SEVERITY_LADDER (default "critical" (canonical_severity severity)).

Definition route_matches (threshold severity : string) : bool :=
  if String.eqb (lower (strip threshold)) "*" then true
  else match canonical_severity threshold with
       | None => true
       | Some floor => index_in SEVERITY_LADDER floor <=? alert_severity_rank severity
       end.

(** *** Destinations *)

Record route := Route { route_sink : Z; alert_severity : string; route_enabled : bool }.
Record sink := Sink { sink_no : Z; sink_enabled : bool; provider_type : string; provider_config : json }.
Record routing := Routing { routes : list route; sinks : list sink }.

Record alert := Alert { alert_event_id : option string; alert_sink : option Z; severity : string; title : string; message : string }.

Record target := Target { sink_id : Z; provider : string; stored_config : list (string * json) }.

Section Routing.
(** [json.loads]; [None] is its exception. *)
Variable loads : string -> option json.

Definition config_of (c : json) : list (string * json) :=
  match (match c with JStr s => default (JObj []) (loads s) | c => c end) with
  | JObj fs => fs
  | _ => []
  end.

Definition target_of (s : sink) : target := Target (sink_no s) (provider_type s) (config_of (provider_config s)).

(** [selected.setdefault(sink.id, ...)] over the joined rows. *)
Fixpoint add_targets (rows : list sink) (acc : list target) : list target :=
  match rows with
  | [] => acc
  | s :: rows =>
      add_targets rows (if bool_decide (sink_no s ∈ map sink_id acc) then acc else acc ++ [target_of s])
  end.

Definition joined (db : routing) : list (route * sink) :=
  r ← routes db; s ← sinks db;
  if (sink_no s =? route_sink r) && route_enabled r && sink_enabled s then [(r, s)] else [].

Definition select_delivery_targets (db : routing) (event : alert) : list target :=
  match alert_sink event with
  | Some k =>
      match List.find (fun s => (sink_no s =? k) && sink_enabled s) (sinks db) with
      | None => []
      | Some s => [target_of s]
      end
  | None =>
      add_targets (map snd (List.filter (fun rs => route_matches (alert_severity rs.1) (severity event)) (joined db))) []
  end.
End Routing.

(** *** Receipts *)

Inductive receipt_state := SPending | SClaimed | SAccepted | STerminal | SRetryable.
Inductive outcome_state := OAccepted | OTerminal | ORetryable.

#[export] Instance receipt_state_eq_dec : EqDecision receipt_state. Proof. solve_decision. Defined.
#[export] Instance outcome_state_eq_dec : EqDecision outcome_state. Proof. solve_decision. Defined.

Definition stored (o : outcome_state) : receipt_state :=
  match o with OAccepted => SAccepted | OTerminal => STerminal | ORetryable => SRetryable end.

Record outcome := Outcome {
  ostate : outcome_state;
  reason_code : string;
  safe_message : string;
  o_provider : string;
  o_sink : option Z;
  attempt_count : Z;
  http_status : option Z;
  retry_after : option Z;
  accepted_at : option Z
}.

(** Times are in microseconds; [retry_after] in seconds. *)
Record receipt := Receipt {
  rid : Z;
  r_sink : option Z;
  r_provider : string;
  rstate : receipt_state;
  attempts : Z;
  r_reason : option string;
  r_message : option string;
  r_http : option Z;
  r_retry_after : option Z;
  claim_owner : option string;
  claim_expires_at : option Z;
  next_retry_at : option Z;
  r_accepted_at : option Z;
  updated_at : Z
}.

Definition key : Type := string * Z.

Record store := Store { receipts : gmap key receipt; next_id : Z }.

Definition final (s : receipt_state) : bool := match s with SAccepted | STerminal => true | _ => false end.

Definition receipt_outcome (r : receipt) : outcome :=
  Outcome (match rstate r with SAccepted => OAccepted | STerminal => OTerminal | _ => ORetryable end)
    (match r_reason r with Some x => if String.eqb x "" then "delivery_in_progress" else x | None => "delivery_in_progress" end)
    (match r_message r with Some x => if String.eqb x "" then "Delivery is already being processed." else x
                       | None => "Delivery is already being processed." end)
    (r_provider r) (r_sink r) (attempts r) (r_http r) (r_retry_after r) (r_accepted_at r).

Inductive claim_status := CClaimed | CCompleted | CBusy.

Record claim := Claim { claim_receipt : Z; owner : string; status : claim_status; existing : option outcome }.

(** [math.ceil(d.total_seconds())]. *)
Definition ceil_seconds (us : Z) : Z := - ((- us) / 1000000).

Definition CLAIM_LEASE : Z := 30 * 1000000.

Definition waiting (r : receipt) (until now : Z) : outcome :=
  let o := receipt_outcome r in
  Outcome (ostate o) (reason_code o) (safe_message o) (o_provider o) (o_sink o) (attempt_count o) (http_status o)
    (Some (ceil_seconds (until - now))) (accepted_at o).

Definition later (t : option Z) (now : Z) : option Z :=
  match t with Some t => if now <? t then Some t else None | None => None end.

Definition new_receipt (id : Z) (snk : option Z) (prov : string) (now : Z) : receipt :=
  Receipt id snk prov SPending 0 None None None None None None None None now.

Definition claim_delivery (st : store) (k : key) (prov : string) (snk : option Z) (who : string) (now : Z) : store * claim :=
  let st := match receipts st !! k with
            | Some _ => st
            | None => Store (<[k := new_receipt (next_id st) snk prov now]> (receipts st)) (next_id st + 1)
            end in
  match receipts st !! k with
  | None => (st, Claim 0 who CBusy None)
  | Some r =>
      if final (rstate r) then (st, Claim (rid r) who CCompleted (Some (receipt_outcome r))) else
      match later (claim_expires_at r) now with
      | Some t => (st, Claim (rid r) who CBusy (Some (waiting r t now)))
      | None =>
          match later (next_retry_at r) now with
          | Some t => (st, Claim (rid r) who CBusy (Some (waiting r t now)))
          | None =>
              (Store (<[k := Receipt (rid r) (r_sink r) (r_provider r) SClaimed (attempts r) (r_reason r) (r_message r)
                              (r_http r) (r_retry_after r) (Some who) (Some (now + CLAIM_LEASE)) (next_retry_at r)
                              (r_accepted_at r) now]> (receipts st)) (next_id st),
               Claim (rid r) who CClaimed None)
          end
      end
  end.

(** The row [record_delivery_outcome] selects: the claim's receipt, still its owner's. *)
Definition owned (st : store) (c : claim) : list (key * receipt) :=
  List.filter (fun kr => (rid kr.2 =? claim_receipt c) && bool_decide (claim_owner kr.2 = Some (owner c)))
    (map_to_list (receipts st)).

Definition recorded (r : receipt) (o : outcome) (now : Z) : receipt :=
  Receipt (rid r) (r_sink r) (r_provider r) (stored (ostate o)) (attempts r + attempt_count o)
    (Some (String.substring 0 64 (reason_code o))) (Some (String.substring 0 300 (safe_message o)))
    (http_status o) (retry_after o) None None
    (match ostate o with ORetryable => Some (now + 1000000 * default 0 (retry_after o)) | _ => None end)
    (accepted_at o) now.

Definition record_delivery_outcome (st : store) (c : claim) (o : outcome) (now : Z) : store * bool :=
  match owned st c with
  | [] => (st, false)
  | (k, r) :: _ => (Store (<[k := recorded r o now]> (receipts st)) (next_id st), true)
  end.

(** *** The lease specification *)

(** What a destination's receipt promises: free from a time on, held by one owner
    until a time, or done. *)
Inductive lease := Free (not_before : option Z) | Held (who : string) (until : Z) | Done (o : outcome_state).

Definition acquire (s : lease) (who : string) (now : Z) : option lease :=
  match s with
  | Done _ => None
  | Held _ until => if now <? until then None else Some (Held who (now + CLAIM_LEASE))
  | Free nb => match later nb now with Some _ => None | None => Some (Held who (now + CLAIM_LEASE)) end
  end.

Definition settle (s : lease) (who : string) (o : outcome) (now : Z) : option lease :=
  match s with
  | Held w _ =>
      if String.eqb w who then
        Some (match ostate o with
              | ORetryable => Free (Some (now + 1000000 * default 0 (retry_after o)))
              | d => Done d
              end)
      else None
  | _ => None
  end.

(** The lease a receipt stands for. *)
Definition lease_of (r : receipt) : lease :=
  match rstate r with
  | SAccepted => Done OAccepted
  | STerminal => Done OTerminal
  | _ => match claim_owner r, claim_expires_at r with
         | Some w, Some t => Held w t
         | _, _ => Free (next_retry_at r)
         end
  end.

Definition lease_at (st : store) (k : key) : lease :=
  match receipts st !! k with Some r => lease_of r | None => Free None end.

Record wf_receipt (r : receipt) : Prop := {
  wf_claimed : rstate r = SClaimed -> exists w t, claim_owner r = Some w /\ claim_expires_at r = Some t /\
                 (forall n, next_retry_at r = Some n -> n + CLAIM_LEASE <= t);
  wf_unclaimed : rstate r <> SClaimed -> claim_owner r = None /\ claim_expires_at r = None
}.

Record wf_store (st : store) : Prop := {
  ws_receipts : forall k r, receipts st !! k = Some r -> wf_receipt r /\ rid r < next_id st;
  ws_ids : forall k k' r r', receipts st !! k = Some r -> receipts st !! k' = Some r' -> rid r = rid r' -> k = k'
}.

Lemma wf_put st k r r' n : wf_store st -> receipts st !! k = Some r -> rid r' = rid r -> wf_receipt r' -> next_id st <= n ->
  wf_store (Store (<[k := r']> (receipts st)) n).
Proof.
  intros [H1 H2] Hk Hid Hr Hn. split; simpl.
  - intros j x [[<- <-] | [Hne Hx]]%lookup_insert_Some.
    + split; [done |]. destruct (H1 _ _ Hk). lia.
    + destruct (H1 _ _ Hx). split; [done | lia].
  - intros j j' x x' [[<- <-] | [Hj Hx]]%lookup_insert_Some [[<- <-] | [Hj' Hx']]%lookup_insert_Some E; [done | | |].
    + apply (H2 k j' r x'); [done | done | congruence].
    + apply (H2 j k x r); [done | done | congruence].
    + by apply (H2 j j' x x').
Qed.

(** The row of a destination before its claim is decided. *)
Definition ensured (st : store) (k : key) (prov : string) (snk : option Z) (now : Z) : store :=
  match receipts st !! k with
  | Some _ => st
  | None => Store (<[k := new_receipt (next_id st) snk prov now]> (receipts st)) (next_id st + 1)
  end.

Lemma ensured_spec st k prov snk now : wf_store st ->
  wf_store (ensured st k prov snk now) /\ is_Some (receipts (ensured st k prov snk now) !! k) /\
  (forall j, lease_at (ensured st k prov snk now) j = lease_at st j).
Proof.
  intros Hwf. unfold ensured. destruct (receipts st !! k) as [r |] eqn:E; [by rewrite E |]. destruct Hwf as [H1 H2].
  split_and!; simpl.
  - split; simpl.
    + intros j x [[<- <-] | [Hj Hx]]%lookup_insert_Some; [| destruct (H1 _ _ Hx); split; [done | lia]].
      split; [by split | simpl; lia].
    + intros j j' x x' [[<- <-] | [Hj Hx]]%lookup_insert_Some [[<- <-] | [Hj' Hx']]%lookup_insert_Some; simpl; [done | | | by apply H2];
        intros E'; [destruct (H1 _ _ Hx') | destruct (H1 _ _ Hx)]; lia.
  - rewrite lookup_insert_eq. eauto.
  - intros j. unfold lease_at. simpl. destruct (decide (k = j)) as [<- | Hne]; [by rewrite lookup_insert_eq, E | by rewrite lookup_insert_ne].
Qed.

Lemma later_none t now : later t now = None <-> forall x, t = Some x -> x <= now.
Proof.
  unfold later. destruct t as [t |]; [| done]. destruct (Z.ltb_spec now t) as [Hlt | Hge].
  - split; [done |]. intros H. specialize (H t eq_refl). lia.
  - split; [by intros _ x [= <-] | done].
Qed.

Lemma lease_unclaimed r : wf_receipt r -> rstate r <> SClaimed -> final (rstate r) = false -> lease_of r = Free (next_retry_at r).
Proof. intros Hr Hs Hf. destruct (wf_unclaimed _ Hr Hs) as [E1 E2]. unfold lease_of. rewrite E1. by destruct (rstate r). Qed.

(** [claim_delivery] is [acquire]. *)
Lemma claim_refines st k prov snk who now : wf_store st ->
  let '(st', c) := claim_delivery st k prov snk who now in
  wf_store st' /\ owner c = who /\ (forall j, j <> k -> lease_at st' j = lease_at st j) /\
  match acquire (lease_at st k) who now with
  | Some s => status c = CClaimed /\ lease_at st' k = s /\ existing c = None
  | None => status c <> CClaimed /\ lease_at st' k = lease_at st k /\
            (exists o, existing c = Some o /\ match lease_at st k with Done d => ostate o = d | _ => ostate o = ORetryable end)
  end.
Proof.
  intros Hwf. unfold claim_delivery. fold (ensured st k prov snk now).
  destruct (ensured_spec st k prov snk now Hwf) as (Hw & [r Hr] & Hl). rewrite <- !Hl.
  set (st1 := ensured st k prov snk now) in *. clearbody st1. rewrite Hr.
  destruct (ws_receipts _ Hw _ _ Hr) as [Hwr Hid].
  assert (lease_at st1 k = lease_of r) as Elr by (unfold lease_at; by rewrite Hr). rewrite Elr.
  destruct (final (rstate r)) eqn:Ef.
  { split_and!; [done | done | done |]. unfold receipt_outcome. rewrite Elr. unfold lease_of.
    destruct (rstate r); try done; (split; [done |]; split; [done |]; by eexists). }
  destruct (decide (rstate r = SClaimed)) as [Ec | Ec].
  - destruct (wf_claimed _ Hwr Ec) as (w & t & E1 & E2 & E3).
    assert (lease_of r = Held w t) as EH by (unfold lease_of; by rewrite Ec, E1, E2).
    rewrite EH in *. rewrite E2. simpl.
    destruct (Z.ltb_spec now t).
    + split_and!; [done | done | done | done | done |]. eexists. split; [done |]. simpl. unfold receipt_outcome. simpl. by rewrite Ec.
    + rewrite (proj2 (later_none (next_retry_at r) now)) by (intros n Hn; specialize (E3 n Hn); unfold CLAIM_LEASE in E3; lia).
      split_and!; [| done | | done | | done].
      * apply (wf_put _ _ r); [done | done | done | | lia]. split; simpl; [| done]. intros _.
        do 2 eexists. split_and!; [done | done |]. intros n Hn. specialize (E3 n Hn). unfold CLAIM_LEASE in *. lia.
      * intros j Hj. rewrite <- (Hl j). unfold lease_at. simpl. by rewrite lookup_insert_ne.
      * unfold lease_at. simpl. by rewrite lookup_insert_eq.
  - rewrite (lease_unclaimed r Hwr Ec Ef) in *. destruct (wf_unclaimed _ Hwr Ec) as [E1 E2]. rewrite E2. simpl.
    destruct (later (next_retry_at r) now) as [t |] eqn:El.
    + split_and!; [done | done | done | done | done |].
      eexists. split; [done |]. simpl. unfold receipt_outcome. simpl. by destruct (rstate r).
    + split_and!; [| done | | done | | done].
      * apply (wf_put _ _ r); [done | done | done | | lia]. split; simpl; [| done]. intros _.
        do 2 eexists. split_and!; [done | done |]. intros n Hn. rewrite later_none in El. specialize (El n Hn). lia.
      * intros j Hj. rewrite <- (Hl j). unfold lease_at. simpl. by rewrite lookup_insert_ne.
      * unfold lease_at. simpl. by rewrite lookup_insert_eq.
Qed.

Lemma owned_elem st c k r : (k, r) ∈ owned st c <->
  receipts st !! k = Some r /\ rid r = claim_receipt c /\ claim_owner r = Some (owner c).
Proof.
  unfold owned. rewrite list_elem_of_In, filter_In, <- list_elem_of_In, elem_of_map_to_list. simpl.
  rewrite andb_true_iff, Z.eqb_eq, bool_decide_eq_true. tauto.
Qed.

(** [record_delivery_outcome] is [settle], on the one destination it changes. *)
Lemma record_refines st c o now : wf_store st ->
  let '(st', ok) := record_delivery_outcome st c o now in
  wf_store st' /\
  (if ok then exists k r s, receipts st !! k = Some r /\ rid r = claim_receipt c /\
     settle (lease_at st k) (owner c) o now = Some s /\ lease_at st' k = s /\
     (forall j, j <> k -> lease_at st' j = lease_at st j)
   else st' = st).
Proof.
  intros Hwf. unfold record_delivery_outcome. destruct (owned st c) as [| [k r] l] eqn:E; [done |].
  assert ((k, r) ∈ owned st c) as (Hr & Hid & Ho)%owned_elem by (rewrite E; apply list_elem_of_here).
  destruct (ws_receipts _ Hwf _ _ Hr) as [Hwr _]. split.
  - apply (wf_put _ _ r); [done | done | done | | lia]. split; simpl; [| done]. by destruct (ostate o).
  - destruct (decide (rstate r = SClaimed)) as [Ec | Ec]; [| by destruct (wf_unclaimed _ Hwr Ec); congruence].
    destruct (wf_claimed _ Hwr Ec) as (w & t & E1 & E2 & _). rewrite Ho in E1. injection E1 as <-.
    eexists k, r, _. split_and!; [done | done | | | intros j Hj; unfold lease_at; simpl; by rewrite lookup_insert_ne].
    + unfold lease_at. rewrite Hr. unfold lease_of. rewrite Ec, Ho, E2. simpl. by rewrite String.eqb_refl.
    + unfold lease_at. simpl. rewrite lookup_insert_eq. unfold lease_of. simpl. by destruct (ostate o).
Qed.

(** *** Any interleaving of workers *)

Inductive op :=
| OpClaim (k : key) (prov : string) (snk : option Z) (who : string) (now : Z)
| OpRecord (c : claim) (o : outcome) (now : Z).

(** What happened to a destination. *)
Inductive entry := Granted (k : key) (who : string) (now : Z) | Recorded (k : key) (who : string) (o : outcome) (now : Z).

Definition entry_key (e : entry) : key := match e with Granted k _ _ | Recorded k _ _ _ => k end.

Definition perform (st : store) (a : op) : store * list entry :=
  match a with
  | OpClaim k prov snk who now =>
      let '(st', c) := claim_delivery st k prov snk who now in
      (st', match status c with CClaimed => [Granted k who now] | _ => [] end)
  | OpRecord c o now =>
      let '(st', ok) := record_delivery_outcome st c o now in
      (st', match owned st c with (k, _) :: _ => [Recorded k (owner c) o now] | [] => [] end)
  end.

Fixpoint run_ops (st : store) (ops : list op) : store * list entry :=
  match ops with
  | [] => (st, [])
  | a :: ops => let '(st1, l1) := perform st a in let '(st2, l2) := run_ops st1 ops in (st2, l1 ++ l2)
  end.

Definition entries_of (k : key) (l : list entry) : list entry := List.filter (fun e => bool_decide (entry_key e = k)) l.

(** The specification's run over what happened to one destination. *)
Fixpoint replay (s : lease) (l : list entry) : option lease :=
  match l with
  | [] => Some s
  | Granted _ who now :: l => s' ← acquire s who now; replay s' l
  | Recorded _ who o now :: l => s' ← settle s who o now; replay s' l
  end.

Definition empty_store : store := Store ∅ 1.

Lemma empty_wf : wf_store empty_store.
Proof. split; simpl; intros *; by rewrite lookup_empty. Qed.

Lemma replay_app s l1 l2 : replay s (l1 ++ l2) = (s' ← replay s l1; replay s' l2).
Proof.
  revert s; induction l1 as [| e l1 IH]; intros s; [done |]. destruct e; simpl.
  - destruct (acquire s who now); simpl; [apply IH | done].
  - destruct (settle s who o now); simpl; [apply IH | done].
Qed.

Lemma perform_refines st a k : wf_store st ->
  let '(st', l) := perform st a in wf_store st' /\ replay (lease_at st k) (entries_of k l) = Some (lease_at st' k).
Proof.
  intros Hwf. destruct a as [j prov snk who now | c o now]; simpl.
  - pose proof (claim_refines st j prov snk who now Hwf) as H. destruct (claim_delivery st j prov snk who now) as [st' c].
    destruct H as (Hw & _ & Hother & H). split; [done |].
    destruct (acquire (lease_at st j) who now) as [s |] eqn:Ea.
    + destruct H as (-> & Hs & _). unfold entries_of. simpl. case_bool_decide as E; [| by rewrite Hother].
      subst k. simpl. by rewrite Ea, Hs.
    + destruct H as (Hst & Hs & _). destruct (decide (k = j)) as [-> | Hne]; [rewrite Hs | rewrite Hother by done]; by destruct (status c).
  - pose proof (record_refines st c o now Hwf) as H. unfold record_delivery_outcome in *.
    destruct (owned st c) as [| [j r] l] eqn:Eo.
    { destruct H as [Hw _]. done. }
    destruct H as (Hw & j' & r' & s & Hr' & Hid & Hset & Hs & Hother). split; [done |].
    assert ((j, r) ∈ owned st c) as (Hr & Hid' & _)%owned_elem by (rewrite Eo; apply list_elem_of_here).
    assert (j = j') as <- by (apply (ws_ids _ Hwf j j' r r'); congruence).
    unfold entries_of. simpl. case_bool_decide as E; [| by rewrite Hother]. subst k. simpl. by rewrite Hset, Hs.
Qed.

Lemma entries_of_app k l1 l2 : entries_of k (l1 ++ l2) = entries_of k l1 ++ entries_of k l2.
Proof. apply List.filter_app. Qed.

Lemma run_refines st ops k : wf_store st ->
  wf_store (run_ops st ops).1 /\
  replay (lease_at st k) (entries_of k (run_ops st ops).2) = Some (lease_at (run_ops st ops).1 k).
Proof.
  revert st; induction ops as [| a ops IH]; intros st Hwf; [done |]. simpl.
  pose proof (perform_refines st a k Hwf) as H. destruct (perform st a) as [st1 l1]. destruct H as [Hw H].
  destruct (IH st1 Hw) as [Hw2 H2]. destruct (run_ops st1 ops) as [st2 l2]. simpl in *. split; [done |].
  by rewrite entries_of_app, replay_app, H.
Qed.

(** C13: The delivery receipts refine the lease specification: whatever workers
    claim and record, in whatever order and at whatever times, the history of each
    destination is a run of the specification that ends in the lease its receipt
    stands for. *)
Theorem receipts_refine_lease ops k :
  let '(st, l) := run_ops empty_store ops in
  replay (Free None) (entries_of k l) = Some (lease_at st k).
Proof.
  pose proof (run_refines empty_store ops k empty_wf) as [_ H]. by destruct (run_ops empty_store ops).
Qed.

Lemma acquire_held s who now s' : acquire s who now = Some s' -> s' = Held who (now + CLAIM_LEASE).
Proof. unfold acquire. destruct s as [nb | w u | d]; [destruct (later nb now) | destruct (now <? u) |]; naive_solver. Qed.

Lemma replay_done o l : replay (Done o) l = None \/ l = [].
Proof. destruct l as [| []]; [by right | by left | by left]. Qed.

Lemma replay_recorded s k who o now l t : replay s (Recorded k who o now :: l) = Some t -> ostate o <> ORetryable -> l = [].
Proof.
  simpl. unfold settle. destruct s; try done. destruct (String.eqb who0 who); [| done]. simpl.
  destruct (ostate o) eqn:E; [| | done]; intros H _; by destruct (replay_done OAccepted l), (replay_done OTerminal l); congruence.
Qed.

(** In every interleaving, once a final outcome (accepted or terminal) is
    recorded for an event's destination nothing is ever granted or recorded for it
    again, and two workers hold the same destination one after the other only when
    the first recorded its outcome or its lease of thirty seconds ran out. *)
Theorem delivery_exclusive ops k l1 l2 :
  entries_of k (run_ops empty_store ops).2 = l1 ++ l2 ->
  (forall who o now l, l2 = Recorded k who o now :: l -> ostate o <> ORetryable -> l = []) /\
  (forall who now who' now' l, l2 = Granted k who now :: Granted k who' now' :: l -> now + CLAIM_LEASE <= now') /\
  (forall who now who' o now' l, l2 = Granted k who now :: Recorded k who' o now' :: l -> who' = who).
Proof.
  intros E. destruct (run_refines empty_store ops k empty_wf) as [_ H]. rewrite E, replay_app in H.
  destruct (replay (lease_at empty_store k) l1) as [s |]; [| done]. simpl in H. split_and!.
  - intros who o now l -> Ho. by apply (replay_recorded s k who o now l _ H).
  - intros who now who' now' l ->. simpl in H. destruct (acquire s who now) as [s1 |] eqn:E1; [| done]. simpl in H.
    apply acquire_held in E1 as ->.
    simpl in H. destruct (Z.ltb_spec now' (now + CLAIM_LEASE)); [done | lia].
  - intros who now who' o now' l ->. simpl in H. destruct (acquire s who now) as [s1 |] eqn:E1; [| done]. simpl in H.
    apply acquire_held in E1 as ->.
    simpl in H. destruct (String.eqb_spec who who'); [done | done].
Qed.

(** *** The dispatch of one event *)

Inductive send_result := Sent (o : outcome) | Raised | Cancelled.

Record summary := Summary {
  sum_state : outcome_state;
  target_count : Z;
  accepted_count : Z;
  terminal_count : Z;
  retryable_count : Z;
  outcomes : list outcome
}.

Definition count {A} (P : A -> bool) (l : list A) : Z := Z.of_nat (length (List.filter P l)).

Definition in_state (s : outcome_state) (o : outcome) : bool := bool_decide (ostate o = s).

Definition summarize (os : list outcome) : summary :=
  let retryable := count (in_state ORetryable) os in
  let accepted := count (in_state OAccepted) os in
  Summary (if negb (retryable =? 0) then ORetryable else if negb (accepted =? 0) then OAccepted else OTerminal)
    (count (fun o => negb (String.eqb (o_provider o) "routing")) os)
    accepted (count (in_state OTerminal) os) retryable os.

Section Dispatch.
Variable loads : string -> option json.
(** [decrypt_config]; the error is the exception's class name, in lower case. *)
Variable decrypt : list (string * json) -> result string (list (string * json)).
(** The provider call. *)
Variable sender : target -> list (string * json) -> alert -> send_result.
(** The routing tables at the moment a destination is sent to. *)
Variable db_at : target -> routing.
(** What other workers do before each claim and before each record. *)
Variables (env_claim env_record : target -> list op).
(** The clock of each claim and each record. *)
Variables (claim_time record_time : target -> Z).

Definition plain_outcome (st : outcome_state) (code text : string) (t : target) (n : Z) : outcome :=
  Outcome st code text (provider t) (Some (sink_id t)) n None None None.

(** [send_target]: eligibility and configuration are read again just before. *)
Definition send_target (event : alert) (t : target) : send_result :=
  let db := db_at t in
  match List.find (fun s => (sink_no s =? sink_id t) && sink_enabled s) (sinks db) with
  | None => Sent (plain_outcome OTerminal "destination_unavailable"
                    "The destination was disabled or removed before delivery." t 0)
  | Some current =>
      let matching := List.filter (fun r => (route_sink r =? sink_id t) && route_enabled r) (routes db) in
      if bool_decide (alert_sink event = Some (sink_id t))
         || existsb (fun r => route_matches (alert_severity r) (severity event)) matching
      then match decrypt (config_of loads (provider_config current)) with
           | Ok cfg => sender t cfg event
           | Err name =>
               Sent (plain_outcome OTerminal
                       (if occurs "token" name
                        then "authentication_rejected" else "credential_unavailable")
                       "Destination credentials are unavailable." t 0)
           end
      else Sent (plain_outcome OTerminal "destination_unavailable"
                   "The destination was disabled or removed before delivery." t 0)
  end.

(** The claims, in the order of the targets: the store, the claims to send for, and
    the outcomes already known. *)
Fixpoint claim_all (st : store) (eid who : string) (ts : list target) : store * list (target * claim) * list outcome :=
  match ts with
  | [] => (st, [], [])
  | t :: ts =>
      let st := (run_ops st (env_claim t)).1 in
      let '(st, c) := claim_delivery st (eid, sink_id t) (provider t) (Some (sink_id t)) who (claim_time t) in
      let '(st, pending, os) := claim_all st eid who ts in
      match status c with
      | CClaimed => (st, (t, c) :: pending, os)
      | _ => (st, pending, option_list (existing c) ++ os)
      end
  end.

(** A raised error is a retryable outcome; a cancellation ends the dispatch. *)
Definition result_of (t : target) (r : send_result) : option outcome :=
  match r with
  | Sent o => Some o
  | Raised => Some (plain_outcome ORetryable "delivery_error" "Delivery failed before the provider accepted it." t 1)
  | Cancelled => None
  end.

Definition claim_lost (t : target) (o : outcome) : outcome :=
  plain_outcome ORetryable "claim_lost" "Delivery ownership expired before its result was recorded." t (attempt_count o).

(** The records, in the order of the claims. *)
Fixpoint record_all (st : store) (pending : list (target * claim * send_result)) : option (store * list outcome) :=
  match pending with
  | [] => Some (st, [])
  | (t, c, r) :: pending =>
      o ← result_of t r;
      let st := (run_ops st (env_record t)).1 in
      let '(st, persisted) := record_delivery_outcome st c o (record_time t) in
      '(st, os) ← record_all st pending;
      Some (st, (if (persisted : bool) then o else claim_lost t o) :: os)
  end.

(** The receipt key 0 stands for an event no destination matched. *)
Definition dispatch_nowhere (st : store) (eid who : string) (now now' : Z) : store * summary :=
  let '(st, c) := claim_delivery st (eid, 0) "routing" None who now in
  match existing c with
  | Some o => (st, summarize [o])
  | None =>
      let o := Outcome OTerminal "no_route" "No enabled notification destination matched this alert." "routing" None 0 None None None in
      ((record_delivery_outcome st c o now').1, summarize [o])
  end.

(** [dispatch_event]: the store, the summary and the destinations sent to; [None]
    when the dispatch was cancelled. *)
Definition dispatch_event (st : store) (db : routing) (event : alert) (eid who : string) (now now' : Z) :
    option (store * summary * list target) :=
  match select_delivery_targets loads db event with
  | [] => let '(st, s) := dispatch_nowhere st eid who now now' in Some (st, s, [])
  | ts =>
      let '(st, pending, os) := claim_all st eid who ts in
      let sent := map (fun tc => (tc, send_target event tc.1)) pending in
      '(st, os') ← record_all st sent;
      Some (st, summarize (os ++ os'), map fst pending)
  end.

(** *** What a summary means *)

Lemma count_zero {A} (P : A -> bool) l : count P l = 0 <-> forall x, x ∈ l -> P x = false.
Proof.
  unfold count. induction l as [| x l IH]; simpl; [set_solver |].
  destruct (P x) eqn:E; simpl; [split; [lia | intros H; rewrite H in E; [done | apply list_elem_of_here]] |].
  rewrite IH. split; [intros H y [-> | Hy]%elem_of_cons; auto | intros H y Hy; apply H; by apply list_elem_of_further].
Qed.

Lemma summary_not_retryable os o : sum_state (summarize os) <> ORetryable -> o ∈ os -> ostate o <> ORetryable.
Proof.
  unfold summarize. simpl. destruct (Z.eqb_spec (count (in_state ORetryable) os) 0) as [E | E]; simpl; [| done].
  rewrite count_zero in E. intros _ Ho Hr. specialize (E o Ho). unfold in_state in E. by apply bool_decide_eq_false in E.
Qed.

Definition is_done (s : lease) : Prop := match s with Done _ => True | _ => False end.

Lemma run_done st ops k : wf_store st -> is_done (lease_at st k) -> is_done (lease_at (run_ops st ops).1 k).
Proof.
  intros Hwf Hd. destruct (run_refines st ops k Hwf) as [_ H]. destruct (lease_at st k); try done.
  destruct (replay_done o (entries_of k (run_ops st ops).2)) as [E | E]; [congruence |]. rewrite E in H. simpl in H.
  by injection H as <-.
Qed.

Lemma perform_done st a k : wf_store st -> is_done (lease_at st k) -> is_done (lease_at (perform st a).1 k).
Proof.
  intros Hwf Hd. pose proof (run_done st [a] k Hwf Hd) as H. simpl in H. by destruct (perform st a).
Qed.

Lemma run_wf st ops : wf_store st -> wf_store (run_ops st ops).1.
Proof. intros H. by destruct (run_refines st ops ("", 0) H). Qed.

(** A receipt keeps its number. *)
Definition has_id (st : store) (k : key) (id : Z) : Prop := exists r, receipts st !! k = Some r /\ rid r = id.

Lemma has_id_put st k id j r r' n : has_id st k id -> receipts st !! j = Some r -> rid r' = rid r ->
  has_id (Store (<[j := r']> (receipts st)) n) k id.
Proof.
  intros (x & Hx & Ex) Hj E. unfold has_id. simpl. destruct (decide (j = k)) as [<- | Hne].
  - rewrite lookup_insert_eq. exists r'. split; [done | congruence].
  - rewrite lookup_insert_ne by done. by exists x.
Qed.

Lemma ensured_has_id st k prov snk now j id : has_id st j id -> has_id (ensured st k prov snk now) j id.
Proof.
  intros (x & Hx & Ex). unfold ensured. destruct (receipts st !! k) eqn:E; [by exists x |]. exists x. simpl.
  split; [| done]. rewrite lookup_insert_ne; [done | by intros ->; rewrite Hx in E].
Qed.

Lemma claim_has_id st k prov snk who now : wf_store st ->
  (forall j id, has_id st j id -> has_id (claim_delivery st k prov snk who now).1 j id) /\
  has_id (claim_delivery st k prov snk who now).1 k (claim_receipt (claim_delivery st k prov snk who now).2).
Proof.
  intros Hwf. unfold claim_delivery. fold (ensured st k prov snk now).
  pose proof (ensured_has_id st k prov snk now) as Hen. destruct (ensured_spec st k prov snk now Hwf) as (_ & [r Hr] & _).
  set (st1 := ensured st k prov snk now) in *. clearbody st1. rewrite Hr.
  destruct (final (rstate r)); [split; [intros j id; apply Hen | by exists r] |].
  destruct (later (claim_expires_at r) now); [split; [intros j id; apply Hen | by exists r] |].
  destruct (later (next_retry_at r) now); [split; [intros j id; apply Hen | by exists r] |]. split; simpl.
  - intros j id H%Hen. by apply (has_id_put st1 j id k r).
  - eexists. simpl. rewrite lookup_insert_eq. by split.
Qed.

Lemma record_has_id st c o now k id : has_id st k id -> has_id (record_delivery_outcome st c o now).1 k id.
Proof.
  intros H. unfold record_delivery_outcome. destruct (owned st c) as [| [j r] l] eqn:E; [done |].
  assert ((j, r) ∈ owned st c) as (Hr & _)%owned_elem by (rewrite E; apply list_elem_of_here).
  by apply (has_id_put st k id j r).
Qed.

Lemma run_has_id st ops k id : wf_store st -> has_id st k id -> has_id (run_ops st ops).1 k id.
Proof.
  revert st; induction ops as [| a ops IH]; intros st Hwf H; [done |]. cbn [run_ops].
  pose proof (perform_refines st a k Hwf) as Hp.
  assert (has_id (perform st a).1 k id) as H1.
  { destruct a as [j prov snk who now | c o now]; simpl.
    - destruct (claim_has_id st j prov snk who now Hwf) as [Hc _]. specialize (Hc k id H). by destruct (claim_delivery _ _ _ _ _ _).
    - pose proof (record_has_id st c o now k id H) as Hc. by destruct (record_delivery_outcome _ _ _ _). }
  destruct (perform st a) as [st1 l1]. destruct Hp as [Hw _]. specialize (IH st1 Hw H1). by destruct (run_ops st1 ops).
Qed.

(** A recorded final outcome leaves its destination done. *)
Lemma record_done st c o now k : wf_store st -> has_id st k (claim_receipt c) -> ostate o <> ORetryable ->
  (record_delivery_outcome st c o now).2 = true -> is_done (lease_at (record_delivery_outcome st c o now).1 k).
Proof.
  intros Hwf (x & Hx & Ex) Ho Hok. pose proof (record_refines st c o now Hwf) as H.
  destruct (record_delivery_outcome st c o now) as [st' ok]. simpl in *. subst ok.
  destruct H as (_ & j & r & s & Hr & Hid & Hset & Hs & _).
  assert (j = k) as <- by (apply (ws_ids _ Hwf j k r x); congruence). rewrite Hs.
  unfold settle in Hset. destruct (lease_at st j); try done. destruct (String.eqb who (owner c)); [| done].
  injection Hset as <-. by destruct (ostate o).
Qed.

Lemma record_mono st c o now : wf_store st ->
  wf_store (record_delivery_outcome st c o now).1 /\
  forall k, is_done (lease_at st k) -> is_done (lease_at (record_delivery_outcome st c o now).1 k).
Proof.
  intros Hwf. split; [pose proof (record_refines st c o now Hwf) as H; destruct (record_delivery_outcome st c o now); by destruct H |].
  intros k Hd. pose proof (perform_done st (OpRecord c o now) k Hwf Hd) as H. simpl in H.
  by destruct (record_delivery_outcome st c o now).
Qed.

Lemma claim_mono st k prov snk who now : wf_store st ->
  wf_store (claim_delivery st k prov snk who now).1 /\
  forall j, is_done (lease_at st j) -> is_done (lease_at (claim_delivery st k prov snk who now).1 j).
Proof.
  intros Hwf. split; [pose proof (claim_refines st k prov snk who now Hwf) as H; destruct (claim_delivery _ _ _ _ _ _); by destruct H |].
  intros j Hd. pose proof (perform_done st (OpClaim k prov snk who now) j Hwf Hd) as H. simpl in H.
  by destruct (claim_delivery st k prov snk who now).
Qed.

(** Recording leaves done what is done, and makes done what it records as final. *)
Lemma record_all_done eid pending st st' os' :
  wf_store st -> record_all st pending = Some (st', os') ->
  (forall t c r, (t, c, r) ∈ pending -> has_id st (eid, sink_id t) (claim_receipt c)) ->
  (forall k, is_done (lease_at st k) -> is_done (lease_at st' k)) /\
  ((forall o, o ∈ os' -> ostate o <> ORetryable) ->
   forall t c r, (t, c, r) ∈ pending -> is_done (lease_at st' (eid, sink_id t))).
Proof.
  revert st os'. induction pending as [| [[t c] r] pending IH]; intros st os' Hwf; cbn [record_all].
  { intros [= <- <-] _. split; [done | set_solver]. }
  destruct (result_of t r) as [o |]; [| done]. cbn [mbind option_bind]. intros H Hid.
  set (st0 := (run_ops st (env_record t)).1) in *. pose proof (run_wf st (env_record t) Hwf : wf_store st0) as Hw0.
  destruct (record_mono st0 c o (record_time t) Hw0) as [Hw1 Hm1].
  pose proof (record_done st0 c o (record_time t)) as Hd1. pose proof (record_has_id st0 c o (record_time t)) as Hi1.
  destruct (record_delivery_outcome st0 c o (record_time t)) as [st1 ok]. simpl in *.
  destruct (record_all st1 pending) as [[st2 os2] |] eqn:Er; [| done]. injection H as <- <-.
  assert (forall x y z, (x, y, z) ∈ pending -> has_id st1 (eid, sink_id x) (claim_receipt y)) as Hid1.
  { intros x y z Hx. apply Hi1, run_has_id; [done |]. apply (Hid x y z). by apply list_elem_of_further. }
  destruct (IH st1 os2 Hw1 Er Hid1) as [IH1 IH2]. split.
  - intros k Hk. by apply IH1, Hm1, run_done.
  - intros Hos x y z [[= -> -> ->] | Hx]%elem_of_cons.
    + assert (ok = true) as ->.
      { specialize (Hos (if ok then o else claim_lost t o) (list_elem_of_here _ _)). by destruct ok. }
      apply IH1, Hd1; [done | | by apply Hos, list_elem_of_here | done].
      apply run_has_id; [done |]. apply (Hid t c r), list_elem_of_here.
    + apply (IH2 (fun o' Ho' => Hos o' (list_elem_of_further _ _ _ Ho')) x y z Hx).
Qed.

(** Every target is claimed, or done, or leaves a retryable outcome. *)
Lemma claim_all_covers eid who ts st st' pending os :
  wf_store st -> claim_all st eid who ts = (st', pending, os) ->
  wf_store st' /\ (forall k, is_done (lease_at st k) -> is_done (lease_at st' k)) /\
  (forall k id, has_id st k id -> has_id st' k id) /\
  (forall t c, (t, c) ∈ pending -> has_id st' (eid, sink_id t) (claim_receipt c) /\ t ∈ ts) /\
  (forall t, t ∈ ts -> (exists c, (t, c) ∈ pending) \/ is_done (lease_at st' (eid, sink_id t)) \/
                      exists o, o ∈ os /\ ostate o = ORetryable).
Proof.
  revert st st' pending os. induction ts as [| t ts IH]; intros st st' pending os Hwf; cbn [claim_all].
  { intros [= <- <- <-]. split_and!; set_solver. }
  set (st0 := (run_ops st (env_claim t)).1). pose proof (run_wf st (env_claim t) Hwf : wf_store st0) as Hw0.
  pose proof (claim_refines st0 (eid, sink_id t) (provider t) (Some (sink_id t)) who (claim_time t) Hw0) as Hc.
  destruct (claim_mono st0 (eid, sink_id t) (provider t) (Some (sink_id t)) who (claim_time t) Hw0) as [Hw1 Hm1].
  destruct (claim_has_id st0 (eid, sink_id t) (provider t) (Some (sink_id t)) who (claim_time t) Hw0) as [Hi1 Hi2].
  destruct (claim_delivery st0 _ _ _ _ _) as [st1 c]. simpl in *. destruct Hc as (_ & _ & _ & Hc).
  destruct (claim_all st1 eid who ts) as [[st2 pend2] os2] eqn:Er.
  destruct (IH st1 st2 pend2 os2 Hw1 Er) as (Hw2 & Hm2 & Hi3 & Hp & Hcov). intros H.
  assert (st' = st2) as -> by (destruct (status c); congruence).
  split_and!; [done | intros k Hk; by apply Hm2, Hm1, run_done | intros k id Hk; by apply Hi3, Hi1, run_has_id | |].
  - intros x y Hx. assert ((x, y) = (t, c) \/ (x, y) ∈ pend2) as [[= -> ->] | Hx'].
    { destruct (status c); injection H as <- <-; [by apply elem_of_cons in Hx | by right | by right]. }
    + split; [by apply Hi3 | apply list_elem_of_here].
    + destruct (Hp _ _ Hx'). split; [done | by apply list_elem_of_further].
  - intros x [-> | Hx]%elem_of_cons.
    + destruct (acquire (lease_at st0 (eid, sink_id t)) who (claim_time t)).
      * destruct Hc as (Es & _ & _). rewrite Es in H. injection H as <- <-. left. exists c. apply list_elem_of_here.
      * destruct Hc as (Es & El & o & Eo & Hst). right. rewrite Eo in H.
        assert (o ∈ os) as Ho by (destruct (status c); [done | |]; injection H as <- <-; apply list_elem_of_here).
        destruct (lease_at st0 (eid, sink_id t)) eqn:Elease; [right; by exists o | right; by exists o | left].
        apply Hm2. by rewrite El.
    + destruct (Hcov x Hx) as [[y Hy] | [Hd | (o & Ho & Hr)]]; [left | right; by left | right; right].
      * exists y. destruct (status c); injection H as <- <-; [by apply list_elem_of_further | done | done].
      * exists o. split; [| done]. destruct (status c); injection H as <- <-; [done | |]; apply elem_of_app; by right.
Qed.

(** When a dispatch reports anything but retryable, which is when its message
    is acknowledged, every destination selected for the event is done in the
    receipts, whatever other workers did meanwhile; the destinations it sent to
    were all selected. *)
Theorem acknowledged_is_settled st db event eid who now now' st' sm sent :
  wf_store st -> dispatch_event st db event eid who now now' = Some (st', sm, sent) ->
  sum_state sm <> ORetryable ->
  forall t, (t ∈ select_delivery_targets loads db event -> is_done (lease_at st' (eid, sink_id t))) /\
            (t ∈ sent -> t ∈ select_delivery_targets loads db event).
Proof.
  intros Hwf. unfold dispatch_event. destruct (select_delivery_targets loads db event) as [| t0 ts0] eqn:Esel.
  { destruct (dispatch_nowhere st eid who now now'). intros [= <- <- <-] _ t. split; set_solver. }
  set (ts := t0 :: ts0). destruct (claim_all st eid who ts) as [[st1 pending] os] eqn:Ec.
  destruct (claim_all_covers eid who ts st st1 pending os Hwf Ec) as (Hw1 & _ & _ & Hp & Hcov).
  destruct (record_all st1 _) as [[st2 os2] |] eqn:Er; [| done]. intros [= <- <- <-] Hs t.
  assert (forall t c r, (t, c, r) ∈ map (fun tc => (tc, send_target event tc.1)) pending ->
            has_id st1 (eid, sink_id t) (claim_receipt c)) as Hid.
  { intros x y z ([x' y'] & [= -> -> ->] & Hx)%list_elem_of_fmap. by apply Hp. }
  destruct (record_all_done eid _ st1 st2 os2 Hw1 Er Hid) as [Hm Hd].
  assert (forall o, o ∈ os ++ os2 -> ostate o <> ORetryable) as Hno by (intros o; by apply summary_not_retryable).
  split.
  - intros Ht. destruct (Hcov t Ht) as [[c Hc] | [Hdone | (o & Ho & Hr)]].
    + apply (Hd (fun o Ho => Hno o (proj2 (elem_of_app _ _ _) (or_intror Ho))) t c (send_target event t)).
      apply list_elem_of_fmap. by exists (t, c).
    + by apply Hm.
    + by destruct (Hno o (proj2 (elem_of_app _ _ _) (or_introl Ho))).
  - intros ([x y] & -> & Hx)%list_elem_of_fmap. by apply (Hp x y).
Qed.

End Dispatch.
(** *** The destinations of an alert *)

Lemma add_targets_ids loads rows acc k :
  k ∈ map sink_id (add_targets loads rows acc) <-> k ∈ map sink_id acc \/ k ∈ map sink_no rows.
Proof.
  revert acc; induction rows as [| s rows IH]; intros acc; simpl; [set_solver |]. rewrite IH.
  case_bool_decide as E; [set_solver |]. rewrite map_app, elem_of_app. simpl. set_solver.
Qed.

Lemma add_targets_nodup loads rows acc : NoDup (map sink_id acc) -> NoDup (map sink_id (add_targets loads rows acc)).
Proof.
  revert acc; induction rows as [| s rows IH]; intros acc H; simpl; [done |]. apply IH.
  case_bool_decide as E; [done |]. rewrite map_app. apply NoDup_app. simpl.
  split_and!; [done | set_solver | apply NoDup_singleton].
Qed.

Lemma joined_elem db r s : (r, s) ∈ joined db <->
  r ∈ routes db /\ s ∈ sinks db /\ sink_no s = route_sink r /\ route_enabled r = true /\ sink_enabled s = true.
Proof.
  unfold joined. rewrite list_elem_of_bind. setoid_rewrite list_elem_of_bind. split.
  - intros (r' & (s' & H & Hs) & Hr). destruct ((sink_no s' =? route_sink r') && route_enabled r' && sink_enabled s') eqn:E; [| set_solver].
    apply list_elem_of_singleton in H as [= -> ->]. reflect_bools. naive_solver.
  - intros (Hr & Hs & E1 & E2 & E3). exists r. split; [| done]. exists s. split; [| done].
    rewrite E1, E2, E3, Z.eqb_refl. apply list_elem_of_here.
Qed.

Lemma canonical_on_ladder v f : canonical_severity v = Some f -> f ∈ SEVERITY_LADDER.
Proof.
  unfold canonical_severity. case_bool_decide as E; [by intros [= <-] |]. unfold SEVERITY_ALIASES, SEVERITY_LADDER.
  destruct (String.eqb _ "warn"); [intros [= <-]; set_solver |].
  case_bool_decide; [intros [= <-]; set_solver |]. case_bool_decide; [intros [= <-]; set_solver | done].
Qed.

(** An alert goes once to each of its destinations: addressed to one sink, to
    that sink when it is enabled; otherwise to exactly the enabled sinks with an
    enabled route whose threshold admits its severity, and a severity or a
    threshold that is not on the ladder never suppresses it. *)
Theorem targets_exact loads db event :
  NoDup (map sink_id (select_delivery_targets loads db event)) /\
  (forall k, k ∈ map sink_id (select_delivery_targets loads db event) <->
     match alert_sink event with
     | Some j => k = j /\ exists s, s ∈ sinks db /\ sink_no s = k /\ sink_enabled s = true
     | None => exists r s, r ∈ routes db /\ s ∈ sinks db /\ sink_no s = k /\ route_sink r = k /\
                 route_enabled r = true /\ sink_enabled s = true /\
                 route_matches (alert_severity r) (severity event) = true
     end) /\
  (forall threshold, canonical_severity (severity event) = None \/ canonical_severity threshold = None ->
     route_matches threshold (severity event) = true).
Proof.
  split_and!.
  - unfold select_delivery_targets. destruct (alert_sink event); [| apply add_targets_nodup; constructor].
    destruct (List.find _ _); simpl; [apply NoDup_singleton | constructor].
  - intros k. unfold select_delivery_targets. destruct (alert_sink event) as [j |].
    + destruct (List.find _ _) as [s |] eqn:E; simpl.
      * apply find_some in E as [Hs E]. reflect_bools. destruct E as [<- E]. rewrite list_elem_of_singleton.
        apply list_elem_of_In in Hs. naive_solver.
      * split; [set_solver |]. intros (-> & s & Hs & <- & Es). apply list_elem_of_In in Hs.
        pose proof (find_none _ _ E s Hs) as H. simpl in H. by rewrite Z.eqb_refl, Es in H.
    + rewrite add_targets_ids. simpl. rewrite list_elem_of_fmap. setoid_rewrite list_elem_of_fmap.
      setoid_rewrite list_elem_of_In. setoid_rewrite filter_In. setoid_rewrite <- list_elem_of_In. split.
      * intros [? | (s & -> & [r s'] & -> & Hj & Hm)]; [set_solver |]. apply joined_elem in Hj. naive_solver.
      * intros (r & s & Hr & Hs & <- & E & E1 & E2 & E3). right. exists s. split; [done |]. exists (r, s).
        rewrite joined_elem. naive_solver.
  - intros threshold H. unfold route_matches, alert_severity_rank. destruct (String.eqb _ "*"); [done |].
    destruct (canonical_severity threshold) as [fl |] eqn:Et; [| done]. destruct H as [-> | H]; [| done]. simpl.
    apply canonical_on_ladder in Et. unfold SEVERITY_LADDER in Et.
    apply elem_of_cons in Et as [-> | Et]; [done |]. apply elem_of_cons in Et as [-> | Et]; [done |].
    by apply list_elem_of_singleton in Et as ->.
Qed.

(** *** Examples *)

Definition lab_outcome (s : outcome_state) : outcome := Outcome s "ok" "" "slack" (Some 1) 1 None None None.

(** Two workers race for one destination; the second gets it when the lease is over. *)
Definition lab_ops : list op :=
  [OpClaim ("e", 1) "slack" (Some 1) "a" 0; OpClaim ("e", 1) "slack" (Some 1) "b" 1000000;
   OpClaim ("e", 1) "slack" (Some 1) "b" 30000000; OpRecord (Claim 1 "a" CClaimed None) (lab_outcome OAccepted) 31000000;
   OpRecord (Claim 1 "b" CClaimed None) (lab_outcome OAccepted) 32000000; OpClaim ("e", 1) "slack" (Some 1) "c" 90000000].

Example lab_history : entries_of ("e", 1) (run_ops empty_store lab_ops).2 =
  [Granted ("e", 1) "a" 0; Granted ("e", 1) "b" 30000000; Recorded ("e", 1) "b" (lab_outcome OAccepted) 32000000].
Proof. vm_compute. reflexivity. Qed.

Lemma delivery_exclusive_witness : 0 + CLAIM_LEASE <= 30000000.
Proof.
  destruct (delivery_exclusive lab_ops ("e", 1) [] (entries_of ("e", 1) (run_ops empty_store lab_ops).2) eq_refl) as (_ & H & _).
  apply (H "a" 0 "b" 30000000 [Recorded ("e", 1) "b" (lab_outcome OAccepted) 32000000]). vm_compute. reflexivity.
Defined.

Definition lab_routing : routing :=
  Routing [Route 1 "warning" true; Route 2 "critical" true; Route 1 "*" true]
    [Sink 1 true "slack" (JObj []); Sink 2 true "email" (JObj [])].

Definition lab_alert : alert := Alert None None "error" "t" "m".

Definition lab_dispatch : option (store * summary * list target) :=
  dispatch_event (fun _ => None) (fun c => Ok c) (fun t _ _ => Sent (lab_outcome OAccepted)) (fun _ => lab_routing)
    (fun _ => []) (fun _ => []) (fun _ => 0) (fun _ => 1) empty_store lab_routing lab_alert "e" "w" 0 0.

Lemma acknowledged_is_settled_witness : exists st' sm sent, lab_dispatch = Some (st', sm, sent) /\
  is_done (lease_at st' ("e", 2)).
Proof.
  destruct lab_dispatch as [[[st' sm] sent] |] eqn:E; [| vm_compute in E; discriminate E].
  exists st', sm, sent. split; [reflexivity |].
  apply (fun H1 H2 H3 => proj1 (acknowledged_is_settled (fun _ => None) (fun c => Ok c) (fun t _ _ => Sent (lab_outcome OAccepted))
    (fun _ => lab_routing) (fun _ => []) (fun _ => []) (fun _ => 0) (fun _ => 1) empty_store lab_routing lab_alert "e" "w" 0 0
    st' sm sent H1 H2 H3 (Target 2 "email" []))).
  - apply empty_wf.
  - exact E.
  - vm_compute in E. injection E as <- <- <-. vm_compute. discriminate.
  - apply list_elem_of_In. vm_compute. right. left. reflexivity.
Defined.

End Delivery.
