(* ===== verification/TransferFormat.v ===== *)
(** The portable inventory format
    ([services/inventory_transfer/format.py], [schemas/inventory_transfer.py]):
    the allowlists, the reader of the older export and the validation every
    document passes before it is planned. *)
From S2P Require Import Prelude Json.
Open Scope Z_scope.

Module Format.
Import Json.

(** A record of the document: a JSON object. *)
Abbreviation row := (list (string * json)).

Definition MAX_DOCUMENT_BYTES : Z := 5 * 1024 * 1024.
Definition MAX_RECORDS : Z := 10000.

Definition ENTITY_FIELDS : list (string * list string) := [
   ("hardware", ["id"; "name"; "hostname"; "role"; "vendor"; "model"; "cpu"; "memory_gb"; "location"; "notes"; "ip_address"; "wan_uplink"; "cpu_brand"; "os_version"; "software_platform"; "status"]);
   ("compute_units", ["id"; "name"; "kind"; "hardware_id"; "os"; "icon_slug"; "cpu_cores"; "cpu_brand"; "memory_mb"; "disk_gb"; "ip_address"; "environment"; "notes"; "status"]);
   ("services", ["id"; "name"; "slug"; "compute_id"; "hardware_id"; "icon_slug"; "category"; "url"; "ports"; "description"; "environment"; "status"; "ip_address"]);
   ("storage", ["id"; "name"; "kind"; "hardware_id"; "capacity_gb"; "used_gb"; "path"; "protocol"; "notes"]);
   ("networks", ["id"; "name"; "cidr"; "vlan_id"; "gateway"; "description"; "gateway_hardware_id"]);
   ("misc_items", ["id"; "name"; "kind"; "url"; "description"]);
   ("docs", ["id"; "title"; "body_md"; "body_html"]);
   ("tags", ["id"; "name"; "color"]);
   ("hardware_clusters", ["id"; "name"; "description"; "environment"; "location"]);
   ("external_nodes", ["id"; "name"; "provider"; "kind"; "region"; "ip_address"; "icon_slug"; "notes"; "environment"])
  ].

Definition RELATIONSHIP_FIELDS : list (string * list string) := [
   ("entity_tags", ["entity_type"; "entity_id"; "tag_id"]);
   ("entity_docs", ["entity_type"; "entity_id"; "doc_id"]);
   ("service_dependencies", ["service_id"; "depends_on_id"; "connection_type"; "bandwidth_mbps"]);
   ("service_storage", ["service_id"; "storage_id"; "purpose"; "connection_type"; "bandwidth_mbps"]);
   ("service_misc", ["service_id"; "misc_id"; "purpose"; "connection_type"; "bandwidth_mbps"]);
   ("hardware_networks", ["hardware_id"; "network_id"; "ip_address"; "connection_type"; "bandwidth_mbps"]);
   ("compute_networks", ["compute_id"; "network_id"; "ip_address"; "connection_type"; "bandwidth_mbps"]);
   ("hardware_connections", ["source_hardware_id"; "target_hardware_id"; "connection_type"; "bandwidth_mbps"; "source_port"; "target_port"; "source"]);
   ("hardware_cluster_members", ["cluster_id"; "hardware_id"; "role"]);
   ("external_node_networks", ["external_node_id"; "network_id"; "link_type"; "notes"]);
   ("service_external_nodes", ["service_id"; "external_node_id"; "purpose"])
  ].

(** [PortableInventory]; [exported_at] is kept as the text it is dumped to. *)
Record inventory := Inventory {
  exported_at : string;
  included : list string;
  excluded : list string;
  entities : list (string * list row);
  relationships : list (string * list row)
}.

(** [isinstance(v, int)] and its value; Python's booleans are integers. *)
Definition as_int (v : json) : option Z :=
  match v with JInt z => Some z | JBool b => Some (Z.b2z b) | _ => None end.

(** [row.get(field)]. *)
Definition field (r : row) (f : string) : json := default JNull (dict_get f r).

(** [v == n] for a number [n]. *)
Definition equals_int (v : json) (n : Z) : bool :=
  match v with
  | JFloat r => String.eqb r (pretty n +:+ ".0")
  | v => bool_decide (as_int v = Some n)
  end.

Section Parse.
(** [json.loads], and pydantic's reading of a [datetime] (as the text it is
    dumped to); [None] is the exception.  [now] is the current time's text. *)
Variable loads : string -> option json.
Variable parse_datetime : json -> option string.
Variable now : string.

Definition strings (l : list string) : json := JList (map JStr l).

Definition normalize_legacy_v2 (data : row) : row :=
  [("format", JStr "circuitbreaker.inventory");
   ("version", JInt 1);
   ("exported_at", if falsy (field data "exported_at") then JStr now else field data "exported_at");
   ("manifest",
     JObj [("included", strings (ENTITY_FIELDS.*1 ++ RELATIONSHIP_FIELDS.*1));
           ("excluded", strings ["users"; "credentials"; "settings"; "operational_history"; "telemetry";
                                 "map_layouts"; "uploaded_files"])]);
   ("entities", JObj (map (fun n => (n, default (JList []) (dict_get n data))) ENTITY_FIELDS.*1));
   ("relationships", JObj (map (fun n => (n, default (JList []) (dict_get n data))) RELATIONSHIP_FIELDS.*1))].

(** [PortableInventory.model_validate]. *)
Definition as_strings (v : json) : option (list string) :=
  match v with
  | JList l => mapM (fun x => match x with JStr s => Some s | _ => None end) l
  | _ => None
  end.

Definition as_rows (v : json) : option (list row) :=
  match v with
  | JList l => mapM (fun x => match x with JObj fs => Some fs | _ => None end) l
  | _ => None
  end.

Definition as_groups (v : json) : option (list (string * list row)) :=
  match v with
  | JObj gs => mapM (fun g => rows ← as_rows g.2; Some (g.1, rows)) gs
  | _ => None
  end.

Definition declared (data : row) : bool :=
  match dict_get "format" data, dict_get "version" data with
  | Some (JStr f), Some (JInt v) => String.eqb f "circuitbreaker.inventory" && (v =? 1)
  | _, _ => false
  end.

Definition model_validate (data : row) : option inventory :=
  if negb (declared data) then None else
  at_ ← dict_get "exported_at" data ≫= parse_datetime;
  m ← match dict_get "manifest" data with Some (JObj m) => Some m | _ => None end;
  inc ← dict_get "included" m ≫= as_strings;
  exc ← dict_get "excluded" m ≫= as_strings;
  es ← dict_get "entities" data ≫= as_groups;
  rs ← dict_get "relationships" data ≫= as_groups;
  Some (Inventory at_ inc exc es rs).

(** The inner loop of [_validate_records]: [seen] is [source_ids]. *)
Fixpoint validate_rows (group : string) (allowed : list string) (seen : list Z) (count : Z) (rows : list row)
    : result string Z :=
  match rows with
  | [] => Ok count
  | r :: rows =>
      let unknown := List.filter (fun k => negb (bool_decide (k ∈ allowed))) r.*1 in
      if negb (bool_decide (unknown = [])) then
        Err ("Unsupported fields in " +:+ group +:+ ": " +:+ String.concat ", " (py_sorted String.leb (dedup unknown)))
      else if bool_decide (group ∈ ENTITY_FIELDS.*1) then
        match as_int (field r "id") with
        | Some i =>
            if (i <? 1) || bool_decide (i ∈ seen)
            then Err ("Every " +:+ group +:+ " record needs a unique positive integer id")
            else validate_rows group allowed (i :: seen) (count + 1) rows
        | None => Err ("Every " +:+ group +:+ " record needs a unique positive integer id")
        end
      else validate_rows group allowed seen (count + 1) rows
  end.

Fixpoint validate_groups (allowlists : list (string * list string)) (count : Z) (groups : list (string * list row))
    : result string Z :=
  match groups with
  | [] => Ok count
  | (g, rows) :: groups =>
      count ← validate_rows g (default [] (dict_get g allowlists)) [] count rows;
      validate_groups allowlists count groups
  end.

Definition validate_records (groups : list (string * list row)) (allowlists : list (string * list string))
    : result string Z :=
  let unknown := List.filter (fun g => negb (bool_decide (g ∈ allowlists.*1))) groups.*1 in
  if negb (bool_decide (unknown = []))
  then Err ("Unsupported inventory sections: " +:+ String.concat ", " (py_sorted String.leb (dedup unknown)))
  else validate_groups allowlists 0 groups.

Definition parse_inventory_document (raw : string + json) : result string inventory :=
  data ← match raw with
         | inl b =>
             if MAX_DOCUMENT_BYTES <? Z.of_nat (String.length b) then Err "Inventory document exceeds the 5 MiB limit"
             else match loads b with Some v => Ok v | None => Err "Inventory document is not valid UTF-8 JSON" end
         | inr v => Ok v
         end;
  match data with
  | JObj data =>
      let data := if equals_int (field data "version") 2 && negb (bool_decide ("format" ∈ data.*1))
                  then normalize_legacy_v2 data else data in
      match model_validate data with
      | None => Err "Inventory document has an unsupported format or version"
      | Some document =>
          n ← validate_records (entities document) ENTITY_FIELDS;
          k ← validate_records (relationships document) RELATIONSHIP_FIELDS;
          if MAX_RECORDS <? n + k then Err ("Inventory document exceeds the " +:+ pretty MAX_RECORDS +:+ " record limit")
          else Ok document
      end
  | _ => Err "Inventory document must be a JSON object"
  end.

(** [document.model_dump(mode="json")]. *)
Definition dump_groups (gs : list (string * list row)) : json :=
  JObj (map (fun g => (g.1, JList (map JObj g.2))) gs).

Definition model_dump (d : inventory) : row :=
  [("format", JStr "circuitbreaker.inventory"); ("version", JInt 1); ("exported_at", JStr (exported_at d));
   ("manifest", JObj [("included", strings (included d)); ("excluded", strings (excluded d))]);
   ("entities", dump_groups (entities d)); ("relationships", dump_groups (relationships d))].

(** *** What an accepted document satisfies *)

(** [int(row["id"])]. *)
Definition source_id (r : row) : Z := default 0 (as_int (field r "id")).

Definition identified (r : row) : Prop := exists i, as_int (field r "id") = Some i /\ 1 <= i.

Definition records (gs : list (string * list row)) : Z := foldr (fun g n => Z.of_nat (length g.2) + n) 0 gs.

(** Sections the allowlists name, with the fields they allow. *)
Definition allowlisted (allow : list (string * list string)) (gs : list (string * list row)) : Prop :=
  forall g rows, (g, rows) ∈ gs -> exists fields, dict_get g allow = Some fields /\
    forall r, r ∈ rows -> forall k, k ∈ r.*1 -> k ∈ fields.

Record well_formed (d : inventory) : Prop := {
  wf_entities : allowlisted ENTITY_FIELDS (entities d);
  wf_relationships : allowlisted RELATIONSHIP_FIELDS (relationships d);
  wf_identified : forall t rows, (t, rows) ∈ entities d -> Forall identified rows /\ NoDup (source_id <$> rows);
  wf_bounded : records (entities d) + records (relationships d) <= MAX_RECORDS
}.

(** The object the document is read from: the bytes decoded, an older export
    rewritten. *)
Definition decoded (raw : string + json) : option row :=
  match raw with
  | inl b => if MAX_DOCUMENT_BYTES <? Z.of_nat (String.length b) then None
             else match loads b with Some (JObj data) => Some data | _ => None end
  | inr (JObj data) => Some data
  | inr _ => None
  end.

Definition adapted (data : row) : row :=
  if equals_int (field data "version") 2 && negb (bool_decide ("format" ∈ data.*1))
  then normalize_legacy_v2 data else data.

(** *** Lemmas *)

Lemma unknown_nil (allowed ks : list string) :
  bool_decide (List.filter (fun k => negb (bool_decide (k ∈ allowed))) ks = []) = true <->
  forall k, k ∈ ks -> k ∈ allowed.
Proof.
  rewrite bool_decide_eq_true, filter_none.
  setoid_rewrite negb_false_iff. by setoid_rewrite bool_decide_eq_true.
Qed.

(** A section is accepted exactly when its records are allowlisted and, for
    entities, carry fresh positive ids. *)
Lemma validate_rows_Ok g allowed seen count rows n :
  validate_rows g allowed seen count rows = Ok n <->
  (forall r, r ∈ rows -> forall k, k ∈ r.*1 -> k ∈ allowed) /\
  (g ∈ ENTITY_FIELDS.*1 -> Forall identified rows /\ NoDup (source_id <$> rows) /\
     forall r, r ∈ rows -> source_id r ∉ seen) /\
  n = count + Z.of_nat (length rows).
Proof.
  revert seen count; induction rows as [| r rows IH]; intros seen count; cbn [validate_rows].
  { simpl. split.
    - intros [= <-]. split_and!; [set_solver | | lia]. intros _. split_and!; [done | constructor | set_solver].
    - intros (_ & _ & ->). f_equal. lia. }
  destruct (bool_decide _) eqn:Ek; cbn [negb].
  2: { split; [done |]. intros (H & _). rewrite <- not_true_iff_false, unknown_nil in Ek.
       destruct Ek. apply (H r). constructor. }
  rewrite unknown_nil in Ek. case_bool_decide as Hg.
  - destruct (as_int (field r "id")) as [i |] eqn:Ei.
    2: { split; [done |]. intros (_ & H & _). destruct (H Hg) as (Hf & _).
         inversion Hf as [| ? ? (i & Hi & _)]; subst. congruence. }
    assert (source_id r = i) as Hsi by by (unfold source_id; rewrite Ei).
    destruct ((i <? 1) || bool_decide (i ∈ seen)) eqn:Eb.
    { split; [done |]. intros (_ & H & _). destruct (H Hg) as (Hf & _ & Hs).
      inversion Hf as [| ? ? (i' & Hi' & Hp)]; subst. apply orb_true_iff in Eb as [Eb | Eb].
      - simplify_eq. lia.
      - apply bool_decide_eq_true in Eb. destruct (Hs r); [constructor |]. done. }
    apply orb_false_iff in Eb as [Eb Hs%bool_decide_eq_false]. rewrite IH, fmap_cons, Forall_cons, NoDup_cons, Hsi.
    cbn [length]. split; intros (Ha & Hi & ->); (split_and!; [| intros Hg' | lia]).
    + intros r' [-> | Hr']%elem_of_cons; [done | by apply Ha].
    + destruct (Hi Hg) as (Hf & Hn & Hf'). split_and!; [exists i; split; [done | lia] | done | | done |].
      * intros (r' & -> & Hr')%list_elem_of_fmap. apply (Hf' r' Hr'). constructor.
      * intros r' [-> | Hr']%elem_of_cons; [by rewrite Hsi |]. intros Hin. apply (Hf' r' Hr'). by constructor.
    + intros r' Hr'. apply Ha. by constructor.
    + destruct (Hi Hg) as ((_ & Hf) & (Hi' & Hn) & Hf'). split_and!; [done | done |].
      intros r' Hr' [E | Hin]%elem_of_cons.
      * apply Hi'. rewrite <- E. apply list_elem_of_fmap. by exists r'.
      * apply (Hf' r'); [by constructor | done].
  - rewrite IH. cbn [length]. split; intros (Ha & Hi & ->); (split_and!; [| done | lia]).
    + intros r' [-> | Hr']%elem_of_cons; [done | by apply Ha].
    + intros r' Hr'. apply Ha. by constructor.
Qed.

Lemma validate_groups_Ok allow count gs n :
  (forall g, g ∈ gs.*1 -> g ∈ allow.*1) ->
  validate_groups allow count gs = Ok n <->
  allowlisted allow gs /\
  (forall g rows, (g, rows) ∈ gs -> g ∈ ENTITY_FIELDS.*1 -> Forall identified rows /\ NoDup (source_id <$> rows)) /\
  n = count + records gs.
Proof.
  intros Hk. revert count; induction gs as [| [g rows] gs IH]; intros count; cbn [validate_groups].
  { simpl. unfold allowlisted. split; [intros [= <-]; split_and!; [set_solver | set_solver | lia] |].
    intros (_ & _ & ->). f_equal. lia. }
  destruct (validate_rows g _ [] count rows) as [m | e] eqn:E; cbn [mbind result_bind].
  - apply validate_rows_Ok in E as (Ha & Hi & ->). rewrite IH by set_solver. unfold allowlisted. cbn [records foldr snd].
    assert (is_Some (dict_get g allow)) as [fs Hfs] by (apply dict_get_is_Some, Hk; simpl; set_solver).
    rewrite Hfs in Ha; simpl in Ha.
    split; intros (H1 & H2 & ->); (split_and!; [intros g' rows' Hin | intros g' rows' Hin |]).
    + apply elem_of_cons in Hin as [[= -> ->] | Hin]; [by exists fs | by apply H1].
    + intros Hg. apply elem_of_cons in Hin as [[= -> ->] | Hin]; [| by apply H2 with g']. by destruct (Hi Hg) as (? & ? & _).
    + fold (records gs). lia.
    + apply H1. by constructor.
    + apply (H2 g'). by constructor.
    + fold (records gs). lia.
  - split; [done |]. intros (H1 & H2 & _).
    enough (validate_rows g (default [] (dict_get g allow)) [] count rows = Ok (count + Z.of_nat (length rows))) by congruence.
    apply validate_rows_Ok. destruct (H1 g rows) as (fs & Hfs & Hr); [constructor |]. rewrite Hfs. simpl.
    split_and!; [done | | done]. intros Hg. destruct (H2 g rows); [constructor | done |]. split_and!; [done | done | set_solver].
Qed.

Lemma validate_records_Ok allow gs n :
  validate_records gs allow = Ok n <->
  allowlisted allow gs /\
  (forall g rows, (g, rows) ∈ gs -> g ∈ ENTITY_FIELDS.*1 -> Forall identified rows /\ NoDup (source_id <$> rows)) /\
  n = records gs.
Proof.
  unfold validate_records. destruct (bool_decide _) eqn:Ek; cbn [negb].
  - rewrite unknown_nil in Ek. by rewrite validate_groups_Ok.
  - split; [done |]. intros (H & _). rewrite <- not_true_iff_false, unknown_nil in Ek. destruct Ek.
    intros g ([g' rows] & -> & Hin)%list_elem_of_fmap. destruct (H g' rows Hin) as (fs & Hfs & _).
    apply dict_get_is_Some. simpl. by rewrite Hfs.
Qed.

Lemma sections_disjoint g : g ∈ ENTITY_FIELDS.*1 -> g ∈ RELATIONSHIP_FIELDS.*1 -> False.
Proof.
  intros H1 H2. assert (forallb (fun e => negb (bool_decide (e ∈ RELATIONSHIP_FIELDS.*1))) ENTITY_FIELDS.*1 = true) as H
    by (vm_compute; reflexivity).
  rewrite forallb_forall in H. specialize (H g). rewrite <- list_elem_of_In in H. specialize (H H1).
  apply negb_true_iff, bool_decide_eq_false in H. done.
Qed.

(** What the parser accepts, and what it returns. *)
Lemma parse_shape raw d :
  parse_inventory_document raw = Ok d <->
  exists data, decoded raw = Some data /\ model_validate (adapted data) = Some d /\ well_formed d.
Proof.
  assert (parse_inventory_document raw = Ok d <-> exists data, decoded raw = Some data /\
    model_validate (adapted data) = Some d /\
    exists n k, validate_records (entities d) ENTITY_FIELDS = Ok n /\
      validate_records (relationships d) RELATIONSHIP_FIELDS = Ok k /\ n + k <= MAX_RECORDS) as ->.
  { unfold parse_inventory_document, decoded. set (big := MAX_RECORDS).
    destruct raw as [b | v]; [destruct (MAX_DOCUMENT_BYTES <? _); [| destruct (loads b) as [v |]] |].
    1, 3: (split; [done | by intros (? & ? & _)]).
    all: cbn [mbind result_bind]; destruct v as [| | | | | | data]; try (split; [done | by intros (? & ? & _)]).
    all: cbv zeta; fold (adapted data); set (m := model_validate (adapted data)); assert (forall data', Some data = Some data' -> model_validate (adapted data') = m)
      as Hm by (by intros ? [= <-]).
    all: destruct m as [d' |]; [| split; [done |]; intros (? & E & Em & _); by rewrite (Hm _ E) in Em].
    all: transitivity (d' = d /\ exists n k, validate_records (entities d') ENTITY_FIELDS = Ok n /\
      validate_records (relationships d') RELATIONSHIP_FIELDS = Ok k /\ n + k <= big).
    2, 4: split; [intros (<- & H); exists data; eauto |]; intros (? & E & Em & H); rewrite (Hm _ E) in Em; by simplify_eq.
    all: destruct (validate_records (entities d') _) as [n |]; cbn [mbind result_bind]; [| split; [done |]; by intros (_ & ? & ? & ? & _)].
    all: destruct (validate_records (relationships d') _) as [k |]; cbn [mbind result_bind]; [| split; [done |]; by intros (_ & ? & ? & _ & ? & _)].
    all: destruct (Z.ltb_spec big (n + k)).
    1, 3: split; [done |]; intros (_ & ? & ? & [= <-] & [= <-] & ?); lia.
    all: split; [intros [= <-]; eauto 10 | by intros (-> & _)]. }
  split; intros (data & Hd & Hm & H); exists data; (split_and!; [done | done |]).
  - destruct H as (n & k & (He & Hi & ->)%validate_records_Ok & (Hr & _ & ->)%validate_records_Ok & Hb).
    split; try done. intros t rows Hin. apply (Hi t rows Hin). destruct (He t rows Hin) as (fs & Hfs & _).
    apply dict_get_is_Some. by rewrite Hfs.
  - destruct H as [He Hr Hi Hb]. exists (records (entities d)), (records (relationships d)).
    rewrite !validate_records_Ok. split_and!; try done.
    + intros g rows Hin _. by apply (Hi g).
    + intros g rows Hin Hg. destruct (Hr g rows Hin) as (fs & Hfs & _). destruct (sections_disjoint g Hg).
      apply dict_get_is_Some. by rewrite Hfs.
Qed.

(** C16: A document is accepted exactly when it decodes to an object the schema
    reads as that document, every section and field is allowlisted, every
    entity has a positive id unique in its section, and the records number at
    most [MAX_RECORDS]. *)
Theorem parse_exact raw d :
  parse_inventory_document raw = Ok d <->
  exists data, decoded raw = Some data /\ model_validate (adapted data) = Some d /\ well_formed d.
Proof. apply parse_shape. Qed.

Lemma as_strings_dump l : as_strings (strings l) = Some l.
Proof. simpl. induction l as [| x l IH]; simpl; [done |]. by rewrite IH. Qed.

Lemma as_rows_dump l : as_rows (JList (map JObj l)) = Some l.
Proof. simpl. induction l as [| x l IH]; simpl; [done |]. by rewrite IH. Qed.

Lemma as_groups_dump gs : as_groups (dump_groups gs) = Some gs.
Proof.
  cbn [as_groups dump_groups]. induction gs as [| [g rows] gs IH]; [done |].
  cbn [map mapM fst snd]. by rewrite as_rows_dump; cbn [mbind option_bind]; rewrite IH.
Qed.

(** A stored document reads back as itself. *)
Lemma model_validate_dump d :
  parse_datetime (JStr (exported_at d)) = Some (exported_at d) -> model_validate (model_dump d) = Some d.
Proof.
  intros Ht. unfold model_validate. change (declared (model_dump d)) with true.
  change (dict_get "exported_at" (model_dump d)) with (Some (JStr (exported_at d))).
  change (dict_get "manifest" (model_dump d)) with
    (Some (JObj [("included", strings (included d)); ("excluded", strings (excluded d))])).
  change (dict_get "entities" (model_dump d)) with (Some (dump_groups (entities d))).
  change (dict_get "relationships" (model_dump d)) with (Some (dump_groups (relationships d))).
  cbn [negb mbind option_bind]. rewrite Ht. cbn [mbind option_bind].
  change (dict_get "included" _) with (Some (strings (included d))).
  change (dict_get "excluded" _) with (Some (strings (excluded d))).
  cbn [mbind option_bind]. rewrite !as_strings_dump, !as_groups_dump. by destruct d.
Qed.

Lemma model_validate_datetime data d : model_validate data = Some d -> exists v, parse_datetime v = Some (exported_at d).
Proof.
  unfold model_validate. destruct (negb (declared data)); [done |].
  destruct (dict_get "exported_at" data) as [v |]; cbn [mbind option_bind]; [| done].
  destruct (parse_datetime v) as [x |] eqn:E; cbn [mbind option_bind]; [| done].
  intros H. exists v. rewrite E. f_equal. revert H.
  destruct (dict_get "manifest" data) as [[] |]; cbn [mbind option_bind]; try done.
  destruct (dict_get "included" fields ≫= as_strings); cbn [mbind option_bind]; [| done].
  destruct (dict_get "excluded" fields ≫= as_strings); cbn [mbind option_bind]; [| done].
  destruct (dict_get "entities" data ≫= as_groups); cbn [mbind option_bind]; [| done].
  destruct (dict_get "relationships" data ≫= as_groups); cbn [mbind option_bind]; [| done].
  by intros [= <-].
Qed.

(** Reading back the JSON form of a well-formed document gives
    the document: what a preview stores is what the apply step works on. *)
Theorem document_roundtrip d :
  well_formed d -> parse_datetime (JStr (exported_at d)) = Some (exported_at d) ->
  parse_inventory_document (inr (JObj (model_dump d))) = Ok d.
Proof. intros Hw Ht. apply parse_shape. exists (model_dump d). split_and!; [done | by apply model_validate_dump | done]. Qed.
End Parse.
End Format.
