(* ===== verification/TransferPlan.v ===== *)
(** Planning a portable inventory merge ([services/inventory_transfer/plan.py]):
    the operator's decisions, identity conflicts, reference checks, and the
    plan with its digests.  The local inventory is a table of rows per entity
    kind, each row holding the portable columns. *)
From S2P Require Import Prelude Sha256 Json Canonical TransferFormat.
Open Scope Z_scope.

Module Plan.
Import Json Format.

(** *** The local inventory *)

Record table := Table { rows : list (Z * row); next_id : Z }.
Abbreviation tables := (gmap string table).

Definition tbl (db : tables) (t : string) : table := default (Table [] 1) (db !! t).

(** [db.query(model).order_by(model.id)]. *)
Definition by_id (db : tables) (t : string) : list (Z * row) :=
  py_sorted (fun r s => r.1 <=? s.1) (rows (tbl db t)).

(** [db.get(model, id) is not None]. *)
Definition present (db : tables) (t : string) (i : Z) : bool := bool_decide (i ∈ (rows (tbl db t)).*1).

(** [filter(getattr(model, f) == v)]: the matching rows' ids. *)
Definition holders (db : tables) (t f v : string) : list Z :=
  (List.filter (fun r => match field r.2 f with JStr s => String.eqb s v | _ => false end) (rows (tbl db t))).*1.

(** *** Schema of the references *)

Definition UNIQUE_FIELDS : list (string * string) :=
  [("services", "slug"); ("tags", "name"); ("hardware_clusters", "name")].

Definition INTERNAL_REFS : list (string * list (string * string)) := [
   ("compute_units", [("hardware_id", "hardware")]);
   ("storage", [("hardware_id", "hardware")]);
   ("services", [("hardware_id", "hardware"); ("compute_id", "compute_units")]);
   ("networks", [("gateway_hardware_id", "hardware")])
  ].

Definition RELATION_REFS : list (string * list (string * string)) := [
   ("service_dependencies", [("service_id", "services"); ("depends_on_id", "services")]);
   ("service_storage", [("service_id", "services"); ("storage_id", "storage")]);
   ("service_misc", [("service_id", "services"); ("misc_id", "misc_items")]);
   ("hardware_networks", [("hardware_id", "hardware"); ("network_id", "networks")]);
   ("compute_networks", [("compute_id", "compute_units"); ("network_id", "networks")]);
   ("hardware_connections", [("source_hardware_id", "hardware"); ("target_hardware_id", "hardware")]);
   ("hardware_cluster_members", [("cluster_id", "hardware_clusters"); ("hardware_id", "hardware")]);
   ("external_node_networks", [("external_node_id", "external_nodes"); ("network_id", "networks")]);
   ("service_external_nodes", [("service_id", "services"); ("external_node_id", "external_nodes")])
  ].

Definition ATTACHMENT_TYPES : list (string * string) := [
   ("hardware", "hardware"); ("compute", "compute_units"); ("compute_unit", "compute_units");
   ("service", "services"); ("storage", "storage"); ("network", "networks"); ("misc", "misc_items");
   ("misc_item", "misc_items"); ("external", "external_nodes"); ("external_node", "external_nodes")
  ].

Definition IDENTITY : string := "identity".

(** *** Decisions of the operator *)

Inductive decision_kind := Match | Rename | Reassign.
#[export] Instance decision_kind_eq : EqDecision decision_kind.
Proof. solve_decision. Defined.

(** [TransferResolution]. *)
Record resolution := Resolution {
  entity_type : string;
  record_id : Z;
  action : decision_kind;
  target_id : option Z;
  new_value : option string;
  on_field : option string
}.

(** [_fields_match_action], with the bounds of the fields. *)
Definition resolution_valid (r : resolution) : bool :=
  (0 <? record_id r) && match target_id r with Some i => 0 <? i | None => true end &&
  match action r with
  | Match => bool_decide (is_Some (target_id r)) && bool_decide (on_field r = None) && bool_decide (new_value r = None)
  | Rename => bool_decide (is_Some (new_value r)) && bool_decide (target_id r = None) && bool_decide (on_field r = None)
  | Reassign => bool_decide (is_Some (target_id r)) && bool_decide (is_Some (on_field r)) && bool_decide (new_value r = None)
  end.

(** Exceptions: [DataError] is the database's refusal to compare a text
    column with another type, [IntegrityError] a refused row. *)
Inductive error :=
| ValueError (msg : string)
| KeyError (key : string)
| MultipleResultsFound
| DataError
| IntegrityError (t : string)
| ConflictError (code : string)
| NotFoundError
| ValidationError (msg : string).

(** [str] of an optional text. *)
Definition str_opt (o : option string) : string := default "None" o.

Abbreviation bucket := (list (string * resolution)).

Definition slot_of (r : resolution) : string :=
  match action r with Match | Rename => IDENTITY | Reassign => str_opt (on_field r) end.

(** [_resolution_buckets]. *)
Fixpoint group_resolutions (acc : list ((string * Z) * bucket)) (rs : list resolution)
    : result error (list ((string * Z) * bucket)) :=
  match rs with
  | [] => Ok acc
  | r :: rs =>
      let b := default [] (dict_get (entity_type r, record_id r) acc) in
      if bool_decide (slot_of r ∈ b.*1) then Err (ValueError "Duplicate conflict resolutions were supplied")
      else group_resolutions (dict_set (entity_type r, record_id r) (dict_set (slot_of r) r b) acc) rs
  end.

Definition identity_of (b : bucket) : option resolution := dict_get IDENTITY b.

Definition resolution_buckets (rs : list resolution) : result error (list ((string * Z) * bucket)) :=
  bs ← group_resolutions [] rs;
  if existsb (fun b => match identity_of b.2 with
                       | Some i => bool_decide (action i = Match) && (1 <? length b.2)%nat
                       | None => false
                       end) bs
  then Err (ValueError "A record matched to an existing asset cannot also be reassigned")
  else Ok bs.

Definition kind_name (k : decision_kind) : string :=
  match k with Match => "match" | Rename => "rename" | Reassign => "reassign" end.

(** References bound to local records, by field. *)
Abbreviation overrides := (list (string * Z)).

Section Planner.
(** [repr(v)]. *)
Variable repr_of : json -> string.

(** [str(v)]. *)
Definition py_str (v : json) : string :=
  match v with
  | JStr s => s | JInt z => pretty z | JBool true => "True" | JBool false => "False" | JNull => "None"
  | v => repr_of v
  end.

Definition attachment (t : string) : bool := String.eqb t "entity_tags" || String.eqb t "entity_docs".
Definition attached_field (t : string) : string := if String.eqb t "entity_tags" then "tag_id" else "doc_id".
Definition attached_type (t : string) : string := if String.eqb t "entity_tags" then "tags" else "docs".
Definition owner_of (r : row) : option string := dict_get (py_str (field r "entity_type")) ATTACHMENT_TYPES.

Definition reference_target_type (owner f : string) (r : row) : result error string :=
  match dict_get owner INTERNAL_REFS ≫= dict_get f with
  | Some t => Ok t
  | None =>
      match dict_get owner RELATION_REFS ≫= dict_get f with
      | Some t => Ok t
      | None =>
          let refused := Err (ValueError (owner +:+ " has no portable " +:+ f +:+ " reference to reassign")) in
          if attachment owner then
            match (if String.eqb f "entity_id" then owner_of r else None) with
            | Some t => Ok t
            | None => if String.eqb f (attached_field owner) then Ok (attached_type owner) else refused
            end
          else refused
      end
  end.

Fixpoint reassign_overrides (db : tables) (owner : string) (r : row) (acc : overrides) (b : bucket)
    : result error overrides :=
  match b with
  | [] => Ok acc
  | (slot, item) :: b =>
      if String.eqb slot IDENTITY then reassign_overrides db owner r acc b
      else if negb (bool_decide (action item = Reassign)) then
        Err (ValueError ("Unsupported resolution action " +:+ repr_of (JStr (kind_name (action item))) +:+ " for " +:+ owner))
      else
        let f := str_opt (on_field item) in
        t ← reference_target_type owner f r;
        match target_id item with
        | Some i =>
            if present db t i then reassign_overrides db owner r (dict_set f i acc) b
            else Err (ValueError ("The selected " +:+ t +:+ " for " +:+ f +:+ " no longer exists."))
        | None => Err (ValueError ("The selected " +:+ t +:+ " for " +:+ f +:+ " no longer exists."))
        end
  end.

(** *** The plan *)

Inductive mapping :=
| MatchTo (source target : Z)
| Create (source : Z) (renamed : option (string * string)).

Definition source_of (m : mapping) : Z := match m with MatchTo s _ | Create s _ => s end.

Record conflict := Conflict {
  on_type : string;
  on_record : Z;
  reason_code : string;
  message : string;
  candidates : list Z;
  candidate_labels : list string;
  conflict_field : option string
}.

(** The accumulators of the loop over one entity type. *)
Record progress := Progress {
  mapped : list mapping;
  found : list conflict;
  n_creates : Z;
  n_matches : Z;
  claimed : list string;
  reassigned : list (Z * overrides)
}.

Definition add_mapping (m : mapping) (new_claims : list string) (p : progress) : progress :=
  Progress (mapped p ++ [m]) (found p)
    (match m with Create _ _ => n_creates p + 1 | MatchTo _ _ => n_creates p end)
    (match m with Create _ _ => n_matches p | MatchTo _ _ => n_matches p + 1 end)
    (new_claims ++ claimed p) (reassigned p).

Definition add_conflict (c : conflict) (p : progress) : progress :=
  Progress (mapped p) (found p ++ [c]) (n_creates p) (n_matches p) (claimed p) (reassigned p).

(** The text of the identity field, [None] when the record has none. *)
Definition identity_text (r : row) (f : string) : result error (option string) :=
  match field r f with JNull => Ok None | JStr s => Ok (Some s) | _ => Err DataError end.

(** The decision for one record, once its reassignments are read. *)
Definition plan_identity (db : tables) (t : string) (identity : option resolution) (r : row) (p : progress)
    : result error progress :=
  let i := source_id r in
  let unique := dict_get t UNIQUE_FIELDS in
  let by_field :=
    match unique with
    | None => Ok (add_mapping (Create i None) [] p)
    | Some f =>
        v ← identity_text r f;
        match v with
        | None => Ok (add_mapping (Create i None) [] p)
        | Some v =>
            match take 20 (holders db t f v) with
            | [] =>
                if bool_decide (v ∈ claimed p) then
                  Ok (add_conflict (Conflict t i "duplicate_source_identity"
                        ("Another incoming record already uses the " +:+ f +:+ " " +:+ repr_of (JStr v) +:+ "; keep one or rename the other.")
                        [] [] (Some f)) p)
                else Ok (add_mapping (Create i None) [v] p)
            | ids =>
                Ok (add_conflict (Conflict t i "unique_identity_conflict"
                      ("A local " +:+ t +:+ " record uses the same " +:+ f
                         +:+ "; choose it explicitly or revise the source inventory.")
                      ids (map (fun _ => v) ids) (Some f)) p)
            end
        end
    end in
  match identity with
  | None => by_field
  | Some d =>
      match action d with
      | Match =>
          match target_id d with
          | Some j =>
              if present db t j then Ok (add_mapping (MatchTo i j) [] p)
              else Ok (add_conflict (Conflict t i "match_not_found" "The selected local match no longer exists." [] [] None) p)
          | None => Ok (add_conflict (Conflict t i "match_not_found" "The selected local match no longer exists." [] [] None) p)
          end
      | Rename =>
          match unique with
          | None => Err (ValueError (t +:+ " records have no renamable identity field"))
          | Some f =>
              let v := str_opt (new_value d) in
              match holders db t f v with
              | [] =>
                  if bool_decide (v ∈ claimed p)
                  then Err (ValueError ("Two incoming records both use the proposed " +:+ f +:+ " " +:+ repr_of (JStr v) +:+ "."))
                  else Ok (add_mapping (Create i (Some (f, v))) [v] p)
              | [_] => Err (ValueError ("The proposed " +:+ f +:+ " " +:+ repr_of (JStr v) +:+ " is already used by an existing record."))
              | _ => Err MultipleResultsFound
              end
          end
      | Reassign => by_field
      end
  end.

Definition bucket_of (bs : list ((string * Z) * bucket)) (t : string) (i : Z) : bucket := default [] (dict_get (t, i) bs).

Fixpoint plan_rows (db : tables) (bs : list ((string * Z) * bucket)) (t : string) (p : progress) (l : list row)
    : result error progress :=
  match l with
  | [] => Ok p
  | r :: l =>
      let i := source_id r in
      let b := bucket_of bs t i in
      p ← (if bool_decide (identity_of b = None) && (0 <? length b)%nat then
             o ← reassign_overrides db t r [] b;
             Ok (Progress (mapped p) (found p) (n_creates p) (n_matches p) (claimed p) (dict_set i o (reassigned p)))
           else Ok p);
      p ← plan_identity db t (identity_of b) r p;
      plan_rows db bs t p l
  end.

Fixpoint plan_entities (db : tables) (bs : list ((string * Z) * bucket)) (groups : list (string * list row))
    : result error (list (string * progress)) :=
  match groups with
  | [] => Ok []
  | (t, l) :: groups =>
      if bool_decide (t ∈ ENTITY_FIELDS.*1) then
        p ← plan_rows db bs t (Progress [] [] 0 0 [] []) l;
        ps ← plan_entities db bs groups;
        Ok ((t, p) :: ps)
      else Err (KeyError t)
  end.

(** [require_ref]; [ids t] are the source ids of the document's [t] records. *)
Definition require_ref (ids : string -> list Z) (owner : string) (i : Z) (f target : string) (v : json) (o : overrides)
    : list conflict :=
  match v with
  | JNull => []
  | v =>
      if bool_decide (is_Some (dict_get f o)) then []
      else match as_int v with
           | Some j => if bool_decide (j ∈ ids target) then []
                       else [Conflict owner i "missing_reference" (f +:+ " refers to a source entity that is not in the document.") [] [] (Some f)]
           | None => [Conflict owner i "missing_reference" (f +:+ " refers to a source entity that is not in the document.") [] [] (Some f)]
           end
  end.

Definition require_refs (ids : string -> list Z) (owner : string) (i : Z) (refs : list (string * string)) (r : row)
    (o : overrides) : list conflict :=
  flat_map (fun ft => require_ref ids owner i ft.1 ft.2 (field r ft.1) o) refs.

Definition source_ids (d : inventory) (t : string) : list Z := source_id <$> default [] (dict_get t (entities d)).

Definition internal_conflicts (d : inventory) (ovr : list (string * list (Z * overrides))) : list conflict :=
  flat_map (fun tr =>
      flat_map (fun r =>
          require_refs (source_ids d) tr.1 (source_id r) tr.2 r
            (default [] (dict_get (source_id r) (default [] (dict_get tr.1 ovr)))))
        (default [] (dict_get tr.1 (entities d))))
    INTERNAL_REFS.

(** One row of a relationship: its overrides and its conflicts. *)
Definition plan_relation_row (db : tables) (d : inventory) (bs : list ((string * Z) * bucket)) (t : string) (i : Z) (r : row)
    : result error (overrides * list conflict) :=
  let b := bucket_of bs t i in
  if bool_decide (is_Some (identity_of b)) then
    Err (ValueError ("Relationship rows cannot be matched or renamed (" +:+ t +:+ ")."))
  else
    o ← reassign_overrides db t r [] b;
    if attachment t then
      Ok (o, match owner_of r with
             | None => [Conflict t i "unsupported_reference_type" "The attachment entity type is not portable." [] [] None]
             | Some target => require_ref (source_ids d) t i "entity_id" target (field r "entity_id") o
             end ++ require_ref (source_ids d) t i (attached_field t) (attached_type t) (field r (attached_field t)) o)
    else match dict_get t RELATION_REFS with
         | Some refs => Ok (o, require_refs (source_ids d) t i refs r o)
         | None => Err (KeyError t)
         end.

Fixpoint plan_relation_rows (db : tables) (d : inventory) (bs : list ((string * Z) * bucket)) (t : string) (i : Z)
    (l : list row) : result error (list (Z * overrides) * list conflict) :=
  match l with
  | [] => Ok ([], [])
  | r :: l =>
      oc ← plan_relation_row db d bs t i r;
      rest ← plan_relation_rows db d bs t (i + 1) l;
      Ok ((match bucket_of bs t i with [] => [] | _ => [(i, oc.1)] end) ++ rest.1, oc.2 ++ rest.2)
  end.

Fixpoint plan_relations (db : tables) (d : inventory) (bs : list ((string * Z) * bucket)) (groups : list (string * list row))
    : result error (list (string * list (Z * overrides)) * list conflict) :=
  match groups with
  | [] => Ok ([], [])
  | (t, l) :: groups =>
      oc ← plan_relation_rows db d bs t 1 l;
      rest ← plan_relations db d bs groups;
      Ok ((t, oc.1) :: rest.1, oc.2 ++ rest.2)
  end.

(** [{t: {str(i): o} for t, rows in ovr.items() for i, o in rows.items()}]. *)
Definition override_entries (ovr : list (string * list (Z * overrides))) : list (string * list (Z * overrides)) :=
  foldl (fun acc e => dict_set e.1 [e.2] acc) [] (flat_map (fun tr => map (fun io => (tr.1, io)) tr.2) ovr).

Record plan := ImportPlan {
  mappings : list (string * list mapping);
  creates : list (string * Z);
  matches : list (string * Z);
  relationship_counts : list (string * Z);
  resolutions : list resolution;
  ref_overrides : list (string * list (Z * overrides));
  relation_overrides : list (string * list (Z * overrides));
  conflict_count : Z
}.

(** *** Digests *)

(** [_stable_digest]: compact JSON with sorted keys, hashed. *)
Definition stable_digest (v : json) : string := Sha256.hexdigest (Canonical.text_by dump_str (Canonical.norm v)).

Definition fingerprint_rows (db : tables) (t : string) : json :=
  JList (map (fun r => JList (JInt r.1 :: match dict_get t UNIQUE_FIELDS with Some f => [field r.2 f] | None => [] end))
           (by_id db t)).

Definition ENTITY_MODELS : list string :=
  ["hardware"; "compute_units"; "services"; "storage"; "networks"; "misc_items"; "docs"; "tags";
   "hardware_clusters"; "external_nodes"].

Definition inventory_fingerprint (db : tables) : string :=
  stable_digest (JObj (map (fun t => (t, fingerprint_rows db t)) ENTITY_MODELS)).

Definition json_opt {A} (f : A -> json) (o : option A) : json := match o with Some x => f x | None => JNull end.

Definition mapping_json (m : mapping) : json :=
  match m with
  | MatchTo s t => JObj [("source_id", JInt s); ("action", JStr "match"); ("target_id", JInt t)]
  | Create s None => JObj [("source_id", JInt s); ("action", JStr "create")]
  | Create s (Some (f, v)) =>
      JObj [("source_id", JInt s); ("action", JStr "create"); ("overrides", JObj [(f, JStr v)])]
  end.

Definition resolution_json (r : resolution) : json :=
  JObj [("entity_type", JStr (entity_type r)); ("source_id", JInt (record_id r));
        ("action", JStr (kind_name (action r)));
        ("target_id", json_opt JInt (target_id r)); ("new_value", json_opt JStr (new_value r));
        ("field", json_opt JStr (on_field r))].

Definition overrides_json (ovr : list (string * list (Z * overrides))) : json :=
  JObj (map (fun tr => (tr.1, JObj (map (fun io => (pretty io.1, JObj (map (fun fv => (fv.1, JInt fv.2)) io.2))) tr.2))) ovr).

Definition counts_json (l : list (string * Z)) : json := JObj (map (fun kn => (kn.1, JInt kn.2)) l).

Definition plan_json (p : plan) : json :=
  JObj [("mappings", JObj (map (fun tm => (tm.1, JList (map mapping_json tm.2))) (mappings p)));
        ("creates", counts_json (creates p)); ("matches", counts_json (matches p));
        ("relationships", counts_json (relationship_counts p));
        ("resolutions", JList (map resolution_json (resolutions p)));
        ("ref_overrides", overrides_json (ref_overrides p));
        ("relation_overrides", overrides_json (relation_overrides p));
        ("conflict_count", JInt (conflict_count p))].

(** [BuiltImportPlan]. *)
Record built := Built {
  document_digest : string;
  inventory_digest : string;
  plan_digest : string;
  the_plan : plan;
  conflicts : list conflict
}.

Definition build_import_plan (db : tables) (d : inventory) (rs : list resolution) : result error built :=
  bs ← resolution_buckets rs;
  ps ← plan_entities db bs (entities d);
  let ovr := map (fun tp => (tp.1, reassigned tp.2)) ps in
  let internal := internal_conflicts d ovr in
  rel ← plan_relations db d bs (relationships d);
  let all := flat_map (fun tp => found tp.2) ps ++ internal ++ rel.2 in
  let p := ImportPlan
    (map (fun tp => (tp.1, mapped tp.2)) ps) (map (fun tp => (tp.1, n_creates tp.2)) ps)
    (map (fun tp => (tp.1, n_matches tp.2)) ps)
    (map (fun g => (g.1, Z.of_nat (length g.2))) (relationships d)) rs
    (override_entries ovr) (override_entries rel.1) (Z.of_nat (length all)) in
  let dd := stable_digest (JObj (model_dump d)) in
  let di := inventory_fingerprint db in
  Ok (Built dd di
        (stable_digest (JObj [("document_digest", JStr dd); ("inventory_digest", JStr di); ("plan", plan_json p)]))
        p all).

(** *** What a conflict-free plan satisfies *)

(** The identity a planned record will have in the local inventory. *)
Definition identity_under (t : string) (r : row) (m : mapping) : option string :=
  match m with
  | MatchTo _ _ => None
  | Create _ (Some (_, v)) => Some v
  | Create _ None => f ← dict_get t UNIQUE_FIELDS; match field r f with JStr s => Some s | _ => None end
  end.

(** The decision [m] for the record [r] of type [t] is sound in [db]. *)
Definition planned (db : tables) (t : string) (r : row) (m : mapping) : Prop :=
  source_of m = source_id r /\
  match m with
  | MatchTo _ j => present db t j = true
  | Create _ None =>
      forall f, dict_get t UNIQUE_FIELDS = Some f -> field r f = JNull \/ exists s, field r f = JStr s
  | Create _ (Some (f, _)) => dict_get t UNIQUE_FIELDS = Some f
  end.

(** No local record of type [t] carries the identity [v]. *)
Definition free_identity (db : tables) (t v : string) : Prop :=
  forall f, dict_get t UNIQUE_FIELDS = Some f -> holders db t f v = [].

Definition opt_list {A} (o : option A) : list A := match o with Some x => [x] | None => [] end.

(** One record is refused, or planned soundly. *)
Definition sound_step (db : tables) (t : string) (r : row) (p p' : progress) : Prop :=
  (exists c, p' = add_conflict c p) \/
  exists m, p' = add_mapping m (opt_list (identity_under t r m)) p /\ planned db t r m /\
    forall v, identity_under t r m = Some v -> (v ∉ claimed p) /\ free_identity db t v.

Lemma plan_identity_Ok db t identity r p p' : plan_identity db t identity r p = Ok p' -> sound_step db t r p p'.
Proof.
  unfold plan_identity. set (by_field := match dict_get t UNIQUE_FIELDS with Some _ => _ | None => _ end).
  unfold sound_step. assert (by_field = Ok p' -> sound_step db t r p p') as Hfield.
  { unfold by_field, sound_step. destruct (dict_get t UNIQUE_FIELDS) as [f |] eqn:Et.
    2: { intros [= <-]. right. exists (Create (source_id r) None). unfold identity_under, planned. rewrite Et. naive_solver. }
    unfold identity_text. destruct (field r f) as [| | | | v | |] eqn:Ef; cbn [mbind result_bind]; try done.
    { intros [= <-]. right. exists (Create (source_id r) None). unfold identity_under, planned. rewrite Et.
      cbn [mbind option_bind]. rewrite Ef. naive_solver. }
    destruct (take 20 (holders db t f v)) as [| h hs] eqn:Eh; [| intros [= <-]; left; eauto].
    case_bool_decide as Hc; intros [= <-]; [left; eauto |]. right. exists (Create (source_id r) None).
    unfold identity_under, planned, free_identity. rewrite Et. cbn [mbind option_bind]. rewrite Ef.
    split; [done |]. split; [split; [done |]; intros f' [= <-]; rewrite Ef; eauto |]. intros v' [= <-].
    split; [done |]. intros f' [= <-]. by destruct (holders db t f v). }
  destruct identity as [d |]; [| exact Hfield]. destruct (action d); [| | exact Hfield]; clear Hfield.
  - destruct (target_id d) as [j |]; [| intros [= <-]; left; eauto].
    destruct (present db t j) eqn:Ej; intros [= <-]; [| left; eauto]. right. by exists (MatchTo (source_id r) j).
  - destruct (dict_get t UNIQUE_FIELDS) as [f |] eqn:Et; [| done].
    destruct (holders db t f (str_opt (new_value d))) as [| ? []] eqn:Eh; [| done ..].
    case_bool_decide as Hc; [done |]. intros [= <-]. right. exists (Create (source_id r) (Some (f, str_opt (new_value d)))).
    split; [done |]. split; [done |]. intros v [= <-]. split; [done |]. unfold free_identity. rewrite Et.
    by intros f' [= <-].
Qed.

Definition identities (t : string) (l : list row) (ms : list mapping) : list string :=
  flat_map (fun rm => opt_list (identity_under t rm.1 rm.2)) (zip l ms).

Definition is_create (m : mapping) : bool := match m with Create _ _ => true | MatchTo _ _ => false end.

Definition count_by (f : mapping -> bool) (ms : list mapping) : Z := Z.of_nat (length (List.filter f ms)).

(** The bucket [reassign_overrides] is called with. *)
Definition reassigning (b : bucket) : bool := bool_decide (identity_of b = None) && (0 <? length b)%nat.

(** Where an override of a record comes from. *)
Definition overridden (db : tables) (bs : list ((string * Z) * bucket)) (t : string) (l : list row) (io : Z * overrides) : Prop :=
  exists r, r ∈ l /\ source_id r = io.1 /\ reassigning (bucket_of bs t io.1) = true /\
    reassign_overrides db t r [] (bucket_of bs t io.1) = Ok io.2.

(** The record's reassignments are read first. *)
Lemma plan_rows_cons db bs t p r l p' :
  plan_rows db bs t p (r :: l) = Ok p' ->
  exists ro p1, plan_identity db t (identity_of (bucket_of bs t (source_id r))) r
      (Progress (mapped p) (found p) (n_creates p) (n_matches p) (claimed p) ro) = Ok p1 /\
    plan_rows db bs t p1 l = Ok p' /\
    (ro = reassigned p \/ exists o, ro = dict_set (source_id r) o (reassigned p) /\ overridden db bs t [r] (source_id r, o)).
Proof.
  cbn [plan_rows]. fold (reassigning (bucket_of bs t (source_id r))).
  destruct (reassigning _) eqn:Eb; cbn [mbind result_bind].
  - destruct (reassign_overrides db t r [] _) as [o |] eqn:Eo; cbn [mbind result_bind]; [| done].
    destruct (plan_identity _ _ _ _ _) as [p1 |] eqn:Ep; cbn [mbind result_bind]; [| done]. intros H.
    exists (dict_set (source_id r) o (reassigned p)), p1. split_and!; [done | done |]. right. exists o.
    split; [done |]. exists r. split_and!; [set_solver | done | done | done].
  - destruct (plan_identity _ _ _ _ _) as [p1 |] eqn:Ep; cbn [mbind result_bind]; [| done]. intros H.
    exists (reassigned p), p1. split_and!; [by destruct p | done | by left].
Qed.

Lemma overridden_mono db bs t l l' io : (forall r, r ∈ l -> r ∈ l') -> overridden db bs t l io -> overridden db bs t l' io.
Proof. intros Hl (r & Hr & H). exists r. auto. Qed.

Lemma plan_rows_overrides db bs t p l p' :
  plan_rows db bs t p l = Ok p' ->
  (NoDup (reassigned p).*1 -> NoDup (reassigned p').*1) /\
  (forall io, io ∈ reassigned p' -> io ∈ reassigned p \/ overridden db bs t l io).
Proof.
  revert p; induction l as [| r l IH]; intros p H.
  { injection H as <-. auto. }
  apply plan_rows_cons in H as (ro & p1 & Hi & Hl & Hro). apply IH in Hl as (Hn & Ho).
  assert (reassigned p1 = ro) as E by (apply plan_identity_Ok in Hi as [[c ->] | (m & -> & _)]; done). rewrite E in *.
  split.
  - intros Hp. apply Hn. destruct Hro as [-> | (o & -> & _)]; [done | by apply dict_set_nodup].
  - intros io [Hin | Hin]%Ho; [| right; eapply overridden_mono, Hin; set_solver].
    destruct Hro as [-> | (o & -> & Hr)]; [by left |]. apply dict_set_elem in Hin as [-> | Hin]; [| by left].
    right. eapply overridden_mono, Hr. set_solver.
Qed.

Lemma identities_cons t r l m ms : identities t (r :: l) (m :: ms) = opt_list (identity_under t r m) ++ identities t l ms.
Proof. done. Qed.

(** A type without conflicts has one sound decision per record, in order, and
    the identities it creates are new and distinct. *)
Lemma plan_rows_free db bs t p l p' :
  plan_rows db bs t p l = Ok p' -> found p' = [] ->
  found p = [] /\ exists ms, mapped p' = mapped p ++ ms /\ Forall2 (planned db t) l ms /\
    n_creates p' = n_creates p + count_by is_create ms /\
    n_matches p' = n_matches p + count_by (fun m => negb (is_create m)) ms /\
    Forall (free_identity db t) (identities t l ms) /\ NoDup (identities t l ms) /\
    forall v, v ∈ identities t l ms -> v ∉ claimed p.
Proof.
  revert p; induction l as [| r l IH]; intros p H Hf.
  { injection H as <-. split; [done |]. exists []. rewrite app_nil_r.
    split; [done |]. split; [by apply Forall2_nil |]. split; [unfold count_by; simpl; lia |].
    split; [unfold count_by; simpl; lia |]. split_and!; [constructor | constructor | set_solver]. }
  apply plan_rows_cons in H as (ro & p1 & Hi & Hl & _). apply IH in Hl as (Hf1 & ms & Em & Hp & Ec & Ema & Hfree & Hnd & Hcl); [| done].
  apply plan_identity_Ok in Hi as [[c ->] | (m & -> & Hm & Hv)]; [by destruct (found p) |]. cbn in Hf1.
  split; [done |]. exists (m :: ms). cbn in Em, Ec, Ema. split_and!.
  - by rewrite Em, <- app_assoc.
  - by constructor.
  - rewrite Ec. unfold count_by; simpl. destruct m; simpl; lia.
  - rewrite Ema. unfold count_by; simpl. destruct m; simpl; lia.
  - rewrite identities_cons. apply Forall_app. split; [| done]. destruct (identity_under t r m) as [v |] eqn:Ev; simpl; [| constructor].
    constructor; [by apply Hv | constructor].
  - rewrite identities_cons. destruct (identity_under t r m) as [v |] eqn:Ev; simpl; [| done]. constructor; [| done].
    intros Hin. apply (Hcl v Hin). simpl. constructor.
  - rewrite identities_cons. intros v [Hin | Hin]%elem_of_app Hc.
    + destruct (identity_under t r m) as [w |] eqn:Ev; simpl in Hin; [| by apply elem_of_nil in Hin].
      apply list_elem_of_singleton in Hin as ->. by destruct (Hv w).
    + apply (Hcl v Hin). simpl. apply elem_of_app. by right.
Qed.

Lemma plan_entities_Ok db bs groups ps :
  plan_entities db bs groups = Ok ps ->
  ps.*1 = groups.*1 /\
  forall t, match dict_get t groups, dict_get t ps with
            | Some l, Some p => plan_rows db bs t (Progress [] [] 0 0 [] []) l = Ok p
            | None, None => True
            | _, _ => False
            end.
Proof.
  revert ps; induction groups as [| [g l] groups IH]; intros ps; cbn [plan_entities]; [by intros [= <-] |].
  case_bool_decide; [| done]. destruct (plan_rows db bs g _ l) as [p |] eqn:Ep; cbn [mbind result_bind]; [| done].
  destruct (plan_entities db bs groups) as [ps' |] eqn:Es; cbn [mbind result_bind]; [| done].
  intros [= <-]. destruct (IH ps' eq_refl) as (Ek & IHt). split; [by rewrite !fmap_cons, Ek |].
  intros t. simpl. case_decide; [by subst | apply IHt].
Qed.

(** *** Buckets *)

Lemma group_resolutions_elem acc rs bs :
  group_resolutions acc rs = Ok bs ->
  (forall k b e, (k, b) ∈ acc -> e ∈ b -> (entity_type e.2, record_id e.2) = k /\ e.1 = slot_of e.2) ->
  forall k b e, (k, b) ∈ bs -> e ∈ b ->
    (entity_type e.2, record_id e.2) = k /\ e.1 = slot_of e.2 /\ (e.2 ∈ rs \/ exists b', (k, b') ∈ acc /\ e ∈ b').
Proof.
  revert acc; induction rs as [| r rs IH]; intros acc; cbn [group_resolutions].
  { intros [= <-] Ha k b e Hk He. destruct (Ha k b e Hk He). split_and!; [done | done |]. right. eauto. }
  case_bool_decide; [done |]. intros E Ha k b e Hk He.
  set (key := (entity_type r, record_id r)) in *. set (b0 := default [] (dict_get key acc)) in *.
  assert (forall b e, (key, b) ∈ dict_set key (dict_set (slot_of r) r b0) acc -> e ∈ b -> e = (slot_of r, r) \/ exists b', (key, b') ∈ acc /\ e ∈ b') as Hin.
  { intros b' e' [[= ->] | Hb]%dict_set_elem He'; [| right; eauto]. apply dict_set_elem in He' as [-> | He']; [by left |].
    right. unfold b0 in He'. destruct (dict_get key acc) as [b' |] eqn:Eb; [| by apply elem_of_nil in He'].
    exists b'. split; [by apply dict_get_elem | done]. }
  assert (forall k b e, (k, b) ∈ dict_set key (dict_set (slot_of r) r b0) acc -> e ∈ b ->
            (k = key /\ e = (slot_of r, r)) \/ exists b', (k, b') ∈ acc /\ e ∈ b') as Hin'.
  { intros k' b' e' Hb He'. destruct (decide (k' = key)) as [-> | Hne].
    - destruct (Hin _ _ Hb He') as [-> | ?]; [left; done | by right].
    - right. apply dict_set_elem in Hb as [[=] | Hb]; [done | eauto]. }
  destruct (IH _ E) with k b e as (Hk' & Hs & Hor); [| done | done |].
  { intros k' b' e' Hb He'. destruct (Hin' _ _ _ Hb He') as [[-> ->] | (b'' & Hb'' & He'')]; [done | by apply (Ha k' b'')]. }
  split_and!; [done | done |]. destruct Hor as [? | (b' & Hb' & He')]; [left; by constructor |].
  destruct (Hin' _ _ _ Hb' He') as [[-> ->] | ?]; [left; constructor | by right].
Qed.

(** A record whose decisions are reassignments alone carries one of the
    operator's [reassign] resolutions. *)
Lemma reassigning_resolution rs bs t i :
  resolution_buckets rs = Ok bs -> reassigning (bucket_of bs t i) = true ->
  exists r, r ∈ rs /\ action r = Reassign /\ entity_type r = t /\ record_id r = i.
Proof.
  unfold resolution_buckets. destruct (group_resolutions [] rs) as [bs' |] eqn:E; cbn [mbind result_bind]; [| done].
  destruct (existsb _ bs'); [done |]. intros [= <-]. unfold reassigning, bucket_of.
  destruct (dict_get (t, i) bs') as [b |] eqn:Eb; cbn [default]; [| by intros [_ ?]%andb_true_iff].
  rewrite andb_true_iff, bool_decide_eq_true. intros [Hid Hlen].
  destruct b as [| [slot r] b]; [done |].
  destruct (group_resolutions_elem _ _ _ E) with (t, i) ((slot, r) :: b) (slot, r) as (Hk & Hs & [Hr | (? & Hb & _)]).
  1: { intros ? ? ? Hk. by apply elem_of_nil in Hk. }
  1: by apply dict_get_elem. 1: constructor. 2: by apply elem_of_nil in Hb.
  exists r. simpl in *. injection Hk as -> ->. split_and!; try done. subst slot. unfold identity_of in Hid. simpl in Hid.
  unfold slot_of in Hid. destruct (action r); try done; rewrite decide_True in Hid by done; done.
Qed.

Lemma reassign_overrides_Ok db owner r acc b o :
  reassign_overrides db owner r acc b = Ok o ->
  forall f j, dict_get f o = Some j ->
    dict_get f acc = Some j \/ exists t, reference_target_type owner f r = Ok t /\ present db t j = true.
Proof.
  revert acc; induction b as [| [slot item] b IH]; intros acc; cbn [reassign_overrides]; [by intros [= <-]; left |].
  destruct (String.eqb slot IDENTITY); [apply IH |]. destruct (negb _); [done |].
  destruct (reference_target_type owner (str_opt (on_field item)) r) as [t |] eqn:Et; cbn [mbind result_bind]; [| done].
  destruct (target_id item) as [i |]; [| done]. destruct (present db t i) eqn:Ep; [| done].
  intros E f j Hf. destruct (IH _ E f j Hf) as [H | H]; [| by right]. rewrite dict_get_set in H. case_decide; [| by left].
  right. exists t. simplify_eq. done.
Qed.

(** *** References *)

(** The overrides of one record, as the plan stores them. *)
Definition entry_overrides (ovr : list (string * list (Z * overrides))) (t : string) (i : Z) : overrides :=
  default [] (dict_get i (default [] (dict_get t ovr))).

(** A reference is bound to an existing local record, or is empty, or names a
    record of the document. *)
Definition settled (db : tables) (d : inventory) (o : overrides) (f target : string) (v : json) : Prop :=
  match dict_get f o with
  | Some j => present db target j = true
  | None => v = JNull \/ exists j, as_int v = Some j /\ j ∈ source_ids d target
  end.

Lemma require_ref_nil ids owner i f target v o :
  require_ref ids owner i f target v o = [] ->
  is_Some (dict_get f o) \/ v = JNull \/ exists j, as_int v = Some j /\ j ∈ ids target.
Proof.
  unfold require_ref. destruct (dict_get f o) as [j |] eqn:Eo; [by left; eauto |]. rewrite bool_decide_false by (intros []; done).
  assert ((match as_int v with
           | Some j => if bool_decide (j ∈ ids target) then [] else [Conflict owner i "missing_reference" (f +:+ " refers to a source entity that is not in the document.") [] [] (Some f)]
           | None => [Conflict owner i "missing_reference" (f +:+ " refers to a source entity that is not in the document.") [] [] (Some f)]
           end) = [] -> exists j, as_int v = Some j /\ j ∈ ids target) as H.
  { destruct (as_int v) as [j |]; [| done]. case_bool_decide; [| done]. eauto. }
  destruct v; try (intros; right; by left); intros Hc; right; right; by apply H.
Qed.

Lemma flat_map_nil {A B} (g : A -> list B) l x : flat_map g l = [] -> x ∈ l -> g x = [].
Proof. induction l as [| y l IH]; simpl; [set_solver |]. intros [H1 H2]%app_nil. rewrite elem_of_cons. intros [-> | ?]; auto. Qed.

(** *** The stored overrides

    The comprehension that stores them keeps one record per type. *)

Lemma override_entries_acc ovr acc t :
  NoDup ovr.*1 -> (forall t rows, (t, rows) ∈ ovr -> (length rows <= 1)%nat /\ dict_get t acc = None) ->
  default [] (dict_get t (foldl (fun acc e => dict_set e.1 [e.2] acc) acc
    (flat_map (fun tr : string * list (Z * overrides) => map (fun io => (tr.1, io)) tr.2) ovr))) =
  default (default [] (dict_get t acc)) (dict_get t ovr).
Proof.
  revert acc; induction ovr as [| [u rows] ovr IH]; intros acc Hn Hl; [done |].
  cbn [flat_map]. rewrite foldl_app, fmap_cons in *. apply NoDup_cons in Hn as [Hu Hn].
  destruct (Hl u rows) as [Hlen Hacc]; [constructor |].
  assert (forall t rows, (t, rows) ∈ ovr -> (length rows <= 1)%nat /\ dict_get t acc = None /\ u <> t) as Hrest.
  { intros t' rows' Hin. destruct (Hl t' rows'); [by constructor |]. split_and!; [done | done |]. intros ->.
    apply Hu, list_elem_of_fmap. by exists (t', rows'). }
  destruct rows as [| e [|]]; cbn [map foldl fst snd length] in *; [| | lia].
  - rewrite IH by (auto; intros ? ? Hin; destruct (Hrest _ _ Hin); naive_solver). simpl. case_decide; [subst | done].
    rewrite Hacc. simpl. by rewrite (proj2 (dict_get_None _ _) Hu).
  - rewrite IH; [| done |].
    + simpl. rewrite dict_get_set. case_decide; [subst | done]. simpl. by rewrite (proj2 (dict_get_None _ _) Hu).
    + intros t' rows' Hin. destruct (Hrest _ _ Hin) as (? & ? & ?). split; [done |]. rewrite dict_get_set.
      by rewrite decide_False.
Qed.

Lemma override_entries_lone ovr t :
  NoDup ovr.*1 -> (forall t rows, (t, rows) ∈ ovr -> (length rows <= 1)%nat) ->
  default [] (dict_get t (override_entries ovr)) = default [] (dict_get t ovr).
Proof. intros Hn Hl. unfold override_entries. rewrite override_entries_acc; [done | done |]. intros u rows Hin. split; [by eapply Hl | done]. Qed.

(** Among the records of one type at most one is reassigned. *)
Definition lone_reassignments (rs : list resolution) : Prop :=
  forall r r', r ∈ rs -> r' ∈ rs -> action r = Reassign -> action r' = Reassign ->
    entity_type r = entity_type r' -> record_id r = record_id r'.

Lemma lone_keys {A} (l : list (Z * A)) : NoDup l.*1 -> (forall x y, x ∈ l -> y ∈ l -> x.1 = y.1) -> (length l <= 1)%nat.
Proof.
  destruct l as [| x [| y l]]; simpl; [lia .. |]. rewrite NoDup_cons. intros [Hx _] He. destruct Hx.
  rewrite (He x y); set_solver.
Qed.

Lemma schema_nodup refs_of t refs :
  refs_of = INTERNAL_REFS \/ refs_of = RELATION_REFS -> dict_get t refs_of = Some refs -> NoDup refs.*1.
Proof.
  assert (forallb (fun tr => bool_decide (NoDup tr.2.*1)) (INTERNAL_REFS ++ RELATION_REFS) = true) as H by (vm_compute; reflexivity).
  rewrite forallb_app, andb_true_iff, !forallb_forall in H.
  intros [-> | ->] E%dict_get_elem%list_elem_of_In; apply H in E; by apply bool_decide_eq_true in E.
Qed.

Lemma relation_not_internal t : is_Some (dict_get t RELATION_REFS) \/ attachment t = true -> dict_get t INTERNAL_REFS = None.
Proof.
  intros H. apply dict_get_None. intros Hin.
  assert (forallb (fun u => negb (attachment u) && bool_decide (dict_get u RELATION_REFS = None)) INTERNAL_REFS.*1 = true) as Hc
    by (vm_compute; reflexivity).
  rewrite forallb_forall in Hc. apply list_elem_of_In, Hc, andb_true_iff in Hin as [Ha Hr%bool_decide_eq_true].
  apply negb_true_iff in Ha. rewrite Hr, Ha in H. destruct H as [[? ?] | ?]; done.
Qed.

Lemma attachment_not_relation t : attachment t = true -> dict_get t RELATION_REFS = None.
Proof.
  unfold attachment. rewrite orb_true_iff, !String.eqb_eq. by intros [-> | ->].
Qed.

(** The kind a reassigned reference is looked up in is the kind it refers to. *)
Lemma internal_target t refs f target r :
  dict_get t INTERNAL_REFS = Some refs -> (f, target) ∈ refs -> reference_target_type t f r = Ok target.
Proof.
  intros Et Hin. unfold reference_target_type. rewrite Et. cbn [mbind option_bind].
  rewrite (elem_dict_get f target refs); [done | | done]. eapply schema_nodup; [by left | done].
Qed.

Lemma relation_target t refs f target r :
  dict_get t RELATION_REFS = Some refs -> (f, target) ∈ refs -> reference_target_type t f r = Ok target.
Proof.
  intros Et Hin. unfold reference_target_type. rewrite relation_not_internal, Et by eauto. cbn [mbind option_bind].
  rewrite (elem_dict_get f target refs); [done | | done]. eapply schema_nodup; [by right | done].
Qed.

Lemma owner_target t owner r :
  attachment t = true -> owner_of r = Some owner -> reference_target_type t "entity_id" r = Ok owner.
Proof.
  intros Ha Ho. unfold reference_target_type. rewrite relation_not_internal, attachment_not_relation by auto.
  cbn [mbind option_bind]. by rewrite Ha, Ho.
Qed.

Lemma attached_target t r : attachment t = true -> reference_target_type t (attached_field t) r = Ok (attached_type t).
Proof.
  intros Ha. unfold reference_target_type. rewrite relation_not_internal, attachment_not_relation by auto.
  cbn [mbind option_bind]. rewrite Ha. unfold attachment in Ha. rewrite orb_true_iff, !String.eqb_eq in Ha.
  by destruct Ha as [-> | ->].
Qed.

(** No conflict, with overrides that were checked, settles a reference. *)
Lemma settled_intro db d owner r o i f target :
  (forall j, dict_get f o = Some j -> exists t, reference_target_type owner f r = Ok t /\ present db t j = true) ->
  reference_target_type owner f r = Ok target ->
  require_ref (source_ids d) owner i f target (field r f) o = [] -> settled db d o f target (field r f).
Proof.
  intros Ho Ht Hr. unfold settled. destruct (dict_get f o) as [j |] eqn:E.
  - destruct (Ho j) as (t & Et & Hp); [done |]. congruence.
  - apply require_ref_nil in Hr as [[j ?] | H]; [congruence | done].
Qed.

Definition relation_settled (db : tables) (d : inventory) (o : overrides) (t : string) (r : row) : Prop :=
  if attachment t then
    exists owner, owner_of r = Some owner /\ settled db d o "entity_id" owner (field r "entity_id") /\
      settled db d o (attached_field t) (attached_type t) (field r (attached_field t))
  else exists refs, dict_get t RELATION_REFS = Some refs /\
    forall f target, (f, target) ∈ refs -> settled db d o f target (field r f).

Lemma plan_relation_row_Ok db d bs t i r o :
  plan_relation_row db d bs t i r = Ok (o, []) ->
  relation_settled db d o t r /\ (bucket_of bs t i = [] -> o = []) /\
  (bucket_of bs t i <> [] -> reassigning (bucket_of bs t i) = true).
Proof.
  unfold plan_relation_row, relation_settled, reassigning. case_bool_decide as Hid; [done |].
  rewrite <- eq_None_not_Some in Hid. rewrite bool_decide_true by done.
  set (b := bucket_of bs t i) in *. clearbody b.
  destruct (reassign_overrides db t r [] b) as [o' |] eqn:Eo; cbn [mbind result_bind]; [| done].
  assert ((b = [] -> o' = []) /\ (b <> [] -> true && (0 <? length b)%nat = true)) as Hb
    by (destruct b; [by injection Eo as <- | done]).
  assert (forall f j, dict_get f o' = Some j -> exists t', reference_target_type t f r = Ok t' /\ present db t' j = true) as Ho.
  { intros f j Hf. destruct (reassign_overrides_Ok _ _ _ _ _ _ Eo f j Hf) as [[=] | H]. exact H. }
  destruct (attachment t) eqn:Ea.
  - intros [= <- Hc]. apply app_nil in Hc as [Hc1 Hc2]. split; [| done]. destruct (owner_of r) as [owner |] eqn:Ew; [| done].
    exists owner. split_and!; [done | |].
    + eapply settled_intro; eauto using owner_target.
    + eapply settled_intro; eauto using attached_target.
  - destruct (dict_get t RELATION_REFS) as [refs |] eqn:Er; [| done]. intros [= <- Hc]. split; [| done].
    exists refs. split; [done |]. intros f target Hin. apply (flat_map_nil _ _ _ Hc) in Hin as Hn.
    eapply settled_intro; eauto using relation_target.
Qed.

Lemma plan_relation_rows_Ok db d bs t i l ovr :
  plan_relation_rows db d bs t i l = Ok (ovr, []) ->
  (forall k r, l !! k = Some r -> relation_settled db d (default [] (dict_get (i + Z.of_nat k) ovr)) t r) /\
  NoDup ovr.*1 /\ (forall io, io ∈ ovr -> i <= io.1 /\ reassigning (bucket_of bs t io.1) = true).
Proof.
  revert i ovr; induction l as [| r l IH]; intros i ovr; cbn [plan_relation_rows].
  { intros [= <-]. split_and!; [done | constructor | set_solver]. }
  destruct (plan_relation_row db d bs t i r) as [[o c] |] eqn:Er; cbn [mbind result_bind]; [| done].
  destruct (plan_relation_rows db d bs t (i + 1) l) as [[ovr' c'] |] eqn:El; cbn [mbind result_bind fst snd]; [| done].
  intros [= <- Hc]. apply app_nil in Hc as [-> ->]. apply plan_relation_row_Ok in Er as (Hs & He & Hb).
  apply IH in El as (Hl & Hn & Hk).
  assert (dict_get i ovr' = None) as Hi.
  { apply dict_get_None. intros (io & -> & Hin)%list_elem_of_fmap. apply Hk in Hin as [? _]. lia. }
  split_and!.
  - intros [| k] r' Hr'; simpl in Hr'.
    + simplify_eq. rewrite Z.add_0_r. destruct (bucket_of bs t i) eqn:Eb; simpl.
      * rewrite Hi. simpl. by rewrite <- He.
      * by rewrite decide_True.
    + replace (i + Z.of_nat (S k)) with (i + 1 + Z.of_nat k) by lia. specialize (Hl k r' Hr').
      destruct (bucket_of bs t i) eqn:Eb; simpl; [done |]. by rewrite decide_False by lia.
  - destruct (bucket_of bs t i); simpl; [done |]. constructor; [by apply dict_get_None | done].
  - intros io Hin. apply elem_of_app in Hin as [Hin | Hin]; [| apply Hk in Hin as [? ?]; split; [lia | done]].
    destruct (bucket_of bs t i) eqn:Eb; [by apply elem_of_nil in Hin |]. apply list_elem_of_singleton in Hin as ->. simpl.
    split; [lia |]. rewrite Eb. by apply Hb.
Qed.

Lemma plan_relations_Ok db d bs groups ovr :
  plan_relations db d bs groups = Ok (ovr, []) ->
  ovr.*1 = groups.*1 /\
  (forall t rows, (t, rows) ∈ ovr -> NoDup rows.*1 /\ forall io, io ∈ rows -> reassigning (bucket_of bs t io.1) = true) /\
  (NoDup groups.*1 -> forall t l k r, (t, l) ∈ groups -> l !! k = Some r ->
     relation_settled db d (entry_overrides ovr t (1 + Z.of_nat k)) t r).
Proof.
  revert ovr; induction groups as [| [t l] groups IH]; intros ovr; cbn [plan_relations].
  { intros [= <-]. split_and!; [done | set_solver | set_solver]. }
  destruct (plan_relation_rows db d bs t 1 l) as [[o c] |] eqn:Er; cbn [mbind result_bind]; [| done].
  destruct (plan_relations db d bs groups) as [[ovr' c'] |] eqn:El; cbn [mbind result_bind fst snd]; [| done].
  intros [= <- Hc]. apply app_nil in Hc as [-> ->]. apply plan_relation_rows_Ok in Er as (Hs & Hn & Hb).
  destruct (IH _ eq_refl) as (Hk & Ho & Hr). split_and!.
  - by rewrite !fmap_cons, Hk.
  - intros u rows [[= -> ->] | Hin]%elem_of_cons; [| by apply Ho]. split; [done |]. intros io Hio. by apply Hb.
  - intros Hnd u l' k r [[= -> ->] | Hin]%elem_of_cons Hlk; unfold entry_overrides; simpl.
    + rewrite decide_True by done. by apply Hs.
    + rewrite fmap_cons in Hnd. apply NoDup_cons in Hnd as [Hu Hnd]. rewrite decide_False.
      * by apply (Hr Hnd u l' k r).
      * intros <-. apply Hu, list_elem_of_fmap. by exists (t, l').
Qed.

(** *** A conflict-free plan *)

(** Section names are the keys of a JSON object. *)
Definition distinct_sections (d : inventory) : Prop := NoDup (entities d).*1 /\ NoDup (relationships d).*1.

Record sound (db : tables) (d : inventory) (p : plan) : Prop := {
  sound_types : forall t l, dict_get t (entities d) = Some l -> exists ms,
    dict_get t (mappings p) = Some ms /\ Forall2 (planned db t) l ms /\
    Forall (free_identity db t) (identities t l ms) /\ NoDup (identities t l ms) /\
    dict_get t (creates p) = Some (count_by is_create ms) /\
    dict_get t (matches p) = Some (count_by (fun m => negb (is_create m)) ms);
  sound_absent : forall t, dict_get t (entities d) = None ->
    dict_get t (mappings p) = None /\ dict_get t (creates p) = None /\ dict_get t (matches p) = None;
  sound_internal : forall t refs l r f target,
    dict_get t INTERNAL_REFS = Some refs -> dict_get t (entities d) = Some l -> r ∈ l -> (f, target) ∈ refs ->
    settled db d (entry_overrides (ref_overrides p) t (source_id r)) f target (field r f);
  sound_relations : forall t l k r, (t, l) ∈ relationships d -> l !! k = Some r ->
    relation_settled db d (entry_overrides (relation_overrides p) t (1 + Z.of_nat k)) t r;
  sound_counts : relationship_counts p = map (fun g => (g.1, Z.of_nat (length g.2))) (relationships d);
  sound_clear : conflict_count p = 0
}.

Lemma lone_rows rs bs t (rows : list (Z * overrides)) :
  resolution_buckets rs = Ok bs -> lone_reassignments rs -> NoDup rows.*1 ->
  (forall io, io ∈ rows -> reassigning (bucket_of bs t io.1) = true) -> (length rows <= 1)%nat.
Proof.
  intros Hb Hl Hn Hr. apply lone_keys; [done |]. intros x y Hx Hy.
  destruct (reassigning_resolution _ _ _ _ Hb (Hr x Hx)) as (r & ? & ? & ? & <-).
  destruct (reassigning_resolution _ _ _ _ Hb (Hr y Hy)) as (r' & ? & ? & ? & <-). apply Hl; congruence.
Qed.

Lemma free_plan_sound db d rs b :
  distinct_sections d -> lone_reassignments rs ->
  build_import_plan db d rs = Ok b -> conflicts b = [] -> sound db d (the_plan b).
Proof.
  intros [Hde Hdr] Hlone. unfold build_import_plan.
  destruct (resolution_buckets rs) as [bs |] eqn:Eb; cbn [mbind result_bind]; [| done].
  destruct (plan_entities db bs (entities d)) as [ps |] eqn:Ee; cbn [mbind result_bind]; [| done].
  destruct (plan_relations db d bs (relationships d)) as [[ovr cs] |] eqn:Er; cbn [mbind result_bind fst snd]; [| done].
  intros [= <-]. cbn [conflicts the_plan]. intros Hc. rewrite Hc. cbn [length].
  apply app_nil in Hc as [Hce [Hci ->]%app_nil].
  apply plan_relations_Ok in Er as (Hrk & Hro & Hrs). apply plan_entities_Ok in Ee as (Hek & Hes).
  set (eo := map (fun tp => (tp.1, reassigned tp.2)) ps) in *.
  assert (eo.*1 = (entities d).*1) as Heo.
  { unfold eo. rewrite <- Hek. clear. induction ps as [| [] ps IH]; [done |]. simpl. by f_equal. }
  assert (forall t p, dict_get t ps = Some p -> found p = []) as Hfound.
  { intros t p Hp%dict_get_elem. by apply (flat_map_nil _ _ _ Hce) in Hp. }
  assert (forall t, default [] (dict_get t (override_entries eo)) = default [] (dict_get t eo)) as Hoe.
  { intros t. apply override_entries_lone; [by rewrite Heo |]. intros u rows Hin.
    apply (elem_dict_get u rows eo) in Hin; [| by rewrite Heo]. unfold eo in Hin. rewrite dict_get_map in Hin.
    specialize (Hes u). destruct (dict_get u ps) as [p |], (dict_get u (entities d)) as [l |]; try done.
    injection Hin as <-. apply plan_rows_overrides in Hes as (Hn & Ho). eapply lone_rows; [done | done | apply Hn; constructor |].
    intros io Hio. destruct (Ho io Hio) as [?%elem_of_nil | (r & _ & _ & Hr & _)]; [done | exact Hr]. }
  assert (forall t, default [] (dict_get t (override_entries ovr)) = default [] (dict_get t ovr)) as Hor.
  { intros t. apply override_entries_lone; [by rewrite Hrk |]. intros u rows Hin. destruct (Hro u rows Hin) as [Hn Hb].
    by eapply lone_rows. }
  split; cbn [mappings creates matches ref_overrides relation_overrides relationship_counts conflict_count]; try done.
  - intros t l Hl. specialize (Hes t). rewrite Hl in Hes. rewrite !dict_get_map.
    destruct (dict_get t ps) as [p |] eqn:Ep; [| done].
    apply plan_rows_free in Hes as (_ & ms & Em & Hp & Ec & Ema & Hf & Hn & _); [| by eapply Hfound].
    exists ms. simpl. by rewrite Em, Ec, Ema.
  - intros t Hl. specialize (Hes t). rewrite Hl in Hes. rewrite !dict_get_map. by destruct (dict_get t ps).
  - intros t refs l r f target Ht Hl Hr Hin. unfold entry_overrides. rewrite Hoe.
    apply (settled_intro db d t r _ (source_id r)); [| by eapply internal_target |].
    + intros j Hj. specialize (Hes t). rewrite Hl in Hes. unfold eo in Hj. rewrite dict_get_map in Hj.
      destruct (dict_get t ps) as [p |] eqn:Ep; [| done]. simpl in Hj.
      destruct (dict_get (source_id r) (reassigned p)) as [o |] eqn:Eo; [| done].
      apply plan_rows_overrides in Hes as (_ & Ho). apply dict_get_elem in Eo.
      destruct (Ho _ Eo) as [?%elem_of_nil | (r' & _ & _ & _ & Hr')]; [done |].
      destruct (reassign_overrides_Ok _ _ _ _ _ _ Hr' f j Hj) as [[=] | (t' & Et' & Hp)].
      exists t'. split; [| done]. rewrite <- Et'. by rewrite !(internal_target t refs f target).
    + apply dict_get_elem in Ht. apply (flat_map_nil _ _ _ Hci) in Ht as Hrows. cbn [fst snd] in Hrows. rewrite Hl in Hrows.
      apply (flat_map_nil _ _ r) in Hrows; [| done]. by apply (flat_map_nil _ _ (f, target)) in Hrows.
  - intros t l k r Hin Hk. unfold entry_overrides. rewrite Hor. by apply (Hrs Hdr t l k r).
Qed.
End Planner.
End Plan.
