(* ===== verification/TransferApply.v ===== *)
(** Applying a confirmed transfer preview ([services/inventory_transfer/apply.py],
    [export.py], the routes of [api/inventory_transfer.py] and the tables of
    [db/models/transfers.py]), and the export it is the inverse of. *)
From S2P Require Import Prelude Sha256 Json Canonical TransferFormat TransferPlan.
Open Scope Z_scope.

Module Apply.
Import Json Format Plan.

(** *** Rows of the database *)

(** The portable columns of a table; the surrogate key is kept apart. *)
Definition columns (t : string) : list string :=
  match dict_get t ENTITY_FIELDS with
  | Some fs => List.filter (fun f => negb (String.eqb f "id")) fs
  | None => default [] (dict_get t RELATIONSHIP_FIELDS)
  end.

(** The portable columns with a default ([db/models]). *)
Definition COLUMN_DEFAULTS : list (string * list (string * string)) := [
   ("hardware", [("status", "unknown")]); ("compute_units", [("status", "unknown")]);
   ("service_dependencies", [("connection_type", "ethernet")]); ("service_storage", [("connection_type", "ethernet")]);
   ("service_misc", [("connection_type", "ethernet")]); ("hardware_networks", [("connection_type", "ethernet")]);
   ("compute_networks", [("connection_type", "ethernet")]);
   ("hardware_connections", [("connection_type", "ethernet"); ("source", "manual")])
  ].

Definition column_default (t f : string) : json :=
  match (ds ← dict_get t COLUMN_DEFAULTS; dict_get f ds) with Some s => JStr s | None => JNull end.

(** The ORM leaves a column that is [None] out of the [INSERT]: it gets its
    default, whether the value was given as null or not at all. *)
Definition filled (t f : string) (v : json) : json := match v with JNull => column_default t f | v => v end.

Definition stored (t : string) (values : row) : row := map (fun f => (f, filled t f (field values f))) (columns t).

(** The unique constraints of the tables ([db/models]). *)
Definition UNIQUE_KEYS : list (string * list string) := [
   ("services", ["slug"]); ("tags", ["name"]);
   ("entity_tags", ["entity_type"; "entity_id"; "tag_id"]); ("entity_docs", ["entity_type"; "entity_id"; "doc_id"]);
   ("service_dependencies", ["service_id"; "depends_on_id"]); ("service_storage", ["service_id"; "storage_id"]);
   ("service_misc", ["service_id"; "misc_id"]); ("hardware_networks", ["hardware_id"; "network_id"]);
   ("compute_networks", ["compute_id"; "network_id"]);
   ("hardware_connections", ["source_hardware_id"; "target_hardware_id"]);
   ("external_node_networks", ["external_node_id"; "network_id"]);
   ("service_external_nodes", ["service_id"; "external_node_id"])
  ].

(** A column of a key; [NULL] is distinct from everything. *)
Definition key_column (v : json) : option (Z + string) :=
  match v with JInt z => Some (inl z) | JBool b => Some (inl (Z.b2z b)) | JStr s => Some (inr s) | _ => None end.

Definition unique_key (t : string) (r : row) : option (list (Z + string)) :=
  fs ← dict_get t UNIQUE_KEYS; mapM (fun f => key_column (field r f)) fs.

Definition FOREIGN_KEYS (t : string) : list (string * string) :=
  if attachment t then [(attached_field t, attached_type t)]
  else default (default [] (dict_get t RELATION_REFS)) (dict_get t INTERNAL_REFS).

Definition foreign_key_ok (db : tables) (r : row) (ft : string * string) : bool :=
  match field r ft.1 with
  | JNull => true
  | v => match as_int v with Some i => present db ft.2 i | None => false end
  end.

(** [mapping]: source ids to local ids, by entity type. *)
Abbreviation id_map := (gmap (string * Z) Z).

Section Apply.
(** [repr]; the column types and [NOT NULL] constraints of PostgreSQL;
    [int(v)] of a float or a text; pydantic's [datetime]. *)
Variable repr_of : json -> string.
Variable column_ok : string -> row -> bool.
Variable int_of : json -> option Z.
Variable parse_datetime : json -> option string.

(** [INSERT]: the new row's id and the tables. *)
Definition insert_row (t : string) (values : row) (db : tables) : result error (Z * tables) :=
  let r := stored t values in
  let i := next_id (tbl db t) in
  if negb (column_ok t r) then Err DataError
  else if bool_decide (is_Some (unique_key t r)) &&
          existsb (fun s => bool_decide (unique_key t s.2 = unique_key t r)) (rows (tbl db t))
       then Err (IntegrityError t)
  else if negb (forallb (foreign_key_ok db r) (FOREIGN_KEYS t)) then Err (IntegrityError t)
  else Ok (i, <[t := Table (rows (tbl db t) ++ [(i, r)]) (i + 1)]> db).

(** *** Application of the plan *)

Definition ENTITY_ORDER : list string :=
  ["tags"; "docs"; "hardware"; "networks"; "misc_items"; "hardware_clusters"; "external_nodes"; "compute_units";
   "storage"; "services"].

Definition to_int (v : json) : result error Z :=
  match as_int v with
  | Some z => Ok z
  | None => match int_of v with Some z => Ok z | None => Err (ValueError "int()") end
  end.

Definition remap (v : json) (t : string) (m : id_map) : result error json :=
  match v with
  | JNull => Ok JNull
  | v =>
      i ← to_int v;
      match m !! (t, i) with
      | Some j => Ok (JInt j)
      | None => Err (ValidationError "The transfer contains a relationship to a missing source entity.")
      end
  end.

(** One reference field of a source record, rewritten in place. *)
Definition bind_held (m : id_map) (o : overrides) (f t : string) (values : row) : result error row :=
  match dict_get f values with
  | None => Ok values
  | Some v => match dict_get f o with
              | Some j => Ok (dict_set f (JInt j) values)
              | None => v ← remap v t m; Ok (dict_set f v values)
              end
  end.

Fixpoint remap_held (m : id_map) (o : overrides) (refs : list (string * string)) (values : row) : result error row :=
  match refs with
  | [] => Ok values
  | (f, t) :: refs =>
      values ← bind_held m o f t values;
      remap_held m o refs values
  end.

(** The reference fields of a relationship, which are always set. *)
Fixpoint remap_all (m : id_map) (o : overrides) (refs : list (string * string)) (values : row) : result error row :=
  match refs with
  | [] => Ok values
  | (f, t) :: refs =>
      v ← match dict_get f o with Some j => Ok (JInt j) | None => remap (field values f) t m end;
      remap_all m o refs (dict_set f v values)
  end.

Record state := State {
  tabs : tables;
  ids : id_map;
  n_created : Z;
  n_matched : Z
}.

(** [actions[t].get(i)]: the last mapping of the source wins. *)
Definition action_of (ms : list mapping) (i : Z) : option mapping :=
  List.find (fun m => source_of m =? i) (rev ms).

(** [values.update(action.get("overrides") or {})]. *)
Definition renamed_values (renamed : option (string * string)) (values : row) : row :=
  match renamed with Some (f, v) => dict_set f (JStr v) values | None => values end.

(** [{key: value for key, value in source.items() if key != "id"}]. *)
Definition without_id (r : row) : row := List.filter (fun kv => negb (String.eqb kv.1 "id")) r.

Fixpoint apply_rows (t : string) (ms : list mapping) (ovr : list (Z * overrides)) (l : list row) (s : state)
    : result error state :=
  match l with
  | [] => Ok s
  | r :: l =>
      let i := source_id r in
      match action_of ms i with
      | None => Err (ConflictError "unresolved_transfer")
      | Some (MatchTo _ j) =>
          apply_rows t ms ovr l (State (tabs s) (<[(t, i) := j]> (ids s)) (n_created s) (n_matched s + 1))
      | Some (Create _ renamed) =>
          values ← remap_held (ids s) (default [] (dict_get i ovr)) (default [] (dict_get t INTERNAL_REFS)) (without_id r);
          inserted ← insert_row t (renamed_values renamed values) (tabs s);
          apply_rows t ms ovr l (State inserted.2 (<[(t, i) := inserted.1]> (ids s)) (n_created s + 1) (n_matched s))
      end
  end.

(** The body of the loop over [_ENTITY_ORDER], with the counters at zero. *)
Definition apply_type (p : plan) (d : inventory) (t : string) (db : tables) (m : id_map) : result error state :=
  match default [] (dict_get t (entities d)) with
  | [] => Ok (State db m 0 0)
  | l => match dict_get t (mappings p) with
         | None => Err (KeyError t)
         | Some ms => apply_rows t ms (default [] (dict_get t (ref_overrides p))) l (State db m 0 0)
         end
  end.

(** The loop: the final tables and ids, and the counts of each type. *)
Fixpoint apply_entities (p : plan) (d : inventory) (order : list string) (db : tables) (m : id_map)
    : result error (tables * id_map * list (string * (Z * Z))) :=
  match order with
  | [] => Ok (db, m, [])
  | t :: order =>
      s ← apply_type p d t db m;
      rest ← apply_entities p d order (tabs s) (ids s);
      Ok (rest.1.1, rest.1.2, (t, (n_created s, n_matched s)) :: rest.2)
  end.

(** The values of one relationship row. *)
Definition relation_values (t : string) (m : id_map) (o : overrides) (r : row) : result error row :=
  if attachment t then
    match dict_get "entity_type" r with
    | None => Err (KeyError "entity_type")
    | Some v =>
        match dict_get (py_str repr_of v) ATTACHMENT_TYPES with
        | None => Err (ValidationError "An attachment uses an unsupported entity type.")
        | Some owner =>
            v ← match dict_get "entity_id" o with
                | Some j => Ok (JInt j)
                | None => match dict_get "entity_id" r with None => Err (KeyError "entity_id") | Some v => remap v owner m end
                end;
            let r := dict_set "entity_id" v r in
            v ← match dict_get (attached_field t) o with
                | Some j => Ok (JInt j)
                | None => match dict_get (attached_field t) r with
                          | None => Err (KeyError (attached_field t))
                          | Some v => remap v (attached_type t) m
                          end
                end;
            Ok (dict_set (attached_field t) v r)
        end
    end
  else match dict_get t RELATION_REFS with
       | None => Err (KeyError t)
       | Some refs => remap_all m o refs r
       end.

Fixpoint relation_rows (t : string) (m : id_map) (ovr : list (Z * overrides)) (i : Z) (l : list row)
    : result error (list row) :=
  match l with
  | [] => Ok []
  | r :: l =>
      v ← relation_values t m (default [] (dict_get i ovr)) r;
      vs ← relation_rows t m ovr (i + 1) l;
      Ok (map (fun f => (f, field v f)) (default [] (dict_get t RELATIONSHIP_FIELDS)) :: vs)
  end.

(** The rows the second loop adds to the session, in order. *)
Fixpoint pending_rows (p : plan) (m : id_map) (groups : list (string * list row)) : result error (list (string * row)) :=
  match groups with
  | [] => Ok []
  | (t, l) :: groups =>
      vs ← relation_rows t m (default [] (dict_get t (relation_overrides p))) 1 l;
      rest ← pending_rows p m groups;
      Ok (map (fun v => (t, v)) vs ++ rest)
  end.

(** [db.flush()]. *)
Fixpoint flush (pending : list (string * row)) (db : tables) : result error tables :=
  match pending with
  | [] => Ok db
  | (t, v) :: pending => inserted ← insert_row t v db; flush pending inserted.2
  end.

(** *** Previews, operations and the apply route *)

Inductive status := Previewed | Applying | Completed | Expired.
#[local] Instance status_eq : EqDecision status.
Proof. solve_decision. Defined.

(** [TransferApplyResult]; its warnings are constant. *)
Record apply_result := Result {
  operation_id : string;
  created : list (string * Z);
  matched : list (string * Z);
  relationships_created : list (string * Z)
}.

(** [InventoryTransferPlan] and [InventoryTransferOperation]. *)
Record preview := Preview {
  p_actor : Z;
  p_status : status;
  p_plan_digest : string;
  p_inventory_digest : string;
  p_document : row;
  p_plan : plan;
  p_expires_at : Z;
  p_result : option apply_result
}.

Record operation := Operation {
  o_id : string;
  o_plan : string;
  o_actor : Z;
  o_key : string;
  o_request : string;
  o_result : option apply_result   (* present exactly when [state == "completed"] *)
}.

Record db := Db {
  inv : tables;
  previews : gmap string preview;
  operations : list operation
}.

Definition PREVIEW_TTL : Z := 30 * 60.

Definition save_preview (d : inventory) (b : built) (actor : Z) (id : string) (now : Z) (s : db) : db :=
  Db (inv s)
    (<[id := Preview actor Previewed (plan_digest b) (inventory_digest b) (model_dump d) (the_plan b)
               (now + PREVIEW_TTL) None]> (previews s))
    (operations s).

Definition request_digest (plan_id digest : string) : string :=
  Sha256.hexdigest (Canonical.utf8 (plan_id +:+ ":" +:+ digest)).

Definition totals (f : Z * Z -> Z) (counts : list (string * (Z * Z))) : list (string * Z) :=
  map (fun t => (t, match dict_get t counts with Some c => f c | None => 0 end)) ENTITY_FIELDS.*1.

(** The part of [apply_import] that changes the inventory. *)
Definition import_rows (p : plan) (d : inventory) (op_id : string) (t : tables) : result error (apply_result * tables) :=
  es ← apply_entities p d ENTITY_ORDER t ∅;
  pending ← pending_rows p es.1.2 (relationships d);
  t ← flush pending es.1.1;
  Ok (Result op_id (totals fst es.2) (totals snd es.2)
        (map (fun g => (g.1, Z.of_nat (length g.2))) (relationships d)), t).

(** [apply_import].  Where the source writes before it raises, the caller
    rolls the write back, so an exception carries no state. *)
Definition apply_import (plan_id digest key : string) (actor : Z) (op_id : string) (now : Z) (s : db)
    : result error (apply_result * db) :=
  let request := request_digest plan_id digest in
  match List.find (fun o => (o_actor o =? actor) && String.eqb (o_key o) key) (operations s) with
  | Some replay =>
      if negb (String.eqb (o_request replay) request) then Err (ConflictError "idempotency_conflict")
      else match o_result replay with Some r => Ok (r, s) | None => Err (ConflictError "transfer_busy") end
  | None =>
      match previews s !! plan_id with
      | None => Err NotFoundError
      | Some p =>
          if negb (p_actor p =? actor) then Err NotFoundError
          else if negb (String.eqb (p_plan_digest p) digest) then Err (ConflictError "preview_changed")
          else if p_expires_at p <=? now then Err (ConflictError "preview_expired")
          else match p_status p, p_result p with
          | Completed, Some r => Ok (r, s)
          | Previewed, _ =>
              if negb (String.eqb (inventory_fingerprint (inv s)) (p_inventory_digest p))
              then Err (ConflictError "preview_stale")
              else match model_validate parse_datetime (p_document p) with
              | None => Err (ValueError "PortableInventory")
              | Some d =>
                  if negb (conflict_count (p_plan p) =? 0) then Err (ConflictError "unresolved_transfer")
                  else
                    done ← import_rows (p_plan p) d op_id (inv s);
                    Ok (done.1,
                        Db done.2
                          (<[plan_id := Preview (p_actor p) Completed (p_plan_digest p) (p_inventory_digest p) (p_document p)
                                          (p_plan p) (p_expires_at p) (Some done.1)]> (previews s))
                          (operations s ++ [Operation op_id plan_id actor key request (Some done.1)]))
              end
          | _, _ => Err (ConflictError "transfer_busy")
          end
      end
  end.

(** The route: commit on return, roll back on an exception. *)
Definition apply_inventory_transfer (plan_id digest key : string) (actor : Z) (op_id : string) (now : Z) (s : db)
    : result error apply_result * db :=
  match apply_import plan_id digest key actor op_id now s with
  | Ok (r, s') => (Ok r, s')
  | Err e => (Err e, s)
  end.

Definition completed_operation_result (id : string) (actor : Z) (s : db) : result error apply_result :=
  match List.find (fun o => String.eqb (o_id o) id && (o_actor o =? actor)) (operations s) with
  | Some o => match o_result o with Some r => Ok r | None => Err NotFoundError end
  | None => Err NotFoundError
  end.

(** The preview route. *)
Definition preview_inventory_transfer (now_text : string) (document : json) (rs : list resolution) (actor : Z) (id : string)
    (now : Z) (s : db) : result error built * db :=
  match parse_inventory_document (fun _ => None) parse_datetime now_text (inr document) with
  | Err msg => (Err (ValidationError msg), s)
  | Ok d =>
      match build_import_plan repr_of (inv s) d rs with
      | Ok b => (Ok b, save_preview d b actor id now s)
      | Err (ValueError msg) => (Err (ValidationError msg), s)
      | Err e => (Err e, s)
      end
  end.

(** *** Export *)

Definition export_rows (t : tables) (name : string) : list row :=
  match dict_get name ENTITY_FIELDS with
  | Some _ => map (fun r => ("id", JInt r.1) :: r.2) (by_id t name)
  | None => map snd (by_id t name)
  end.

Definition RELATION_MODELS : list string := RELATIONSHIP_FIELDS.*1.

Definition export_inventory (now_text : string) (t : tables) : inventory :=
  Inventory now_text (ENTITY_FIELDS.*1 ++ RELATIONSHIP_FIELDS.*1)
    ["users"; "sessions"; "tokens"; "credentials"; "settings"; "audit_logs"; "operational_runs"; "telemetry";
     "map_layouts"; "uploaded_files"]
    (map (fun n => (n, export_rows t n)) ENTITY_MODELS)
    (map (fun n => (n, export_rows t n)) RELATION_MODELS).

(** [summary_counts]. *)
Definition ASSET_KINDS : list string :=
  ["hardware"; "compute_units"; "services"; "storage"; "networks"; "misc_items"; "external_nodes"].

Record summary := Summary {
  assets : list (string * Z);
  assets_total : Z;
  relationships_summary : list (string * Z);
  relationships_total : Z
}.

Definition table_count (t : tables) (name : string) : string * Z := (name, Z.of_nat (length (rows (tbl t name)))).

Definition summary_counts (t : tables) : summary :=
  let a := map (table_count t) (List.filter (fun n => bool_decide (n ∈ ASSET_KINDS)) ENTITY_MODELS) in
  let r := map (table_count t) RELATION_MODELS in
  let total := foldr (fun kn n => snd kn + n) 0 in
  Summary a (total a) r (total r).
End Apply.
End Apply.
