(* ===== verification/TransferTheorems.v ===== *)
(** What a confirmed transfer does: a conflict-free preview applies as
    promised, and an apply takes effect once. *)
From S2P Require Import Prelude Sha256 Json Canonical TransferFormat TransferPlan TransferApply.
Open Scope Z_scope.

Module TransferTheorems.
Import Json Format Plan Apply.

(** *** Facts about the schema, by evaluation *)

Definition entity (t : string) : Prop := t ∈ ENTITY_FIELDS.*1.
Definition relation (t : string) : Prop := t ∈ RELATIONSHIP_FIELDS.*1.

(** Reference fields of an entity are plain columns: not the key, not the
    identity, without a default, of an entity type. *)
Definition refs_plain (t : string) : bool :=
  forallb (fun ft =>
    bool_decide (ft.1 ∈ columns t) && negb (String.eqb ft.1 "id") && negb (String.eqb ft.1 "status") &&
    negb (bool_decide (dict_get t UNIQUE_FIELDS = Some ft.1)) && bool_decide (ft.2 ∈ ENTITY_FIELDS.*1))
    (default [] (dict_get t INTERNAL_REFS)).

Definition identity_plain (t : string) : bool :=
  match dict_get t UNIQUE_FIELDS with
  | Some f => bool_decide (f ∈ columns t) && negb (String.eqb f "id") && negb (String.eqb f "status")
  | None => true
  end.

Definition key_is_identity (t : string) : bool :=
  match dict_get t UNIQUE_KEYS with
  | Some fs => match dict_get t UNIQUE_FIELDS with Some f => bool_decide (fs = [f]) | None => false end
  | None => true
  end.

Definition entity_schema (t : string) : bool :=
  refs_plain t && identity_plain t && key_is_identity t && negb (attachment t) &&
  bool_decide (dict_get t RELATION_REFS = None) && bool_decide (t ∈ ENTITY_ORDER).

Lemma entity_schema_ok t : entity t -> entity_schema t = true.
Proof.
  assert (forallb entity_schema ENTITY_FIELDS.*1 = true) as H by (vm_compute; reflexivity).
  rewrite forallb_forall in H. intros Ht. by apply H, list_elem_of_In.
Qed.

Ltac entity_facts Ht :=
  let H := fresh in
  pose proof (entity_schema_ok _ Ht) as H; unfold entity_schema in H; rewrite !andb_true_iff in H;
  destruct H as [[[[[?Hrefs ?Hid] ?Hkey] ?Hatt] ?Hrel] ?Hord].

Lemma entity_foreign_keys t : entity t -> FOREIGN_KEYS t = default [] (dict_get t INTERNAL_REFS).
Proof.
  intros Ht. entity_facts Ht. unfold FOREIGN_KEYS. apply negb_true_iff in Hatt. rewrite Hatt.
  apply bool_decide_eq_true in Hrel. by rewrite Hrel.
Qed.

Lemma ref_plain t f target :
  entity t -> (f, target) ∈ default [] (dict_get t INTERNAL_REFS) ->
  f ∈ columns t /\ f <> "id" /\ f <> "status" /\ dict_get t UNIQUE_FIELDS <> Some f /\ entity target.
Proof.
  intros Ht Hin. entity_facts Ht. unfold refs_plain in Hrefs. rewrite forallb_forall in Hrefs.
  apply list_elem_of_In, Hrefs in Hin. cbn [fst snd] in Hin.
  rewrite !andb_true_iff, !negb_true_iff, !bool_decide_eq_true, bool_decide_eq_false, !String.eqb_neq in Hin.
  destruct Hin as [[[[? ?] ?] ?] ?]. done.
Qed.

(** *** Rows *)

Lemma dict_get_map_fn {A} (g : string -> A) f fs : f ∈ fs -> dict_get f (map (fun f => (f, g f)) fs) = Some (g f).
Proof.
  induction fs as [| f' fs IH]; simpl; [set_solver |]. case_decide; [by subst |]. intros Hin. apply IH. set_solver.
Qed.

Lemma field_stored t values f : f ∈ columns t -> field (stored t values) f = filled t f (field values f).
Proof. intros Hf. unfold field at 1, stored. by rewrite dict_get_map_fn. Qed.

(** An entity has no default but its status. *)
Lemma column_default_null t f : entity t -> f <> "status" -> column_default t f = JNull.
Proof.
  assert (forallb (fun t => forallb (String.eqb "status") (default [] (dict_get t COLUMN_DEFAULTS)).*1) ENTITY_FIELDS.*1 = true) as H
    by (vm_compute; reflexivity).
  intros Ht Hf. rewrite forallb_forall in H. apply list_elem_of_In, H in Ht. unfold column_default.
  destruct (dict_get t COLUMN_DEFAULTS) as [ds |]; cbn [mbind option_bind default] in *; [| done].
  destruct (dict_get f ds) as [s |] eqn:E; [| done]. rewrite forallb_forall in Ht. destruct Hf. symmetry. apply String.eqb_eq, Ht, list_elem_of_In, dict_get_is_Some. by eexists.
Qed.

Lemma filled_plain t f v : column_default t f = JNull -> filled t f v = v.
Proof. intros E. unfold filled. by destruct v. Qed.

Lemma filled_some t f v : v <> JNull -> filled t f v = v.
Proof. unfold filled. by destruct v. Qed.

Lemma dict_get_without_id r f : f <> "id" -> dict_get f (without_id r) = dict_get f r.
Proof.
  intros Hf. unfold without_id. induction r as [| [k v] r IH]; simpl; [done |].
  destruct (String.eqb_spec k "id") as [-> |]; simpl; [by rewrite decide_False by done | by case_decide].
Qed.

Lemma tbl_insert_eq db t tb : tbl (<[t := tb]> db) t = tb.
Proof. unfold tbl. by rewrite lookup_insert_eq. Qed.

Lemma tbl_insert_ne db t u tb : u <> t -> tbl (<[t := tb]> db) u = tbl db u.
Proof. intros H. unfold tbl. by rewrite lookup_insert_ne. Qed.

(** Tables only grow. *)
Definition grown (db db' : tables) : Prop := forall t, exists new, rows (tbl db' t) = rows (tbl db t) ++ new.

#[global] Instance grown_preorder : PreOrder grown.
Proof.
  split.
  - intros db t. exists []. by rewrite app_nil_r.
  - intros a b c Hab Hbc t. destruct (Hab t) as [x Ex], (Hbc t) as [y Ey]. exists (x ++ y). by rewrite Ey, Ex, app_assoc.
Qed.

Lemma present_grown db db' t i : grown db db' -> present db t i = true -> present db' t i = true.
Proof.
  unfold present. rewrite !bool_decide_eq_true. intros Hg Hi. destruct (Hg t) as [new ->]. rewrite fmap_app.
  apply elem_of_app. by left.
Qed.

(** The tables after a row is inserted. *)
Definition inserted (t : string) (values : row) (db : tables) : tables :=
  <[t := Table (rows (tbl db t) ++ [(next_id (tbl db t), stored t values)]) (next_id (tbl db t) + 1)]> db.

Lemma inserted_grown t values db : grown db (inserted t values db).
Proof.
  intros u. unfold inserted. destruct (decide (u = t)) as [-> | Hne].
  - rewrite tbl_insert_eq. simpl. eauto.
  - rewrite tbl_insert_ne by done. exists []. by rewrite app_nil_r.
Qed.

Lemma inserted_present t values db : present (inserted t values db) t (next_id (tbl db t)) = true.
Proof.
  unfold present, inserted. rewrite tbl_insert_eq. simpl. apply bool_decide_eq_true. rewrite fmap_app. set_solver.
Qed.

Section Theorems.
Variable repr_of : json -> string.
Variable column_ok : string -> row -> bool.
Variable int_of : json -> option Z.

(** *** Outcomes: what a step establishes, or the database's refusal *)

Definition refused (e : error) : Prop :=
  match e with
  | DataError => exists t r, column_ok t r = false
  | IntegrityError t => relation t
  | _ => False
  end.

Definition outcome {A} (Q : A -> Prop) (r : result error A) : Prop := match r with Ok a => Q a | Err e => refused e end.

Lemma outcome_bind {A B} (P : A -> Prop) (Q : B -> Prop) (r : result error A) (f : A -> result error B) :
  outcome P r -> (forall a, P a -> outcome Q (f a)) -> outcome Q (r ≫= f).
Proof. destruct r; simpl; [auto | done]. Qed.

Lemma outcome_mono {A} (P Q : A -> Prop) (r : result error A) : outcome P r -> (forall a, P a -> Q a) -> outcome Q r.
Proof. destruct r; simpl; auto. Qed.

(** No row of the table carries the key of the new one. *)
Definition fresh_key (db : tables) (t : string) (r : row) : Prop :=
  forall s, s ∈ rows (tbl db t) -> is_Some (unique_key t r) -> unique_key t s.2 <> unique_key t r.

Lemma insert_outcome t values db :
  fresh_key db t (stored t values) \/ relation t ->
  forallb (foreign_key_ok db (stored t values)) (FOREIGN_KEYS t) = true ->
  outcome (fun x => x = (next_id (tbl db t), inserted t values db)) (insert_row column_ok t values db).
Proof.
  intros Hk Hf. unfold insert_row. rewrite Hf. cbn [negb].
  destruct (column_ok t (stored t values)) eqn:Ec; cbn [negb]; [| by exists t, (stored t values)].
  destruct (_ && existsb _ _) eqn:Eu; [| done]. destruct Hk as [Hk | Hr]; [| exact Hr].
  apply andb_true_iff in Eu as [Hs%bool_decide_eq_true Hex]. apply existsb_true in Hex as (s & Hin & E%bool_decide_eq_true).
  by destruct (Hk s).
Qed.

(** *** References of a record *)

#[local] Abbreviation remap := (remap int_of).
#[local] Abbreviation remap_held := (remap_held int_of).

(** The value a reference is written with. *)
Definition bound_value (m : id_map) (o : overrides) (f target : string) (v : json) : json :=
  match dict_get f o with
  | Some j => JInt j
  | None => match remap v target m with Ok v' => v' | Err _ => JNull end
  end.

Definition bindable (m : id_map) (o : overrides) (f target : string) (v : json) : Prop :=
  dict_get f o = None -> exists v', remap v target m = Ok v'.

Lemma remap_held_Ok m o refs values :
  NoDup refs.*1 ->
  (forall f target v, (f, target) ∈ refs -> dict_get f values = Some v -> bindable m o f target v) ->
  exists values', remap_held m o refs values = Ok values' /\
    forall f, dict_get f values' =
      match dict_get f values, dict_get f refs with
      | Some v, Some target => Some (bound_value m o f target v)
      | x, _ => x
      end.
Proof.
  revert values; induction refs as [| [f target] refs IH]; intros values Hn Hb.
  { exists values. split; [done |]. intros f. simpl. by destruct (dict_get f values). }
  rewrite fmap_cons in Hn. apply NoDup_cons in Hn as [Hf Hn]. apply dict_get_None in Hf. simpl in Hf.
  assert (exists values1, bind_held int_of m o f target values = Ok values1 /\
            forall g, dict_get g values1 = if decide (f = g) then bound_value m o f target <$> dict_get f values else dict_get g values)
    as (values1 & E1 & H1).
  { unfold bind_held. destruct (dict_get f values) as [v |] eqn:Ev.
    2: { exists values. split; [done |]. intros g. case_decide; [by subst | done]. }
    specialize (Hb f target v (list_elem_of_here _ _) Ev). unfold bindable, bound_value in *.
    destruct (dict_get f o) as [j |] eqn:Eo.
    - eexists. split; [done |]. intros g. rewrite dict_get_set. by case_decide.
    - destruct Hb as [v' Ev']; [done |]. rewrite Ev'. eexists. split; [done |]. intros g. rewrite dict_get_set.
      case_decide; [| done]. simpl. by rewrite Ev'. }
  destruct (IH values1 Hn) as (values' & E' & H').
  { intros g target' v Hin Hg. rewrite H1 in Hg. case_decide.
    - subst g. exfalso. apply dict_get_None in Hf. apply Hf, list_elem_of_fmap. by exists (f, target').
    - apply (Hb g target' v); [by constructor | done]. }
  exists values'. cbn [Apply.remap_held]. rewrite E1. cbn [mbind result_bind]. split; [done |].
  intros g. rewrite H', H1. simpl. case_decide; [| done]. subst g. rewrite Hf. by destruct (dict_get f values).
Qed.

(** The row a source record becomes. *)
Definition source_field (m : id_map) (o : overrides) (t : string) (r : row) (f : string) : json :=
  filled t f
    (match dict_get f r with
     | None => JNull
     | Some x => match dict_get f (default [] (dict_get t INTERNAL_REFS)) with
                 | Some target => bound_value m o f target x
                 | None => x
                 end
     end).

Definition local_field (m : id_map) (o : overrides) (t : string) (renamed : option (string * string)) (r : row) (f : string)
    : json :=
  match renamed with
  | Some (g, v) => if decide (g = f) then JStr v else source_field m o t r f
  | None => source_field m o t r f
  end.

Definition local_row (m : id_map) (o : overrides) (t : string) (renamed : option (string * string)) (r : row) : row :=
  map (fun f => (f, local_field m o t renamed r f)) (columns t).

Lemma columns_not_id t f : entity t -> f ∈ columns t -> f <> "id".
Proof.
  unfold entity. rewrite <- dict_get_is_Some. intros [fs Hfs]. unfold columns. rewrite Hfs, list_elem_of_In, filter_In.
  intros [_ H]. by apply negb_true_iff, String.eqb_neq in H.
Qed.

Lemma stored_local m o t renamed r values :
  entity t ->
  (forall f, dict_get f values =
     match dict_get f (without_id r), dict_get f (default [] (dict_get t INTERNAL_REFS)) with
     | Some v, Some target => Some (bound_value m o f target v)
     | x, _ => x
     end) ->
  stored t (renamed_values renamed values) = local_row m o t renamed r.
Proof.
  intros Ht Hv. unfold stored, local_row. apply map_ext_in. intros f Hf%list_elem_of_In. f_equal.
  apply columns_not_id in Hf; [| done]. unfold local_field, renamed_values.
  assert (filled t f (field values f) = source_field m o t r f) as E.
  { unfold source_field, field. rewrite Hv, dict_get_without_id by done. destruct (dict_get f r) as [v |]; [| done].
    by destruct (dict_get f (default [] (dict_get t INTERNAL_REFS))). }
  destruct renamed as [[g v] |]; [unfold field; rewrite dict_get_set; case_decide; [done | exact E] | exact E].
Qed.

Lemma remap_ext m m' v target : (forall i, m !! (target, i) = m' !! (target, i)) -> remap v target m = remap v target m'.
Proof.
  intros H. unfold Apply.remap. destruct v; try done;
    (destruct (to_int int_of _) as [i |]; cbn [mbind result_bind]; [by rewrite H | done]).
Qed.

Lemma local_row_ext m m' o t renamed r :
  (forall f target i, (f, target) ∈ default [] (dict_get t INTERNAL_REFS) -> m !! (target, i) = m' !! (target, i)) ->
  local_row m o t renamed r = local_row m' o t renamed r.
Proof.
  intros H. unfold local_row. apply map_ext. intros f. f_equal.
  assert (source_field m o t r f = source_field m' o t r f) as E; [| unfold local_field; by rewrite E].
  unfold source_field. f_equal. destruct (dict_get f r) as [x |]; [| done].
  destruct (dict_get f (default [] (dict_get t INTERNAL_REFS))) as [target |] eqn:E; [| done]. apply dict_get_elem in E.
  unfold bound_value. rewrite (remap_ext m m'); [done |]. intros i. by eapply H.
Qed.

Lemma field_local m o t renamed r f : f ∈ columns t -> field (local_row m o t renamed r) f = local_field m o t renamed r f.
Proof. intros Hf. unfold field, local_row. by rewrite dict_get_map_fn. Qed.

(** *** Identities *)

Lemma identity_field t f :
  entity t -> dict_get t UNIQUE_FIELDS = Some f ->
  f ∈ columns t /\ f <> "status" /\ dict_get f (default [] (dict_get t INTERNAL_REFS)) = None.
Proof.
  intros Ht Hf. entity_facts Ht. unfold identity_plain in Hid. rewrite Hf, !andb_true_iff, bool_decide_eq_true, !negb_true_iff in Hid.
  destruct Hid as [[Hc _] Hs%String.eqb_neq]. split_and!; [done | done |].
  destruct (dict_get f _) as [target |] eqn:E; [| done]. apply dict_get_elem, ref_plain in E as (_ & _ & _ & H & _); done.
Qed.

(** A created row carries the identity its plan gives it. *)
Lemma local_identity m o db t r renamed f i :
  entity t -> dict_get t UNIQUE_FIELDS = Some f -> planned db t r (Create i renamed) ->
  field (local_row m o t renamed r) f = match identity_under t r (Create i renamed) with Some v => JStr v | None => JNull end.
Proof.
  intros Ht Hf [_ Hp]. destruct (identity_field t f Ht Hf) as (Hc & Hs & Hr). rewrite field_local by done.
  unfold local_field, source_field. rewrite Hr, filled_plain by by apply column_default_null. destruct renamed as [[g v] |]; cbn [identity_under].
  - rewrite Hf in Hp. injection Hp as ->. by rewrite decide_True.
  - rewrite Hf. cbn [mbind option_bind]. destruct (Hp f Hf) as [E | [v E]]; rewrite E; unfold field in E;
      destruct (dict_get f r) as [x |]; simpl in E; by simplify_eq.
Qed.

Lemma holders_nil db t f v s : holders db t f v = [] -> s ∈ rows (tbl db t) -> field s.2 f <> JStr v.
Proof.
  unfold holders. intros E%fmap_nil_inv Hs Ef. rewrite filter_none in E. specialize (E s Hs). simpl in E.
  by rewrite Ef, String.eqb_refl in E.
Qed.

Lemma holders_intro db t f v : (forall s, s ∈ rows (tbl db t) -> field s.2 f <> JStr v) -> holders db t f v = [].
Proof.
  intros H. unfold holders. rewrite (proj2 (filter_none _ _)); [done |]. intros s Hs. specialize (H s Hs).
  destruct (field s.2 f); try done. destruct (String.eqb_spec s0 v); [by subst | done].
Qed.

(** A new identity is a new key. *)
Lemma local_fresh_key m o db0 db t r renamed i :
  entity t -> planned db0 t r (Create i renamed) ->
  (forall v, identity_under t r (Create i renamed) = Some v -> free_identity db t v) ->
  fresh_key db t (local_row m o t renamed r).
Proof.
  intros Ht Hp Hfree s Hs [k Hk] E. rewrite Hk in E. unfold unique_key in *. entity_facts Ht. unfold key_is_identity in Hkey.
  destruct (dict_get t UNIQUE_KEYS) as [fs |]; [| done]. destruct (dict_get t UNIQUE_FIELDS) as [f |] eqn:Ef; [| done].
  apply bool_decide_eq_true in Hkey as ->. cbn [mbind option_bind mapM] in Hk, E.
  rewrite (local_identity m o db0 t r renamed f i) in Hk by done.
  destruct (identity_under t r (Create i renamed)) as [v |] eqn:Ev; [| done]. simpl in Hk. injection Hk as <-.
  apply (holders_nil db t f v s); [by apply Hfree | done |].
  destruct (field s.2 f) as [| [] | | | w | |]; cbn in E; try done. by injection E as ->.
Qed.

(** The identity of an inserted row is the only one taken. *)
Lemma free_inserted db t w renamed values :
  stored t (renamed_values renamed values) = w -> forall v,
  free_identity db t v -> (forall f, dict_get t UNIQUE_FIELDS = Some f -> field w f <> JStr v) ->
  free_identity (inserted t (renamed_values renamed values) db) t v.
Proof.
  intros <- v Hv Hw f Hf. apply holders_intro. intros s. unfold inserted. rewrite tbl_insert_eq. simpl.
  intros [Hs | ->%list_elem_of_singleton]%elem_of_app; [| by apply Hw]. eapply holders_nil; [by apply Hv | done].
Qed.

(** *** Settled references are written without error and point at a row *)

Definition all_mapped (m : id_map) (d : inventory) (target : string) : Prop :=
  forall j, j ∈ source_ids d target -> is_Some (m !! (target, j)).

Definition ids_present (m : id_map) (db : tables) : Prop := forall t i j, m !! (t, i) = Some j -> present db t j = true.

Lemma settled_bound db db' d m o f target v :
  settled db d o f target v -> grown db db' -> all_mapped m d target -> ids_present m db' ->
  bindable m o f target v /\
  (bound_value m o f target v = JNull \/ exists j, bound_value m o f target v = JInt j /\ present db' target j = true).
Proof.
  unfold settled, bindable, bound_value. intros Hs Hg Ha Hi. destruct (dict_get f o) as [j |].
  { split; [done |]. right. exists j. split; [done |]. by eapply present_grown. }
  destruct Hs as [-> | (j & Ej & Hin)]; [split; [by eexists | by left] |].
  destruct (Ha j Hin) as [k Hk].
  assert (remap v target m = Ok (JInt k)) as ->.
  { unfold Apply.remap, to_int. destruct v; try done; simpl in Ej; rewrite ?Ej; simpl; simplify_eq; by rewrite Hk. }
  split; [by eexists |]. right. exists k. split; [done |]. by eapply Hi.
Qed.

(** *** The rows of one type *)

Definition ovr_of (ovr : list (Z * overrides)) (r : row) : overrides := default [] (dict_get (source_id r) ovr).

(** The records created, with their renaming. *)
Definition created_rows (l : list row) (ms : list mapping) : list (row * option (string * string)) :=
  flat_map (fun rm => match rm.2 with Create _ ren => [(rm.1, ren)] | MatchTo _ _ => [] end) (zip l ms).

(** The local row [n] is the record [c]. *)
Definition made (m : id_map) (t : string) (ovr : list (Z * overrides)) (c : row * option (string * string)) (n : Z * row) : Prop :=
  m !! (t, source_id c.1) = Some n.1 /\ n.2 = local_row m (ovr_of ovr c.1) t c.2 c.1.

Record loaded (t : string) (ovr : list (Z * overrides)) (l : list row) (ms : list mapping) (s s' : state) : Prop := {
  loaded_rows : exists new, rows (tbl (tabs s') t) = rows (tbl (tabs s) t) ++ new /\
    new.*1 = seqZ (next_id (tbl (tabs s) t)) (Z.of_nat (length new)) /\
    Forall2 (made (ids s') t ovr) (created_rows l ms) new;
  loaded_others : forall u, u <> t -> tbl (tabs s') u = tbl (tabs s) u;
  loaded_ids_others : forall u i, u <> t -> ids s' !! (u, i) = ids s !! (u, i);
  loaded_ids_kept : forall i, i ∉ source_id <$> l -> ids s' !! (t, i) = ids s !! (t, i);
  loaded_mapped : forall r, r ∈ l -> is_Some (ids s' !! (t, source_id r));
  loaded_created : n_created s' = n_created s + count_by is_create ms;
  loaded_matched : n_matched s' = n_matched s + count_by (fun m => negb (is_create m)) ms
}.

(** What the loop needs of the plan and of the types before it. *)
Record ready (db : tables) (d : inventory) (t : string) (ovr : list (Z * overrides)) (all : list mapping) (l : list row)
    (ms : list mapping) (s : state) : Prop := {
  ready_actions : Forall2 (fun r m => action_of all (source_id r) = Some m) l ms;
  ready_planned : Forall2 (planned db t) l ms;
  ready_nodup : NoDup (source_id <$> l);
  ready_settled : forall r f target, r ∈ l -> (f, target) ∈ default [] (dict_get t INTERNAL_REFS) ->
    settled db d (ovr_of ovr r) f target (field r f);
  ready_targets : forall f target, (f, target) ∈ default [] (dict_get t INTERNAL_REFS) ->
    target <> t /\ all_mapped (ids s) d target;
  ready_grown : grown db (tabs s);
  ready_present : ids_present (ids s) (tabs s);
  ready_free : forall v, v ∈ identities t l ms -> free_identity (tabs s) t v;
  ready_distinct : NoDup (identities t l ms)
}.

Lemma internal_nodup t : NoDup (default [] (dict_get t INTERNAL_REFS)).*1.
Proof. destruct (dict_get t INTERNAL_REFS) as [refs |] eqn:E; [| constructor]. eapply schema_nodup; [by left | done]. Qed.

(** A record that is created is inserted as its local row. *)
Lemma create_outcome db d t ovr r renamed i s :
  entity t -> planned db t r (Create i renamed) ->
  (forall f target, (f, target) ∈ default [] (dict_get t INTERNAL_REFS) -> settled db d (ovr_of ovr r) f target (field r f)) ->
  (forall f target, (f, target) ∈ default [] (dict_get t INTERNAL_REFS) -> all_mapped (ids s) d target) ->
  grown db (tabs s) -> ids_present (ids s) (tabs s) ->
  (forall v, identity_under t r (Create i renamed) = Some v -> free_identity (tabs s) t v) ->
  outcome (fun x => exists values, stored t values = local_row (ids s) (ovr_of ovr r) t renamed r /\
             x = (next_id (tbl (tabs s) t), inserted t values (tabs s)))
    (values ← remap_held (ids s) (ovr_of ovr r) (default [] (dict_get t INTERNAL_REFS)) (without_id r);
     insert_row column_ok t (renamed_values renamed values) (tabs s)).
Proof.
  intros Ht Hp Hset Hall Hg Hpr Hfree.
  assert (forall f target v, (f, target) ∈ default [] (dict_get t INTERNAL_REFS) -> dict_get f r = Some v ->
    bindable (ids s) (ovr_of ovr r) f target v /\
    (bound_value (ids s) (ovr_of ovr r) f target v = JNull \/
     exists j, bound_value (ids s) (ovr_of ovr r) f target v = JInt j /\ present (tabs s) target j = true)) as Hb.
  { intros f target v Hin Hv. eapply settled_bound; [| done | by eapply Hall | done].
    specialize (Hset f target Hin). unfold field in Hset. by rewrite Hv in Hset. }
  destruct (remap_held_Ok (ids s) (ovr_of ovr r) (default [] (dict_get t INTERNAL_REFS)) (without_id r)) as (values & -> & Hv).
  { apply internal_nodup. }
  { intros f target v Hin Hv. eapply Hb; [done |]. rewrite dict_get_without_id in Hv; [done |]. by apply ref_plain in Hin as (_ & ? & _). }
  cbn [mbind result_bind]. pose proof (stored_local _ _ _ renamed _ _ Ht Hv) as E.
  eapply outcome_mono; [apply insert_outcome |]; rewrite ?E.
  - left. by eapply local_fresh_key.
  - rewrite entity_foreign_keys by done. apply forallb_forall. intros [f target] Hin%list_elem_of_In.
    destruct (ref_plain t f target Ht Hin) as (Hc & _ & Hs & Hu & _).
    unfold foreign_key_ok. cbn [fst snd]. rewrite field_local by done. unfold local_field.
    assert (source_field (ids s) (ovr_of ovr r) t r f = JNull \/ exists j, source_field (ids s) (ovr_of ovr r) t r f = JInt j /\
              present (tabs s) target j = true) as Hsf.
    { unfold source_field. rewrite (elem_dict_get f target), filled_plain by (done || apply internal_nodup || by apply column_default_null).
      destruct (dict_get f r) as [x |] eqn:Ex; [by eapply Hb | by left]. }
    assert (forall g v, renamed = Some (g, v) -> g <> f) as Hren.
    { intros g v ->. destruct Hp as [_ Hp]. congruence. }
    destruct renamed as [[g v] |]; [rewrite decide_False by by eapply Hren |];
      (destruct Hsf as [-> | (j & -> & Hj)]; [done | exact Hj]).
  - intros x ->. eauto.
Qed.

Lemma bind_bind {A B C} (r : result error A) (f : A -> result error B) (g : B -> result error C) :
  (r ≫= fun a => f a ≫= g) = (r ≫= f) ≫= g.
Proof. by destruct r. Qed.

(** The state after one record. *)
Definition matched_state (t : string) (r : row) (j : Z) (s : state) : state :=
  State (tabs s) (<[(t, source_id r) := j]> (ids s)) (n_created s) (n_matched s + 1).

Definition created_state (t : string) (r values : row) (s : state) : state :=
  State (inserted t values (tabs s)) (<[(t, source_id r) := next_id (tbl (tabs s) t)]> (ids s)) (n_created s + 1) (n_matched s).

Lemma ready_matched db d t ovr all r l i j ms s :
  ready db d t ovr all (r :: l) (MatchTo i j :: ms) s -> ready db d t ovr all l ms (matched_state t r j s).
Proof.
  intros [Ha Hp Hn Hs Ht Hg Hpr Hf Hd]. apply Forall2_cons in Ha as [_ Ha]. apply Forall2_cons in Hp as [[_ Hj] Hp].
  rewrite fmap_cons in Hn. apply NoDup_cons in Hn as [Hr Hn]. rewrite identities_cons in *. cbn [identity_under opt_list app] in *.
  split; try done.
  - intros r' f target Hr' Hin. apply Hs; [by constructor | done].
  - intros f target Hin. destruct (Ht f target Hin) as [Hne Hm]. split; [done |]. intros k Hk. cbn [matched_state ids].
    rewrite lookup_insert_ne by congruence. by apply Hm.
  - intros u k x. cbn [matched_state ids tabs]. intros [[[= <- <-] <-] | [_ Hx]]%lookup_insert_Some; [by eapply present_grown | by eapply Hpr].
Qed.

Lemma ready_created db d t ovr all r l i renamed ms s values :
  entity t -> stored t values = local_row (ids s) (ovr_of ovr r) t renamed r ->
  ready db d t ovr all (r :: l) (Create i renamed :: ms) s -> ready db d t ovr all l ms (created_state t r values s).
Proof.
  intros Hte E [Ha Hp Hn Hs Ht Hg Hpr Hf Hd]. apply Forall2_cons in Ha as [_ Ha]. apply Forall2_cons in Hp as [Hp1 Hp].
  rewrite fmap_cons in Hn. apply NoDup_cons in Hn as [Hr Hn]. rewrite identities_cons in *. apply NoDup_app in Hd as (_ & Hx & Hd).
  split; try done.
  - intros r' f target Hr' Hin. apply Hs; [by constructor | done].
  - intros f target Hin. destruct (Ht f target Hin) as [Hne Hm]. split; [done |]. intros k Hk. cbn [created_state ids].
    rewrite lookup_insert_ne by congruence. by apply Hm.
  - etransitivity; [exact Hg | apply inserted_grown].
  - intros u k x. cbn [created_state ids tabs]. intros [[[= <- <-] <-] | [_ Hk]]%lookup_insert_Some; [apply inserted_present |].
    eapply present_grown; [apply inserted_grown | by eapply Hpr].
  - intros v Hv. cbn [created_state tabs]. apply (free_inserted _ t (local_row (ids s) (ovr_of ovr r) t renamed r) None values); [done | |].
    + apply Hf, elem_of_app. by right.
    + intros f Hff Ef. rewrite (local_identity _ _ db t r renamed f i) in Ef by done.
      destruct (identity_under t r (Create i renamed)) as [w |] eqn:Ew; [| done]. injection Ef as ->.
      apply (Hx v); [simpl; constructor | done].
Qed.

Lemma loaded_step_matched t ovr r l i j ms s s' :
  source_id r ∉ source_id <$> l ->
  loaded t ovr l ms (matched_state t r j s) s' -> loaded t ovr (r :: l) (MatchTo i j :: ms) s s'.
Proof.
  intros Hr [(new & Er & En & Hm) Ho Hio Hk Hmap Hc Hma]. cbn [matched_state tabs ids n_created n_matched] in *. split; try done.
  - eauto.
  - intros u k Hu. rewrite Hio, lookup_insert_ne by congruence. done.
  - intros k Hin. rewrite fmap_cons in Hin. apply not_elem_of_cons in Hin as [Hne Hin]. rewrite Hk, lookup_insert_ne by congruence. done.
  - intros r' [-> | Hin]%elem_of_cons; [| by apply Hmap]. rewrite Hk, lookup_insert_eq by done. eauto.
  - rewrite Hma. unfold count_by; simpl. lia.
Qed.

Lemma loaded_step_created t ovr r l i renamed ms s s' values :
  (forall f target, (f, target) ∈ default [] (dict_get t INTERNAL_REFS) -> target <> t) ->
  stored t values = local_row (ids s) (ovr_of ovr r) t renamed r ->
  source_id r ∉ source_id <$> l ->
  loaded t ovr l ms (created_state t r values s) s' -> loaded t ovr (r :: l) (Create i renamed :: ms) s s'.
Proof.
  intros Hne E Hr [(new & Er & En & Hm) Ho Hio Hk Hmap Hc Hma]. cbn [created_state tabs ids n_created n_matched] in *.
  unfold inserted in Er, En, Ho. rewrite tbl_insert_eq in Er, En. cbn [rows next_id] in Er, En.
  assert (ids s' !! (t, source_id r) = Some (next_id (tbl (tabs s) t))) as Hi by by rewrite Hk, lookup_insert_eq.
  split; try done.
  - exists ((next_id (tbl (tabs s) t), stored t values) :: new). split_and!.
    + by rewrite Er, <- app_assoc.
    + rewrite fmap_cons, En. cbn [length fst]. rewrite (seqZ_cons (next_id (tbl (tabs s) t))) by lia. f_equal. f_equal; lia.
    + constructor; [| done]. split; [done |]. cbn [fst snd]. rewrite E. apply local_row_ext. intros f target k Hin.
      rewrite Hio, lookup_insert_ne by (specialize (Hne f target Hin); congruence). done.
  - intros u Hu. rewrite Ho by done. by rewrite tbl_insert_ne.
  - intros u k Hu. rewrite Hio, lookup_insert_ne by congruence. done.
  - intros k Hin. rewrite fmap_cons in Hin. apply not_elem_of_cons in Hin as [Hk' Hin]. rewrite Hk, lookup_insert_ne by congruence. done.
  - intros r' [-> | Hin]%elem_of_cons; [by rewrite Hi | by apply Hmap].
  - rewrite Hc. unfold count_by; simpl. lia.
Qed.

Lemma loaded_nil t ovr s : loaded t ovr [] [] s s.
Proof.
  split; try done; [| set_solver | unfold count_by; simpl; lia ..].
  exists []. rewrite app_nil_r. split_and!; [done | done | by apply Forall2_nil].
Qed.

Lemma apply_rows_outcome db d t ovr all l ms s :
  entity t -> ready db d t ovr all l ms s ->
  outcome (fun s' => loaded t ovr l ms s s' /\ grown db (tabs s') /\ ids_present (ids s') (tabs s'))
    (apply_rows column_ok int_of t all ovr l s).
Proof.
  intros Hte. revert ms s. induction l as [| r l IH]; intros ms s Hr.
  { pose proof (ready_actions _ _ _ _ _ _ _ _ Hr) as Ha. apply Forall2_nil_inv_l in Ha as ->.
    split_and!; [apply loaded_nil | apply Hr | apply Hr]. }
  destruct ms as [| m ms]; [by pose proof (ready_actions _ _ _ _ _ _ _ _ Hr) as Ha%Forall2_nil_inv_r |].
  pose proof Hr as [Ha Hp Hn Hs Ht Hg Hpr Hf Hd]. apply Forall2_cons in Ha as [Ea _]. apply Forall2_cons in Hp as [Hp _].
  rewrite fmap_cons in Hn. apply NoDup_cons in Hn as [Hnr _]. cbn [apply_rows]. rewrite Ea. destruct m as [i j | i renamed].
  - eapply outcome_mono; [apply (IH ms (matched_state t r j s)); by eapply ready_matched |].
    intros s' (Hl & ?). split; [by eapply loaded_step_matched | done].
  - rewrite bind_bind. eapply outcome_bind; [eapply (create_outcome db d t ovr r renamed i s) |]; try done.
    + intros f target Hin. apply Hs; [constructor | done].
    + intros f target Hin. by eapply Ht.
    + intros v Hv. apply Hf. rewrite identities_cons, Hv. apply elem_of_app. left. simpl. constructor.
    + intros x (values & E & ->). cbn [fst snd].
      eapply outcome_mono; [apply (IH ms (created_state t r values s)); by eapply ready_created |].
      intros s' (Hl & ?). split; [| done]. eapply loaded_step_created; try done. intros f target Hin. by eapply Ht.
Qed.

(** *** All types, in order *)

Fixpoint ordered_from (earlier order : list string) : bool :=
  match order with
  | [] => true
  | t :: order =>
      forallb (fun ft => bool_decide (ft.2 ∈ earlier)) (default [] (dict_get t INTERNAL_REFS)) && ordered_from (earlier ++ [t]) order
  end.

Lemma action_of_planned ms m : NoDup (source_of <$> ms) -> m ∈ ms -> action_of ms (source_of m) = Some m.
Proof.
  intros Hn Hm. unfold action_of. destruct (List.find _ (rev ms)) as [m' |] eqn:E.
  - apply find_some in E as [Hin%in_rev%list_elem_of_In Es%Z.eqb_eq]. f_equal.
    apply list_elem_of_lookup in Hin as [i Hi], Hm as [j Hj].
    assert (i = j) as -> by (eapply (NoDup_lookup _ i j (source_of m) Hn); rewrite list_lookup_fmap; [by rewrite Hi; simpl; rewrite Es | by rewrite Hj]).
    congruence.
  - eapply find_none in E; [| by apply in_rev; rewrite rev_involutive; apply list_elem_of_In]. by apply Z.eqb_neq in E.
Qed.

Lemma planned_sources db t l ms : Forall2 (planned db t) l ms -> source_of <$> ms = source_id <$> l.
Proof. induction 1 as [| r m l ms [E _] _ IH]; [done |]. by rewrite !fmap_cons, E, IH. Qed.

Lemma planned_actions db t l ms :
  Forall2 (planned db t) l ms -> NoDup (source_id <$> l) -> Forall2 (fun r m => action_of ms (source_id r) = Some m) l ms.
Proof.
  intros Hp Hn. pose proof (planned_sources _ _ _ _ Hp) as E. rewrite <- E in Hn.
  assert (forall m, m ∈ ms -> action_of ms (source_of m) = Some m) as Ha by by (intros; apply action_of_planned).
  clear Hn E. revert Ha. generalize (action_of ms) as f. intros f. induction Hp as [| r m l ms [E _] _ IH]; intros Ha; [constructor |].
  constructor; [rewrite <- E; apply Ha; constructor |]. apply IH. intros m' Hm'. apply Ha. by constructor.
Qed.

(** The records of type [t] are in [db']. *)
Definition imported (p : plan) (d : inventory) (db db' : tables) (m : id_map) (t : string) : Prop :=
  exists new, rows (tbl db' t) = rows (tbl db t) ++ new /\
    new.*1 = seqZ (next_id (tbl db t)) (Z.of_nat (length new)) /\
    Forall2 (made m t (default [] (dict_get t (ref_overrides p))))
      (created_rows (default [] (dict_get t (entities d))) (default [] (dict_get t (mappings p)))) new.

(** The counts the preview announced for type [t]. *)
Definition announced (p : plan) (t : string) : Z * Z :=
  (default 0 (dict_get t (creates p)), default 0 (dict_get t (matches p))).

Lemma made_ext m m' t ovr c n :
  (forall u i, u = t \/ (exists f, (f, u) ∈ default [] (dict_get t INTERNAL_REFS)) -> m !! (u, i) = m' !! (u, i)) ->
  made m t ovr c n -> made m' t ovr c n.
Proof.
  intros H [H1 H2]. split; [by rewrite <- H by by left |]. rewrite H2. apply local_row_ext. intros f target i Hin. apply H. eauto.
Qed.

Lemma apply_type_outcome p d db dbk m t (earlier : list string) :
  sound repr_of db d p -> well_formed d -> entity t ->
  (forall f target, (f, target) ∈ default [] (dict_get t INTERNAL_REFS) -> target ∈ earlier) -> t ∉ earlier ->
  (forall u, u ∈ earlier -> all_mapped m d u) -> tbl dbk t = tbl db t -> grown db dbk -> ids_present m dbk ->
  outcome (fun s => loaded t (default [] (dict_get t (ref_overrides p))) (default [] (dict_get t (entities d)))
                      (default [] (dict_get t (mappings p))) (State dbk m 0 0) s /\
             grown db (tabs s) /\ ids_present (ids s) (tabs s) /\ (n_created s, n_matched s) = announced p t)
    (apply_type column_ok int_of p d t dbk m).
Proof.
  intros Hs Hw Hte Hrefs Ht Hall Htb Hg Hpr. unfold apply_type, announced.
  destruct (dict_get t (entities d)) as [l |] eqn:El; cbn [default].
  2: { destruct (sound_absent _ _ _ _ Hs t El) as (-> & -> & ->). split_and!; [apply loaded_nil | done ..]. }
  destruct (sound_types _ _ _ _ Hs t l El) as (ms & -> & Hp & Hf & Hd & -> & ->). cbn [default].
  destruct l as [| r l]; [apply Forall2_nil_inv_l in Hp as ->; split_and!; [apply loaded_nil | done ..] |].
  set (l' := r :: l) in *.
  eapply outcome_mono; [apply (apply_rows_outcome db d t _ ms l' ms (State dbk m 0 0)); [done |] |].
  - destruct (wf_identified _ Hw t l') as [_ Hn]; [by apply dict_get_elem |]. split; try done.
    + by eapply planned_actions.
    + intros r' f target Hr' Hin. unfold ovr_of.
      destruct (dict_get t INTERNAL_REFS) as [refs |] eqn:Er; [| by apply elem_of_nil in Hin].
      by apply (sound_internal _ _ _ _ Hs t refs l').
    + intros f target Hin. specialize (Hrefs f target Hin). split; [by intros -> | by apply Hall].
    + intros v Hv. rewrite Forall_forall in Hf. specialize (Hf v Hv). intros f Hff. specialize (Hf f Hff).
      unfold holders in *. cbn [tabs]. by rewrite Htb.
  - intros s (Hl & Hg' & Hp'). split_and!; [done | done | done |].
    rewrite (loaded_created _ _ _ _ _ _ Hl), (loaded_matched _ _ _ _ _ _ Hl). done.
Qed.

Lemma loaded_all_mapped d t ovr ms s s' :
  loaded t ovr (default [] (dict_get t (entities d))) ms s s' -> all_mapped (ids s') d t.
Proof. intros Hl j (r & -> & Hr)%list_elem_of_fmap. by eapply loaded_mapped. Qed.

Lemma apply_entities_outcome p d db order earlier dbk m :
  sound repr_of db d p -> well_formed d ->
  ordered_from earlier order = true -> NoDup (earlier ++ order) -> Forall entity order ->
  (forall u, u ∈ earlier -> all_mapped m d u) -> (forall t, t ∈ order -> tbl dbk t = tbl db t) -> grown db dbk -> ids_present m dbk ->
  outcome (fun x => let '(db', m', counts) := x in
      grown db db' /\ ids_present m' db' /\ (forall t, t ∈ earlier ++ order -> all_mapped m' d t) /\
      (forall t, t ∈ order -> imported p d db db' m' t) /\
      (forall t, t ∉ order -> tbl db' t = tbl dbk t /\ forall i, m' !! (t, i) = m !! (t, i)) /\
      counts = map (fun t => (t, announced p t)) order)
    (apply_entities column_ok int_of p d order dbk m).
Proof.
  intros Hs Hw. revert earlier dbk m; induction order as [| t order IH]; intros earlier dbk m Ho Hn He Hall Htb Hg Hpr.
  { cbn. split_and!; [done | done | by rewrite app_nil_r | set_solver | done | done]. }
  cbn [ordered_from] in Ho. apply andb_true_iff in Ho as [Hrefs Ho]. apply Forall_cons in He as [Hte He].
  assert ((t ∉ earlier) /\ (t ∉ order)) as [Hte1 Hto].
  { apply NoDup_app in Hn as (_ & Hx & Hn). apply NoDup_cons in Hn as [? _]. split; [| done]. intros Hin. apply (Hx t Hin). constructor. }
  cbn [apply_entities]. eapply outcome_bind; [apply (apply_type_outcome p d db dbk m t earlier) |]; try done.
  { intros f target Hin. rewrite forallb_forall in Hrefs. apply list_elem_of_In, Hrefs in Hin. by apply bool_decide_eq_true in Hin. }
  { apply Htb. constructor. }
  intros s (Hl & Hg1 & Hp1 & Hc1). eapply outcome_bind; [apply (IH (earlier ++ [t]) (tabs s) (ids s)) |]; try done.
  { by rewrite <- app_assoc. }
  { intros u [Hu | ->%list_elem_of_singleton]%elem_of_app; [| by eapply loaded_all_mapped].
    intros j Hj. rewrite (loaded_ids_others _ _ _ _ _ _ Hl) by (by intros ->). by apply Hall. }
  { intros u Hu. rewrite (loaded_others _ _ _ _ _ _ Hl) by (by intros ->). apply Htb. by constructor. }
  intros [[db' m'] counts] (Hg2 & Hp2 & Ha2 & Hi2 & Hk2 & ->). cbn [fst snd]. split_and!; [done | done | | | |].
  - intros u Hu. apply Ha2. rewrite <- app_assoc. exact Hu.
  - intros u [-> | Hu]%elem_of_cons; [| by apply Hi2]. destruct (Hk2 t Hto) as [Et Em].
    destruct (loaded_rows _ _ _ _ _ _ Hl) as (new & Er & En & Hm). cbn [tabs] in Er, En.
    rewrite Htb in Er, En by constructor. exists new. rewrite Et. split_and!; [done | done |].
    eapply Forall2_impl; [exact Hm |]. intros c n. apply made_ext. intros u i Hu. symmetry. apply Hk2.
    destruct Hu as [-> | [f Hin]]; [done |]. rewrite forallb_forall in Hrefs. apply list_elem_of_In, Hrefs, bool_decide_eq_true in Hin.
    intros Hu. apply NoDup_app in Hn as (_ & Hx & _). apply (Hx u Hin). by constructor.
  - intros u Hu. apply not_elem_of_cons in Hu as [Hne Hu]. destruct (Hk2 u Hu) as [-> Hm']. split.
    + by apply (loaded_others _ _ _ _ _ _ Hl).
    + intros i. rewrite Hm'. by apply (loaded_ids_others _ _ _ _ _ _ Hl).
  - cbn [map]. by rewrite Hc1.
Qed.

(** *** Relationships *)

Lemma remap_all_Ok m o refs values :
  NoDup refs.*1 -> (forall f target, (f, target) ∈ refs -> bindable m o f target (field values f)) ->
  exists values', remap_all int_of m o refs values = Ok values' /\
    forall f, dict_get f values' =
      match dict_get f refs with
      | Some target => Some (bound_value m o f target (field values f))
      | None => dict_get f values
      end.
Proof.
  revert values; induction refs as [| [f target] refs IH]; intros values Hn Hb; [by exists values |].
  rewrite fmap_cons in Hn. apply NoDup_cons in Hn as [Hf Hn]. cbn [remap_all].
  assert (match dict_get f o with Some j => Ok (JInt j) | None => remap (field values f) target m end =
            Ok (bound_value m o f target (field values f))) as E.
  { specialize (Hb f target (list_elem_of_here _ _)). unfold bindable, bound_value in *. destruct (dict_get f o); [done |].
    destruct Hb as [v' ->]; done. }
  rewrite E. cbn [mbind result_bind].
  assert (forall g, g ∈ refs.*1 -> field (dict_set f (bound_value m o f target (field values f)) values) g = field values g) as Hg.
  { intros g Hin. unfold field. rewrite dict_get_set. case_decide; [| done]. subst g. done. }
  destruct (IH (dict_set f (bound_value m o f target (field values f)) values) Hn) as (values' & E' & H').
  { intros g target' Hin. rewrite Hg by (apply list_elem_of_fmap; by exists (g, target')). apply Hb. by constructor. }
  exists values'. split; [done |]. intros g. rewrite H'. simpl.
  destruct (dict_get g refs) as [target' |] eqn:Eg.
  - rewrite Hg by (apply dict_get_is_Some; by rewrite Eg). case_decide; [| done]. subst g. destruct Hf. apply (dict_get_is_Some f refs). by rewrite Eg.
  - rewrite dict_get_set. by case_decide; [subst |].
Qed.

(** The kind a field of a relationship row refers to. *)
Definition relation_target_of (t : string) (r : row) (f : string) : option string :=
  if attachment t then
    if String.eqb f "entity_id" then owner_of repr_of r
    else if String.eqb f (attached_field t) then Some (attached_type t) else None
  else dict_get t RELATION_REFS ≫= dict_get f.

Definition relation_field (m : id_map) (o : overrides) (t : string) (r : row) (f : string) : json :=
  match relation_target_of t r f with
  | Some target => bound_value m o f target (field r f)
  | None => field r f
  end.

(** The row a relationship of the document becomes. *)
Definition relation_row (m : id_map) (o : overrides) (t : string) (r : row) : row :=
  map (fun f => (f, relation_field m o t r f)) (default [] (dict_get t RELATIONSHIP_FIELDS)).

(** An attachment row holds its two references. *)
Definition attachment_complete (t : string) (r : row) : Prop :=
  attachment t = true -> "entity_id" ∈ r.*1 /\ attached_field t ∈ r.*1.

Lemma relation_settled_bound db db' d m o t r f target :
  relation_settled repr_of db d o t r -> grown db db' -> (forall u, all_mapped m d u) -> ids_present m db' ->
  relation_target_of t r f = Some target ->
  bindable m o f target (field r f) /\
  (relation_field m o t r f = JNull \/ exists j, relation_field m o t r f = JInt j /\ present db' target j = true).
Proof.
  intros Hs Hg Ha Hp Et. unfold relation_field. rewrite Et. eapply settled_bound; try done.
  unfold relation_settled, relation_target_of in *. destruct (attachment t).
  - destruct Hs as (owner & Ho & H1 & H2). destruct (String.eqb_spec f "entity_id") as [-> |]; [congruence |].
    destruct (String.eqb_spec f (attached_field t)) as [-> |]; [by simplify_eq | done].
  - destruct Hs as (refs & Er & H). rewrite Er in Et. cbn [mbind option_bind] in Et. by apply H, dict_get_elem.
Qed.

Lemma attached_not_entity t : attachment t = true -> String.eqb (attached_field t) "entity_id" = false.
Proof. unfold attachment. rewrite orb_true_iff, !String.eqb_eq. by intros [-> | ->]. Qed.

Lemma relation_values_Ok db db' d m o t r :
  relation_settled repr_of db d o t r -> attachment_complete t r ->
  grown db db' -> (forall u, all_mapped m d u) -> ids_present m db' ->
  exists values, relation_values repr_of int_of t m o r = Ok values /\ forall f, field values f = relation_field m o t r f.
Proof.
  intros Hs Hc Hg Ha Hp. pose proof (fun f target => relation_settled_bound db db' d m o t r f target Hs Hg Ha Hp) as Hb.
  unfold relation_settled in Hs. unfold relation_values, relation_field, relation_target_of in *. destruct (attachment t) eqn:Eat.
  - destruct Hs as (owner & Eo & _ & _). destruct (Hc Eat) as [Hk1 Hk2]. rewrite Eo in *.
    apply dict_get_is_Some in Hk1 as [v1 Hk1], Hk2 as [v2 Hk2]. pose proof (attached_not_entity t Eat) as Hne.
    assert (exists v, dict_get "entity_type" r = Some v /\ dict_get (py_str repr_of v) ATTACHMENT_TYPES = Some owner) as (v & -> & ->).
    { unfold owner_of, field in Eo. destruct (dict_get "entity_type" r) as [v |]; [by exists v | done]. }
    destruct (Hb "entity_id" owner eq_refl) as [Hb1 _]. destruct (Hb (attached_field t) (attached_type t)) as [Hb2 _].
    { by rewrite Hne, String.eqb_refl. }
    unfold field in Hb1, Hb2 at 1. rewrite Hk1 in Hb1. rewrite Hk2 in Hb2. cbn [default id] in Hb1, Hb2. rewrite Hk1.
    assert (match dict_get "entity_id" o with Some j => Ok (JInt j) | None => remap v1 owner m end =
              Ok (bound_value m o "entity_id" owner v1)) as ->.
    { unfold bindable, bound_value in *. destruct (dict_get "entity_id" o); [done |]. destruct Hb1 as [? ->]; done. }
    cbn [mbind result_bind]. rewrite dict_get_set, decide_False, Hk2 by (intros E; by rewrite <- E, String.eqb_refl in Hne).
    assert (match dict_get (attached_field t) o with Some j => Ok (JInt j) | None => remap v2 (attached_type t) m end =
              Ok (bound_value m o (attached_field t) (attached_type t) v2)) as ->.
    { unfold bindable, bound_value in *. destruct (dict_get (attached_field t) o); [done |]. destruct Hb2 as [? ->]; done. }
    cbn [mbind result_bind]. eexists. split; [done |]. intros f. unfold field. rewrite !dict_get_set.
    destruct (String.eqb_spec f "entity_id") as [-> | Hf1]; [rewrite decide_False, decide_True by (done || by apply String.eqb_neq); by rewrite Hk1 |].
    destruct (String.eqb_spec f (attached_field t)) as [-> | Hf2]; [rewrite decide_True by done; by rewrite Hk2 |].
    by rewrite !decide_False by congruence.
  - destruct Hs as (refs & Er & _). rewrite Er in *. cbn [mbind option_bind] in *.
    assert (NoDup refs.*1) as Hn by (eapply schema_nodup; [by right | done]).
    destruct (remap_all_Ok m o refs r) as (values & E & Hv); [done | |].
    { intros f target Hin. apply Hb. by apply elem_dict_get. }
    exists values. split; [done |]. intros f. unfold field at 1. rewrite Hv. by destruct (dict_get f refs).
Qed.

(** *** The session's pending rows *)

Lemma relation_columns t : relation t -> columns t = default [] (dict_get t RELATIONSHIP_FIELDS).
Proof.
  intros Hr. unfold columns. destruct (dict_get t ENTITY_FIELDS) as [fs |] eqn:E; [| done].
  destruct (sections_disjoint t); [| done]. apply dict_get_is_Some. by rewrite E.
Qed.

Lemma stored_relation t (g : string -> json) :
  relation t -> stored t (map (fun f => (f, g f)) (default [] (dict_get t RELATIONSHIP_FIELDS))) =
                map (fun f => (f, filled t f (g f))) (default [] (dict_get t RELATIONSHIP_FIELDS)).
Proof.
  intros Hr. unfold stored, field. rewrite relation_columns by done. apply map_ext_in. intros f Hf%list_elem_of_In.
  by rewrite dict_get_map_fn.
Qed.

Definition is_null (v : json) : bool := match v with JNull => true | _ => false end.

Definition relation_keys_listed (t : string) : bool :=
  forallb (fun ft => bool_decide (ft.1 ∈ default [] (dict_get t RELATIONSHIP_FIELDS)) && is_null (column_default t ft.1)) (FOREIGN_KEYS t).

Lemma foreign_key_listed t f target :
  relation t -> (f, target) ∈ FOREIGN_KEYS t -> f ∈ default [] (dict_get t RELATIONSHIP_FIELDS) /\ column_default t f = JNull.
Proof.
  assert (forallb relation_keys_listed RELATIONSHIP_FIELDS.*1 = true) as H by (vm_compute; reflexivity).
  rewrite forallb_forall in H. intros Ht Hin. apply list_elem_of_In, H in Ht. unfold relation_keys_listed in Ht.
  rewrite forallb_forall in Ht. apply list_elem_of_In, Ht in Hin. apply andb_true_iff in Hin as [Hin%bool_decide_eq_true Hn]. split; [done |].
  cbn [fst] in Hn. by destruct (column_default t f).
Qed.

Lemma relation_foreign_key t r f target :
  relation t -> (f, target) ∈ FOREIGN_KEYS t -> relation_target_of t r f = Some target.
Proof.
  unfold FOREIGN_KEYS, relation_target_of. intros Hr. destruct (attachment t) eqn:Ea.
  - intros [= -> ->]%list_elem_of_singleton. by rewrite attached_not_entity, String.eqb_refl.
  - intros Hin. destruct (dict_get t INTERNAL_REFS) as [refs |] eqn:Ei.
    { exfalso. assert (forallb (fun u => bool_decide (u ∈ ENTITY_FIELDS.*1)) INTERNAL_REFS.*1 = true) as H by (vm_compute; reflexivity).
      rewrite forallb_forall in H. apply (sections_disjoint t); [| done]. apply (bool_decide_eq_true (t ∈ ENTITY_FIELDS.*1)), H.
      apply list_elem_of_In, dict_get_is_Some. by rewrite Ei. }
    cbn [default] in Hin. destruct (dict_get t RELATION_REFS) as [refs |] eqn:Er; [| by apply elem_of_nil in Hin].
    cbn [mbind option_bind default] in *. apply elem_dict_get; [| done]. eapply schema_nodup; [by right | done].
Qed.

(** A pending row the tables can take. *)
Definition linked (db : tables) (tv : string * row) : Prop :=
  relation tv.1 /\ forallb (foreign_key_ok db (stored tv.1 tv.2)) (FOREIGN_KEYS tv.1) = true.

Lemma linked_grown db db' tv : grown db db' -> linked db tv -> linked db' tv.
Proof.
  intros Hg [Hr Hf]. split; [done |]. rewrite forallb_forall in *. intros ft Hin. specialize (Hf ft Hin).
  unfold foreign_key_ok in *. destruct (field (stored tv.1 tv.2) ft.1); try done; (destruct (as_int _); [| done]; by eapply present_grown).
Qed.

Definition of_type (t : string) (pending : list (string * row)) : list row :=
  flat_map (fun tv => if decide (tv.1 = t) then [stored t tv.2] else []) pending.

Lemma flush_outcome pending db :
  Forall (linked db) pending ->
  outcome (fun db' => grown db db' /\ forall t, exists new, rows (tbl db' t) = rows (tbl db t) ++ new /\
             new.*1 = seqZ (next_id (tbl db t)) (Z.of_nat (length new)) /\ new.*2 = of_type t pending)
    (flush column_ok pending db).
Proof.
  revert db; induction pending as [| [t v] pending IH]; intros db Hl.
  { split; [done |]. intros t. exists []. by rewrite app_nil_r. }
  apply Forall_cons in Hl as [[Hr Hf] Hl]. cbn [flush fst snd] in *.
  eapply outcome_bind; [apply insert_outcome; [by right | done] |]. intros x ->. cbn [fst snd].
  eapply outcome_mono; [apply IH |].
  { eapply Forall_impl; [exact Hl |]. intros tv. apply linked_grown, inserted_grown. }
  intros db' [Hg Hn]. split; [etransitivity; [apply inserted_grown | exact Hg] |].
  intros u. destruct (Hn u) as (new & Er & Es & Ev). unfold of_type. cbn [flat_map fst snd].
  destruct (decide (t = u)) as [-> | Hne].
  - unfold inserted in Er, Es. rewrite tbl_insert_eq in Er, Es. cbn [rows next_id] in Er, Es.
    exists ((next_id (tbl db u), stored u v) :: new). rewrite Er, <- app_assoc, !fmap_cons, Es, Ev. cbn [length fst snd app].
    split_and!; [done | | done]. rewrite (seqZ_cons (next_id (tbl db u))) by lia. f_equal. f_equal; lia.
  - unfold inserted in Er, Es. rewrite tbl_insert_ne in Er, Es by congruence. exists new. done.
Qed.

(** The overrides of a relationship row, by its position. *)
Fixpoint relation_local (m : id_map) (ovr : list (Z * overrides)) (t : string) (i : Z) (l : list row) : list row :=
  match l with
  | [] => []
  | r :: l => relation_row m (default [] (dict_get i ovr)) t r :: relation_local m ovr t (i + 1) l
  end.

Lemma relation_row_linked db db' d m o t r :
  relation t -> relation_settled repr_of db d o t r ->
  grown db db' -> (forall u, all_mapped m d u) -> ids_present m db' -> linked db' (t, relation_row m o t r).
Proof.
  intros Ht Hs Hg Ha Hp. split; [done |]. cbn [fst snd]. unfold relation_row. rewrite stored_relation by done.
  apply forallb_forall. intros [f target] Hin%list_elem_of_In. unfold foreign_key_ok, field. cbn [fst snd].
  destruct (foreign_key_listed t f target Ht Hin) as [Hf Hdef]. rewrite dict_get_map_fn by done. cbn [default id]. rewrite filled_plain by done.
  destruct (relation_settled_bound db db' d m o t r f target) as [_ [-> | (j & -> & Hj)]]; try done. by apply relation_foreign_key.
Qed.

Lemma relation_rows_Ok db db' d m ovr t i l :
  relation t -> (forall k r, l !! k = Some r -> relation_settled repr_of db d (default [] (dict_get (i + Z.of_nat k) ovr)) t r) ->
  (forall r, r ∈ l -> attachment_complete t r) -> grown db db' -> (forall u, all_mapped m d u) -> ids_present m db' ->
  relation_rows repr_of int_of t m ovr i l = Ok (relation_local m ovr t i l) /\
  Forall (fun v => linked db' (t, v)) (relation_local m ovr t i l).
Proof.
  intros Ht Hs Hc Hg Ha Hp. revert i Hs; induction l as [| r l IH]; intros i Hs; [by split |].
  assert (relation_settled repr_of db d (default [] (dict_get i ovr)) t r) as Hr by (rewrite <- (Z.add_0_r i); by apply (Hs 0%nat)).
  cbn [relation_rows relation_local].
    destruct (relation_values_Ok db db' d m _ t r Hr) as (values & -> & Hv); [apply Hc; constructor | done .. |].
  destruct (IH ltac:(intros; apply Hc; by constructor) (i + 1)) as [-> Hl].
  { intros k r' Hk. replace (i + 1 + Z.of_nat k) with (i + Z.of_nat (S k)) by lia. by apply Hs. }
  cbn [mbind result_bind]. split; [| constructor; [by eapply relation_row_linked | done]].
  do 2 f_equal. apply map_ext. intros f. by rewrite Hv.
Qed.

Definition rel_ovr (p : plan) (t : string) : list (Z * overrides) := default [] (dict_get t (relation_overrides p)).

Definition pending_of (p : plan) (m : id_map) (groups : list (string * list row)) : list (string * row) :=
  flat_map (fun g => map (fun v => (g.1, v)) (relation_local m (rel_ovr p g.1) g.1 1 g.2)) groups.

Lemma pending_rows_Ok p db db' d m groups :
  (forall t l, (t, l) ∈ groups -> relation t /\ forall r, r ∈ l -> attachment_complete t r) ->
  (forall t l k r, (t, l) ∈ groups -> l !! k = Some r ->
     relation_settled repr_of db d (entry_overrides (relation_overrides p) t (1 + Z.of_nat k)) t r) ->
  grown db db' -> (forall u, all_mapped m d u) -> ids_present m db' ->
  pending_rows repr_of int_of p m groups = Ok (pending_of p m groups) /\ Forall (linked db') (pending_of p m groups).
Proof.
  intros Hc Hs Hg Ha Hp. induction groups as [| [t l] groups IH]; [by split |].
  destruct (Hc t l (list_elem_of_here _ _)) as [Ht Hcl]. cbn [pending_rows pending_of flat_map fst snd].
  destruct (relation_rows_Ok db db' d m (rel_ovr p t) t 1 l Ht) as [E Hl]; try done.
  { intros k r Hk. apply (Hs t l k r); [constructor | done]. }
  unfold rel_ovr in *. rewrite E. cbn [mbind result_bind]. destruct IH as [-> Hrest].
  { intros t' l' Hin. apply Hc. by constructor. }
  { intros t' l' k r Hin. apply Hs. by constructor. }
  split; [done |]. apply Forall_app. split; [| done]. apply Forall_forall. intros tv Hin. apply list_elem_of_In, in_map_iff in Hin as (v & <- & Hin).
  rewrite Forall_forall in Hl. by apply Hl, list_elem_of_In.
Qed.

Lemma of_type_app t a b : of_type t (a ++ b) = of_type t a ++ of_type t b.
Proof. unfold of_type. by rewrite flat_map_app. Qed.

Lemma of_type_same t l : of_type t (map (fun v => (t, v)) l) = map (stored t) l.
Proof. induction l as [| v l IH]; [done |]. unfold of_type in *. simpl. rewrite decide_True by done. simpl. by f_equal. Qed.

Lemma of_type_other t u l : t <> u -> of_type t (map (fun v => (u, v)) l) = [].
Proof. intros H. induction l as [| v l IH]; [done |]. unfold of_type in *. simpl. by rewrite decide_False by congruence. Qed.

Lemma of_type_pending p m groups t :
  NoDup groups.*1 -> (forall t l, (t, l) ∈ groups -> relation t) ->
  of_type t (pending_of p m groups) = map (stored t) (relation_local m (rel_ovr p t) t 1 (default [] (dict_get t groups))).
Proof.
  induction groups as [| [u l] groups IH]; intros Hn Hr; [done |]. rewrite fmap_cons in Hn. apply NoDup_cons in Hn as [Hu Hn].
  cbn [pending_of flat_map fst snd]. rewrite of_type_app. fold (pending_of p m groups). rewrite IH; [| done |].
  2: { intros t' l' Hin. apply (Hr t' l'). by constructor. }
  cbn [dict_get]. case_decide as E.
  - subst u. rewrite of_type_same.
    rewrite (proj2 (dict_get_None _ _) Hu). simpl. by rewrite app_nil_r.
  - by rewrite of_type_other by congruence.
Qed.

(** *** The whole import *)

(** The rows the import adds, with the final ids. *)
Record delivered (p : plan) (d : inventory) (m : id_map) (db db' : tables) : Prop := {
  delivered_entities : forall t, entity t -> imported p d db db' m t;
  delivered_relations : forall t, relation t -> exists new, rows (tbl db' t) = rows (tbl db t) ++ new /\
    new.*1 = seqZ (next_id (tbl db t)) (Z.of_nat (length new)) /\
    new.*2 = map (stored t) (relation_local m (rel_ovr p t) t 1 (default [] (dict_get t (relationships d))))
}.

Lemma entity_order t : entity t <-> t ∈ ENTITY_ORDER.
Proof.
  split; intros Ht.
  - entity_facts Ht. by apply bool_decide_eq_true in Hord.
  - assert (forallb (fun u => bool_decide (u ∈ ENTITY_FIELDS.*1)) ENTITY_ORDER = true) as H by (vm_compute; reflexivity).
    rewrite forallb_forall in H. by apply list_elem_of_In, H, bool_decide_eq_true in Ht.
Qed.

Lemma unknown_unmapped d m t : well_formed d -> ~ entity t -> all_mapped m d t.
Proof.
  intros Hw Ht j. unfold source_ids. destruct (dict_get t (entities d)) as [l |] eqn:E; [| by intros ?%elem_of_nil].
  destruct Ht. apply dict_get_elem in E. destruct (wf_entities _ Hw t l E) as (fs & Hfs & _). apply dict_get_is_Some. by rewrite Hfs.
Qed.

Lemma import_rows_outcome p d db op :
  sound repr_of db d p -> well_formed d -> distinct_sections d ->
  (forall t l r, (t, l) ∈ relationships d -> r ∈ l -> attachment_complete t r) ->
  outcome (fun x => grown db x.2 /\
      x.1 = Result op (totals fst (map (fun t => (t, announced p t)) ENTITY_ORDER))
              (totals snd (map (fun t => (t, announced p t)) ENTITY_ORDER)) (relationship_counts p) /\
      exists m, delivered p d m db x.2)
    (import_rows repr_of column_ok int_of p d op db).
Proof.
  intros Hs Hw [Hde Hdr] Hc. unfold import_rows.
  assert (forall t l, (t, l) ∈ relationships d -> relation t) as Hrel.
  { intros t l Hin. destruct (wf_relationships _ Hw t l Hin) as (fs & Hfs & _). apply dict_get_is_Some. by rewrite Hfs. }
  assert (Forall entity ENTITY_ORDER) as Hent by (apply Forall_forall; by setoid_rewrite entity_order).
  eapply outcome_bind; [apply (apply_entities_outcome p d db ENTITY_ORDER [] db ∅) |]; try done.
  { apply (bool_decide_unpack _). vm_compute. exact I. }
  { intros u ?%elem_of_nil. done. }
  intros [[db1 m] counts] (Hg1 & Hp1 & Ha1 & Hi1 & Hk1 & ->). cbn [fst snd].
  assert (forall u, all_mapped m d u) as Hall.
  { intros u. destruct (decide (u ∈ ENTITY_FIELDS.*1)) as [Hu | Hu]; [by apply Ha1, entity_order | by apply unknown_unmapped]. }
  destruct (pending_rows_Ok p db db1 d m (relationships d)) as [-> Hl]; try done.
  { intros t l Hin. split; [by eapply Hrel | intros; by eapply Hc]. }
  { intros. by eapply sound_relations. }
  cbn [mbind result_bind]. eapply outcome_bind; [by apply flush_outcome |].
  intros db' [Hg2 Hn]. cbn [fst snd]. split_and!; [by etransitivity | by rewrite (sound_counts _ _ _ _ Hs) |]. exists m. split.
  - intros t Ht. destruct (Hi1 t) as (new & Er & En & Hm); [by apply entity_order |].
    destruct (Hn t) as (new2 & Er2 & _ & Ev2). rewrite of_type_pending in Ev2 by done.
    assert (dict_get t (relationships d) = None) as Ed.
    { destruct (dict_get t (relationships d)) as [l |] eqn:E; [| done]. apply dict_get_elem, Hrel in E. by destruct (sections_disjoint t). }
    rewrite Ed in Ev2. cbn in Ev2. apply fmap_nil_inv in Ev2 as ->. rewrite app_nil_r in Er2.
    unfold imported. exists new. split_and!; [by rewrite <- Er | done | done].
  - intros t Ht. destruct (Hk1 t) as [Et _]; [intros H%entity_order; by destruct (sections_disjoint t)|].
    destruct (Hn t) as (new & Er & En & Ev). rewrite of_type_pending in Ev by done. rewrite Et in Er, En. eauto.
Qed.

(** *** From preview to result *)

Variable parse_datetime : json -> option string.
(** pydantic reads back the [datetime] it dumped. *)
Hypothesis datetime_reread : forall v x, parse_datetime v = Some x -> parse_datetime (JStr x) = Some x.

Definition attachments_complete (d : inventory) : Prop :=
  forall t l r, (t, l) ∈ relationships d -> r ∈ l -> attachment_complete t r.

(** The result reports what the preview announced. *)
Definition as_announced (p : plan) (r : apply_result) : Prop :=
  (forall t, entity t -> dict_get t (created r) = Some (default 0 (dict_get t (creates p))) /\
                         dict_get t (matched r) = Some (default 0 (dict_get t (matches p)))) /\
  relationships_created r = relationship_counts p.

(** The inventory keeps its rows and gains as many as the plan announces. *)
Definition gains (p : plan) (db db' : tables) : Prop :=
  (forall t, entity t -> exists new, rows (tbl db' t) = rows (tbl db t) ++ new /\
     Z.of_nat (length new) = default 0 (dict_get t (creates p))) /\
  (forall t n, (t, n) ∈ relationship_counts p -> exists new, rows (tbl db' t) = rows (tbl db t) ++ new /\
     Z.of_nat (length new) = n).

Lemma totals_announced f p t :
  entity t -> dict_get t (totals f (map (fun t => (t, announced p t)) ENTITY_ORDER)) = Some (f (announced p t)).
Proof. intros Ht. unfold totals. by rewrite dict_get_map_fn, dict_get_map_fn by (done || by apply entity_order). Qed.

Lemma created_rows_length l ms : length l = length ms -> Z.of_nat (length (created_rows l ms)) = count_by is_create ms.
Proof.
  unfold created_rows, count_by. revert ms; induction l as [| r l IH]; intros [| m ms] E; try done. injection E as E.
  cbn [zip zip_with flat_map]. rewrite length_app. specialize (IH ms E). destruct m; simpl; lia.
Qed.

Lemma relation_local_length m ovr t i l : length (relation_local m ovr t i l) = length l.
Proof. revert i; induction l as [| r l IH]; intros i; simpl; [done | by rewrite IH]. Qed.

Lemma delivered_gains p d m db db' :
  sound repr_of db d p -> well_formed d -> distinct_sections d -> delivered p d m db db' -> gains p db db'.
Proof.
  intros Hs Hw [_ Hd] [He Hr]. split.
  - intros t Ht. destruct (He t Ht) as (new & Er & _ & Hm). exists new. split; [done |]. apply Forall2_length in Hm. rewrite <- Hm.
    destruct (dict_get t (entities d)) as [l |] eqn:El; cbn [default id].
    + destruct (sound_types _ _ _ _ Hs t l El) as (ms & -> & Hp & _ & _ & -> & _). cbn [default id].
      apply created_rows_length. by eapply Forall2_length.
    + by destruct (sound_absent _ _ _ _ Hs t El) as (_ & -> & _).
  - intros t n. rewrite (sound_counts _ _ _ _ Hs). intros ([u l] & [= <- <-] & Hin)%list_elem_of_In%in_map_iff.
    apply list_elem_of_In in Hin. destruct (Hr u) as (new & Er & _ & Ev).
    { destruct (wf_relationships _ Hw u l Hin) as (fs & Hfs & _). apply dict_get_is_Some. by rewrite Hfs. }
    exists new. split; [done |]. rewrite <- (length_fmap snd new). rewrite Ev, length_map, relation_local_length.
    by rewrite (elem_dict_get u l (relationships d)).
Qed.

(** Applied in time under a new key, a preview without conflicts is the import
    of its rows, committed or rolled back. *)
Lemma apply_after_preview now_text document d rs actor id now s b s1 key op now' :
  parse_inventory_document (fun _ => None) parse_datetime now_text (inr document) = Ok d ->
  preview_inventory_transfer repr_of parse_datetime now_text document rs actor id now s = (Ok b, s1) ->
  conflicts b = [] -> now' < now + PREVIEW_TTL ->
  (forall o, o ∈ operations s -> (o_actor o, o_key o) <> (actor, key)) ->
  build_import_plan repr_of (inv s) d rs = Ok b /\
  match import_rows repr_of column_ok int_of (the_plan b) d op (inv s) with
  | Ok (r, t) => exists s2, apply_inventory_transfer repr_of column_ok int_of parse_datetime id (plan_digest b) key actor op now' s1 = (Ok r, s2) /\ inv s2 = t
  | Err e => apply_inventory_transfer repr_of column_ok int_of parse_datetime id (plan_digest b) key actor op now' s1 = (Err e, s1)
  end.
Proof.
  intros Hparse Hpre Hc Hnow Hkey. unfold preview_inventory_transfer in Hpre. rewrite Hparse in Hpre.
  destruct (build_import_plan repr_of (inv s) d rs) as [b' | e] eqn:Eb; [| destruct e; done]. injection Hpre as <- <-. split; [done |].
  assert (inventory_digest b' = inventory_fingerprint (inv s) /\ conflict_count (the_plan b') = 0) as [Hdig Hcount].
  { revert Eb Hc. unfold build_import_plan. destruct (resolution_buckets rs); cbn [mbind result_bind]; [| done].
    destruct (plan_entities _ _ _ _); cbn [mbind result_bind]; [| done].
    destruct (plan_relations _ _ _ _ _); cbn [mbind result_bind]; [| done]. intros [= <-]. cbn [conflicts the_plan conflict_count inventory_digest].
    by intros ->. }
  apply parse_shape in Hparse as (data & _ & Hm & _). destruct (model_validate_datetime _ _ _ Hm) as [v Hv].
  unfold apply_inventory_transfer, apply_import, save_preview. cbn [operations previews inv].
  destruct (List.find _ _) as [o |] eqn:Ef.
  { exfalso. apply find_some in Ef as [Hin [Ea%Z.eqb_eq Ek%String.eqb_eq]%andb_true_iff]. apply (Hkey o); [by apply list_elem_of_In | by f_equal]. }
  rewrite lookup_insert_eq. cbn [p_actor p_plan_digest p_expires_at p_status p_result p_document p_plan p_inventory_digest].
  rewrite Z.eqb_refl, String.eqb_refl. cbn [negb]. rewrite (proj2 (Z.leb_gt _ _)) by lia.
  rewrite Hdig, String.eqb_refl, Hcount. cbn [negb Z.eqb]. rewrite model_validate_dump by by eapply datetime_reread.
  destruct (import_rows _ _ _ _ _ _ _) as [[r t] | e]; cbn [mbind result_bind fst snd]; [| done]. by eexists.
Qed.

(** A preview without conflicts applies as announced.  When the operator
    reassigns at most one record of each type and every attachment row holds
    its two references, the apply that follows within the preview's lifetime
    reports exactly the announced counts, and the inventory keeps its rows and
    gains exactly that many; the one thing that can still stop it is the
    database itself, refusing a value for its column type or a relationship
    that exists already, and then nothing changes: no reference is missing, no
    foreign key dangles and no identity is taken. *)
Theorem conflict_free_preview_applies now_text document d rs actor id now s b s1 key op now' :
  parse_inventory_document (fun _ => None) parse_datetime now_text (inr document) = Ok d ->
  distinct_sections d -> attachments_complete d -> lone_reassignments rs ->
  preview_inventory_transfer repr_of parse_datetime now_text document rs actor id now s = (Ok b, s1) ->
  conflicts b = [] -> now' < now + PREVIEW_TTL ->
  (forall o, o ∈ operations s -> (o_actor o, o_key o) <> (actor, key)) ->
  match apply_inventory_transfer repr_of column_ok int_of parse_datetime id (plan_digest b) key actor op now' s1 with
  | (Ok r, s2) => as_announced (the_plan b) r /\ gains (the_plan b) (inv s) (inv s2)
  | (Err DataError, s2) => s2 = s1 /\ exists t w, column_ok t w = false
  | (Err (IntegrityError t), s2) => s2 = s1 /\ relation t
  | (Err _, _) => False
  end.
Proof.
  intros Hparse Hd Hat Hlone Hpre Hc Hnow Hkey.
  destruct (apply_after_preview now_text document d rs actor id now s b s1 key op now') as [Eb Ha]; try done.
  pose proof (free_plan_sound _ _ _ _ _ Hd Hlone Eb Hc) as Hs. apply parse_shape in Hparse as (_ & _ & _ & Hw).
  pose proof (import_rows_outcome (the_plan b) d (inv s) op Hs Hw Hd Hat) as Ho.
  destruct (import_rows _ _ _ _ _ _ _) as [[r db'] | e].
  - destruct Ha as (s2 & -> & <-). cbn [outcome fst snd] in Ho. destruct Ho as (_ & -> & m & Hdel). split; [| by eapply delivered_gains]. split; [| done].
    intros t Ht. cbn [created matched]. by rewrite !totals_announced.
  - rewrite Ha. by destruct e.
Qed.
End Theorems.

(** *** Instances *)

Definition lab_repr (v : json) : string := match v with JStr s => "'" +:+ s +:+ "'" | _ => "?" end.
Definition lab_columns : string -> row -> bool := fun _ _ => true.
Definition lab_int : json -> option Z := fun _ => None.
Definition lab_datetime (v : json) : option string := match v with JStr s => Some s | _ => None end.

Definition lab_tables : tables :=
  {[ "hardware" := Table [(10, stored "hardware" [("name", JStr "docker-01")])] 11;
     "storage" := Table [(4, stored "storage" [("name", JStr "pool"); ("kind", JStr "pool")])] 5;
     "services" := Table [(3, stored "services" [("name", JStr "grafana"); ("slug", JStr "grafana")])] 4;
     "service_storage" := Table [(1, stored "service_storage" [("service_id", JInt 3); ("storage_id", JInt 4)])] 2 ]}.

Definition lab_db : db := Db lab_tables ∅ [].

Definition lab_doc (entities relationships : list (string * list row)) : inventory :=
  Inventory "2026-01-01T00:00:00Z" [] [] entities relationships.

Definition lab_preview (d : inventory) (rs : list resolution) : result error built * db :=
  preview_inventory_transfer lab_repr lab_datetime "now" (JObj (model_dump d)) rs 1 "plan" 0 lab_db.

Definition lab_apply (d : inventory) (rs : list resolution) : result error apply_result :=
  match lab_preview d rs with
  | (Ok b, s) => (apply_inventory_transfer lab_repr lab_columns lab_int lab_datetime "plan" (plan_digest b) "key" 1 "op" 60 s).1
  | (Err e, _) => Err e
  end.

Definition can_apply (d : inventory) (rs : list resolution) : bool :=
  forallb resolution_valid rs && match lab_preview d rs with (Ok b, _) => bool_decide (length (conflicts b) = 0%nat) | _ => false end.

Definition service (id host : Z) (slug : string) : row :=
  [("id", JInt id); ("name", JStr slug); ("slug", JStr slug); ("hardware_id", JInt host)].

Definition bind_host (id : Z) : resolution := Resolution "services" id Reassign (Some 10) None (Some "hardware_id").

(** One service whose host is bound to a local one, another under a new slug,
    a host of the document and a link. *)
Definition mixed_doc : inventory :=
  lab_doc [("services", [service 5 999 "paperless"; service 6 7 "grafana"]); ("hardware", [[("id", JInt 7); ("name", JStr "pve")]])]
    [("service_dependencies", [[("service_id", JInt 5); ("depends_on_id", JInt 6)]])].

Definition mixed_choices : list resolution := [bind_host 5; Resolution "services" 6 Rename None (Some "grafana-lab") None].

Lemma conflict_free_preview_applies_witness :
  can_apply mixed_doc mixed_choices = true /\
  match lab_preview mixed_doc mixed_choices with
  | (Ok b, s1) =>
      match apply_inventory_transfer lab_repr lab_columns lab_int lab_datetime "plan" (plan_digest b) "key" 1 "op" 60 s1 with
      | (Ok r, s2) => as_announced (the_plan b) r /\ gains (the_plan b) (inv lab_db) (inv s2)
      | (Err DataError, s2) => s2 = s1 /\ exists t w, lab_columns t w = false
      | (Err (IntegrityError t), s2) => s2 = s1 /\ relation t
      | (Err _, _) => False
      end
  | _ => False
  end.
Proof.
  split; [vm_compute; reflexivity |].
  destruct (lab_preview mixed_doc mixed_choices) as [[b | e] s1] eqn:E.
  2: { assert (is_ok (lab_preview mixed_doc mixed_choices).1 = true) as H by (vm_compute; reflexivity). by rewrite E in H. }
  apply (conflict_free_preview_applies lab_repr lab_columns lab_int lab_datetime
           (fun _ _ _ => eq_refl)
           "now" (JObj (model_dump mixed_doc)) mixed_doc mixed_choices 1 "plan" 0 lab_db b s1 "key" "op" 60).
  - vm_compute. reflexivity.
  - split; apply (bool_decide_unpack _); vm_compute; exact I.
  - intros t l r Hin Hr Ha. apply list_elem_of_singleton in Hin. by injection Hin as -> ->.
  - intros r r' Hr Hr' Ha Ha' _. apply list_elem_of_In in Hr, Hr'. destruct Hr as [<- | [<- | []]]; [| done].
    by destruct Hr' as [<- | [<- | []]].
  - exact E.
  - assert (match lab_preview mixed_doc mixed_choices with (Ok b, _) => conflicts b = [] | _ => False end) as H by (vm_compute; reflexivity).
    by rewrite E in H.
  - vm_compute. reflexivity.
  - intros o Ho. by apply elem_of_nil in Ho.
Defined.

(** Two records of one type reassigned: the plan keeps the last one only. *)
Definition two_reassigned : inventory := lab_doc [("services", [service 5 999 "paperless"; service 6 998 "immich"])] [].

(** A link between two matched records that the inventory has already. *)
Definition linked_already : inventory :=
  lab_doc [("services", [service 5 1 "grafana"]); ("storage", [[("id", JInt 9); ("name", JStr "pool"); ("kind", JStr "pool")]]);
           ("hardware", [[("id", JInt 1); ("name", JStr "h")]])]
    [("service_storage", [[("service_id", JInt 5); ("storage_id", JInt 9)]])].

(** An attachment without its entity. *)
Definition unattached : inventory :=
  lab_doc [("tags", [[("id", JInt 1); ("name", JStr "prod")]])] [("entity_tags", [[("entity_type", JStr "service"); ("tag_id", JInt 1)]])].

(** Three documents preview without a conflict, with valid decisions,
    and cannot be applied: two records of one type whose references are
    reassigned (the stored plan keeps the overrides of the last record only, so
    the other reference is reported missing), a relationship between two
    matched records that exists already (the database refuses the row), and an
    attachment row without its entity (the field is read without a default). *)
Theorem previews_that_cannot_apply :
  (can_apply two_reassigned [bind_host 5; bind_host 6] = true /\
   lab_apply two_reassigned [bind_host 5; bind_host 6] =
     Err (ValidationError "The transfer contains a relationship to a missing source entity.")) /\
  (can_apply linked_already [Resolution "services" 5 Match (Some 3) None None; Resolution "storage" 9 Match (Some 4) None None] = true /\
   lab_apply linked_already [Resolution "services" 5 Match (Some 3) None None; Resolution "storage" 9 Match (Some 4) None None] =
     Err (IntegrityError "service_storage")) /\
  (can_apply unattached [] = true /\ lab_apply unattached [] = Err (KeyError "entity_id")).
Proof. repeat split; vm_compute; reflexivity. Qed.
End TransferTheorems.
