(* ===== verification/TransferOnce.v ===== *)
(** A transfer takes effect once: replays, retries under another key and
    requests for a finished plan return the stored result. *)
From S2P Require Import Prelude Sha256 Json Canonical TransferFormat TransferPlan TransferApply.
Open Scope Z_scope.

Module TransferOnce.
Import Json Format Plan Apply.
#[local] Opaque Sha256.hexdigest.

Section Once.
Variable repr_of : json -> string.
Variable column_ok : string -> row -> bool.
Variable int_of : json -> option Z.
Variable parse_datetime : json -> option string.

#[local] Abbreviation apply_route := (apply_inventory_transfer repr_of column_ok int_of parse_datetime).
#[local] Abbreviation preview_route := (preview_inventory_transfer repr_of parse_datetime).

(** [uuid4().hex]. *)
Definition hex_id (id : string) : Prop := str_forallb (fun c => negb (Ascii.eqb c ":")) id = true.

(** Requests in any order, by anybody, among other edits of the inventory. *)
Inductive step : db -> db -> Prop :=
| step_preview now_text document rs actor id now s :
    previews s !! id = None -> hex_id id -> step s (preview_route now_text document rs actor id now s).2
| step_apply plan_id digest key actor op now s : step s (apply_route plan_id digest key actor op now s).2
| step_edit t s : step s (Db t (previews s) (operations s)).

Definition reachable (s : db) : Prop := exists t, rtc step (Db t ∅ []) s.

Definition key_of (o : operation) : Z * string := (o_actor o, o_key o).

(** The completed plan behind an operation. *)
Definition recorded (s : db) (o : operation) : Prop :=
  exists p r, previews s !! o_plan o = Some p /\ p_status p = Completed /\ p_result p = Some r /\ o_result o = Some r /\
    o_request o = request_digest (o_plan o) (p_plan_digest p).

Record ledger (s : db) : Prop := {
  ledger_recorded : forall o, o ∈ operations s -> recorded s o;
  ledger_hex : forall id p, previews s !! id = Some p -> hex_id id;
  ledger_plans : NoDup (o_plan <$> operations s);
  ledger_keys : NoDup (key_of <$> operations s)
}.

(** Two given texts with one digest. *)
Definition collide (x y : string) : Prop := x <> y /\ Sha256.hexdigest x = Sha256.hexdigest y.

(** The text [request_digest] hashes. *)
Definition request_text (plan_id digest : string) : string := Canonical.utf8 (plan_id +:+ ":" +:+ digest).

(** The text [stable_digest] hashes, and the one of an inventory. *)
Definition stable_text (v : json) : string := Canonical.text_by dump_str (Canonical.norm v).
Definition fingerprint_text (t : tables) : string := stable_text (JObj (map (fun n => (n, fingerprint_rows t n)) ENTITY_MODELS)).

(** *** Lemmas *)

Lemma request_digest_inj p d p' d' :
  hex_id p -> hex_id p' -> request_digest p d = request_digest p' d' ->
  (p = p' /\ d = d') \/ collide (request_text p d) (request_text p' d').
Proof.
  intros Hp Hp' E. unfold request_digest in E.
  destruct (decide (p +:+ ":" +:+ d = p' +:+ ":" +:+ d')) as [Es | Hne].
  - left. apply (delimited_inj (fun c => Ascii.eqb c ":")) in Es as [-> [= ->]]; done.
  - right. split; [| exact E]. by intros ?%Canonical.utf8_inj.
Qed.

(** What a successful apply does to the state. *)
Lemma apply_import_Ok plan_id digest key actor op now s r s' :
  apply_import repr_of column_ok int_of parse_datetime plan_id digest key actor op now s = Ok (r, s') ->
  s' = s \/
  exists p t, previews s !! plan_id = Some p /\ p_status p = Previewed /\ p_plan_digest p = digest /\
    (forall o, o ∈ operations s -> key_of o <> (actor, key)) /\
    s' = Db t (<[plan_id := Preview (p_actor p) Completed (p_plan_digest p) (p_inventory_digest p) (p_document p) (p_plan p)
                              (p_expires_at p) (Some r)]> (previews s))
           (operations s ++ [Operation op plan_id actor key (request_digest plan_id digest) (Some r)]).
Proof.
  unfold apply_import. destruct (List.find _ _) as [o |] eqn:Ef.
  { destruct (negb _); [done |]. destruct (o_result o); [| done]. intros [= _ ->]. by left. }
  destruct (previews s !! plan_id) as [p |] eqn:Ep; [| done]. destruct (negb (p_actor p =? actor)); [done |].
  destruct (String.eqb_spec (p_plan_digest p) digest) as [Ed |]; cbn [negb]; [| done].
  destruct (p_expires_at p <=? now); [done |]. destruct (p_status p) eqn:Est; try done.
  2: { destruct (p_result p); [| done]. intros [= _ ->]. by left. }
  destruct (negb _); [done |]. destruct (model_validate _ _) as [d |]; [| done]. destruct (negb _); [done |].
  destruct (import_rows _ _ _ _ _ _ _) as [[r' t] |]; cbn [mbind result_bind fst snd]; [| done]. intros [= -> <-].
  right. exists p, t. split_and!; [done | done | done | | done].
  intros o Hin [= Ea Ek]. apply list_elem_of_In, (find_none _ _ Ef) in Hin as H.
  by rewrite Ea, Ek, Z.eqb_refl, String.eqb_refl in H.
Qed.

Lemma ledger_apply plan_id digest key actor op now s :
  ledger s -> ledger (apply_route plan_id digest key actor op now s).2.
Proof.
  intros HL. unfold apply_inventory_transfer. destruct (apply_import _ _ _ _ _ _ _ _ _ _ _) as [[r s'] |] eqn:E; [| done]. cbn [snd].
  apply apply_import_Ok in E as [-> | (p & t & Hp & Hst & Hd & Hk & ->)]; [done |]. destruct HL as [Hr Hh Hpl Hks].
  assert (forall o, o ∈ operations s -> o_plan o <> plan_id) as Hne.
  { intros o Ho E. destruct (Hr o Ho) as (p' & ? & Hp' & Hst' & _). rewrite E in Hp'. congruence. }
  split; cbn [operations previews].
  - intros o [Ho | ->%list_elem_of_singleton]%elem_of_app.
    + destruct (Hr o Ho) as (p' & r' & H). exists p', r'. cbn [previews]. rewrite lookup_insert_ne; [done |].
      intros E. by apply (Hne o Ho).
    + eexists _, r. cbn [previews o_plan o_result o_request]. rewrite lookup_insert_eq. split_and!; [done | done | done | done |].
      cbn [p_plan_digest]. by rewrite Hd.
  - intros id q [[<- _] | [_ H]]%lookup_insert_Some; by eapply Hh.
  - rewrite fmap_app. apply NoDup_app. split_and!; [done | | apply NoDup_singleton].
    intros x (o & -> & Ho)%list_elem_of_fmap [= E]%list_elem_of_singleton. by apply (Hne o Ho).
  - rewrite fmap_app. apply NoDup_app. split_and!; [done | | apply NoDup_singleton].
    intros x (o & -> & Ho)%list_elem_of_fmap E%list_elem_of_singleton. by apply (Hk o Ho).
Qed.

Lemma ledger_step s s' : step s s' -> ledger s -> ledger s'.
Proof.
  destruct 1 as [now_text document rs actor id now s Hid Hhex | | t s]; intros HL; [| by apply ledger_apply | by destruct HL].
  unfold preview_inventory_transfer. destruct (parse_inventory_document _ _ _ _) as [d |]; [| done].
  destruct (build_import_plan _ _ _ _) as [b | []]; try done. destruct HL as [Hr Hh Hpl Hks]. cbn [snd]. unfold save_preview.
  split; cbn [operations previews]; try done.
  - intros o Ho. destruct (Hr o Ho) as (p & r & Hp & H). exists p, r. cbn [previews]. rewrite lookup_insert_ne; [done |]. intros ->. congruence.
  - intros i q [[<- _] | [_ H]]%lookup_insert_Some; [done | by eapply Hh].
Qed.

Lemma reachable_ledger s : reachable s -> ledger s.
Proof.
  intros [t H]. remember (Db t ∅ []) as s0. assert (ledger s0) as H0.
  { subst. split; cbn; [set_solver | done | constructor | constructor]. }
  clear Heqs0. induction H; eauto using ledger_step.
Qed.

Lemma find_key s o : NoDup (key_of <$> operations s) -> o ∈ operations s ->
  List.find (fun o' => (o_actor o' =? o_actor o) && String.eqb (o_key o') (o_key o)) (operations s) = Some o.
Proof.
  intros Hn Ho. destruct (List.find _ _) as [o' |] eqn:E.
  - apply find_some in E as [Hin [Ea%Z.eqb_eq Ek%String.eqb_eq]%andb_true_iff]. f_equal. apply list_elem_of_In in Hin.
    apply list_elem_of_lookup in Hin as [i Hi], Ho as [j Hj].
    assert (i = j) as ->; [| congruence]. apply (NoDup_lookup _ i j (key_of o) Hn); rewrite list_lookup_fmap.
    + rewrite Hi. simpl. unfold key_of. by rewrite Ea, Ek.
    + by rewrite Hj.
  - apply list_elem_of_In in Ho. apply (find_none _ _ E) in Ho. by rewrite Z.eqb_refl, String.eqb_refl in Ho.
Qed.

(** C15: A transfer takes effect once.  After any requests and any
    other edits of the inventory, a plan has at most one operation and an
    idempotency key of an actor at most one; repeating the request of an
    operation returns its stored result at any later time; and no request for
    that plan, under whatever key, digest, actor or time, changes anything
    again or returns another result, unless the text of that request and the
    text of another recorded request are a SHA-256 collision. *)
Theorem transfer_applied_once s :
  reachable s ->
  NoDup (o_plan <$> operations s) /\ NoDup (key_of <$> operations s) /\
  forall o, o ∈ operations s -> exists r p, o_result o = Some r /\ previews s !! o_plan o = Some p /\
    (forall op now, apply_route (o_plan o) (p_plan_digest p) (o_key o) (o_actor o) op now s = (Ok r, s)) /\
    (forall digest key actor op now, let answer := apply_route (o_plan o) digest key actor op now s in
       answer.2 = s /\ forall r', answer.1 = Ok r' -> r' = r \/
         exists o2 p2, o2 ∈ operations s /\ key_of o2 = (actor, key) /\ previews s !! o_plan o2 = Some p2 /\
           collide (request_text (o_plan o2) (p_plan_digest p2)) (request_text (o_plan o) digest)).
Proof.
  intros HL%reachable_ledger. destruct HL as [Hr Hh Hpl Hks]. split_and!; [done | done |].
  intros o Ho. destruct (Hr o Ho) as (p & r & Hp & Hst & Hres & Hor & Hreq). exists r, p. split_and!; [done | done | |].
  - intros op now. unfold apply_inventory_transfer, apply_import. rewrite find_key by done.
    by rewrite Hreq, String.eqb_refl, Hor.
  - intros digest key actor op now. unfold apply_inventory_transfer, apply_import.
    destruct (List.find _ _) as [o2 |] eqn:Ef.
    + apply find_some in Ef as [Hin%list_elem_of_In Hk].
      apply andb_prop in Hk as [Ha%Z.eqb_eq Hky%String.eqb_eq]. assert (key_of o2 = (actor, key)) by (unfold key_of; by rewrite Ha, Hky). destruct (Hr o2 Hin) as (p2 & r2 & Hp2 & _ & Hres2 & Hor2 & Hreq2).
      destruct (String.eqb_spec (o_request o2) (request_digest (o_plan o) digest)) as [E |]; cbn [negb]; [| done].
      rewrite Hor2. split; [done |]. intros r' [= <-]. rewrite Hreq2 in E.
      apply request_digest_inj in E as [[E _] | Hc]; [| right; by exists o2, p2 | by eapply Hh | by eapply Hh].
      left. rewrite E, Hp in Hp2. congruence.
    + rewrite Hp, Hst, Hres. repeat (destruct (negb _); [done |]). destruct (p_expires_at p <=? now); [done |].
      split; [done |]. intros r' [= <-]. by left.
Qed.

(** *** Stale previews *)

(** Identity columns hold texts. *)
Definition text_identities (t : tables) : Prop :=
  forall name f r, dict_get name UNIQUE_FIELDS = Some f -> r ∈ rows (tbl t name) -> field r.2 f = JNull \/ exists v, field r.2 f = JStr v.

(** The ids and identities of a table, in order. *)
Definition identities_of (t : tables) (name : string) : list (Z * option json) :=
  map (fun r => (r.1, (fun f => field r.2 f) <$> dict_get name UNIQUE_FIELDS)) (by_id t name).

Definition row_fingerprint (e : Z * option json) : json := JList (JInt e.1 :: match e.2 with Some v => [v] | None => [] end).

Lemma fingerprint_rows_identities t name : fingerprint_rows t name = JList (map row_fingerprint (identities_of t name)).
Proof.
  unfold fingerprint_rows, identities_of, row_fingerprint. rewrite map_map. f_equal. apply map_ext. intros r. cbn [fst snd].
  by destruct (dict_get name UNIQUE_FIELDS).
Qed.

Lemma row_fingerprint_inj e e' : row_fingerprint e = row_fingerprint e' -> e = e'.
Proof. destruct e as [i [v |]], e' as [j [w |]]; unfold row_fingerprint; cbn; intros [=]; by subst. Qed.

Lemma fingerprint_plain t name : text_identities t ->
  Canonical.norm (fingerprint_rows t name) = fingerprint_rows t name /\ Canonical.no_float (fingerprint_rows t name) = true.
Proof.
  intros Ht. rewrite fingerprint_rows_identities. cbn [Canonical.norm Canonical.no_float]. rewrite map_map.
  assert (forall e, e ∈ identities_of t name -> Canonical.norm (row_fingerprint e) = row_fingerprint e /\ Canonical.no_float (row_fingerprint e) = true) as H.
  { intros e (r & <- & Hr)%list_elem_of_In%in_map_iff. apply list_elem_of_In in Hr. unfold by_id in Hr. rewrite py_sorted_perm in Hr.
    unfold row_fingerprint. cbn [fst snd]. destruct (dict_get name UNIQUE_FIELDS) as [f |] eqn:Ef; [| done]. cbn [fmap option_fmap option_map].
    destruct (Ht name f r Ef Hr) as [-> | [v ->]]; done. }
  split.
  - f_equal. apply map_ext_in. intros e He%list_elem_of_In. by apply H.
  - apply forallb_forall. intros x (e & <- & He%list_elem_of_In)%in_map_iff. by apply H.
Qed.

(** A digest determines the normal form of what it was taken of. *)
Lemma stable_digest_inj v w :
  Canonical.no_float (Canonical.norm v) = true -> Canonical.no_float (Canonical.norm w) = true ->
  stable_digest v = stable_digest w -> Canonical.norm v = Canonical.norm w \/ collide (stable_text v) (stable_text w).
Proof.
  unfold stable_digest, stable_text. generalize (Canonical.norm v) as x, (Canonical.norm w) as y. intros x y Hx Hy E.
  destruct (decide (Canonical.text_by dump_str x = Canonical.text_by dump_str y)) as [Et | Hne].
  - left. destruct (Canonical.text_injective dump_str (fun x => ex_intro _ _ eq_refl) dump_str_tail x Hx
              y ","%char EmptyString ","%char EmptyString) as [Eq _]; [done | done | done | by rewrite Et | done].
  - by right.
Qed.

Lemma tables_normal t names : text_identities t ->
  let sorted := JObj (map (fun n => (n, fingerprint_rows t n)) (py_sorted String.leb names)) in
  Canonical.norm (JObj (map (fun n => (n, fingerprint_rows t n)) names)) = sorted /\ Canonical.no_float sorted = true.
Proof.
  intros Ht. split.
  - rewrite Canonical.norm_obj, (py_sorted_map String.leb Canonical.key_of_le (fun n => (n, fingerprint_rows t n))) by done.
    rewrite map_map. f_equal. apply map_ext. intros n. f_equal. by apply fingerprint_plain.
  - cbn [Canonical.no_float]. apply forallb_forall. intros [n v] (x & [= <- <-] & _)%in_map_iff. by apply fingerprint_plain.
Qed.

Lemma same_fingerprints t t' names name :
  map (fun n => (n, fingerprint_rows t n)) names = map (fun n => (n, fingerprint_rows t' n)) names ->
  name ∈ names -> identities_of t name = identities_of t' name.
Proof.
  intros E Hin. pose proof (map_graph_inj _ _ _ _ E Hin) as Ef.
  rewrite !fingerprint_rows_identities in Ef. injection Ef as Ef. revert Ef.
  assert (Inj eq eq row_fingerprint) by exact row_fingerprint_inj. apply (inj (fmap row_fingerprint)).
Qed.

(** Equal fingerprints, equal ids and identities. *)
Lemma fingerprint_binds t t' :
  text_identities t -> text_identities t' -> inventory_fingerprint t = inventory_fingerprint t' ->
  (forall name, name ∈ ENTITY_MODELS -> identities_of t name = identities_of t' name) \/ collide (fingerprint_text t) (fingerprint_text t').
Proof.
  unfold inventory_fingerprint, fingerprint_text. generalize ENTITY_MODELS as names. intros names Ht Ht' E.
  destruct (tables_normal t names Ht) as [En Hn], (tables_normal t' names Ht') as [En' Hn'].
  apply stable_digest_inj in E as [E | ?]; [| by right | by rewrite En | by rewrite En'].
  left. intros name Hin. rewrite En, En' in E. injection E as E.
  eapply same_fingerprints; [exact E |]. by rewrite py_sorted_perm.
Qed.

(** A preview applies to the inventory it was made for: when an
    apply takes effect, every table has the ids and identities it had when the
    plan was built (unless the two fingerprinted texts collide), nobody else's preview is
    applied, and the plan is the confirmed one, unexpired and without
    conflicts. *)
Theorem stale_preview_refused plan_id digest key actor op now s r s' p then_ :
  apply_import repr_of column_ok int_of parse_datetime plan_id digest key actor op now s = Ok (r, s') -> s' <> s ->
  previews s !! plan_id = Some p -> p_inventory_digest p = inventory_fingerprint then_ ->
  text_identities (inv s) -> text_identities then_ ->
  p_actor p = actor /\ p_plan_digest p = digest /\ now < p_expires_at p /\ conflict_count (p_plan p) = 0 /\
  ((forall name, name ∈ ENTITY_MODELS -> identities_of (inv s) name = identities_of then_ name) \/
   collide (fingerprint_text (inv s)) (fingerprint_text then_)).
Proof.
  unfold apply_import. intros H Hs Hp Hdig Ht Ht'. revert H. destruct (List.find _ _) as [o |].
  { destruct (negb _); [done |]. destruct (o_result o); [| done]. intros [= _ ->]. done. }
  rewrite Hp. destruct (Z.eqb_spec (p_actor p) actor) as [Ea |]; cbn [negb]; [| done].
  destruct (String.eqb_spec (p_plan_digest p) digest) as [Ed |]; cbn [negb]; [| done].
  destruct (Z.leb_spec (p_expires_at p) now) as [| Hex]; [done |]. destruct (p_status p) eqn:Est; try done.
  2: { destruct (p_result p); [| done]. intros [= _ ->]. done. }
  destruct (String.eqb_spec (inventory_fingerprint (inv s)) (p_inventory_digest p)) as [Ef |]; cbn [negb]; [| done].
  destruct (model_validate _ _) as [d |]; [| done]. destruct (Z.eqb_spec (conflict_count (p_plan p)) 0) as [Ec |]; cbn [negb]; [| done].
  intros _. split_and!; try done. apply fingerprint_binds; [done | done | congruence].
Qed.
End Once.

(** *** An instance *)

Definition lab_datetime (v : json) : option string := match v with JStr s => Some s | _ => None end.
Definition lab_empty : db := Db ∅ ∅ [].
Definition lab_document : json :=
  JObj (model_dump (Inventory "2026-01-01T00:00:00Z" [] [] [("hardware", [[("id", JInt 9); ("name", JStr "pve")]])] [])).

Definition lab_previewed : result error built * db :=
  preview_inventory_transfer (fun _ => EmptyString) lab_datetime "now" lab_document [] 1 "plan" 0 lab_empty.

Definition lab_applied : db :=
  (apply_inventory_transfer (fun _ => EmptyString) (fun _ _ => true) (fun _ => None) lab_datetime "plan"
     (match lab_previewed.1 with Ok b => plan_digest b | Err _ => EmptyString end) "key" 1 "op" 60 lab_previewed.2).2.

Lemma transfer_applied_once_witness :
  length (operations lab_applied) = 1%nat /\
  NoDup (o_plan <$> operations lab_applied) /\
  forall o, o ∈ operations lab_applied -> exists r p, o_result o = Some r /\ previews lab_applied !! o_plan o = Some p /\
    forall op now, apply_inventory_transfer (fun _ => EmptyString) (fun _ _ => true) (fun _ => None) lab_datetime
                     (o_plan o) (p_plan_digest p) (o_key o) (o_actor o) op now lab_applied = (Ok r, lab_applied).
Proof.
  split; [vm_compute; reflexivity |].
  destruct (transfer_applied_once (fun _ => EmptyString) (fun _ _ => true) (fun _ => None) lab_datetime lab_applied) as (Hp & _ & Ho).
  { exists ∅. eapply rtc_l; [apply (step_preview _ _ _ _ "now" lab_document [] 1 "plan" 0); [done | reflexivity] |].
    eapply rtc_l; [| apply rtc_refl]. apply step_apply. }
  split; [exact Hp |]. intros o Hin. destruct (Ho o Hin) as (r & p & H1 & H2 & H3 & _). exists r, p. split; [exact H1 |]. split; [exact H2 | exact H3].
Defined.

Lemma empty_identities : text_identities ∅.
Proof. intros name f r _ Hr. unfold tbl in Hr. rewrite lookup_empty in Hr. by apply elem_of_nil in Hr. Qed.

Lemma stale_preview_refused_witness :
  exists p, previews lab_previewed.2 !! "plan" = Some p /\ p_actor p = 1 /\ 60 < p_expires_at p.
Proof.
  destruct (previews lab_previewed.2 !! "plan") as [p |] eqn:Ep; [| vm_compute in Ep; discriminate].
  exists p. split; [done |].
  destruct (apply_import (fun _ => EmptyString) (fun _ _ => true) (fun _ => None) lab_datetime "plan" (p_plan_digest p) "key" 1 "op" 60
              lab_previewed.2) as [[r s'] |] eqn:Ea;
    [| revert Ea; vm_compute in Ep; injection Ep as <-; vm_compute; discriminate].
  destruct (stale_preview_refused (fun _ => EmptyString) (fun _ _ => true) (fun _ => None) lab_datetime "plan" (p_plan_digest p) "key" 1
              "op" 60 lab_previewed.2 r s' p ∅ Ea) as (H1 & _ & H2 & _).
  - intros ->. revert Ea; vm_compute in Ep; injection Ep as <-; vm_compute; discriminate.
  - exact Ep.
  - vm_compute in Ep. injection Ep as <-. vm_compute. reflexivity.
  - assert (inv lab_previewed.2 = ∅) as -> by (vm_compute; reflexivity). exact empty_identities.
  - exact empty_identities.
  - by split.
Defined.
End TransferOnce.
