(* ===== verification/TransferRoundtrip.v ===== *)
(** Export and import are inverse: an exported inventory, imported into an
    installation without one, exports again as the same document with the ids
    renumbered. *)
From S2P Require Import Prelude Sha256 Json Canonical TransferFormat TransferPlan TransferApply TransferTheorems.
Open Scope Z_scope.

Module TransferRoundtrip.
Import Json Format Plan Apply TransferTheorems.

Section Roundtrip.
Variable repr_of : json -> string.
Variable column_ok : string -> row -> bool.
Variable int_of : json -> option Z.

(** *** An import that meets no refused column *)

(** A database that accepts every column. *)
Definition any_column : string -> row -> bool := fun _ _ => true.

Definition portable (t : string) : Prop := entity t \/ relation t.

Definition all_accepted (db : tables) : Prop := forall t r, portable t -> r ∈ rows (tbl db t) -> column_ok t r.2 = true.

Lemma insert_row_Ok c t values db x : insert_row c t values db = Ok x -> x = (next_id (tbl db t), inserted t values db).
Proof. unfold insert_row. destruct (negb _); [done |]. destruct (_ && existsb _ _); [done |]. destruct (negb _); [done |]. by intros [= <-]. Qed.

Lemma insert_accepted t values db db' x :
  portable t -> insert_row any_column t values db = Ok x -> grown x.2 db' -> all_accepted db' -> insert_row column_ok t values db = Ok x.
Proof.
  intros Ht E Hg Ha. pose proof (insert_row_Ok _ _ _ _ _ E) as ->. cbn [snd] in Hg. rewrite <- E. unfold insert_row, any_column.
  assert (column_ok t (stored t values) = true) as ->; [| done].
  apply (Ha t (next_id (tbl db t), stored t values) Ht). destruct (Hg t) as [new ->]. unfold inserted. rewrite tbl_insert_eq. cbn [rows].
  apply elem_of_app. left. apply elem_of_app. right. apply list_elem_of_here.
Qed.

Lemma apply_rows_grown c t ms ovr l s s' : apply_rows c int_of t ms ovr l s = Ok s' -> grown (tabs s) (tabs s').
Proof.
  revert s; induction l as [| r l IH]; intros s; cbn [apply_rows]; [by intros [= ->] |].
  destruct (action_of ms (source_id r)) as [[i j | i ren] |]; [intros H; exact (IH _ H) | | done].
  destruct (remap_held _ _ _ _ _) as [values |]; cbn [mbind result_bind]; [| done].
  destruct (insert_row _ _ _ _) as [x |] eqn:Ei; cbn [mbind result_bind]; [| done]. apply insert_row_Ok in Ei as ->.
  intros H%IH. etransitivity; [apply inserted_grown | exact H].
Qed.

Lemma apply_rows_accepted t ms ovr l s s' :
  entity t -> apply_rows any_column int_of t ms ovr l s = Ok s' -> all_accepted (tabs s') -> apply_rows column_ok int_of t ms ovr l s = Ok s'.
Proof.
  intros Ht. revert s; induction l as [| r l IH]; intros s; cbn [apply_rows]; [done |]. intros H Ha. revert H.
  destruct (action_of ms (source_id r)) as [[i j | i ren] |]; [intros; by apply IH | | done].
  destruct (remap_held _ _ _ _ _) as [values |]; cbn [mbind result_bind]; [| done].
  destruct (insert_row any_column _ _ _) as [x |] eqn:Ei; cbn [mbind result_bind]; [| done]. intros H.
  rewrite (insert_accepted _ _ _ (tabs s') _ (or_introl Ht) Ei); [by apply IH | by apply apply_rows_grown in H | done].
Qed.

Lemma apply_type_grown c p d t db m s : apply_type c int_of p d t db m = Ok s -> grown db (tabs s).
Proof.
  unfold apply_type. destruct (default [] _); [by intros [= <-] |]. destruct (dict_get t (mappings p)); [| done].
  intros H. by apply apply_rows_grown in H.
Qed.

Lemma apply_type_accepted p d t db m s :
  entity t -> apply_type any_column int_of p d t db m = Ok s -> all_accepted (tabs s) -> apply_type column_ok int_of p d t db m = Ok s.
Proof.
  intros Ht. unfold apply_type. destruct (default [] _); [done |]. destruct (dict_get t (mappings p)); [| done].
  by apply apply_rows_accepted.
Qed.

Lemma apply_entities_grown c p d order db m x : apply_entities c int_of p d order db m = Ok x -> grown db x.1.1.
Proof.
  revert db m x; induction order as [| t order IH]; intros db m x; cbn [apply_entities]; [by intros [= <-] |].
  destruct (apply_type _ _ _ _ _ _ _) as [s |] eqn:Es; cbn [mbind result_bind]; [| done].
  destruct (apply_entities _ _ _ _ _ _ _) as [y |] eqn:Ey; cbn [mbind result_bind]; [| done]. intros [= <-]. cbn [fst].
  apply apply_type_grown in Es. apply IH in Ey. by etransitivity.
Qed.

Lemma all_accepted_before db db' : grown db db' -> all_accepted db' -> all_accepted db.
Proof. intros Hg Ha t r Ht Hr. apply (Ha t r Ht). destruct (Hg t) as [new ->]. apply elem_of_app. by left. Qed.

Lemma apply_entities_accepted p d order db m x :
  Forall entity order -> apply_entities any_column int_of p d order db m = Ok x -> all_accepted x.1.1 -> apply_entities column_ok int_of p d order db m = Ok x.
Proof.
  intros Ho. revert db m x; induction Ho as [| t order Ht _ IH]; intros db m x; cbn [apply_entities]; [done |].
  destruct (apply_type any_column _ _ _ _ _ _) as [s |] eqn:Es; cbn [mbind result_bind]; [| done].
  destruct (apply_entities any_column _ _ _ _ _ _) as [y |] eqn:Ey; cbn [mbind result_bind]; [| done]. intros [= <-] Ha. cbn [fst] in Ha.
  rewrite (apply_type_accepted _ _ _ _ _ _ Ht Es) by (eapply all_accepted_before; [by apply apply_entities_grown in Ey | done]).
  cbn [mbind result_bind]. by rewrite (IH _ _ _ Ey).
Qed.

Lemma flush_grown c pending db db' : flush c pending db = Ok db' -> grown db db'.
Proof.
  revert db; induction pending as [| [t v] pending IH]; intros db; cbn [flush]; [by intros [= ->] |].
  destruct (insert_row _ _ _ _) as [x |] eqn:Ei; cbn [mbind result_bind]; [| done]. apply insert_row_Ok in Ei as ->.
  intros H%IH. etransitivity; [apply inserted_grown | exact H].
Qed.

Lemma flush_accepted pending db db' :
  (forall tv, tv ∈ pending -> relation tv.1) -> flush any_column pending db = Ok db' -> all_accepted db' -> flush column_ok pending db = Ok db'.
Proof.
  intros Ht. revert db; induction pending as [| [t v] pending IH]; intros db; cbn [flush]; [done |].
  destruct (insert_row any_column _ _ _) as [x |] eqn:Ei; cbn [mbind result_bind]; [| done]. intros H Ha.
  assert (portable t) as Hp by (right; apply (Ht (t, v)), list_elem_of_here). rewrite (insert_accepted t _ _ db' _ Hp Ei);
    [| by apply flush_grown in H | done]. apply IH; [| done | done]. intros tv Hin. apply Ht. by constructor.
Qed.

Lemma import_rows_accepted p d op db x :
  (forall m pend, pending_rows repr_of int_of p m (relationships d) = Ok pend -> forall tv, tv ∈ pend -> relation tv.1) ->
  import_rows repr_of any_column int_of p d op db = Ok x -> all_accepted x.2 -> import_rows repr_of column_ok int_of p d op db = Ok x.
Proof.
  intros Hrel. unfold import_rows. destruct (apply_entities any_column _ _ _ _ _ _) as [y |] eqn:Ey; cbn [mbind result_bind]; [| done].
  destruct (pending_rows _ _ _ _ _) as [pend |] eqn:Ep; cbn [mbind result_bind]; [| done].
  destruct (flush any_column _ _) as [db' |] eqn:Ef; cbn [mbind result_bind]; [| done]. intros [= <-] Ha. cbn [snd] in Ha.
  rewrite (apply_entities_accepted _ _ _ _ _ _ (proj2 (Forall_forall _ _) (fun t => proj2 (entity_order t))) Ey) by (eapply all_accepted_before; [by apply flush_grown in Ef | done]).
  cbn [mbind result_bind]. rewrite Ep. cbn [mbind result_bind]. by rewrite (flush_accepted _ _ _ (Hrel _ _ Ep) Ef).
Qed.

(** *** The entity phase names only entity types in its refusals *)

Definition entity_error (e : error) : Prop := match e with IntegrityError t => entity t | _ => True end.

Definition raises {A} (r : result error A) : Prop := match r with Ok _ => True | Err e => entity_error e end.

Lemma raises_bind {A B} (r : result error A) (f : A -> result error B) : raises r -> (forall a, raises (f a)) -> raises (r ≫= f).
Proof. destruct r; simpl; auto. Qed.

Lemma remap_raises v t m : raises (remap int_of v t m).
Proof.
  unfold remap. destruct v; [done | ..]; (apply raises_bind; [| intros i; by destruct (m !! (t, i))]); unfold to_int;
    (destruct (as_int _); [done |]); by destruct (int_of _).
Qed.

Lemma remap_held_raises m o refs values : raises (remap_held int_of m o refs values).
Proof.
  revert values; induction refs as [| [f t] refs IH]; intros values; cbn [remap_held]; [done |]. apply raises_bind; [| auto].
  unfold bind_held. destruct (dict_get f values); [| done]. destruct (dict_get f o); [done |].
  apply raises_bind; [apply remap_raises | done].
Qed.

Lemma apply_rows_raises c t ms ovr l s : entity t -> raises (apply_rows c int_of t ms ovr l s).
Proof.
  intros Ht. revert s; induction l as [| r l IH]; intros s; cbn [apply_rows]; [done |].
  destruct (action_of ms (source_id r)) as [[i j | i ren] |]; [apply IH | | done].
  apply raises_bind; [apply remap_held_raises |]. intros values. apply raises_bind; [| intros; apply IH].
  unfold insert_row. by repeat case_match.
Qed.

Lemma apply_entities_raises c p d order db m : Forall entity order -> raises (apply_entities c int_of p d order db m).
Proof.
  intros Ho. revert db m; induction Ho as [| t order Ht _ IH]; intros db m; cbn [apply_entities]; [done |].
  apply raises_bind; [| intros s; apply raises_bind; [apply IH | done]].
  unfold apply_type. destruct (default [] _); [done |]. destruct (dict_get t (mappings p)); [| done]. by apply apply_rows_raises.
Qed.

(** *** Relationships with distinct keys are all taken *)

Definition pending_keys (pending : list (string * row)) : list (string * list (Z + string)) :=
  flat_map (fun tv => match unique_key tv.1 (stored tv.1 tv.2) with Some k => [(tv.1, k)] | None => [] end) pending.

Lemma flush_total pending db :
  Forall (linked db) pending -> NoDup (pending_keys pending) ->
  (forall t k, (t, k) ∈ pending_keys pending -> forall s, s ∈ rows (tbl db t) -> unique_key t s.2 <> Some k) ->
  exists db', flush any_column pending db = Ok db'.
Proof.
  revert db; induction pending as [| [t v] pending IH]; intros db Hl Hn Hf; [by exists db |].
  apply Forall_cons in Hl as [[_ Hfk] Hl]. cbn [pending_keys flat_map fst snd] in *. apply NoDup_app in Hn as (_ & Hx & Hn).
  cbn [flush]. unfold insert_row. rewrite Hfk. cbn [any_column negb].
  destruct (_ && existsb _ _) eqn:Eu.
  { exfalso. apply andb_true_iff in Eu as [[k Hk]%bool_decide_eq_true Hex]. apply existsb_true in Hex as (s & Hs & E%bool_decide_eq_true).
    apply (Hf t k) with s; [| done | congruence]. apply elem_of_app. left. rewrite Hk. apply list_elem_of_here. }
  cbn [mbind result_bind snd]. apply (IH (inserted t v db)).
  - eapply Forall_impl; [exact Hl |]. intros tv. apply linked_grown, inserted_grown.
  - done.
  - intros u k Hk s. unfold inserted. destruct (decide (u = t)) as [-> | Hne].
    + rewrite tbl_insert_eq. cbn [rows]. intros [Hs | ->%list_elem_of_singleton]%elem_of_app.
      * apply (Hf t k); [| done]. apply elem_of_app. by right.
      * cbn [snd]. intros E. apply (Hx (t, k)); [rewrite E; apply list_elem_of_here | done].
    + rewrite tbl_insert_ne by done. apply Hf, elem_of_app. by right.
Qed.

(** *** Inventories the database's constraints admit *)

(** The kind a field of an exported record refers to. *)
Definition reference_of (t : string) (r : row) (f : string) : option string :=
  if bool_decide (t ∈ ENTITY_FIELDS.*1) then
    if String.eqb f "id" then Some t else dict_get f (default [] (dict_get t INTERNAL_REFS))
  else relation_target_of repr_of t r f.

(** Every constraint the schema declares, and three it does not: cluster names
    are distinct, attachments name a portable type and an existing record. *)
Record healthy (db : tables) : Prop := {
  healthy_columns : forall t r, portable t -> r ∈ rows (tbl db t) -> r.2.*1 = columns t /\ column_ok t r.2 = true;
  healthy_ids : forall t, portable t -> NoDup (rows (tbl db t)).*1 /\ forall i, i ∈ (rows (tbl db t)).*1 -> 1 <= i;
  healthy_identity : forall t f r, entity t -> dict_get t UNIQUE_FIELDS = Some f -> r ∈ rows (tbl db t) ->
    field r.2 f = JNull \/ exists v, field r.2 f = JStr v /\ forall s, s ∈ rows (tbl db t) -> field s.2 f = JStr v -> s = r;
  healthy_refs : forall t r f target, portable t -> r ∈ rows (tbl db t) -> (entity t -> f <> "id") -> reference_of t r.2 f = Some target ->
    field r.2 f = JNull \/ exists i, field r.2 f = JInt i /\ present db target i = true;
  healthy_attachments : forall t r, attachment t = true -> r ∈ rows (tbl db t) ->
    exists s, field r.2 "entity_type" = JStr s /\ is_Some (owner_of repr_of r.2);
  healthy_keys : forall t r s k, relation t -> r ∈ rows (tbl db t) -> s ∈ rows (tbl db t) ->
    unique_key t r.2 = Some k -> unique_key t s.2 = Some k -> r = s;
  healthy_size : forall now, records (entities (export_inventory now db)) + records (relationships (export_inventory now db)) <= MAX_RECORDS
}.

(** The record with its ids renumbered by [mu]. *)
Definition relabel (mu : string -> Z -> Z) (t : string) (r : row) : row :=
  map (fun fv => (fv.1, match reference_of t r fv.1, fv.2 with
                        | Some target, JInt i => JInt (mu target i)
                        | _, v => v
                        end)) r.

Definition relabel_groups (mu : string -> Z -> Z) (gs : list (string * list row)) : list (string * list row) :=
  map (fun g => (g.1, map (relabel mu g.1) g.2)) gs.

(** The record with the defaults of its columns in place of nulls. *)
Definition defaulted (t : string) (r : row) : row := map (fun fv => (fv.1, filled t fv.1 fv.2)) r.

Definition default_groups (gs : list (string * list row)) : list (string * list row) :=
  map (fun g => (g.1, map (defaulted g.1) g.2)) gs.

Lemma field_defaulted t r f : column_default t f = JNull -> field (defaulted t r) f = field r f.
Proof.
  intros E. unfold field. induction r as [| [g v] r IH]; [done |]. cbn [defaulted map dict_get fst snd]. case_decide as Eg; [| apply IH].
  subst g. cbn [default id]. by apply filled_plain.
Qed.

Lemma stored_relation_row m o t r : relation t -> stored t (relation_row repr_of int_of m o t r) = defaulted t (relation_row repr_of int_of m o t r).
Proof. intros Ht. unfold relation_row. rewrite stored_relation by done. unfold defaulted. by rewrite map_map. Qed.

(** *** The exported document *)

Lemma relation_not_entity t : relation t -> ~ entity t.
Proof. intros Hr He. by destruct (sections_disjoint t). Qed.

Lemma by_id_elem db t r : r ∈ by_id db t <-> r ∈ rows (tbl db t).
Proof. unfold by_id. by rewrite py_sorted_perm. Qed.

Lemma by_id_ids db t : (by_id db t).*1 ≡ₚ (rows (tbl db t)).*1.
Proof. unfold by_id. by rewrite py_sorted_perm. Qed.

Lemma export_entity_rows db t : entity t -> export_rows db t = map (fun r => ("id", JInt r.1) :: r.2) (by_id db t).
Proof. intros Ht. unfold export_rows. apply dict_get_is_Some in Ht as [fs ->]. done. Qed.

Lemma export_relation_rows db t : relation t -> export_rows db t = map snd (by_id db t).
Proof. intros Ht. unfold export_rows. rewrite (proj2 (dict_get_None t ENTITY_FIELDS)); [done |]. by apply relation_not_entity. Qed.

Lemma export_entities now db t : entity t -> dict_get t (entities (export_inventory now db)) = Some (export_rows db t).
Proof. intros Ht. cbn [export_inventory entities]. by rewrite dict_get_map_fn. Qed.

Lemma export_relations now db t : relation t -> dict_get t (relationships (export_inventory now db)) = Some (export_rows db t).
Proof. intros Ht. cbn [export_inventory relationships]. by rewrite dict_get_map_fn. Qed.

Lemma export_sections now db : distinct_sections (export_inventory now db).
Proof.
  split; apply (bool_decide_unpack _); vm_compute; exact I.
Qed.

Lemma source_id_export i r : source_id (("id", JInt i) :: r) = i.
Proof. done. Qed.

Lemma export_source_ids now db t : entity t -> source_ids (export_inventory now db) t = (by_id db t).*1.
Proof.
  intros Ht. unfold source_ids. rewrite export_entities, export_entity_rows by done. cbn [default id].
  induction (by_id db t) as [| r l IH]; [done |]. cbn [map]. by rewrite !fmap_cons, IH.
Qed.

Lemma columns_allowed t f : entity t -> f ∈ columns t -> exists fs, dict_get t ENTITY_FIELDS = Some fs /\ f ∈ fs.
Proof.
  intros Ht. unfold columns. apply dict_get_is_Some in Ht as [fs Hfs]. rewrite Hfs. intros Hf. exists fs. split; [done |].
  apply list_elem_of_In, filter_In in Hf as [Hf _]. by apply list_elem_of_In.
Qed.

Lemma id_allowed t fs : dict_get t ENTITY_FIELDS = Some fs -> "id" ∈ fs.
Proof.
  intros H%dict_get_elem. assert (forallb (fun g => bool_decide ("id" ∈ g.2)) ENTITY_FIELDS = true) as Hc by (vm_compute; reflexivity).
  rewrite forallb_forall in Hc. apply list_elem_of_In, Hc in H. by apply bool_decide_eq_true in H.
Qed.

Lemma export_entity_elem now db t l : (t, l) ∈ entities (export_inventory now db) -> entity t /\ l = export_rows db t.
Proof. cbn [export_inventory entities]. intros (n & [= -> ->] & Hn)%list_elem_of_In%in_map_iff. split; [by apply list_elem_of_In | done]. Qed.

Lemma export_relation_elem now db t l : (t, l) ∈ relationships (export_inventory now db) -> relation t /\ l = export_rows db t.
Proof. cbn [export_inventory relationships]. intros (n & [= -> ->] & Hn)%list_elem_of_In%in_map_iff. split; [by apply list_elem_of_In | done]. Qed.

Lemma export_entity_row db t r : entity t -> r ∈ export_rows db t -> exists x, x ∈ rows (tbl db t) /\ r = ("id", JInt x.1) :: x.2.
Proof.
  intros Ht. rewrite export_entity_rows by done. intros (x & <- & Hx)%list_elem_of_In%in_map_iff. exists x. split; [| done].
  by apply by_id_elem, list_elem_of_In.
Qed.

Lemma export_relation_row db t r : relation t -> r ∈ export_rows db t -> exists x, x ∈ rows (tbl db t) /\ r = x.2.
Proof.
  intros Ht. rewrite export_relation_rows by done. intros (x & <- & Hx)%list_elem_of_In%in_map_iff. exists x. split; [| done].
  by apply by_id_elem, list_elem_of_In.
Qed.

Lemma export_well_formed now db : healthy db -> well_formed (export_inventory now db).
Proof.
  intros Hh. split.
  - intros t l [Ht ->]%export_entity_elem. pose proof Ht as Ht'. apply dict_get_is_Some in Ht' as [fs Hfs]. exists fs. split; [done |].
    intros r Hr k Hk. apply export_entity_row in Hr as (x & Hx & ->); [| done]. rewrite fmap_cons in Hk.
    apply elem_of_cons in Hk as [-> | Hk]; [by eapply id_allowed |].
    destruct (healthy_columns _ Hh t x) as [E _]; [by left | done |]. rewrite E in Hk.
    destruct (columns_allowed t k Ht Hk) as (fs' & E' & ?). congruence.
  - intros t l [Ht ->]%export_relation_elem. pose proof Ht as Ht'. apply dict_get_is_Some in Ht' as [fs Hfs]. exists fs. split; [done |].
    intros r Hr k Hk. apply export_relation_row in Hr as (x & Hx & ->); [| done].
    destruct (healthy_columns _ Hh t x) as [E _]; [by right | done |]. rewrite E, relation_columns, Hfs in Hk by done. done.
  - intros t l [Ht ->]%export_entity_elem. destruct (healthy_ids _ Hh t) as [Hn Hp]; [by left |]. split.
    + apply Forall_forall. intros r Hr. apply export_entity_row in Hr as (x & Hx & ->); [| done]. exists x.1. split; [done |].
      apply Hp, list_elem_of_fmap. by exists x.
    + pose proof (export_source_ids now db t Ht) as E. unfold source_ids in E.
      rewrite export_entities in E by done. cbn [default id] in E. rewrite E, by_id_ids. done.
  - by apply healthy_size.
Qed.

Lemma export_attachments now db : healthy db -> attachments_complete (export_inventory now db).
Proof.
  intros Hh t l r [Ht ->]%export_relation_elem Hr Ha. apply export_relation_row in Hr as (x & Hx & ->); [| done].
  destruct (healthy_columns _ Hh t x) as [E _]; [by right | done |]. rewrite E, relation_columns by done.
  unfold attachment in Ha. rewrite orb_true_iff, !String.eqb_eq in Ha.
  destruct Ha as [-> | ->]; (split; apply (bool_decide_unpack _); vm_compute; exact I).
Qed.

(** *** Its plan in an installation without an inventory *)

Definition identity_texts (t : string) (l : list row) : list string :=
  match dict_get t UNIQUE_FIELDS with
  | Some f => flat_map (fun r => match field r f with JStr s => [s] | _ => [] end) l
  | None => []
  end.

(** Identities are texts or absent. *)
Definition texts_only (t : string) (l : list row) : Prop :=
  forall f r, dict_get t UNIQUE_FIELDS = Some f -> r ∈ l -> field r f = JNull \/ exists v, field r f = JStr v.

Definition empty_inventory (db : tables) : Prop := forall t, rows (tbl db t) = [].

Definition creations (l : list row) : list mapping := map (fun r => Create (source_id r) None) l.

Lemma plan_rows_fresh db0 t p l :
  empty_inventory db0 -> texts_only t l -> NoDup (identity_texts t l) -> (forall v, v ∈ identity_texts t l -> v ∉ claimed p) ->
  exists p', plan_rows repr_of db0 [] t p l = Ok p' /\ found p' = found p /\ mapped p' = mapped p ++ creations l /\
    reassigned p' = reassigned p.
Proof.
  intros He. assert (forall f v, holders db0 t f v = []) as Hh by (intros f v; unfold holders; by rewrite He).
  revert p; induction l as [| r l IH]; intros p Ht Hn Hc.
  { exists p. split_and!; [done | done | by rewrite app_nil_r | done]. }
  cbn [plan_rows]. change (bucket_of [] t (source_id r)) with (@nil (string * resolution)). cbn [identity_of dict_get length].
  rewrite andb_false_r. cbn [mbind result_bind]. unfold plan_identity. cbn [identity_of dict_get]. unfold identity_texts in *.
  assert (texts_only t l) as Ht' by (intros f r' Hf Hr; apply (Ht f r' Hf); by constructor).
  assert (forall vs, (forall v, v ∈ vs -> v ∈ identity_texts t (r :: l)) ->
    (forall v, v ∈ identity_texts t l -> v ∉ vs) ->
    NoDup (identity_texts t l) -> (forall v, v ∈ identity_texts t l -> v ∉ claimed p) ->
    exists p', plan_rows repr_of db0 [] t (add_mapping (Create (source_id r) None) vs p) l = Ok p' /\ found p' = found p /\
      mapped p' = mapped p ++ creations (r :: l) /\ reassigned p' = reassigned p) as Hgo.
  { intros vs _ Hd Hn' Hc'. destruct (IH (add_mapping (Create (source_id r) None) vs p)) as (p' & E & Ef & Em & Er); [done | done | |].
    - cbn [add_mapping claimed]. intros v Hv [H | H]%elem_of_app; [by apply (Hd v) | by apply (Hc' v)].
    - exists p'. split_and!; [done | done | | done]. rewrite Em. cbn [add_mapping mapped]. by rewrite <- app_assoc. }
  unfold identity_texts in Hgo. destruct (dict_get t UNIQUE_FIELDS) as [f |] eqn:Ef.
  2: { apply Hgo; set_solver. }
  unfold identity_text. cbn [flat_map] in Hn, Hc.
  destruct (Ht f r Ef (list_elem_of_here _ _)) as [E | [v E]]; rewrite E in *; cbn [mbind result_bind].
  - apply Hgo; [by intros v ?%elem_of_nil | by intros v _ ?%elem_of_nil | done | done].
  - rewrite Hh. cbn [take]. apply NoDup_app in Hn as (_ & Hx & Hn). rewrite bool_decide_false by (apply Hc, elem_of_app; left; apply list_elem_of_here).
    apply Hgo; [| | done |].
    + intros w ->%list_elem_of_singleton. cbn [flat_map]. rewrite E. apply list_elem_of_here.
    + intros w Hw ->%list_elem_of_singleton. apply (Hx v); [apply list_elem_of_here | done].
    + intros w Hw. apply Hc, elem_of_app. by right.
Qed.

Lemma plan_entities_fresh db0 groups :
  empty_inventory db0 ->
  (forall t l, (t, l) ∈ groups -> entity t /\ texts_only t l /\ NoDup (identity_texts t l)) ->
  exists ps, plan_entities repr_of db0 [] groups = Ok ps /\
    (forall t p, (t, p) ∈ ps -> found p = [] /\ reassigned p = []) /\
    (forall t, dict_get t (map (fun tp => (tp.1, mapped tp.2)) ps) = creations <$> dict_get t groups).
Proof.
  intros He. induction groups as [| [t l] groups IH]; intros Hg.
  { exists []. split_and!; [done | by intros ? ? ?%elem_of_nil | done]. }
  destruct (Hg t l (list_elem_of_here _ _)) as (Ht & Hx & Hn).
  destruct (plan_rows_fresh db0 t (Progress [] [] 0 0 [] []) l) as (p & Ep & Ef & Em & Er); try done.
  { intros v _ ?%elem_of_nil. done. }
  destruct IH as (ps & Eps & Hf & Hd). { intros t' l' Hin. apply Hg. by constructor. }
  exists ((t, p) :: ps). cbn [plan_entities]. rewrite bool_decide_true, Ep by done. cbn [mbind result_bind]. rewrite Eps.
  split_and!; [done | |].
  - intros t' p' [[= -> ->] | Hin]%elem_of_cons; [done | by eapply Hf].
  - intros t'. cbn [map dict_get fst snd]. case_decide; [by rewrite Em | apply Hd].
Qed.

Lemma require_ref_ok ids owner i f target v o :
  v = JNull \/ (exists j, v = JInt j /\ j ∈ ids target) -> require_ref ids owner i f target v o = [].
Proof.
  unfold require_ref. intros [-> | (j & -> & Hj)]; [done |]. case_bool_decide; [done |]. cbn [as_int]. by rewrite bool_decide_true.
Qed.

Lemma flat_map_nil_intro {A B} (g : A -> list B) l : (forall x, x ∈ l -> g x = []) -> flat_map g l = [].
Proof. induction l as [| x l IH]; intros H; [done |]. cbn [flat_map]. rewrite H, IH; [done | set_solver | constructor]. Qed.

Lemma plan_relations_fresh db0 d groups :
  (forall t l r, (t, l) ∈ groups -> r ∈ l ->
     (attachment t = true -> is_Some (owner_of repr_of r)) /\ (attachment t = false -> is_Some (dict_get t RELATION_REFS)) /\
     forall f target, relation_target_of repr_of t r f = Some target ->
       field r f = JNull \/ exists j, field r f = JInt j /\ j ∈ source_ids d target) ->
  plan_relations repr_of db0 d [] groups = Ok (map (fun g => (g.1, [])) groups, []).
Proof.
  induction groups as [| [t l] groups IH]; intros Hg; [done |]. cbn [plan_relations].
  assert (forall i, plan_relation_rows repr_of db0 d [] t i l = Ok ([], [])) as E.
  { assert (forall r, r ∈ l -> _) as Hl by exact (fun r Hr => Hg t l r (list_elem_of_here _ _) Hr). clear -Hl.
    induction l as [| r l IH]; intros i; [done |]. cbn [plan_relation_rows]. destruct (Hl r (list_elem_of_here _ _)) as (Ha & Hna & Hr).
    assert (plan_relation_row repr_of db0 d [] t i r = Ok ([], [])) as ->.
    { unfold plan_relation_row. change (bucket_of [] t i) with (@nil (string * resolution)). cbn [identity_of dict_get reassign_overrides].
      rewrite bool_decide_false by (intros []; done). cbn [mbind result_bind]. unfold relation_target_of in Hr.
      destruct (attachment t) eqn:Ea.
      - destruct (Ha eq_refl) as [owner Eo]. rewrite Eo in *. pose proof (attached_not_entity t Ea) as Hne.
        rewrite !require_ref_ok; [done | apply Hr; by rewrite Hne, String.eqb_refl | by apply Hr].
      - destruct (Hna eq_refl) as [refs Er]. rewrite Er in *. f_equal. f_equal. unfold require_refs. apply flat_map_nil_intro.
        intros [f target] Hin. apply require_ref_ok, Hr. cbn [mbind option_bind fst]. apply elem_dict_get; [| done].
        eapply schema_nodup; [by right | done]. }
    cbn [mbind result_bind]. rewrite IH by (intros r' Hr'; apply Hl; by constructor).
    by change (bucket_of [] t i) with (@nil (string * resolution)). }
  rewrite E. cbn [mbind result_bind]. rewrite IH by (intros t' l' r Hin; apply Hg; by constructor). done.
Qed.

Lemma override_entries_empty (ovr : list (string * list (Z * overrides))) :
  (forall t rows, (t, rows) ∈ ovr -> rows = []) -> override_entries ovr = [].
Proof.
  intros H. unfold override_entries. rewrite flat_map_nil_intro; [done |]. intros [t rows] Hin. by rewrite (H t rows Hin).
Qed.

Definition relation_schema (t : string) : bool :=
  attachment t || match dict_get t RELATION_REFS with
                  | Some refs => forallb (fun ft => bool_decide (ft.2 ∈ ENTITY_FIELDS.*1)) refs
                  | None => false
                  end.

Lemma relation_schema_ok t : relation t -> relation_schema t = true.
Proof.
  assert (forallb relation_schema RELATIONSHIP_FIELDS.*1 = true) as H by (vm_compute; reflexivity).
  rewrite forallb_forall in H. intros Ht. by apply H, list_elem_of_In.
Qed.

Lemma owner_entity r owner : owner_of repr_of r = Some owner -> entity owner.
Proof.
  intros H%dict_get_elem. assert (forallb (fun e => bool_decide (e.2 ∈ ENTITY_FIELDS.*1)) ATTACHMENT_TYPES = true) as Hc
    by (vm_compute; reflexivity).
  rewrite forallb_forall in Hc. apply list_elem_of_In, Hc in H. by apply bool_decide_eq_true in H.
Qed.

Lemma attached_entity t : attachment t = true -> entity (attached_type t).
Proof.
  unfold attachment. rewrite orb_true_iff, !String.eqb_eq. intros [-> | ->]; apply (bool_decide_unpack _); vm_compute; exact I.
Qed.

Lemma relation_target_entity t r f target : relation t -> relation_target_of repr_of t r f = Some target -> entity target.
Proof.
  intros Ht. apply relation_schema_ok in Ht. unfold relation_schema, relation_target_of in *. destruct (attachment t) eqn:Ea.
  - destruct (String.eqb f "entity_id"); [apply owner_entity |]. destruct (String.eqb f _); [| done]. intros [= <-]. by apply attached_entity.
  - cbn [orb] in Ht. destruct (dict_get t RELATION_REFS) as [refs |]; [| done]. cbn [mbind option_bind]. intros H%dict_get_elem.
    rewrite forallb_forall in Ht. apply list_elem_of_In, Ht in H. by apply bool_decide_eq_true in H.
Qed.

Lemma reference_relation t r f : relation t -> reference_of t r f = relation_target_of repr_of t r f.
Proof. intros Ht. unfold reference_of. rewrite bool_decide_false; [done |]. by apply relation_not_entity. Qed.

Lemma reference_entity t r f : entity t -> f <> "id" -> reference_of t r f = dict_get f (default [] (dict_get t INTERNAL_REFS)).
Proof. intros Ht Hf. unfold reference_of. rewrite bool_decide_true by done. by rewrite (proj2 (String.eqb_neq f "id")). Qed.

Lemma present_source now db t i : entity t -> present db t i = true -> i ∈ source_ids (export_inventory now db) t.
Proof. intros Ht. unfold present. rewrite bool_decide_eq_true, export_source_ids, by_id_ids by done. done. Qed.

Lemma export_relation_refs now db t r f target :
  healthy db -> relation t -> r ∈ rows (tbl db t) -> relation_target_of repr_of t r.2 f = Some target ->
  field r.2 f = JNull \/ exists j, field r.2 f = JInt j /\ j ∈ source_ids (export_inventory now db) target.
Proof.
  intros Hh Ht Hr Ef. pose proof (relation_target_entity _ _ _ _ Ht Ef) as He.
  destruct (healthy_refs _ Hh t r f target) as [? | (i & Hi & Hp)]; [by right | done | | by rewrite reference_relation | by left |].
  - intros Hte. exfalso. by apply (relation_not_entity t).
  - right. exists i. split; [done |]. by apply present_source.
Qed.

Lemma export_entity_refs now db t r f target :
  healthy db -> entity t -> r ∈ rows (tbl db t) -> (f, target) ∈ default [] (dict_get t INTERNAL_REFS) ->
  field r.2 f = JNull \/ exists j, field r.2 f = JInt j /\ j ∈ source_ids (export_inventory now db) target.
Proof.
  intros Hh Ht Hr Hin. destruct (ref_plain t f target Ht Hin) as (_ & Hid & _ & _ & He).
  destruct (healthy_refs _ Hh t r f target) as [? | (i & Hi & Hp)]; [by left | done | done | | by left |].
  - rewrite reference_entity by done. apply elem_dict_get; [apply internal_nodup | done].
  - right. exists i. split; [done |]. by apply present_source.
Qed.

Lemma export_texts db t :
  healthy db -> entity t -> texts_only t (export_rows db t) /\ NoDup (identity_texts t (export_rows db t)).
Proof.
  intros Hh Ht. rewrite export_entity_rows by done. unfold texts_only, identity_texts.
  destruct (dict_get t UNIQUE_FIELDS) as [f |] eqn:Ef; [| split; [done | constructor]].
  assert (f <> "id") as Hf by (destruct (identity_field t f Ht Ef) as (Hc & _); by eapply columns_not_id).
  assert (forall i r, field (("id", JInt i) :: r) f = field r f) as Hfd.
  { intros i r. unfold field. cbn [dict_get]. by rewrite decide_False by congruence. }
  pose proof (fun r => healthy_identity _ Hh t f r Ht Ef) as Hi.
  assert (NoDup (by_id db t)) as Hn.
  { apply (NoDup_fmap_1 fst). rewrite by_id_ids. apply (healthy_ids _ Hh t). by left. }
  setoid_rewrite <- by_id_elem in Hi. revert Hi Hn. generalize (by_id db t) as l. intros l Hi Hn. split.
  - intros f' r [= <-] (x & <- & Hx)%list_elem_of_In%in_map_iff. rewrite Hfd.
    destruct (Hi x) as [? | (v & ? & _)]; [by apply list_elem_of_In | by left | eauto].
  - assert (forall r, r ∈ l -> field r.2 f = JNull \/ exists v, field r.2 f = JStr v /\ forall s, s ∈ l -> field s.2 f = JStr v -> s = r) as Hl.
    { intros r Hr. by apply Hi. }
    clear Hi. induction Hn as [| x l Hx Hn IH]; [constructor |]. cbn [map flat_map]. rewrite Hfd.
    assert (NoDup (flat_map (fun r => match field r f with JStr s => [s] | _ => [] end) (map (fun r => ("id", JInt r.1) :: r.2) l))) as Hrest.
    { apply IH. intros r Hr. destruct (Hl r) as [? | (v & Hv & Hs)]; [by constructor | by left |]. right. exists v.
      split; [done |]. intros s Hs'. apply Hs. by constructor. }
    destruct (Hl x (list_elem_of_here _ _)) as [-> | (v & -> & Hs)]; [done |]. constructor; [| done].
    intros (y & Hy & Hv)%list_elem_of_In%in_flat_map. apply in_map_iff in Hy as (z & <- & Hz%list_elem_of_In). rewrite Hfd in Hv.
    destruct (field z.2 f) eqn:Ez; try done. destruct Hv as [-> | []].
    apply Hx. rewrite <- (Hs z); [done | by constructor | done].
Qed.

(** The exported document plans without a conflict, every record created. *)
Lemma build_fresh now db db0 :
  healthy db -> empty_inventory db0 ->
  exists b, build_import_plan repr_of db0 (export_inventory now db) [] = Ok b /\ conflicts b = [] /\
    (forall t, entity t -> dict_get t (mappings (the_plan b)) = Some (creations (export_rows db t))) /\
    ref_overrides (the_plan b) = [] /\ relation_overrides (the_plan b) = [].
Proof.
  intros Hh He. set (d := export_inventory now db).
  destruct (plan_entities_fresh db0 (entities d) He) as (ps & Eps & Hf & Hm).
  { intros t l [Ht ->]%export_entity_elem. split; [done | by apply export_texts]. }
  assert (plan_relations repr_of db0 d [] (relationships d) = Ok (map (fun g => (g.1, [])) (relationships d), [])) as Erel.
  { apply plan_relations_fresh. intros t l r [Ht ->]%export_relation_elem Hr. apply export_relation_row in Hr as (x & Hx & ->); [| done].
    split_and!; [intros; by edestruct healthy_attachments as (_ & _ & ?) | |].
    - intros Ha. apply relation_schema_ok in Ht. unfold relation_schema in Ht. rewrite Ha in Ht. cbn [orb] in Ht.
      by destruct (dict_get t RELATION_REFS).
    - intros f target Ef. by eapply export_relation_refs. }
  assert (forall ovr, internal_conflicts d ovr = []) as Hint.
  { intros ovr. unfold internal_conflicts. apply flat_map_nil_intro. intros [t refs] Ht. cbn [fst snd].
    assert (dict_get t INTERNAL_REFS = Some refs) as Er.
    { apply elem_dict_get; [apply (bool_decide_unpack _); vm_compute; exact I | done]. }
    destruct (decide (t ∈ ENTITY_FIELDS.*1)) as [Hte |].
    2: { assert (dict_get t (entities d) = None) as ->; [| done]. destruct (dict_get t (entities d)) as [l |] eqn:E; [| done].
         apply dict_get_elem, export_entity_elem in E as [? _]. done. }
    unfold d at 2. rewrite export_entities by done. cbn [default id]. apply flat_map_nil_intro. intros r Hr.
    apply export_entity_row in Hr as (x & Hx & ->); [| done]. apply flat_map_nil_intro. intros [f target] Hin. cbn [fst snd].
    assert ((f, target) ∈ default [] (dict_get t INTERNAL_REFS)) as Hin' by by rewrite Er.
    apply require_ref_ok. destruct (ref_plain t f target Hte Hin') as (_ & Hid & _).
    assert (field (("id", JInt x.1) :: x.2) f = field x.2 f) as -> by (unfold field; cbn [dict_get]; by rewrite decide_False by congruence).
    by eapply export_entity_refs. }
  unfold build_import_plan. cbn [resolution_buckets group_resolutions mbind result_bind existsb]. rewrite Eps. cbn [mbind result_bind].
  rewrite Erel. cbn [mbind result_bind fst snd]. rewrite Hint. eexists. split; [done |].
  cbn [conflicts the_plan mappings ref_overrides relation_overrides]. split_and!.
  - rewrite app_nil_r. apply flat_map_nil_intro. intros [t p] Hin. by destruct (Hf t p Hin).
  - intros t Ht. rewrite Hm. unfold d. by rewrite export_entities.
  - apply override_entries_empty. intros t rows ([t' p] & [= <- <-] & Hin)%list_elem_of_In%in_map_iff. apply list_elem_of_In in Hin.
    by destruct (Hf t' p Hin).
  - apply override_entries_empty. by intros t rows ([t' l] & [= <- <-] & Hin)%list_elem_of_In%in_map_iff.
Qed.

(** *** The renumbering *)

Definition exported (x : Z * row) : row := ("id", JInt x.1) :: x.2.

(** Ids of PostgreSQL's [integer]. *)
Definition int4 (i : Z) : Prop := 1 <= i < 2 ^ 31.

#[local] Instance int4_dec i : Decision (int4 i).
Proof. unfold int4. apply _. Defined.

Definition renumber (m : id_map) (t : string) (i : Z) : Z :=
  match m !! (t, i) with Some j => if decide (int4 j) then j else 1 | None => 1 end.

Lemma renumber_int4 m t i : int4 (renumber m t i).
Proof. unfold renumber. destruct (m !! (t, i)); [case_decide; [done |] |]; unfold int4; lia. Qed.

(** A fresh installation's sequences have room. *)
Definition room (db : tables) : Prop := forall t, 1 <= next_id (tbl db t) /\ next_id (tbl db t) + MAX_RECORDS < 2 ^ 31.

Section Image.
Context (db db0 : tables) (m : id_map) (now : string).
Hypothesis db_healthy : healthy db.
Hypothesis db0_empty : empty_inventory db0.
Hypothesis db0_room : room db0.

(** The rows of [t], inserted in order of id. *)
Definition image (t : string) (new : list (Z * row)) : Prop :=
  new.*1 = seqZ (next_id (tbl db0 t)) (Z.of_nat (length new)) /\
  Forall2 (fun x n => m !! (t, x.1) = Some n.1 /\ n.2 = local_row int_of m [] t None (exported x)) (by_id db t) new.

Hypothesis images : forall t, entity t -> exists new, image t new.

Lemma records_bound g gs : g ∈ gs -> Z.of_nat (length g.2) <= records gs.
Proof.
  assert (forall gs, 0 <= records gs) as Hp by (clear; intros l; induction l as [| x l IH]; cbn [records foldr]; [lia | fold (records l); lia]).
  induction gs as [| x gs IH]; [by intros ?%elem_of_nil |]. cbn [records foldr]. fold (records gs). specialize (Hp gs).
  intros [-> | H]%elem_of_cons; [lia | specialize (IH H); lia].
Qed.

Lemma table_bound t : entity t -> Z.of_nat (length (by_id db t)) <= MAX_RECORDS.
Proof.
  intros Ht. pose proof (healthy_size _ db_healthy now) as Hs.
  assert (0 <= records (relationships (export_inventory now db))).
  { clear. generalize (relationships (export_inventory now db)) as l. intros l; induction l as [| x l IH]; cbn [records foldr]; [lia | fold (records l); lia]. }
  pose proof (export_entities now db t Ht) as E. apply dict_get_elem, records_bound in E. cbn [snd] in E.
  rewrite export_entity_rows, length_map in E by done. lia.
Qed.

Lemma renumber_spec t k x : entity t -> by_id db t !! k = Some x ->
  m !! (t, x.1) = Some (next_id (tbl db0 t) + Z.of_nat k) /\ renumber m t x.1 = next_id (tbl db0 t) + Z.of_nat k.
Proof.
  intros Ht Hk. destruct (images t Ht) as (new & Hi & Hf). pose proof (table_bound t Ht) as Hb.
  pose proof (Forall2_length _ _ _ Hf) as Hl. pose proof (lookup_lt_Some _ _ _ Hk) as Hlt.
  destruct (Forall2_lookup_l _ _ _ _ _ Hf Hk) as (n & Hn & Hm & _).
  assert (n.1 = next_id (tbl db0 t) + Z.of_nat k) as En.
  { assert (new.*1 !! k = Some n.1) as H by (rewrite list_lookup_fmap, Hn; done). rewrite Hi, lookup_seqZ in H. by destruct H as [<- _]. }
  rewrite En in Hm. split; [done |]. unfold renumber. rewrite Hm. rewrite decide_True; [done |].
  destruct (db0_room t). unfold int4. lia.
Qed.

Lemma renumber_inj t i j : entity t -> i ∈ (by_id db t).*1 -> j ∈ (by_id db t).*1 -> renumber m t i = renumber m t j -> i = j.
Proof.
  intros Ht (x & -> & [a Ha]%list_elem_of_lookup)%list_elem_of_fmap (y & -> & [b Hb]%list_elem_of_lookup)%list_elem_of_fmap E.
  destruct (renumber_spec t a x Ht Ha) as [_ Ea], (renumber_spec t b y Ht Hb) as [_ Eb]. assert (a = b) as -> by lia. congruence.
Qed.

(** The value a settled reference gets is its renumbering. *)
Lemma bound_renumber f target v :
  entity target -> v = JNull \/ (exists j, v = JInt j /\ j ∈ source_ids (export_inventory now db) target) ->
  bound_value int_of m [] f target v = match v with JInt i => JInt (renumber m target i) | v => v end.
Proof.
  intros Ht [-> | (j & -> & Hj)]; [done |]. rewrite export_source_ids in Hj by done.
  apply list_elem_of_fmap in Hj as (x & -> & [k Hk]%list_elem_of_lookup). destruct (renumber_spec target k x Ht Hk) as [E1 E2].
  unfold bound_value. cbn [dict_get remap]. unfold to_int. cbn [as_int mbind result_bind]. by rewrite E1, E2.
Qed.

Lemma row_by_keys (r : row) : NoDup r.*1 -> r = map (fun f => (f, field r f)) r.*1.
Proof.
  assert (forall l : row, NoDup r.*1 -> (forall e, e ∈ l -> e ∈ r) -> l = map (fun f => (f, field r f)) l.*1) as H; [| by intros; apply H].
  intros l Hn Hl. induction l as [| [f v] l IH]; [done |]. cbn [map]. rewrite fmap_cons. cbn [map fst]. f_equal.
  - unfold field. by rewrite (elem_dict_get f v r) by (done || apply Hl, list_elem_of_here).
  - apply IH. intros e He. apply Hl. by constructor.
Qed.

Lemma columns_nodup t : portable t -> NoDup (columns t).
Proof.
  assert (forallb (fun t => bool_decide (NoDup (columns t))) (ENTITY_FIELDS.*1 ++ RELATIONSHIP_FIELDS.*1) = true) as H by (vm_compute; reflexivity).
  rewrite forallb_forall in H. intros Ht. apply (bool_decide_eq_true (NoDup (columns t))), H, list_elem_of_In, elem_of_app. exact Ht.
Qed.

Lemma relabel_columns mu t r : NoDup r.*1 ->
  relabel mu t r = map (fun f => (f, match reference_of t r f, field r f with Some target, JInt i => JInt (mu target i) | _, v => v end)) r.*1.
Proof.
  intros Hn. unfold relabel. set (g := fun fv : string * json => _).
  transitivity (map g (map (fun f => (f, field r f)) r.*1)); [by rewrite <- row_by_keys | by rewrite map_map].
Qed.

Lemma entity_relabel t x : entity t -> x ∈ rows (tbl db t) ->
  local_row int_of m [] t None (exported x) = defaulted t (relabel (renumber m) t x.2).
Proof.
  intros Ht Hx. destruct (healthy_columns _ db_healthy t x) as [Ek _]; [by left | done |].
  rewrite relabel_columns by (rewrite Ek; apply columns_nodup; by left). unfold defaulted. rewrite Ek, map_map. unfold local_row. apply map_ext_in.
  intros f Hf%list_elem_of_In. cbn [fst snd]. f_equal. pose proof (columns_not_id t f Ht Hf) as Hid. rewrite reference_entity by done.
  unfold local_field, source_field, exported. f_equal. cbn [dict_get]. rewrite decide_False by congruence.
  assert (is_Some (dict_get f x.2)) as [v Hv] by (apply dict_get_is_Some; by rewrite Ek). unfold field. rewrite Hv. cbn [default id].
  destruct (dict_get f (default [] (dict_get t INTERNAL_REFS))) as [target |] eqn:Er; [| by destruct v].
  apply dict_get_elem in Er. destruct (ref_plain t f target Ht Er) as (_ & _ & _ & _ & Hte).
  pose proof (export_entity_refs now db t x f target db_healthy Ht Hx Er) as Hr. unfold field in Hr. rewrite Hv in Hr.
  rewrite bound_renumber; [by destruct v | done | exact Hr].
Qed.

Lemma relation_relabel t x : relation t -> x ∈ rows (tbl db t) ->
  relation_row repr_of int_of m [] t x.2 = relabel (renumber m) t x.2.
Proof.
  intros Ht Hx. destruct (healthy_columns _ db_healthy t x) as [Ek _]; [by right | done |].
  rewrite relabel_columns by (rewrite Ek; apply columns_nodup; by right). rewrite Ek, relation_columns by done.
  unfold relation_row. apply map_ext. intros f. f_equal. unfold relation_field. rewrite reference_relation by done.
  destruct (relation_target_of repr_of t x.2 f) as [target |] eqn:Er; [| by destruct (field x.2 f)].
  rewrite bound_renumber; [by destruct (field x.2 f) | by eapply relation_target_entity | by eapply export_relation_refs].
Qed.

(** *** Distinct relationships stay distinct *)

Lemma key_columns t f fs : relation t -> dict_get t UNIQUE_KEYS = Some fs -> f ∈ fs -> f ∈ columns t.
Proof.
  assert (forallb (fun t => forallb (fun f => bool_decide (f ∈ columns t)) (default [] (dict_get t UNIQUE_KEYS))) RELATIONSHIP_FIELDS.*1 = true) as H
    by (vm_compute; reflexivity).
  rewrite forallb_forall in H. intros Ht Hfs Hf. apply list_elem_of_In, H in Ht. rewrite Hfs, forallb_forall in Ht.
  by apply list_elem_of_In, Ht, bool_decide_eq_true in Hf.
Qed.

Lemma attachment_key t : attachment t = true -> exists fs, dict_get t UNIQUE_KEYS = Some fs /\ "entity_type" ∈ fs.
Proof.
  unfold attachment. rewrite orb_true_iff, !String.eqb_eq.
  intros [-> | ->]; (eexists; split; [reflexivity | apply (bool_decide_unpack _); vm_compute; exact I]).
Qed.

Lemma relabel_field mu t r f : NoDup r.*1 -> f ∈ r.*1 ->
  field (relabel mu t r) f = match reference_of t r f, field r f with Some target, JInt i => JInt (mu target i) | _, v => v end.
Proof. intros Hn Hf. rewrite relabel_columns by done. unfold field at 1. by rewrite dict_get_map_fn. Qed.

Lemma unique_key_fields t r k : unique_key t r = Some k ->
  exists fs, dict_get t UNIQUE_KEYS = Some fs /\ Forall2 (fun f c => key_column (field r f) = Some c) fs k.
Proof.
  unfold unique_key. destruct (dict_get t UNIQUE_KEYS) as [fs |]; cbn [mbind option_bind]; [| done].
  intros H%mapM_Some. eauto.
Qed.

Lemma unique_key_intro t r fs k : dict_get t UNIQUE_KEYS = Some fs ->
  Forall2 (fun f c => key_column (field r f) = Some c) fs k -> unique_key t r = Some k.
Proof. intros E H. unfold unique_key. rewrite E. cbn [mbind option_bind]. by apply mapM_Some. Qed.

Lemma same_targets t x y f : (attachment t = true -> field x "entity_type" = field y "entity_type") ->
  relation_target_of repr_of t x f = relation_target_of repr_of t y f.
Proof. unfold relation_target_of, owner_of. destruct (attachment t); [| done]. by intros ->. Qed.

Lemma relation_row_fields t x : relation t -> x ∈ rows (tbl db t) -> NoDup x.2.*1 /\ x.2.*1 = columns t.
Proof.
  intros Ht Hx. destruct (healthy_columns _ db_healthy t x) as [E _]; [by right | done |]. rewrite E. split; [| done].
  apply columns_nodup. by right.
Qed.

(** The type column of an attachment's key is not a reference. *)
Lemma attachment_type_kept mu t x : relation t -> attachment t = true -> x ∈ rows (tbl db t) ->
  exists s, field x.2 "entity_type" = JStr s /\ field (relabel mu t x.2) "entity_type" = JStr s.
Proof.
  intros Ht Ha Hx. destruct (healthy_attachments _ db_healthy t x Ha Hx) as (s & Es & _). exists s. split; [done |].
  destruct (relation_row_fields t x Ht Hx) as [Hn Ek]. destruct (attachment_key t Ha) as (fs & Hfs & Hin).
  rewrite relabel_field; [| done | rewrite Ek; by eapply key_columns]. rewrite Es. by destruct (reference_of t x.2 "entity_type").
Qed.

Lemma relabel_key_column t x y f c :
  relation t -> x ∈ rows (tbl db t) -> y ∈ rows (tbl db t) -> f ∈ columns t ->
  (attachment t = true -> field x.2 "entity_type" = field y.2 "entity_type") ->
  key_column (field (relabel (renumber m) t x.2) f) = Some c -> key_column (field (relabel (renumber m) t y.2) f) = Some c ->
  exists c', key_column (field x.2 f) = Some c' /\ key_column (field y.2 f) = Some c'.
Proof.
  intros Ht Hx Hy Hf Hsame. destruct (relation_row_fields t x Ht Hx) as [Hnx Ekx], (relation_row_fields t y Ht Hy) as [Hny Eky].
  rewrite !relabel_field, !reference_relation by (done || by rewrite ?Ekx, ?Eky). rewrite <- (same_targets t x.2 y.2 f Hsame).
  destruct (relation_target_of repr_of t x.2 f) as [target |] eqn:Et; [| eauto].
  pose proof (relation_target_entity t x.2 f target Ht Et) as Hte.
  pose proof (export_relation_refs now db t x f target db_healthy Ht Hx Et) as Hrx.
  assert (relation_target_of repr_of t y.2 f = Some target) as Ety by by rewrite <- (same_targets t x.2 y.2 f Hsame).
  pose proof (export_relation_refs now db t y f target db_healthy Ht Hy Ety) as Hry.
  destruct Hrx as [-> | (i & -> & Hi)]; [done |]. destruct Hry as [-> | (j & -> & Hj)]; [done |].
  rewrite export_source_ids in Hi, Hj by done. cbn [key_column]. intros [= <-] [= E]. apply renumber_inj in E as ->; [| done ..]. eauto.
Qed.

Lemma relabel_key t x y k :
  relation t -> x ∈ rows (tbl db t) -> y ∈ rows (tbl db t) ->
  unique_key t (relabel (renumber m) t x.2) = Some k -> unique_key t (relabel (renumber m) t y.2) = Some k -> x = y.
Proof.
  intros Ht Hx Hy (fs & Hfs & Hkx)%unique_key_fields (fs' & Hfs' & Hky)%unique_key_fields. rewrite Hfs in Hfs'. injection Hfs' as <-.
  assert (attachment t = true -> field x.2 "entity_type" = field y.2 "entity_type") as Hsame.
  { intros Ha. destruct (attachment_key t Ha) as (fs' & Hfs' & Hin). rewrite Hfs in Hfs'. injection Hfs' as <-.
    destruct (attachment_type_kept (renumber m) t x Ht Ha Hx) as (s & -> & Es), (attachment_type_kept (renumber m) t y Ht Ha Hy) as (s' & -> & Es').
    apply list_elem_of_lookup in Hin as [a Hin]. destruct (Forall2_lookup_l _ _ _ _ _ Hkx Hin) as (c & Hc & E).
    destruct (Forall2_lookup_l _ _ _ _ _ Hky Hin) as (c' & Hc' & E'). rewrite Hc in Hc'. injection Hc' as <-.
    rewrite Es in E. rewrite Es' in E'. cbn [key_column] in E, E'. congruence. }
  assert (exists k', Forall2 (fun f c => key_column (field x.2 f) = Some c) fs k' /\ Forall2 (fun f c => key_column (field y.2 f) = Some c) fs k')
    as (k' & H1 & H2).
  { assert (forall f, f ∈ fs -> f ∈ columns t) as Hcol by (intros; by eapply key_columns). clear Hfs. revert k Hkx Hky Hcol.
    induction fs as [| f fs IH]; intros k Hkx Hky Hcol; [by exists []; split; apply Forall2_nil |].
    apply Forall2_cons_inv_l in Hkx as (c & k1 & Hc & Hk1 & ->). apply Forall2_cons in Hky as [Hc' Hk1'].
    destruct (relabel_key_column t x y f c) as (c' & ? & ?); try done; [apply Hcol, list_elem_of_here |].
    destruct (IH k1) as (k' & ? & ?); [done | done | intros g Hg; apply Hcol; by constructor |]. exists (c' :: k'). by split; constructor. }
  apply (healthy_keys _ db_healthy t x y k'); [done | done | done | by eapply unique_key_intro | by eapply unique_key_intro].
Qed.

(** A default is never part of a key. *)
Lemma defaulted_key t r : relation t -> unique_key t (defaulted t r) = unique_key t r.
Proof.
  assert (forallb (fun t => forallb (fun f => is_null (column_default t f)) (default [] (dict_get t UNIQUE_KEYS))) RELATIONSHIP_FIELDS.*1 = true) as H
    by (vm_compute; reflexivity).
  rewrite forallb_forall in H. intros Ht. apply list_elem_of_In, H in Ht. unfold unique_key.
  destruct (dict_get t UNIQUE_KEYS) as [fs |]; cbn [mbind option_bind default id] in *; [| done]. rewrite forallb_forall in Ht.
  assert (forall f, f ∈ fs -> field (defaulted t r) f = field r f) as Hf.
  { intros f Hf%list_elem_of_In%Ht. apply field_defaulted. by destruct (column_default t f). }
  clear Ht. induction fs as [| f fs IH]; [done |]. cbn [mapM]. rewrite Hf by constructor. rewrite IH; [done |]. intros g Hg. apply Hf. by constructor.
Qed.

Lemma nodup_keys {A K} (key : A -> option K) (l : list A) :
  NoDup l -> (forall x y k, x ∈ l -> y ∈ l -> key x = Some k -> key y = Some k -> x = y) ->
  NoDup (flat_map (fun x => match key x with Some k => [k] | None => [] end) l).
Proof.
  induction 1 as [| x l Hx Hn IH]; intros Hk; [constructor |]. cbn [flat_map].
  assert (NoDup (flat_map (fun x => match key x with Some k => [k] | None => [] end) l)) as Hr.
  { apply IH. intros y z k Hy Hz. apply Hk; by constructor. }
  destruct (key x) as [k |] eqn:E; [| done]. constructor; [| done].
  intros (y & Hy & Hin)%list_elem_of_In%in_flat_map. apply list_elem_of_In in Hy. destruct (key y) as [k' |] eqn:E'; [| done].
  destruct Hin as [-> | []]. apply Hx. rewrite (Hk x y k); [done | constructor | by constructor | done | done].
Qed.
End Image.

(** *** The import of the exported document *)

Lemma created_rows_creations l : created_rows l (creations l) = map (fun r => (r, None)) l.
Proof. unfold created_rows, creations. induction l as [| r l IH]; [done |]. cbn [map zip zip_with flat_map snd fst app]. by rewrite <- IH. Qed.

Lemma entity_image p now db db0 db' m t :
  entity t -> empty_inventory db0 -> imported int_of p (export_inventory now db) db0 db' m t ->
  dict_get t (mappings p) = Some (creations (export_rows db t)) -> ref_overrides p = [] ->
  image db db0 m t (rows (tbl db' t)).
Proof.
  intros Ht He (new & Er & Ei & Hf) Hm Ho. rewrite He in Er. cbn [app] in Er. subst new. split; [done |].
  rewrite export_entities, Hm, Ho in Hf by done. cbn [default id dict_get] in Hf.
  rewrite created_rows_creations, export_entity_rows in Hf by done. clear -Hf. revert Hf. generalize (rows (tbl db' t)) as new.
  induction (by_id db t) as [| x l IH]; intros new Hf; cbn [map] in Hf.
  - apply Forall2_nil_inv_l in Hf as ->. apply Forall2_nil_2.
  - apply Forall2_cons_inv_l in Hf as (n & new' & [H1 H2] & Hf & ->). constructor; [done | by apply IH].
Qed.

Lemma pending_types p m groups pend tv : pending_rows repr_of int_of p m groups = Ok pend -> tv ∈ pend -> tv.1 ∈ groups.*1.
Proof.
  revert pend; induction groups as [| [t l] groups IH]; intros pend; cbn [pending_rows]; [by intros [= <-] ?%elem_of_nil |].
  destruct (relation_rows _ _ _ _ _ _ _) as [vs |]; cbn [mbind result_bind]; [| done].
  destruct (pending_rows _ _ _ _ groups) as [rest |]; cbn [mbind result_bind]; [| done]. intros [= <-].
  intros [Hin | Hin]%elem_of_app; rewrite fmap_cons; [| constructor; by eapply IH].
  apply list_elem_of_In, in_map_iff in Hin as (v & <- & _). constructor.
Qed.

Lemma relation_local_plain m t i l : relation_local repr_of int_of m [] t i l = map (relation_row repr_of int_of m [] t) l.
Proof. revert i; induction l as [| r l IH]; intros i; [done |]. cbn [relation_local map dict_get default]. by rewrite IH. Qed.

Lemma pending_keys_app a b : pending_keys (a ++ b) = pending_keys a ++ pending_keys b.
Proof. unfold pending_keys. by rewrite flat_map_app. Qed.

Lemma pending_keys_type t l :
  pending_keys (map (fun v => (t, v)) l) = map (fun k => (t, k)) (flat_map (fun v => match unique_key t (stored t v) with Some k => [k] | None => [] end) l).
Proof.
  induction l as [| v l IH]; [done |]. cbn [map pending_keys flat_map fst snd]. fold (pending_keys (map (fun v => (t, v)) l)).
  rewrite IH. by destruct (unique_key t (stored t v)).
Qed.

Lemma pending_keys_nodup p m groups :
  NoDup groups.*1 -> relation_overrides p = [] ->
  (forall t l, (t, l) ∈ groups -> NoDup (flat_map (fun v => match unique_key t (stored t v) with Some k => [k] | None => [] end)
     (map (relation_row repr_of int_of m [] t) l))) ->
  NoDup (pending_keys (pending_of repr_of int_of p m groups)).
Proof.
  intros Hn Ho. induction groups as [| [t l] groups IH]; intros Hk; [constructor |]. rewrite fmap_cons in Hn. apply NoDup_cons in Hn as [Ht Hn].
  cbn [pending_of flat_map fst snd]. unfold rel_ovr at 1. rewrite Ho. cbn [dict_get default]. rewrite relation_local_plain.
  fold (pending_of repr_of int_of p m groups). rewrite pending_keys_app, pending_keys_type. apply NoDup_app. split_and!.
  - apply (NoDup_fmap_2 (fun k => (t, k))). apply Hk, list_elem_of_here.
  - intros [u k] Hin Hin'. apply list_elem_of_In, in_map_iff in Hin as (k' & [= <- <-] & _).
    apply Ht. cbn [fst]. unfold pending_keys in Hin'. apply list_elem_of_In, in_flat_map in Hin' as ([u' v] & Hv & Hu).
    cbn [fst snd] in Hu. destruct (unique_key u' (stored u' v)); [| done]. destruct Hu as [[= -> _] | []].
    unfold pending_of in Hv. apply in_flat_map in Hv as ([g l'] & Hg & Hv). apply in_map_iff in Hv as (? & [= -> _] & _).
    apply list_elem_of_fmap. exists (t, l'). split; [done | by apply list_elem_of_In].
  - apply IH; [done |]. intros u l' Hin. apply Hk. by constructor.
Qed.

(** The keys of the imported relationships are those of the source. *)
Lemma export_keys_nodup (now : string) db db0 m t :
  healthy db -> room db0 -> (forall t, entity t -> exists new, image db db0 m t new) -> relation t ->
  NoDup (flat_map (fun v => match unique_key t (stored t v) with Some k => [k] | None => [] end)
    (map (relation_row repr_of int_of m [] t) (export_rows db t))).
Proof.
  intros Hh Hroom Him Ht. rewrite export_relation_rows, map_map by done.
  assert (NoDup (by_id db t)) as Hn.
  { apply (NoDup_fmap_1 fst). rewrite by_id_ids. apply (healthy_ids _ Hh t). by right. }
  pose proof (nodup_keys (fun x => unique_key t (relabel (renumber m) t x.2)) (by_id db t) Hn) as Hnk.
  match type of Hnk with _ -> NoDup ?a => match goal with |- NoDup ?b => assert (b = a) as -> end end.
  { assert (forall x, x ∈ by_id db t -> unique_key t (stored t (relation_row repr_of int_of m [] t x.2)) = unique_key t (relabel (renumber m) t x.2)) as Hst.
    { intros x Hx%by_id_elem. rewrite stored_relation_row, defaulted_key by done. f_equal. by eapply (relation_relabel db db0 m now). }
    clear -Hst. induction (by_id db t) as [| x l IH]; [done |]. cbn [map flat_map]. rewrite Hst by constructor. f_equal.
    apply IH. intros y Hy. apply Hst. by constructor. }
  apply Hnk. intros x y k Hx%by_id_elem Hy%by_id_elem. by eapply (relabel_key db db0 m now).
Qed.

(** The entity phase succeeds in an installation without an inventory. *)
Lemma entities_fresh p d db0 :
  sound repr_of db0 d p -> well_formed d ->
  exists db1 m counts, apply_entities any_column int_of p d ENTITY_ORDER db0 ∅ = Ok (db1, m, counts) /\
    grown db0 db1 /\ ids_present m db1 /\ (forall t, all_mapped m d t) /\
    (forall t, entity t -> imported int_of p d db0 db1 m t) /\ (forall t, relation t -> tbl db1 t = tbl db0 t).
Proof.
  intros Hs Hw. assert (Forall entity ENTITY_ORDER) as Hent by (apply Forall_forall; by setoid_rewrite entity_order).
  pose proof (apply_entities_raises any_column p d ENTITY_ORDER db0 ∅ Hent) as Hra.
  pose proof (apply_entities_outcome repr_of any_column int_of p d db0 ENTITY_ORDER [] db0 ∅ Hs Hw) as Ho.
  destruct (apply_entities _ _ _ _ _ _ _) as [[[db1 m] counts] | e]; cbn [outcome raises] in *.
  - destruct Ho as (Hg & Hp & Ha & Hi & Hk & _); try done.
    { apply (bool_decide_unpack _). vm_compute. exact I. }
    { intros u ?%elem_of_nil. done. }
    exists db1, m, counts. split_and!; [done | done | done | | intros; by apply Hi, entity_order |].
    + intros u. destruct (decide (u ∈ ENTITY_FIELDS.*1)) as [Hu | Hu]; [by apply Ha, entity_order | by apply unknown_unmapped].
    + intros t Ht. apply Hk. intros H%entity_order. by destruct (sections_disjoint t).
  - destruct e; exfalso; try (apply Ho; try done; [apply (bool_decide_unpack _); vm_compute; exact I | intros u ?%elem_of_nil; done]).
    + destruct Ho as (? & ? & ?); try done; [apply (bool_decide_unpack _); vm_compute; exact I | intros u ?%elem_of_nil; done].
    + apply (sections_disjoint t); [done |]. apply Ho; try done; [apply (bool_decide_unpack _); vm_compute; exact I | intros u ?%elem_of_nil; done].
Qed.

Lemma import_fresh now db db0 b op :
  healthy db -> empty_inventory db0 -> room db0 ->
  build_import_plan repr_of db0 (export_inventory now db) [] = Ok b -> conflicts b = [] ->
  (forall t, entity t -> dict_get t (mappings (the_plan b)) = Some (creations (export_rows db t))) ->
  ref_overrides (the_plan b) = [] -> relation_overrides (the_plan b) = [] ->
  sound repr_of db0 (export_inventory now db) (the_plan b) /\
  exists x, import_rows repr_of any_column int_of (the_plan b) (export_inventory now db) op db0 = Ok x.
Proof.
  intros Hh He Hroom Eb Hc Hm Hr1 Hr2. set (d := export_inventory now db) in *. set (p := the_plan b) in *.
  pose proof (export_sections now db) as Hd. pose proof (export_well_formed now db Hh) as Hw. pose proof (export_attachments now db Hh) as Hat.
  assert (sound repr_of db0 d p) as Hs.
  { eapply free_plan_sound; [exact Hd | | exact Eb | exact Hc]. intros r r' Hr. by apply elem_of_nil in Hr. }
  split; [done |]. destruct (entities_fresh p d db0 Hs Hw) as (db1 & m & counts & E & Hg & Hp & Hall & Hi & Hk).
  unfold import_rows. rewrite E. cbn [mbind result_bind fst snd].
  assert (forall t l, (t, l) ∈ relationships d -> relation t) as Hrel by by intros t l [? _]%export_relation_elem.
  destruct (pending_rows_Ok repr_of int_of p db0 db1 d m (relationships d)) as [-> Hl]; try done.
  { intros t l Hin. split; [by eapply Hrel | intros; by eapply Hat]. }
  { intros. by eapply sound_relations. }
  cbn [mbind result_bind].
  destruct (flush_total (pending_of repr_of int_of p m (relationships d)) db1) as [db' ->]; [done | | | by eexists].
  - apply pending_keys_nodup; [apply Hd | done |]. intros t l [Ht ->]%export_relation_elem.
    eapply (export_keys_nodup now db db0); [done | done | | done]. intros u Hu. eexists. by eapply entity_image; eauto.
  - intros t k Hin s. assert (relation t) as Ht.
    { unfold pending_keys in Hin. apply list_elem_of_In, in_flat_map in Hin as ([u v] & Hv & Hu). cbn [fst snd] in Hu.
      destruct (unique_key u (stored u v)); [| done]. destruct Hu as [[= -> _] | []].
      rewrite Forall_forall in Hl. by destruct (Hl (t, v)) as [? _]; [apply list_elem_of_In |]. }
    rewrite Hk, He by done. by intros ?%elem_of_nil.
Qed.

(** *** Round trip *)

Lemma seqZ_sorted n l (new : list (Z * row)) : new.*1 = seqZ n l -> StronglySorted (fun r s => (r.1 <=? s.1) = true) new.
Proof.
  intros E. assert (forall i j, (i < j)%nat -> forall x y, new !! i = Some x -> new !! j = Some y -> x.1 < y.1) as H.
  { intros i j Hij x y Hx Hy. assert (new.*1 !! i = Some x.1) as H1 by by rewrite list_lookup_fmap, Hx.
    assert (new.*1 !! j = Some y.1) as H2 by by rewrite list_lookup_fmap, Hy.
    rewrite E, lookup_seqZ in H1, H2. lia. }
  clear E. induction new as [| x new IH]; [constructor |]. constructor.
  - apply IH. intros i j Hij y z Hy Hz. apply (H (S i) (S j)); [lia | done | done].
  - apply Forall_forall. intros y [j Hj]%list_elem_of_lookup. apply Z.leb_le. specialize (H 0%nat (S j) ltac:(lia) x y eq_refl Hj). lia.
Qed.

Lemma export_rows_entity (now : string) db db0 db' m t :
  healthy db -> room db0 -> (forall t, entity t -> exists new, image db db0 m t new) -> entity t -> image db db0 m t (rows (tbl db' t)) ->
  export_rows db' t = map (defaulted t) (map (relabel (renumber m) t) (export_rows db t)).
Proof.
  intros Hh Hroom Him Ht [Hi Hf]. rewrite !export_entity_rows by done. unfold by_id at 1. rewrite (py_sorted_id _ (rows (tbl db' t))) by by eapply seqZ_sorted.
  rewrite !map_map. assert (forall x, x ∈ by_id db t -> x ∈ rows (tbl db t)) as Hin by (intros x; by rewrite by_id_elem).
  assert (forall k x, by_id db t !! k = Some x -> renumber m t x.1 = next_id (tbl db0 t) + Z.of_nat k /\ m !! (t, x.1) = Some (next_id (tbl db0 t) + Z.of_nat k)) as Hk.
  { intros k x Hx. by destruct (renumber_spec db db0 m now Hh Hroom Him t k x Ht Hx). }
  revert Hin Hf Hk. generalize (rows (tbl db' t)) as new. generalize (by_id db t) as l. generalize (next_id (tbl db0 t)) as n0. clear Hi.
  intros n0 l new Hin Hf. revert n0. induction Hf as [| x n l new [Hx1 Hx2] Hf IH]; intros n0 Hk; [done |]. cbn [map]. f_equal.
  - destruct (Hk 0%nat x eq_refl) as [E1 E2]. rewrite Hx2, (entity_relabel db db0 m now) by (done || apply Hin; constructor).
    unfold relabel, defaulted. cbn [map fst snd]. rewrite E2 in Hx1. injection Hx1 as <-. unfold reference_of. rewrite bool_decide_true by done.
    cbn [String.eqb Ascii.eqb Bool.eqb]. by rewrite E1.
  - apply (IH ltac:(intros y Hy; apply Hin; by constructor) (n0 + 1)). intros k y Hy. destruct (Hk (S k) y Hy) as [-> ->].
    split; [lia | f_equal; lia].
Qed.

Lemma export_rows_relation now db db0 db' m p t :
  healthy db -> empty_inventory db0 -> room db0 -> (forall t, entity t -> exists new, image db db0 m t new) -> relation t ->
  delivered repr_of int_of p (export_inventory now db) m db0 db' -> relation_overrides p = [] ->
  export_rows db' t = map (defaulted t) (map (relabel (renumber m) t) (export_rows db t)).
Proof.
  intros Hh He Hroom Him Ht Hd Ho. destruct (delivered_relations _ _ _ _ _ _ _ Hd t Ht) as (new & Er & Ei & Ev).
  rewrite He in Er. cbn [app] in Er. subst new. rewrite !export_relation_rows by done. unfold by_id at 1.
  rewrite (py_sorted_id _ (rows (tbl db' t))) by by eapply seqZ_sorted.
  unfold rel_ovr in Ev. rewrite Ho, export_relations, export_relation_rows in Ev by done. cbn [dict_get default id] in Ev.
  rewrite relation_local_plain in Ev. change (map snd (rows (tbl db' t))) with ((rows (tbl db' t)).*2). rewrite Ev, !map_map.
  apply map_ext_in. intros x Hx%list_elem_of_In%by_id_elem. rewrite stored_relation_row by done. f_equal. by eapply (relation_relabel db db0 m now).
Qed.

(** Column types and [NOT NULL] do not tell one id from another. *)
Hypothesis column_ids : forall mu t r, (forall u i, int4 (mu u i)) -> column_ok t r = true -> column_ok t (relabel mu t r) = true.

(** A default is a value of its column. *)
Hypothesis column_filled : forall t r, column_ok t r = true -> column_ok t (defaulted t r) = true.

(** The database takes the renumbered rows. *)
Lemma fresh_accepted (now : string) db db0 db' m :
  healthy db -> room db0 -> (forall t, entity t -> image db db0 m t (rows (tbl db' t))) ->
  (forall t, portable t -> export_rows db' t = map (defaulted t) (map (relabel (renumber m) t) (export_rows db t))) -> all_accepted db'.
Proof.
  intros Hh Hroom Himg Hexp t w Hpt Hin.
  assert (exists x, x ∈ rows (tbl db t) /\ w.2 = defaulted t (relabel (renumber m) t x.2)) as (x & Hx & ->).
  { destruct Hpt as [Hte | Htr].
    - destruct (Himg t Hte) as [_ Hf]. apply list_elem_of_lookup in Hin as [k Hin].
      destruct (Forall2_lookup_r _ _ _ _ _ Hf Hin) as (x & Hx & _ & Ex). apply list_elem_of_lookup_2, by_id_elem in Hx.
      exists x. split; [done |]. rewrite Ex. eapply (entity_relabel db db0 m now); eauto.
    - assert (w.2 ∈ export_rows db' t) as Hw'.
      { rewrite export_relation_rows by done. apply list_elem_of_In, in_map, list_elem_of_In. by apply by_id_elem. }
      rewrite Hexp in Hw' by by right. rewrite map_map in Hw'. apply list_elem_of_In, in_map_iff in Hw' as (y & <- & Hy).
      apply list_elem_of_In, export_relation_row in Hy as (x & Hx & ->); [| done]. eauto. }
  apply column_filled, column_ids; [apply renumber_int4 |]. by apply (healthy_columns _ Hh t).
Qed.

Variable parse_datetime : json -> option string.
Hypothesis datetime_reread : forall v x, parse_datetime v = Some x -> parse_datetime (JStr x) = Some x.

(** C14: the exported inventory of an installation within its constraints,
    imported into another one that has none, is applied as previewed without a
    conflict and exports again as the same document: every record and every
    relationship of every section, in order and with every field, under one
    injective renumbering of the ids that all references follow; only a null in
    a column with a default comes back as that default. *)
Theorem export_import_roundtrip now db s actor id key op t0 t1 :
  healthy db -> empty_inventory (inv s) -> room (inv s) ->
  parse_datetime (JStr now) = Some now -> t1 < t0 + PREVIEW_TTL ->
  (forall o, o ∈ operations s -> (o_actor o, o_key o) <> (actor, key)) ->
  let document := JObj (model_dump (export_inventory now db)) in
  exists b s1 r s2 mu,
    preview_inventory_transfer repr_of parse_datetime now document [] actor id t0 s = (Ok b, s1) /\ conflicts b = [] /\
    apply_inventory_transfer repr_of column_ok int_of parse_datetime id (plan_digest b) key actor op t1 s1 = (Ok r, s2) /\
    (forall t i j, entity t -> present db t i = true -> present db t j = true -> mu t i = mu t j -> i = j) /\
    entities (export_inventory now (inv s2)) = default_groups (relabel_groups mu (entities (export_inventory now db))) /\
    relationships (export_inventory now (inv s2)) = default_groups (relabel_groups mu (relationships (export_inventory now db))).
Proof.
  intros Hh He Hroom Hnow Ht Hkey document. set (d := export_inventory now db).
  pose proof (export_well_formed now db Hh) as Hw.
  assert (parse_inventory_document (fun _ => None) parse_datetime now (inr document) = Ok d) as Hparse by by apply document_roundtrip.
  destruct (build_fresh now db (inv s) Hh He) as (b & Eb & Hc & Hm & Hr1 & Hr2).
  destruct (import_fresh now db (inv s) b op Hh He Hroom Eb Hc Hm Hr1 Hr2) as (Hs & [r db'] & Ei).
  pose proof (import_rows_outcome repr_of any_column int_of (the_plan b) d (inv s) op Hs Hw (export_sections now db) (export_attachments now db Hh)) as Hout.
  unfold d in Hout. rewrite Ei in Hout. cbn [outcome fst snd] in Hout. destruct Hout as (_ & _ & m & Hdel).
  assert (forall t, entity t -> image db (inv s) m t (rows (tbl db' t))) as Himg.
  { intros t Hte. eapply entity_image; [done | done | by apply (delivered_entities _ _ _ _ _ _ _ Hdel) | by apply Hm | done]. }
  assert (forall t, entity t -> exists new, image db (inv s) m t new) as Him by eauto.
  assert (forall t, portable t -> export_rows db' t = map (defaulted t) (map (relabel (renumber m) t) (export_rows db t))) as Hexp.
  { intros t [Hte | Htr]; [by eapply (export_rows_entity now db (inv s)); eauto | by eapply (export_rows_relation now db (inv s)); eauto]. }
  assert (import_rows repr_of column_ok int_of (the_plan b) d op (inv s) = Ok (r, db')) as Ei'.
  { apply import_rows_accepted; [| exact Ei |].
    - intros m' pend Hp tv Htv. apply (pending_types _ _ _ _ _ Hp) in Htv. apply list_elem_of_fmap in Htv as ([u l] & -> & Hin).
      by apply export_relation_elem in Hin as [? _].
    - by eapply (fresh_accepted now db (inv s)). }
  assert (preview_inventory_transfer repr_of parse_datetime now document [] actor id t0 s = (Ok b, save_preview d b actor id t0 s)) as Hpre.
  { unfold preview_inventory_transfer. rewrite Hparse. unfold d. by rewrite Eb. }
  destruct (apply_after_preview repr_of column_ok int_of parse_datetime datetime_reread now document d [] actor id t0 s b _ key op t1 Hparse Hpre Hc Ht Hkey) as [_ Ha].
  rewrite Ei' in Ha. destruct Ha as (s2 & Happ & Einv).
  exists b, (save_preview d b actor id t0 s), r, s2, (renumber m). split_and!; [done | done | done | | |].
  - intros t i j Hte. unfold present. rewrite !bool_decide_eq_true. intros Hi Hj. apply (renumber_inj db (inv s) m now); try done; by rewrite by_id_ids.
  - rewrite Einv. unfold d. cbn [export_inventory entities]. unfold default_groups, relabel_groups. rewrite !map_map. apply map_ext_in. intros t Hin%list_elem_of_In.
    cbn [fst snd]. f_equal. apply Hexp. by left.
  - rewrite Einv. unfold d. cbn [export_inventory relationships]. unfold default_groups, relabel_groups. rewrite !map_map. apply map_ext_in. intros t Hin%list_elem_of_In.
    cbn [fst snd]. f_equal. apply Hexp. by right.
Qed.
End Roundtrip.

(** *** An instance *)

Definition lab_repr : json -> string := fun _ => EmptyString.
Definition lab_columns : string -> row -> bool := fun _ _ => true.

(** A host whose status was cleared. *)
Definition host : Z * row := (7, dict_set "status" JNull (stored "hardware" [("name", JStr "pve")])).
Definition app : Z * row := (3, stored "services" [("name", JStr "grafana"); ("slug", JStr "grafana"); ("hardware_id", JInt 7)]).
Definition label : Z * row := (2, stored "tags" [("name", JStr "prod")]).
Definition labelled : Z * row :=
  (1, stored "entity_tags" [("entity_type", JStr "service"); ("entity_id", JInt 3); ("tag_id", JInt 2)]).

Definition lab : tables :=
  {[ "hardware" := Table [host] 8; "services" := Table [app] 4; "tags" := Table [label] 3; "entity_tags" := Table [labelled] 2 ]}.

Lemma lab_rows t r : r ∈ rows (tbl lab t) ->
  (t = "hardware" /\ r = host) \/ (t = "services" /\ r = app) \/ (t = "tags" /\ r = label) \/ (t = "entity_tags" /\ r = labelled).
Proof.
  unfold tbl, lab. destruct (decide (t = "hardware")) as [-> |]; [intros ->%list_elem_of_singleton; auto |].
  destruct (decide (t = "services")) as [-> |]; [intros ->%list_elem_of_singleton; auto |].
  destruct (decide (t = "tags")) as [-> |]; [intros ->%list_elem_of_singleton; auto |].
  destruct (decide (t = "entity_tags")) as [-> |]; [intros ->%list_elem_of_singleton; auto 6 |].
  rewrite !lookup_insert_ne, lookup_singleton_ne by done. by intros ?%elem_of_nil.
Qed.

(** The status does not survive the transfer. *)
Example cleared_status : field host.2 "status" = JNull /\ field (defaulted "hardware" host.2) "status" = JStr "unknown".
Proof. split; vm_compute; reflexivity. Qed.

Lemma lab_healthy : healthy lab_repr lab_columns lab.
Proof.
  split.
  - by intros t r _ [[-> ->] | [[-> ->] | [[-> ->] | [-> ->]]]]%lab_rows.
  - intros t _. split.
    + assert (forall x y, x ∈ rows (tbl lab t) -> y ∈ rows (tbl lab t) -> x = y /\ length (rows (tbl lab t)) = 1%nat) as H.
      { intros x y Hx%lab_rows Hy%lab_rows. destruct Hx as [[-> ->] | [[-> ->] | [[-> ->] | [-> ->]]]];
          destruct Hy as [[? ->] | [[? ->] | [[? ->] | [? ->]]]]; try done. }
      destruct (rows (tbl lab t)) as [| x [| y l]]; [constructor | apply NoDup_singleton |].
      assert (length (x :: y :: l) = 1%nat) by (apply (H x x); constructor). done.
    + intros i (r & -> & Hr)%list_elem_of_fmap. by apply lab_rows in Hr as [[-> ->] | [[-> ->] | [[-> ->] | [-> ->]]]].
  - intros t f r _ Hf Hr. assert (forall s, s ∈ rows (tbl lab t) -> s = r) as Hs.
    { intros s Hs%lab_rows. apply lab_rows in Hr. naive_solver. }
    apply lab_rows in Hr as [[-> ->] | [[-> ->] | [[-> ->] | [-> ->]]]]; try done; injection Hf as <-; right; eexists; split; try reflexivity; auto.
  - intros t r f target _ Hr Hid Hf. apply lab_rows in Hr as [[-> ->] | [[-> ->] | [[-> ->] | [-> ->]]]].
    + rewrite reference_entity in Hf; [done | | apply Hid]; apply (bool_decide_unpack _); vm_compute; exact I.
    + rewrite reference_entity in Hf; [| | apply Hid]; try (apply (bool_decide_unpack _); vm_compute; exact I).
      destruct (decide (f = "hardware_id")) as [-> |]; [injection Hf as <-; right; exists 7; split; reflexivity |].
      destruct (decide (f = "compute_id")) as [-> |]; [left; reflexivity |]. by apply dict_get_elem, list_elem_of_In in Hf as [[= <-] | [[= <-] | []]].
    + rewrite reference_entity in Hf; [done | | apply Hid]; apply (bool_decide_unpack _); vm_compute; exact I.
    + rewrite reference_relation in Hf by (apply (bool_decide_unpack _); vm_compute; exact I). unfold relation_target_of in Hf.
      change (attachment "entity_tags") with true in Hf. cbv iota in Hf.
      destruct (String.eqb_spec f "entity_id") as [-> |]; [injection Hf as <-; right; exists 3; split; reflexivity |].
      change (attached_field "entity_tags") with "tag_id" in Hf. destruct (String.eqb_spec f "tag_id") as [-> |]; [| done].
      injection Hf as <-. right. exists 2. split; reflexivity.
  - intros t r Ha [[-> ->] | [[-> ->] | [[-> ->] | [-> ->]]]]%lab_rows; try done. exists "service". split; [reflexivity | by eexists].
  - intros t r s k _ Hr%lab_rows Hs%lab_rows _ _. naive_solver.
  - intros now. vm_compute. discriminate.
Qed.

Lemma export_import_roundtrip_witness :
  exists b s1 r s2 mu,
    preview_inventory_transfer lab_repr (fun v => match v with JStr s => Some s | _ => None end) "now"
      (JObj (model_dump (export_inventory "now" lab))) [] 1 "plan" 0 (Db ∅ ∅ []) = (Ok b, s1) /\ conflicts b = [] /\
    apply_inventory_transfer lab_repr lab_columns (fun _ => None) (fun v => match v with JStr s => Some s | _ => None end)
      "plan" (plan_digest b) "key" 1 "op" 60 s1 = (Ok r, s2) /\
    (forall t i j, entity t -> present lab t i = true -> present lab t j = true -> mu t i = mu t j -> i = j) /\
    entities (export_inventory "now" (inv s2)) = default_groups (relabel_groups lab_repr mu (entities (export_inventory "now" lab))) /\
    relationships (export_inventory "now" (inv s2)) = default_groups (relabel_groups lab_repr mu (relationships (export_inventory "now" lab))).
Proof.
  apply (export_import_roundtrip lab_repr lab_columns (fun _ => None) (fun _ _ _ _ _ => eq_refl) (fun _ _ _ => eq_refl)
           (fun v => match v with JStr s => Some s | _ => None end) (fun _ _ _ => eq_refl) "now" lab (Db ∅ ∅ [])).
  - exact lab_healthy.
  - intros t. done.
  - intros t. vm_compute. split; [discriminate | reflexivity].
  - reflexivity.
  - vm_compute. reflexivity.
  - intros o Ho. by apply elem_of_nil in Ho.
Defined.
End TransferRoundtrip.
