(* ===== verification/Hmac.v ===== *)
(** HMAC-SHA256 and PBKDF2 ([hmac.new], [hashlib.pbkdf2_hmac] of Python's
    standard library) and the salted hashes [core/security.py] stores API tokens
    under.  A [bytes] value is a [string]; text is ASCII, so [encode] is the
    identity. *)
From S2P Require Import Prelude Sha256.
Open Scope Z_scope.

Module Hmac.

Definition bytes_to_string (bs : list Z) : string :=
  string_of_list_ascii (map (fun b => ascii_of_nat (Z.to_nat b)) bs).

(** [hashlib.sha256(s).digest()]. *)
Definition raw_digest (s : string) : string := bytes_to_string (mjoin (Sha256.be_bytes 4 <$> Sha256.digest s)).

Definition xor_pad (pad : Z) (key : string) : string :=
  let k := Sha256.bytes_of_string key in
  bytes_to_string (map (fun b => Z.lxor b pad) (k ++ replicate (64 - length k)%nat 0)).

Definition block_key (key : string) : string :=
  if 64 <? Z.of_nat (String.length key) then raw_digest key else key.

Definition inner (key msg : string) : string := xor_pad 0x36 (block_key key) +:+ msg.
Definition outer (key msg : string) : string := xor_pad 0x5c (block_key key) +:+ raw_digest (inner key msg).

(** [hmac.new(key, msg, sha256).digest()] and [.hexdigest()]. *)
Definition hmac (key msg : string) : string := raw_digest (outer key msg).
Definition hmac_hex (key msg : string) : string := Sha256.hexdigest (outer key msg).

Definition xor_bytes (x y : string) : string :=
  bytes_to_string (zip_with Z.lxor (Sha256.bytes_of_string x) (Sha256.bytes_of_string y)).

(** One output block: [dklen] is the digest's own length everywhere the sources use it. *)
Definition pbkdf2 (password salt : string) (iterations : N) : string :=
  let u1 := hmac password (salt +:+ bytes_to_string [0; 0; 0; 1]) in
  (N.iter (iterations - 1) (fun '(u, acc) => let u' := hmac password u in (u', xor_bytes acc u')) (u1, u1)).2.

(** [b.hex()]. *)
Fixpoint hex (s : string) : string :=
  match s with
  | EmptyString => EmptyString
  | String c s =>
      String (Sha256.hex_digit (code c / 16)) (String (Sha256.hex_digit (code c mod 16)) (hex s))
  end.

Definition hex_value (c : ascii) : option Z :=
  let n := code c in
  if (48 <=? n) && (n <=? 57) then Some (n - 48)
  else if (97 <=? n) && (n <=? 102) then Some (n - 87)
  else if (65 <=? n) && (n <=? 70) then Some (n - 55)
  else None.

(** ASCII whitespace, which [bytes.fromhex] skips between two bytes. *)
Definition ascii_space (c : ascii) : bool := let n := code c in (9 <=? n) && (n <=? 13) || (n =? 32).

(** [bytes.fromhex(s)]; [None] is its [ValueError]. *)
Fixpoint fromhex (s : string) : option string :=
  match s with
  | EmptyString => Some EmptyString
  | String c r =>
      if ascii_space c then fromhex r
      else match r with
           | EmptyString => None
           | String d r =>
               x ← hex_value c; y ← hex_value d; t ← fromhex r;
               Some (String (ascii_of_nat (Z.to_nat (16 * x + y))) t)
           end
  end.

Example hmac_rfc4231_2 :
  hmac_hex "Jefe" "what do ya want for nothing?"
  = "5bdcc146bf60754e6a042426089575c75a003f089d2739839dec58b964ec3843"%string.
Proof. vm_compute. reflexivity. Qed.

Example pbkdf2_two_rounds :
  hex (pbkdf2 "password" "salt" 2) = "ae4d0c95af6b46d32d0adff928f06dd02a303f8ef3c251dfd6e2d85a95474c43"%string.
Proof. vm_compute. reflexivity. Qed.

#[global] Opaque hmac hmac_hex pbkdf2 raw_digest.

(** *** Salted API token hashes *)

Definition create_salted_api_token_hash (salt raw_token : string) : string :=
  hex salt +:+ ":" +:+ hmac_hex salt raw_token.

(** [s.split(":", 1)]. *)
Fixpoint partition_at (d : ascii) (s : string) : option (string * string) :=
  match s with
  | EmptyString => None
  | String c s =>
      if Ascii.eqb c d then Some (EmptyString, s)
      else prod_map (String c) id <$> partition_at d s
  end.

Definition verify_salted_api_token_hash (raw_token stored : string) : bool :=
  match partition_at ":" stored with
  | None => false
  | Some (salt_hex, stored_hmac) =>
      match fromhex salt_hex with
      | None => false
      | Some salt => String.eqb (hmac_hex salt raw_token) stored_hmac
      end
  end.

Definition hex_pair_ok (c : ascii) : bool :=
  bool_decide (hex_value (Sha256.hex_digit (code c / 16)) = Some (code c / 16)) &&
  bool_decide (hex_value (Sha256.hex_digit (code c mod 16)) = Some (code c mod 16)) &&
  negb (ascii_space (Sha256.hex_digit (code c / 16))) &&
  (negb (Ascii.eqb (Sha256.hex_digit (code c / 16)) ":") && negb (Ascii.eqb (Sha256.hex_digit (code c mod 16)) ":")).

Lemma hex_pair_all c : hex_pair_ok c = true.
Proof. apply forall_ascii. vm_compute. reflexivity. Qed.

Lemma hex_pair c :
  hex_value (Sha256.hex_digit (code c / 16)) = Some (code c / 16) /\
  hex_value (Sha256.hex_digit (code c mod 16)) = Some (code c mod 16) /\
  ascii_space (Sha256.hex_digit (code c / 16)) = false.
Proof.
  pose proof (hex_pair_all c) as H. unfold hex_pair_ok in H. rewrite !andb_true_iff in H.
  destruct H as [[[H1 H2] H3%negb_true_iff] _]. by apply bool_decide_eq_true in H1, H2.
Qed.

Lemma fromhex_hex s : fromhex (hex s) = Some s.
Proof.
  induction s as [| c s IH]; [done |]. destruct (hex_pair c) as (H1 & H2 & H3).
  cbn [hex fromhex]. rewrite H3, H1. cbn [mbind option_bind]. rewrite H2. cbn. rewrite IH. cbn.
  rewrite <- Z.div_mod by lia. unfold code. by rewrite Nat2Z.id, ascii_nat_embedding.
Qed.

Lemma hex_no_colon s : str_forallb (fun c => negb (Ascii.eqb c ":")) (hex s) = true.
Proof.
  induction s as [| c s IH]; [done |]. cbn [hex str_forallb]. rewrite IH, andb_true_r.
  pose proof (hex_pair_all c) as H. unfold hex_pair_ok in H. apply andb_true_iff in H as [_ H]. exact H.
Qed.

Lemma partition_at_app d x y : str_forallb (fun c => negb (Ascii.eqb c d)) x = true ->
  partition_at d (x +:+ String d y) = Some (x, y).
Proof.
  induction x as [| c x IH]; cbn [String.append partition_at str_forallb]; [by rewrite Ascii.eqb_refl |].
  intros [Hc%negb_true_iff Hx]%andb_true_iff. by rewrite Hc, IH.
Qed.

(** A raw token is accepted against a stored hash exactly when it has the HMAC
    that was stored, whatever the salt: in particular the token it was made of. *)
Lemma verify_created salt raw other :
  verify_salted_api_token_hash other (create_salted_api_token_hash salt raw)
  = String.eqb (hmac_hex salt other) (hmac_hex salt raw).
Proof.
  unfold verify_salted_api_token_hash, create_salted_api_token_hash.
  change (":" +:+ hmac_hex salt raw) with (String ":" (hmac_hex salt raw)).
  by rewrite partition_at_app, fromhex_hex by apply hex_no_colon.
Qed.

Lemma verify_own salt raw : verify_salted_api_token_hash raw (create_salted_api_token_hash salt raw) = true.
Proof. rewrite verify_created. apply String.eqb_refl. Qed.

End Hmac.
