(* ===== verification/Accounts.v ===== *)
(** Accounts, sessions, invites and API tokens ([db/models/auth.py]) and the
    operations on them of [services/user_service.py], with the credential helpers
    of [core/security.py] and [services/auth_service.py].

    A handler is a value of the monad [M]: it reads and commits the tables, may
    raise, and reports the cache invalidations it sends.  What was committed
    before an exception stays.  Times are microseconds; [draw] is what one
    request takes from the clock and from the random source.  PyJWT, bcrypt and
    pyotp are the operations of the class [Libs]; [LibsLaws] is what the code
    relies on of them. *)
From S2P Require Import Prelude Sha256 Hmac Regex Rbac.
Open Scope Z_scope.

Module Accounts.

Definition seconds (n : Z) : Z := n * 1000000.
Definition minutes (n : Z) : Z := seconds (60 * n).
Definition hours (n : Z) : Z := minutes (60 * n).
Definition days (n : Z) : Z := hours (24 * n).

(** *** Tables *)

Record settings := Settings {
  auth_enabled : bool;
  jwt_secret : option string;
  client_hash_salt : option string;
  session_timeout_hours : Z;
  concurrent_sessions : Z;
  login_lockout_attempts : Z;
  login_lockout_minutes : Z;
  invite_expiry_days : Z;
  registration_open : bool;
  masquerade_enabled : bool;
  bootstrap_token_hash : option string;
  bootstrap_token_expires_at : option Z;
  bootstrap_token_used_at : option Z;
  vault_key : option string;
  vault_key_hash : option string
}.

(** A fresh row: the column defaults. *)
Definition default_settings : settings :=
  Settings false None None 24 5 5 15 7 true true None None None None None.

Record access := Access { role : string; is_admin : bool; is_superuser : bool; scopes : list string }.
Record lockout := Lockout { login_attempts : Z; locked_until : option Z }.
Record second_factor := SecondFactor {
  mfa_enabled : bool;
  totp_secret : option string;
  backup_codes : option (list string)
}.

(** The columns that take part in authentication; [scopes] and [backup_codes]
    are what their JSON columns decode to.  Pictures, language and the gravatar
    address are left out. *)
Record user := User {
  email : string;
  hashed_password : string;
  display_name : option string;
  is_active : bool;
  granted : access;
  lock : lockout;
  factor : second_factor;
  force_password_change : bool;
  demo_expires : option Z;
  invited_by : option Z;
  last_login : option Z
}.

Record session := Session {
  s_id : Z;
  s_user : Z;
  jwt_token_hash : string;
  ip_address : option string;
  user_agent : option string;
  s_created_at : Z;
  s_expires_at : Z;
  revoked : bool
}.

Inductive invite_status := Pending | Accepted | Revoked | Expired.
#[export] Instance invite_status_eq_dec : EqDecision invite_status. Proof. solve_decision. Defined.

Record invite := Invite {
  i_id : Z;
  i_token : string;
  i_email : string;
  i_role : string;
  i_invited_by : Z;
  i_expires : Z;
  i_status : invite_status;
  accepted_at : option Z
}.

Record api_token := ApiToken {
  t_id : Z;
  token_hash : string;
  t_label : option string;
  created_by : Z;
  t_scopes : option (list string);
  t_expires_at : option Z
}.

(** Rows of [sessions], [invites] and [tokens] in the order they were inserted;
    [onboarding] is the wizard's (step, previous step). *)
Record db := Db {
  config : option settings;
  users : gmap Z user;
  next_user : Z;
  sessions : list session;
  next_session : Z;
  invites : list invite;
  next_invite : Z;
  tokens : list api_token;
  next_token : Z;
  onboarding : option (string * string)
}.

(** *** Handlers *)

Inductive error :=
| Http (status : Z) (detail : string)
| RuntimeError (m : string)
| IndexError
| IntegrityError (constraint : string).

(** [invalidate_session_cache(token)], [invalidate_session_cache(None)] and
    [invalidate_token_cache()]. *)
Inductive invalidation := DropToken (raw : string) | DropAll | DropLocal.

Record outcome (A : Type) := Outcome { res : result error A; post : db; sent : list invalidation }.
Arguments Outcome {A} res post sent.
Arguments res {A} o.
Arguments post {A} o.
Arguments sent {A} o.

Definition M (A : Type) : Type := db -> outcome A.

#[export] Instance M_ret : MRet M := fun A a d => Outcome (Ok a) d [].
#[export] Instance M_bind : MBind M := fun A B f m d =>
  match res (m d) with
  | Err e => Outcome (Err e) (post (m d)) (sent (m d))
  | Ok a => let o := f a (post (m d)) in Outcome (res o) (post o) (sent (m d) ++ sent o)
  end.

Definition raise {A} (e : error) : M A := fun d => Outcome (Err e) d [].
Definition gets {A} (f : db -> A) : M A := fun d => Outcome (Ok (f d)) d [].
(** A committed write. *)
Definition modify (f : db -> db) : M unit := fun d => Outcome (Ok tt) (f d) [].
Definition send (i : invalidation) : M unit := fun d => Outcome (Ok tt) d [i].
Definition guarded (b : bool) (e : error) : M unit := if b then mret tt else raise e.
Definition lift {A} (r : result error A) : M A := match r with Ok a => mret a | Err e => raise e end.
Definition unless {A} (o : option A) (e : error) : M A := match o with Some a => mret a | None => raise e end.
Definition when (b : bool) (m : M unit) : M unit := if b then m else mret tt.

(** What one request draws from the clock and the random source. *)
Record draw := Draw {
  now : Z;
  fresh_secret : string;
  fresh_token : string;
  salt_of : nat -> string;
  fresh_codes : list string;
  fresh_password : string;
  fresh_salt : string;
  jti : string
}.

(** The request object: the Authorization header, the session cookie, and what
    the connection says about its peer. *)
Record request := Request {
  authorization : string;
  cookie : option string;
  client_host : option string;
  agent_header : option string
}.

(** *** Table updates *)

Definition with_config (c : settings) (d : db) : db :=
  Db (Some c) (users d) (next_user d) (sessions d) (next_session d) (invites d) (next_invite d) (tokens d) (next_token d) (onboarding d).
Definition with_users (m : gmap Z user) (d : db) : db :=
  Db (config d) m (next_user d) (sessions d) (next_session d) (invites d) (next_invite d) (tokens d) (next_token d) (onboarding d).
Definition with_sessions (l : list session) (d : db) : db :=
  Db (config d) (users d) (next_user d) l (next_session d) (invites d) (next_invite d) (tokens d) (next_token d) (onboarding d).
Definition with_invites (l : list invite) (d : db) : db :=
  Db (config d) (users d) (next_user d) (sessions d) (next_session d) l (next_invite d) (tokens d) (next_token d) (onboarding d).
Definition with_tokens (l : list api_token) (d : db) : db :=
  Db (config d) (users d) (next_user d) (sessions d) (next_session d) (invites d) (next_invite d) l (next_token d) (onboarding d).
Definition with_onboarding (o : string * string) (d : db) : db :=
  Db (config d) (users d) (next_user d) (sessions d) (next_session d) (invites d) (next_invite d) (tokens d) (next_token d) (Some o).

Definition set_config (f : settings -> settings) (d : db) : db :=
  match config d with Some c => with_config (f c) d | None => d end.

Definition set_user (i : Z) (f : user -> user) (d : db) : db := with_users (alter f i (users d)) d.

Definition add_user (u : user) (d : db) : db :=
  Db (config d) (<[next_user d := u]> (users d)) (next_user d + 1) (sessions d) (next_session d) (invites d) (next_invite d)
     (tokens d) (next_token d) (onboarding d).

(** Deleting users, with the rows the foreign keys cascade to. *)
Definition drop_users (gone : Z -> bool) (d : db) : db :=
  Db (config d) (filter (fun p => gone p.1 = false) (users d)) (next_user d)
     (List.filter (fun s => negb (gone (s_user s))) (sessions d)) (next_session d)
     (List.filter (fun i => negb (gone (i_invited_by i))) (invites d)) (next_invite d)
     (List.filter (fun t => negb (gone (created_by t))) (tokens d)) (next_token d) (onboarding d).

Definition revoke (s : session) : session :=
  Session (s_id s) (s_user s) (jwt_token_hash s) (ip_address s) (user_agent s) (s_created_at s) (s_expires_at s) true.

Definition revoke_where (p : session -> bool) (d : db) : db :=
  with_sessions (map (fun s => if p s then revoke s else s) (sessions d)) d.

Definition add_session (s : Z -> session) (d : db) : db :=
  Db (config d) (users d) (next_user d) (sessions d ++ [s (next_session d)]) (next_session d + 1) (invites d) (next_invite d)
     (tokens d) (next_token d) (onboarding d).

Definition add_invite (i : Z -> invite) (d : db) : db :=
  Db (config d) (users d) (next_user d) (sessions d) (next_session d) (invites d ++ [i (next_invite d)]) (next_invite d + 1)
     (tokens d) (next_token d) (onboarding d).

Definition set_invite (i : Z) (f : invite -> invite) (d : db) : db :=
  with_invites (map (fun x => if i_id x =? i then f x else x) (invites d)) d.

Definition add_token (t : Z -> api_token) (d : db) : db :=
  Db (config d) (users d) (next_user d) (sessions d) (next_session d) (invites d) (next_invite d)
     (tokens d ++ [t (next_token d)]) (next_token d + 1) (onboarding d).

Definition drop_token (i : Z) (d : db) : db :=
  with_tokens (List.filter (fun t => negb (t_id t =? i)) (tokens d)) d.

(** Columns of one user. *)
Definition with_password (h : string) (u : user) : user :=
  User (email u) h (display_name u) (is_active u) (granted u) (lock u) (factor u) (force_password_change u) (demo_expires u)
       (invited_by u) (last_login u).
Definition with_name (n : option string) (u : user) : user :=
  User (email u) (hashed_password u) n (is_active u) (granted u) (lock u) (factor u) (force_password_change u) (demo_expires u)
       (invited_by u) (last_login u).
Definition with_active (b : bool) (u : user) : user :=
  User (email u) (hashed_password u) (display_name u) b (granted u) (lock u) (factor u) (force_password_change u) (demo_expires u)
       (invited_by u) (last_login u).
Definition with_granted (a : access) (u : user) : user :=
  User (email u) (hashed_password u) (display_name u) (is_active u) a (lock u) (factor u) (force_password_change u) (demo_expires u)
       (invited_by u) (last_login u).
Definition with_lock (l : lockout) (u : user) : user :=
  User (email u) (hashed_password u) (display_name u) (is_active u) (granted u) l (factor u) (force_password_change u) (demo_expires u)
       (invited_by u) (last_login u).
Definition with_factor (f : second_factor) (u : user) : user :=
  User (email u) (hashed_password u) (display_name u) (is_active u) (granted u) (lock u) f (force_password_change u) (demo_expires u)
       (invited_by u) (last_login u).
Definition with_force (b : bool) (u : user) : user :=
  User (email u) (hashed_password u) (display_name u) (is_active u) (granted u) (lock u) (factor u) b (demo_expires u)
       (invited_by u) (last_login u).
Definition with_last_login (t : Z) (u : user) : user :=
  User (email u) (hashed_password u) (display_name u) (is_active u) (granted u) (lock u) (factor u) (force_password_change u)
       (demo_expires u) (invited_by u) (Some t).

(** Truth of an [str | None]. *)
Definition truthy (o : option string) : option string :=
  match o with Some (String _ _ as s) => Some s | _ => None end.

Definition nonempty (s : string) : bool := negb (String.eqb s EmptyString).

(** [db.query(User).filter(User.email == e).first()]. *)
Definition user_by_email (e : string) (d : db) : option (Z * user) :=
  List.find (fun p => String.eqb (email p.2) e) (map_to_list (users d)).

(** *** Third-party libraries *)

Inductive jwt_error := ExpiredSignatureError | InvalidTokenError.

(** The payload of a token; a [sub] that is not an integer is [Some None]. *)
Record claims := Claims {
  c_aud : string;
  c_exp : option Z;
  c_sub : option (option Z);
  c_user_id : option Z;
  c_email : option string;
  c_role : option string;
  c_scopes : option (list string);
  c_demo_expires : option Z;
  c_label : option string;
  c_jti : option string;
  c_masquerade_by : option Z
}.

Class Libs := {
  jwt_encode : claims -> string -> string;
  jwt_decode : string -> string -> string -> Z -> result jwt_error claims;
  bcrypt_hash : string -> string -> string;
  bcrypt_check : string -> string -> bool;
  totp_verify : string -> string -> Z -> bool
}.

(** PyJWT writes a [datetime] expiry in whole seconds. *)
Definition stamped (c : claims) : claims :=
  Claims (c_aud c) ((fun e => seconds (e / 1000000)) <$> c_exp c) (c_sub c) (c_user_id c) (c_email c) (c_role c) (c_scopes c)
         (c_demo_expires c) (c_label c) (c_jti c) (c_masquerade_by c).

Definition is_past (t : Z) (e : option Z) : bool := match e with Some e => e <=? t | None => false end.

(** What the documentation of PyJWT and bcrypt promises: a token decodes under
    the key it was signed with, unless its expiry has passed or its audience is
    another; whatever decodes has the audience asked for; a password checks
    against its own hash. *)
Class LibsLaws `{Libs} := {
  decode_encode c k a t :
    jwt_decode (jwt_encode c k) k a t =
    if is_past t (c_exp (stamped c)) then Err ExpiredSignatureError
    else if String.eqb (c_aud c) a then Ok (stamped c) else Err InvalidTokenError;
  decode_audience tok k a t c : jwt_decode tok k a t = Ok c -> c_aud c = a;
  check_own salt p : bcrypt_check p (bcrypt_hash salt p) = true
}.

(** Environment variables; a lifetime that is set but not an integer is [Some None]. *)
Record environment := Environment {
  CB_CLIENT_SALT : option string;
  CB_SETUP_TOKEN : option string;
  CB_SETUP_TOKEN_TTL_HOURS : option (option Z);
  token_file_writable : bool
}.

(** *** Credentials *)

Definition DEFAULT_SALT : string := "circuitbreaker-salt-v1".
Definition CLIENT_HASH_PBKDF2_ITERATIONS : N := 310000.
Definition CLIENT_HASH_V2_PREFIX : string := "v2.".
Definition SESSION_AUDIENCE : string := "fastapi-users:auth".
Definition INVITE_TOKEN_AUD : string := "circuitbreaker:invite".
Definition CHANGE_PASSWORD_AUD : string := "cb:change-password".
Definition MFA_CHALLENGE_AUD : string := "cb:mfa-challenge".

Definition hash_token (t : string) : string := Sha256.hexdigest t.

Definition with_secret (k : string) (c : settings) : settings :=
  Settings (auth_enabled c) (Some k) (client_hash_salt c) (session_timeout_hours c) (concurrent_sessions c)
    (login_lockout_attempts c) (login_lockout_minutes c) (invite_expiry_days c) (registration_open c) (masquerade_enabled c)
    (bootstrap_token_hash c) (bootstrap_token_expires_at c) (bootstrap_token_used_at c) (vault_key c) (vault_key_hash c).

Definition get_or_create_settings (e : draw) : M settings :=
  c ← gets config;
  match c with
  | None =>
      let row := with_secret (fresh_secret e) default_settings in
      _ ← modify (with_config row); mret row
  | Some c =>
      match truthy (jwt_secret c) with
      | Some _ => mret c
      | None => let row := with_secret (fresh_secret e) c in _ ← modify (with_config row); mret row
      end
  end.

Definition get_client_salt (env : environment) (cfg : option settings) : string :=
  match truthy (CB_CLIENT_SALT env) with
  | Some s => s
  | None =>
      match truthy (cfg ≫= client_hash_salt) with Some s => s | None => DEFAULT_SALT end
  end.

Definition legacy_client_wire_hash_v1 (plain salt : string) : string := Sha256.hexdigest (plain +:+ salt).

(** [salt or get_client_salt()], the latter without a database. *)
Definition client_hash_password (env : environment) (plain : string) (salt : option string) : string :=
  let active := match truthy salt with Some s => s | None => get_client_salt env None end in
  CLIENT_HASH_V2_PREFIX +:+ Hmac.hex (Hmac.pbkdf2 plain active CLIENT_HASH_PBKDF2_ITERATIONS).

Definition is_hex_lower (c : ascii) : bool := Regex.range 48 57 c || Regex.range 97 102 c.
Definition is_hex (c : ascii) : bool := is_hex_lower c || Regex.range 65 70 c.

(** [$] also matches before a final newline. *)
Definition at_end : Regex.re := Regex.opt (Regex.lit "010"%char).

Definition CLIENT_HASH_V2_RE : Regex.re :=
  Regex.Seq (Regex.Chr (Regex.one_of "vV")) (Regex.Seq (Regex.word "2.") (Regex.Seq (Regex.exactly 64 (Regex.Chr is_hex)) at_end)).

Definition is_client_hash (value : string) : bool :=
  Regex.fullmatch CLIENT_HASH_V2_RE value
  || (String.length value =? 64)%nat && str_forallb is_hex_lower (lower value).

Definition not_at_or_space : Regex.re := Regex.plus (Regex.Chr (fun c => negb (Ascii.eqb c "@") && negb (is_space c))).
Definition EMAIL_RE : Regex.re :=
  Regex.Seq not_at_or_space (Regex.Seq (Regex.lit "@")
    (Regex.Seq not_at_or_space (Regex.Seq (Regex.lit ".") (Regex.Seq not_at_or_space at_end)))).

Definition MAX_EMAIL_LEN : nat := 254.
Definition MAX_PASSWORD_LEN : nat := 1024.

Definition email_ok (e : string) : bool := (String.length e <=? MAX_EMAIL_LEN)%nat && Regex.fullmatch EMAIL_RE e.

Definition has_char (P : ascii -> bool) (s : string) : bool := negb (str_forallb (fun c => negb (P c)) s).

Definition validate_password (p : string) : result error unit :=
  let errors :=
    (if (String.length p <? 8)%nat then ["at least 8 characters"] else []) ++
    (if has_char Regex.upper p then [] else ["one uppercase letter"]) ++
    (if has_char Regex.lower p then [] else ["one lowercase letter"]) ++
    (if has_char Regex.digit p then [] else ["one digit"]) ++
    (if has_char (fun c => negb (Regex.alnum c)) p then [] else ["one special character"]) in
  match errors with
  | [] => Ok tt
  | _ => Err (Http 400 ("Password must contain: " +:+ String.concat ", " errors))
  end.

(** A password or the client's own hash of it. *)
Definition credential_ok (p : string) : result error unit := if is_client_hash p then Ok tt else validate_password p.

Definition scopes_for_role (r : string) : list string :=
  let r := lower (if nonempty r then r else "viewer") in
  py_sorted String.leb (Rbac.ROLE_DEFAULT_SCOPES (if Rbac.valid_role r then r else "viewer")).

Definition norm_email (e : string) : string := lower (strip e).

Definition local_part (e : string) : string := match split_on "@" e with x :: _ => x | [] => EmptyString end.

(** *** Sessions *)

Section Operations.
Context `{Libs}.

Definition hash_password (e : draw) (k : nat) (p : string) : string := bcrypt_hash (salt_of e k) p.

(** [a or b] on times. *)
Definition or_time (a : option Z) (b : Z) : Z := match a with Some t => if t =? 0 then b else t | None => b end.

Definition active_at (t i : Z) (s : session) : bool := (s_user s =? i) && negb (revoked s) && (t <? s_expires_at s).

Definition older (x y : session) : bool := s_created_at x <=? s_created_at y.

(** [while len(active) >= limit: active.pop(0)]: the rows popped; [None] is the
    [IndexError] of popping an empty list. *)
Fixpoint evict (limit : Z) (active : list session) : option (list session) :=
  if Z.of_nat (length active) <? limit then Some []
  else match active with
       | [] => None
       | x :: rest => cons x <$> evict limit rest
       end.

Definition mem_id (i : Z) (l : list session) : bool := existsb (fun s => s_id s =? i) l.

Definition record_session (e : draw) (i : Z) (q : option request) (token : string) (cfg : settings) (lifetime : option Z)
    : M (option Z) :=
  if i =? 0 then mret None
  else
    rows ← gets (fun d => py_sorted older (List.filter (active_at (now e) i) (sessions d)));
    oldest ← unless (evict (concurrent_sessions cfg) rows) IndexError;
    sid ← gets next_session;
    let expires := now e + or_time lifetime (hours (session_timeout_hours cfg)) in
    let ip := q ≫= client_host in
    let ua := (fun q => substring 0 500 (default EmptyString (agent_header q))) <$> q in
    _ ← modify (fun d => add_session (fun n => Session n i (hash_token token) ip ua (now e) expires false)
                           (revoke_where (fun s => mem_id (s_id s) oldest) d));
    mret (Some sid).

Definition revoke_session (sid i : Z) : M bool :=
  row ← gets (fun d => List.find (fun s => s_id s =? sid) (sessions d));
  match row with
  | None => mret false
  | Some s =>
      if s_user s =? i then
        _ ← modify (revoke_where (fun s => s_id s =? sid));
        _ ← send DropAll;
        mret true
      else mret false
  end.

Definition unrevoked_of (i : Z) (except : option string) (s : session) : bool :=
  (s_user s =? i) && negb (revoked s) &&
  match truthy except with Some h => negb (String.eqb (jwt_token_hash s) h) | None => true end.

Definition revoke_all_sessions (i : Z) (except : option string) : M Z :=
  rows ← gets (fun d => List.filter (unrevoked_of i except) (sessions d));
  _ ← modify (revoke_where (unrevoked_of i except));
  _ ← when (negb (bool_decide (rows = []))) (send DropAll);
  mret (Z.of_nat (length rows)).

Definition live_with (h : string) (s : session) : bool := String.eqb (jwt_token_hash s) h && negb (revoked s).

Definition revoke_token_session (token : option string) : M bool :=
  match truthy token with
  | None => mret false
  | Some t =>
      row ← gets (fun d => List.find (live_with (hash_token t)) (sessions d));
      match row with
      | None => mret false
      | Some s =>
          _ ← modify (revoke_where (fun x => s_id x =? s_id s));
          _ ← send (DropToken t);
          mret true
      end
  end.

Definition is_session_revoked (t : string) (d : db) : bool :=
  existsb (fun s => String.eqb (jwt_token_hash s) (hash_token t) && revoked s) (sessions d).

(** *** Lockout *)

Definition failed (e : draw) (cfg : settings) (l : lockout) : lockout :=
  let n := login_attempts l + 1 in
  Lockout n (if login_lockout_attempts cfg <=? n then Some (now e + minutes (login_lockout_minutes cfg)) else locked_until l).

Definition record_failed_login (e : draw) (i : Z) (cfg : settings) : M unit :=
  if i =? 0 then mret tt else modify (set_user i (fun u => with_lock (failed e cfg (lock u)) u)).

Definition unlocked : lockout := Lockout 0 None.

Definition reset_login_attempts (i : Z) : M unit := modify (set_user i (with_lock unlocked)).

Definition unlock_user (i : Z) : M (option user) :=
  u ← gets (fun d => users d !! i);
  match u with
  | None => mret None
  | Some _ => _ ← modify (set_user i (with_lock unlocked)); gets (fun d => users d !! i)
  end.

Definition is_locked (t : Z) (u : user) : bool := match locked_until (lock u) with Some l => t <? l | None => false end.

(** *** Invites *)

Definition VALID_ROLES : list string := ["admin"; "editor"; "viewer"].
Definition valid_role (r : string) : bool := bool_decide (r ∈ VALID_ROLES).

Definition no_claims (aud : string) (exp : Z) : claims := Claims aud (Some exp) None None None None None None None None None.

Definition invite_claims (em r : string) (exp : Z) : claims :=
  Claims INVITE_TOKEN_AUD (Some exp) None None (Some em) (Some r) None None None None None.

Definition create_invite (e : draw) (admin : Z) (em r : string) : M (Z * string) :=
  _ ← guarded (valid_role r) (Http 400 ("Invalid role: " +:+ r));
  cfg ← get_or_create_settings e;
  let expires := now e + days (invite_expiry_days cfg) in
  let token := jwt_encode (invite_claims (norm_email em) r expires) (default (fresh_secret e) (truthy (jwt_secret cfg))) in
  taken ← gets (fun d => existsb (fun i => String.eqb (i_token i) token) (invites d));
  _ ← guarded (negb taken) (IntegrityError "user_invites_token_key");
  iid ← gets next_invite;
  _ ← modify (add_invite (fun n => Invite n token (norm_email em) r admin expires Pending None));
  mret (iid, token).

Definition set_status (st : invite_status) (at_ : option Z) (i : invite) : invite :=
  Invite (i_id i) (i_token i) (i_email i) (i_role i) (i_invited_by i) (i_expires i) st at_.

(** The checks [accept_invite] and [consume_invite_for_oauth] share: the row of
    a token that is still pending; an expired one is marked. *)
Definition pending_invite (e : draw) (token : string) : M invite :=
  row ← gets (fun d => List.find (fun i => String.eqb (i_token i) token) (invites d));
  i ← unless row (Http 404 "Invite not found");
  _ ← guarded (bool_decide (i_status i = Pending)) (Http 400 "Invite already used or revoked");
  if i_expires i <? now e then
    _ ← modify (set_invite (i_id i) (fun x => set_status Expired (accepted_at x) x));
    raise (Http 400 "Invite has expired")
  else mret i.

(** The secret and the claims of a presented invite token. *)
Definition invite_payload (e : draw) (token : string) : M (settings * string * string) :=
  cfg ← get_or_create_settings e;
  secret ← unless (truthy (jwt_secret cfg)) (Http 400 "Invite system not configured");
  c ← lift (match jwt_decode token secret INVITE_TOKEN_AUD (now e) with
            | Ok c => Ok c
            | Err _ => Err (Http 400 "Invalid or expired invite")
            end);
  let r := default "viewer" (c_role c) in
  em ← unless (truthy (c_email c)) (Http 400 "Invalid invite payload");
  _ ← guarded (valid_role r) (Http 400 "Invalid invite payload");
  mret (cfg, em, r).

Definition new_user (em h : string) (name : option string) (r : string) (sc : list string) (by_ : option Z) : user :=
  User em h name true (Access r (String.eqb r "admin") (String.eqb r "admin") sc) unlocked (SecondFactor false None None) false None by_ None.

(** Inserting a user: the email column is unique. *)
Definition insert_user (u : user) (taken : error) : M Z :=
  clash ← gets (user_by_email (email u));
  match clash with
  | Some _ => raise taken
  | None => i ← gets next_user; _ ← modify (add_user u); mret i
  end.

Definition accept_invite (e : draw) (token password : string) (name : option string) : M Z :=
  p ← invite_payload e token;
  let '(_, em, r) := p in
  i ← pending_invite e token;
  _ ← lift (credential_ok password);
  let u := new_user (norm_email em) (hash_password e 0 password) (Some (default (local_part em) (truthy name))) r [] (Some (i_invited_by i)) in
  clash ← gets (user_by_email (email u));
  match clash with
  | Some _ => raise (IntegrityError "users_email_key")
  | None =>
      uid ← gets next_user;
      _ ← modify (fun d => set_invite (i_id i) (set_status Accepted (Some (now e))) (add_user u d));
      mret uid
  end.

Definition revoke_invite (iid : Z) : M bool :=
  row ← gets (fun d => List.find (fun i => i_id i =? iid) (invites d));
  match row with
  | None => mret false
  | Some i =>
      if bool_decide (i_status i = Pending) then
        _ ← modify (set_invite iid (fun x => set_status Revoked (accepted_at x) x)); mret true
      else mret false
  end.

Definition consume_invite_for_oauth (e : draw) (token oauth_email : string) : M (string * string) :=
  p ← invite_payload e token;
  let '(_, em, r) := p in
  _ ← guarded (String.eqb (lower em) (norm_email oauth_email)) (Http 400 "OAuth account email does not match this invite");
  i ← pending_invite e token;
  _ ← modify (set_invite (i_id i) (set_status Accepted (Some (now e))));
  mret (em, r).

End Operations.
End Accounts.
