(* ===== verification/Login.v ===== *)
(** Signing in and out ([services/auth_service.py] and the routes of
    [api/auth.py]): session issue, password and second factor, lockout, password
    changes, first-run bootstrap, invites and registration, account removal and
    API tokens.  A route's dependency ([require_auth_always] and the like) is the
    user id it is given; rendering of the reply, cookies and the audit log are
    left out. *)
From S2P Require Import Prelude Sha256 Hmac Regex Rbac Accounts.
Open Scope Z_scope.

Module Login.
Import Accounts.

Section Handlers.
Context `{Libs}.

Abbreviation invalid_login := (Http 401 "Invalid email or password").

(** *** Issuing a session *)

Record extra := Extra { x_label : option string; x_jti : option string; x_masquerade_by : option Z }.
Definition no_extra : extra := Extra None None None.

Definition create_token (e : draw) (i : Z) (secret : string) (timeout : Z) (r : option string) (sc : option (list string))
    (demo : option Z) (x : extra) : string :=
  jwt_encode (Claims SESSION_AUDIENCE (Some (now e + or_time (Some timeout) (hours 24))) None (Some i) None (truthy r) sc demo
                (x_label x) (x_jti x) (x_masquerade_by x)) secret.

Definition spoken (l : list string) : list string := List.filter (fun s => nonempty (strip s)) l.

Definition session_token (e : draw) (i : Z) (u : user) (cfg : settings) (secret : string) (lifetime : option Z) (x : extra) : string :=
  create_token e i secret (or_time lifetime (hours (session_timeout_hours cfg))) (Some (role (granted u)))
    (Some (spoken (scopes (granted u)))) (demo_expires u) x.

Definition issue_session (e : draw) (i : Z) (u : user) (q : option request) (cfg : settings) (lifetime : option Z) (x : extra) : M string :=
  secret ← unless (truthy (jwt_secret cfg)) (RuntimeError "JWT secret not configured");
  let token := session_token e i u cfg secret lifetime x in
  _ ← record_session e i q token cfg lifetime;
  mret token.

Definition decode_token (token secret : string) (t : Z) : option Z :=
  match jwt_decode token secret SESSION_AUDIENCE t with Ok c => c_user_id c | Err _ => None end.

(** The row read back after a commit. *)
Definition refresh (i : Z) : M user := u ← gets (fun d => users d !! i); unless u (RuntimeError "row is gone").

(** *** The password step *)

Definition DUMMY_HASH : string := bcrypt_hash EmptyString "cb-dummy-not-real".

Definition verify_login_password (e : draw) (env : environment) (who : option (Z * user)) (p : string) : M bool :=
  let stored := match who with Some (_, u) => hashed_password u | None => DUMMY_HASH end in
  if bcrypt_check p stored then mret true
  else if is_client_hash p then mret false
  else
    cfg ← get_or_create_settings e;
    let salt := get_client_salt env (Some cfg) in
    if String.eqb salt DEFAULT_SALT then mret false
    else
      match bcrypt_check (legacy_client_wire_hash_v1 p DEFAULT_SALT) stored, who with
      | true, Some (i, _) =>
          _ ← modify (set_user i (with_password (hash_password e 0 (client_hash_password env p (Some salt)))));
          mret true
      | _, _ => mret false
      end.

Definition locked_now (e : draw) (who : option (Z * user)) : bool :=
  match who with Some (_, u) => is_locked (now e) u | None => false end.

(** [login] with the caller's [password_valid]; it reads the user again. *)
Definition login (e : draw) (em : string) (cfg : settings) (q : option request) (password_valid : bool) : M string :=
  who ← gets (user_by_email (norm_email em));
  match who with
  | None => raise invalid_login
  | Some (i, u) =>
      if negb password_valid then
        _ ← when (negb (is_locked (now e) u)) (record_failed_login e i cfg);
        raise invalid_login
      else if is_locked (now e) u then raise invalid_login
      else
        _ ← reset_login_attempts i;
        _ ← modify (set_user i (with_last_login (now e)));
        u ← refresh i;
        issue_session e i u q cfg None no_extra
  end.

Inductive reply := Full (token : string) | RequiresChange (token : string) | RequiresMfa (token : string).

Definition challenge (i : Z) (aud : string) (exp : Z) : claims := Claims aud (Some exp) None (Some i) None None None None None None None.

Definition login_compat (e : draw) (env : environment) (em p : string) (q : request) : M reply :=
  cfg ← get_or_create_settings e;
  who ← gets (user_by_email (norm_email em));
  valid ← verify_login_password e env who p;
  let locked := locked_now e who in
  let full := (t ← login e em cfg (Some q) valid; mret (Full t)) in
  match who with
  | Some (i, u) =>
      if valid && negb locked && force_password_change u then
        _ ← reset_login_attempts i;
        mret (RequiresChange (jwt_encode (challenge i CHANGE_PASSWORD_AUD (now e + hours 1)) (default EmptyString (jwt_secret cfg))))
      else if valid && negb locked && mfa_enabled (factor u) then
        _ ← reset_login_attempts i;
        mret (RequiresMfa (jwt_encode (challenge i MFA_CHALLENGE_AUD (now e + minutes 5)) (default EmptyString (jwt_secret cfg))))
      else full
  | None => full
  end.

Definition not_configured : error := Http 503 "Auth not configured".

Definition configured (cfg : settings) : M string := unless (truthy (jwt_secret cfg)) not_configured.

(** *** Changing passwords *)

Definition after_reset (e : draw) (h : string) (seen : bool) (u : user) : user :=
  let u := with_lock unlocked (with_force false (with_password h u)) in
  if seen then with_last_login (now e) u else u.

Definition reset_local_user_password (e : draw) (i : Z) (p : string) (seen : bool) : M user :=
  u ← refresh i;
  _ ← guarded (nonempty (hashed_password u)) (Http 400 "Password reset is unavailable for this account");
  _ ← guarded (String.length p <=? MAX_PASSWORD_LEN)%nat (Http 400 "Password is too long");
  _ ← lift (credential_ok p);
  _ ← revoke_all_sessions i None;
  _ ← modify (set_user i (after_reset e (hash_password e 0 p) seen));
  refresh i.

(** [load_vault_key] of the credential vault is the argument [active]. *)
Definition is_vault_key_valid (active : option string) (candidate : string) (d : db) : bool :=
  let c := strip candidate in
  nonempty c &&
  (match truthy (config d ≫= vault_key_hash) with Some h => String.eqb (Sha256.hexdigest c) h | None => false end
   || match truthy active with Some k => String.eqb c k | None => false end).

Definition vault_reset_refused : error := Http 401 "Unable to reset password with the provided recovery credentials".

Definition vault_reset_password (e : draw) (active : option string) (em key p : string) (q : request) : M string :=
  cfg ← get_or_create_settings e;
  _ ← configured cfg;
  _ ← guarded (email_ok (norm_email em)) vault_reset_refused;
  ok ← gets (is_vault_key_valid active key);
  _ ← guarded ok vault_reset_refused;
  who ← gets (user_by_email (norm_email em));
  found ← unless who vault_reset_refused;
  let '(i, u) := found in
  _ ← guarded (is_active u && nonempty (hashed_password u)) vault_reset_refused;
  u ← reset_local_user_password e i p true;
  issue_session e i u (Some q) cfg None no_extra.

Definition reject_if_locked_out (e : draw) (u : user) : M unit := guarded (negb (is_locked (now e) u)) invalid_login.

(** The active user a challenge token of audience [aud] is for: the checks
    [force_change_password] and [mfa_verify] both begin with. *)
Definition redeem (e : draw) (token aud expired invalid : string) : M (settings * Z * user) :=
  cfg ← get_or_create_settings e;
  secret ← configured cfg;
  c ← lift (match jwt_decode token secret aud (now e) with
            | Ok c => Ok c
            | Err ExpiredSignatureError => Err (Http 401 expired)
            | Err InvalidTokenError => Err (Http 401 invalid)
            end);
  let missing := Http 401 "User not found or inactive" in
  i ← unless (c_user_id c) missing;
  u ← gets (fun d => users d !! i);
  u ← unless u missing;
  _ ← guarded (is_active u) missing;
  _ ← reject_if_locked_out e u;
  mret (cfg, i, u).

Definition force_change_password (e : draw) (change_token p : string) (q : request) : M string :=
  r ← redeem e change_token CHANGE_PASSWORD_AUD "Change token has expired, please log in again" "Invalid change token";
  let '(cfg, i, _) := r in
  u ← reset_local_user_password e i p true;
  issue_session e i u (Some q) cfg None no_extra.

(** *** The request's token *)

(** [h.removeprefix("Bearer ")] when [h] starts with it. *)
Definition extract_bearer (q : request) : option string :=
  if startswith "Bearer " (authorization q)
  then Some (substring 7 (String.length (authorization q) - 7) (authorization q)) else None.

Definition extract_token (q : request) : option string :=
  match truthy (extract_bearer q) with Some t => Some t | None => cookie q end.

Definition change_password (e : draw) (who : option Z) (current p : string) (q : request) : M unit :=
  i ← unless who (Http 401 "Not authenticated");
  _ ← guarded (negb (i =? 0)) (Http 403 "Service account has no password");
  u ← gets (fun d => users d !! i);
  u ← unless u (Http 401 "User not found");
  _ ← guarded (bcrypt_check current (hashed_password u)) (Http 400 "Current password is incorrect");
  _ ← lift (credential_ok p);
  _ ← modify (set_user i (with_password (hash_password e 0 p)));
  _ ← revoke_all_sessions i (hash_token <$> truthy (extract_token q));
  mret tt.

Definition revoke_all_other_sessions (who : option Z) (q : request) : M unit :=
  i ← unless who (Http 401 "Not authenticated");
  if i =? 0 then mret tt
  else _ ← revoke_all_sessions i (hash_token <$> truthy (extract_token q)); mret tt.

Definition revoke_own_session (who : option Z) (sid : Z) : M unit :=
  i ← unless who (Http 401 "Not authenticated");
  ok ← revoke_session sid i;
  guarded ok (Http 404 "Session not found").

Definition list_my_sessions (e : draw) (who : option Z) : M (list session) :=
  i ← unless who (Http 401 "Not authenticated");
  if i =? 0 then mret []
  else gets (fun d => py_sorted (fun x y => older y x) (List.filter (active_at (now e) i) (sessions d))).

(** [logout] does what [revoke_token_session] does, inline. *)
Definition logout (q : request) : M unit := _ ← revoke_token_session (extract_token q); mret tt.

(** *** The second factor *)

(** The first stored code [code] matches is taken out. *)
Fixpoint take_code (code : string) (stored : list string) : option (list string) :=
  match stored with
  | [] => None
  | h :: rest => if bcrypt_check code h then Some rest else cons h <$> take_code code rest
  end.

Definition totp_ok (e : draw) (f : second_factor) (code : string) : bool :=
  match truthy (totp_secret f) with Some s => totp_verify s code (now e) | None => false end.

Definition spend_code (f : second_factor) (code : string) : option second_factor :=
  stored ← backup_codes f;
  rest ← take_code code stored;
  Some (SecondFactor (mfa_enabled f) (totp_secret f) (Some rest)).

(** The factor as it is left when the code is right. *)
Definition verify_mfa_confirmation_code (e : draw) (f : second_factor) (code : string) : option second_factor :=
  if totp_ok e f (strip code) then Some f else spend_code f (strip code).

Definition store_backup_codes (e : draw) (f : second_factor) (raw : list string) : second_factor :=
  SecondFactor (mfa_enabled f) (totp_secret f) (Some (imap (fun k c => hash_password e k c) raw)).

Definition own_user (i : Z) : M user := u ← gets (fun d => users d !! i); unless u (Http 401 "User not found").

Definition mfa_setup (e : draw) (i : Z) : M string :=
  u ← own_user i;
  _ ← guarded (negb (mfa_enabled (factor u))) (Http 400 "MFA is already enabled");
  _ ← modify (set_user i (fun u => with_factor (SecondFactor (mfa_enabled (factor u)) (Some (fresh_secret e)) (backup_codes (factor u))) u));
  mret (fresh_secret e).

Definition activated (e : draw) (f : second_factor) : second_factor :=
  let f := store_backup_codes e f (fresh_codes e) in SecondFactor true (totp_secret f) (backup_codes f).

Definition mfa_activate (e : draw) (i : Z) (code : string) (q : request) : M string :=
  u ← own_user i;
  _ ← guarded (negb (mfa_enabled (factor u))) (Http 400 "MFA is already enabled");
  _ ← guarded (match truthy (totp_secret (factor u)) with Some _ => true | None => false end) (Http 400 "Run /mfa/setup first");
  cfg ← get_or_create_settings e;
  _ ← guarded (totp_ok e (factor u) (strip code)) (Http 401 "Invalid TOTP code");
  _ ← modify (set_user i (fun u => with_factor (activated e (factor u)) u));
  u ← refresh i;
  token ← issue_session e i u (Some q) cfg None no_extra;
  _ ← match truthy (extract_token q) with
      | Some t => _ ← revoke_token_session (Some (strip t)); mret tt
      | None => mret tt
      end;
  mret token.

Definition mfa_verify (e : draw) (mfa_token code : string) (q : request) : M string :=
  r ← redeem e mfa_token MFA_CHALLENGE_AUD "MFA token expired, please log in again" "Invalid MFA token";
  let '(cfg, i, u) := r in
  if totp_ok e (factor u) (strip code) then
    _ ← reset_login_attempts i;
    issue_session e i u (Some q) cfg None no_extra
  else
    match spend_code (factor u) (strip code) with
    | Some f =>
        _ ← modify (set_user i (with_factor f));
        _ ← reset_login_attempts i;
        issue_session e i u (Some q) cfg None no_extra
    | None =>
        _ ← record_failed_login e i cfg;
        raise (Http 401 "Invalid or expired MFA code")
    end.

Definition mfa_disable (e : draw) (i : Z) (code : string) : M unit :=
  u ← own_user i;
  _ ← guarded (mfa_enabled (factor u)) (Http 400 "MFA is not enabled");
  _ ← unless (verify_mfa_confirmation_code e (factor u) code) (Http 401 "Invalid MFA code");
  modify (set_user i (with_factor (SecondFactor false None None))).

Definition mfa_regenerate_backup_codes (e : draw) (i : Z) (code : string) : M (list string) :=
  u ← own_user i;
  _ ← guarded (mfa_enabled (factor u) && match truthy (totp_secret (factor u)) with Some _ => true | None => false end)
        (Http 400 "MFA must be enabled first");
  f ← unless (verify_mfa_confirmation_code e (factor u) code) (Http 401 "Invalid MFA code");
  _ ← modify (set_user i (with_factor (store_backup_codes e f (fresh_codes e))));
  mret (fresh_codes e).

(** *** Accounts made without an administrator *)

Definition register (e : draw) (em p : string) (cfg : settings) (name : option string) : M string :=
  n ← gets (fun d => size (users d));
  _ ← guarded (negb (n =? 0)%nat)
        (Http 409 "Bootstrap required. Use /api/v1/bootstrap/initialize for first account setup.");
  _ ← guarded (email_ok em) (Http 400 "Invalid email address");
  _ ← guarded (String.length p <=? MAX_PASSWORD_LEN)%nat (Http 400 "Password is too long");
  _ ← lift (credential_ok p);
  n ← gets (fun d => size (users d));
  let r := if (n =? 0)%nat then "admin" else "viewer" in
  let shown := match truthy (strip <$> name) with Some s => s | None => local_part em end in
  i ← insert_user (new_user (norm_email em) (hash_password e 0 p) (Some shown) r (scopes_for_role r) None)
        (Http 409 "Email already registered");
  cfg ← match truthy (jwt_secret cfg) with
        | Some _ => mret cfg
        | None => _ ← modify (set_config (with_secret (fresh_secret e))); mret (with_secret (fresh_secret e) cfg)
        end;
  u ← refresh i;
  issue_session e i u None cfg None no_extra.

Definition register_user (e : draw) (em p : string) (name : option string) : M string :=
  cfg ← get_or_create_settings e;
  _ ← guarded (registration_open cfg) (Http 403 "Registration is currently closed");
  register e em p cfg name.

Definition accept_invite_endpoint (e : draw) (token p : string) (name : option string) (q : request) : M string :=
  i ← accept_invite e token p name;
  cfg ← get_or_create_settings e;
  u ← refresh i;
  issue_session e i u (Some q) cfg None no_extra.

(** [f"demo-{timestamp:.0f}@local.demo"]: the clock rounded to seconds, ties to even. *)
Definition rounded_seconds (t : Z) : Z :=
  let q := t / 1000000 in let r := t mod 1000000 in
  if r <? 500000 then q else if 500000 <? r then q + 1 else if Z.even q then q else q + 1.

Definition create_demo_session (e : draw) (q : request) : M string :=
  cfg ← get_or_create_settings e;
  _ ← configured cfg;
  let em := "demo-" +:+ pretty (rounded_seconds (now e)) +:+ "@local.demo" in
  let u := User em (hash_password e 0 "demo-session-not-loginable") (Some "Demo User") true (Access "demo" false false ["read:*"])
             unlocked (SecondFactor false None None) false (Some (now e + hours 1)) None None in
  i ← insert_user u (IntegrityError "users_email_key");
  issue_session e i u (Some q) cfg (Some (hours 1)) no_extra.

(** *** Removing an account *)

(** [users.invited_by] refers to [users.id] without an action on delete. *)
Definition referenced (i : Z) (d : db) : bool :=
  existsb (fun p => bool_decide (invited_by p.2 = Some i) && negb (p.1 =? i)) (map_to_list (users d)).

Definition delete_row (i : Z) : M unit :=
  r ← gets (referenced i);
  _ ← guarded (negb r) (IntegrityError "fk_users_invited_by");
  modify (drop_users (Z.eqb i)).

Definition delete_account (i : Z) : M unit :=
  _ ← own_user i;
  _ ← delete_row i;
  send DropAll.

Definition delete_user_permanent (i : Z) : M unit :=
  u ← gets (fun d => users d !! i);
  _ ← unless u (Http 404 "User not found");
  delete_row i.

End Handlers.
End Login.
