(* ===== verification/Bootstrap.v ===== *)
(** First-run setup ([services/auth_service.py]): the one-time setup token, the
    two ways to finish bootstrap, and the onboarding wizard's step.  Cosmetic
    settings (theme, fonts, language, time zone) are left out; the update of the
    public address and of SMTP runs in [update_settings] and its failure is
    swallowed, so here it only has to validate. *)
From S2P Require Import Prelude Sha256 Hmac Regex Rbac Accounts Login.
Open Scope Z_scope.

Module Bootstrap.
Import Accounts Login.

Definition MIN_BOOTSTRAP_TOKEN_LEN : nat := 16.
Definition bootstrap_done : error := Http 409 "Bootstrap already completed. Please refresh and log in.".
Definition token_required : error := Http 403 "A valid setup token is required to complete bootstrap.".
Definition oauth_invalid : error := Http 400 "OAuth token is invalid or expired".

Definition bootstrap_token_ttl_hours (env : environment) : Z :=
  match CB_SETUP_TOKEN_TTL_HOURS env with
  | Some (Some n) => Z.max 1 (Z.min n 168)
  | _ => 24
  end.

Definition setup_token (env : environment) : string := strip (default EmptyString (CB_SETUP_TOKEN env)).

Definition bootstrap_token_expired (e : draw) (c : settings) : bool := is_past (now e) (bootstrap_token_expires_at c).

Definition with_bootstrap (h : option string) (expires used : option Z) (c : settings) : settings :=
  Settings (auth_enabled c) (jwt_secret c) (client_hash_salt c) (session_timeout_hours c) (concurrent_sessions c)
    (login_lockout_attempts c) (login_lockout_minutes c) (invite_expiry_days c) (registration_open c) (masquerade_enabled c)
    h expires used (vault_key c) (vault_key_hash c).

Definition ensure_bootstrap_token (e : draw) (env : environment) (c : settings) : M settings :=
  if auth_enabled c then mret c
  else
    let given := setup_token env in
    let should_replace :=
      match truthy (bootstrap_token_hash c) with None => true | Some _ => false end
      || match bootstrap_token_used_at c with Some _ => true | None => false end
      || bootstrap_token_expired e c || nonempty given in
    if negb should_replace then mret c
    else
      token ← (if nonempty given then
                 _ ← guarded (MIN_BOOTSTRAP_TOKEN_LEN <=? String.length given)%nat
                       (Http 503 "CB_SETUP_TOKEN must be at least 16 characters");
                 mret given
               else
                 _ ← guarded (token_file_writable env) (Http 503 "Unable to write the bootstrap setup token file");
                 mret (fresh_token e));
      let row := with_bootstrap (Some (Sha256.hexdigest token)) (Some (now e + hours (bootstrap_token_ttl_hours env))) None c in
      _ ← modify (with_config row);
      mret row.

Definition lock_bootstrap_settings : M settings := c ← gets config; unless c (Http 503 "Bootstrap settings unavailable").

Definition verify_bootstrap_token (e : draw) (env : environment) (given : string) : M settings :=
  locked ← lock_bootstrap_settings;
  _ ← guarded (negb (auth_enabled locked)) bootstrap_done;
  _ ← ensure_bootstrap_token e env locked;
  locked ← lock_bootstrap_settings;
  let supplied := strip given in
  stored ← unless (truthy (bootstrap_token_hash locked)) token_required;
  _ ← guarded (nonempty supplied) token_required;
  _ ← guarded (negb (bootstrap_token_expired e locked)) token_required;
  _ ← guarded (String.eqb (Sha256.hexdigest supplied) stored) token_required;
  mret locked.

Definition consume_bootstrap_token (e : draw) (c : settings) : settings := with_bootstrap None None (Some (now e)) c.

(** *** The payload *)

Record smtp := Smtp {
  smtp_enabled : option bool;
  smtp_host : option string;
  smtp_port : option Z;
  smtp_username : option string;
  smtp_password : option string;
  smtp_from_email : option string;
  smtp_from_name : option string;
  smtp_tls : option bool
}.

Record smtp_row := SmtpRow {
  row_host : string;
  row_port : Z;
  row_username : string;
  row_password : option string;
  row_from_email : string;
  row_from_name : string;
  row_tls : bool
}.

Definition text (o : option string) : string := strip (default EmptyString o).

Definition normalise_smtp_bootstrap_payload (m : smtp) : result error (option smtp_row) :=
  let host := text (smtp_host m) in
  let from := lower (text (smtp_from_email m)) in
  if negb (default false (smtp_enabled m)) && negb (nonempty host) then Ok None
  else
    guard! nonempty host && nonempty from else Http 400 "SMTP host and from email are required" ;;
    guard! email_ok from else Http 400 "Invalid SMTP from email address" ;;
    let port := match smtp_port m with Some p => if p =? 0 then 587 else p | None => 587 end in
    guard! (1 <=? port) && (port <=? 65535) else Http 400 "SMTP port must be between 1 and 65535" ;;
    let name := strip (default "Circuit Breaker" (truthy (smtp_from_name m))) in
    Ok (Some (SmtpRow host port (text (smtp_username m)) (truthy (smtp_password m)) from
                (if nonempty name then name else "Circuit Breaker") (default true (smtp_tls m)))).

(** [re.sub(r"[._\-]+", " ", local).strip()], split at blanks and capitalised. *)
Fixpoint words_of (s : string) : list string :=
  match s with
  | EmptyString => [EmptyString]
  | String c r =>
      let ws := words_of r in
      if Regex.one_of "._-" c || is_space c then EmptyString :: ws
      else match ws with w :: ws => String c w :: ws | [] => [String c EmptyString] end
  end.

Definition upper_char (c : ascii) : ascii :=
  if Regex.lower c || Regex.range 224 254 c && negb (code c =? 247) then ascii_of_nat (nat_of_ascii c - 32) else c.

Definition capitalize (s : string) : string :=
  match s with String c r => String (upper_char c) (lower r) | EmptyString => EmptyString end.

Definition derive_display_name (em : string) (name : option string) : string :=
  match truthy (strip <$> name) with
  | Some s => s
  | None =>
      match List.filter nonempty (words_of (local_part (norm_email em))) with
      | [] => "Admin"
      | ws => String.concat " " (map capitalize ws)
      end
  end.

(** *** Onboarding *)

Definition ONBOARDING_STEPS : list string := ["start"; "domain"; "account"; "theme"; "regional"; "email"; "summary"; "finish"].

Definition set_onboarding_step (step : string) : M (string * string) :=
  _ ← guarded (bool_decide (step ∈ ONBOARDING_STEPS)) (Http 400 ("Invalid step: " +:+ step));
  row ← gets (fun d => default ("start", "start") (onboarding d));
  _ ← modify (with_onboarding (step, row.1));
  mret (step, row.1).

Definition finish_onboarding (d : db) : db :=
  with_onboarding ("finish", match onboarding d with Some (step, _) => step | None => "summary" end) d.

Definition get_onboarding_or_fallback (d : db) : string * string := default ("start", "start") (onboarding d).

(** *** Bootstrap *)

Section Setup.
Context `{Libs}.

Definition with_setup (e : draw) (env : environment) (c : settings) : settings :=
  Settings true (Some (default (fresh_secret e) (truthy (jwt_secret c))))
    (Some (match truthy (client_hash_salt c) with Some s => s | None => default (fresh_token e) (CB_CLIENT_SALT env) end))
    (session_timeout_hours c) (concurrent_sessions c)
    (login_lockout_attempts c) (login_lockout_minutes c) (invite_expiry_days c) (registration_open c) (masquerade_enabled c)
    (bootstrap_token_hash c) (bootstrap_token_expires_at c) (bootstrap_token_used_at c) (vault_key c) (vault_key_hash c).

Definition with_vault_hash (h : string) (c : settings) : settings :=
  Settings (auth_enabled c) (jwt_secret c) (client_hash_salt c) (session_timeout_hours c) (concurrent_sessions c)
    (login_lockout_attempts c) (login_lockout_minutes c) (invite_expiry_days c) (registration_open c) (masquerade_enabled c)
    (bootstrap_token_hash c) (bootstrap_token_expires_at c) (bootstrap_token_used_at c) None (Some h).

(** [written]: the new key reached the environment file. *)
Definition generate_and_persist_vault_key (key : string) (written : bool) : M (option string) :=
  c ← gets config;
  match c ≫= (fun c => truthy (vault_key c)), c ≫= (fun c => truthy (vault_key_hash c)) with
  | None, None =>
      if written then _ ← modify (set_config (with_vault_hash (Sha256.hexdigest key))); mret (Some key) else mret None
  | _, _ => mret None
  end.

(** What both routes do once the administrator is committed. *)
Definition finish_bootstrap (e : draw) (i : Z) (cfg : settings) (key : string) (written : bool) : M (string * option string) :=
  u ← refresh i;
  token ← issue_session e i u None cfg None no_extra;
  _ ← modify (set_user i (with_last_login (now e)));
  k ← generate_and_persist_vault_key key written;
  _ ← modify finish_onboarding;
  mret (token, k).

Definition bootstrap_initialize (e : draw) (env : environment) (given em p : string) (name : option string) (m : smtp)
    (key : string) (written : bool) : M (string * option string) :=
  let em := norm_email em in
  _ ← guarded (email_ok em) (Http 400 "Invalid email address");
  _ ← guarded (String.length p <=? MAX_PASSWORD_LEN)%nat (Http 400 "Password is too long");
  _ ← lift (credential_ok p);
  _ ← lift (normalise_smtp_bootstrap_payload m);
  c ← verify_bootstrap_token e env given;
  i ← gets next_user;
  let u := new_user em (hash_password e 0 p) (Some (derive_display_name em name)) "admin" (scopes_for_role "admin") None in
  let cfg := with_setup e env (consume_bootstrap_token e c) in
  _ ← modify (fun d => with_config cfg (add_user u (drop_users (fun _ => true) d)));
  finish_bootstrap e i cfg key written.

Definition promoted (name : option string) (u : user) : user :=
  let u := with_granted (Access "admin" true true (scopes_for_role "admin")) u in
  match truthy (strip <$> name) with Some s => with_name (Some s) u | None => u end.

Definition with_auth (c : settings) : settings :=
  Settings true (jwt_secret c) (client_hash_salt c) (session_timeout_hours c) (concurrent_sessions c)
    (login_lockout_attempts c) (login_lockout_minutes c) (invite_expiry_days c) (registration_open c) (masquerade_enabled c)
    (bootstrap_token_hash c) (bootstrap_token_expires_at c) (bootstrap_token_used_at c) (vault_key c) (vault_key_hash c).

Definition bootstrap_initialize_oauth (e : draw) (env : environment) (given oauth_token : string) (name : option string) (m : smtp)
    (key : string) (written : bool) : M (string * option string) :=
  c ← verify_bootstrap_token e env given;
  secret ← unless (truthy (jwt_secret c)) oauth_invalid;
  i ← unless (decode_token oauth_token secret (now e)) oauth_invalid;
  u ← gets (fun d => users d !! i);
  _ ← unless u oauth_invalid;
  _ ← lift (normalise_smtp_bootstrap_payload m);
  let cfg := with_auth (consume_bootstrap_token e c) in
  _ ← modify (fun d => with_config cfg (set_user i (promoted name) d));
  finish_bootstrap e i cfg key written.

(** What the public status route says: whether setup is needed, how many users
    there are, the salt browsers hash with, and when the setup token expires. *)
Definition bootstrap_status (e : draw) (env : environment) : M (bool * nat * string * option Z) :=
  c ← gets config;
  c ← match c with Some c => c ← ensure_bootstrap_token e env c; mret (Some c) | None => mret None end;
  n ← gets (fun d => size (users d));
  cfg ← get_or_create_settings e;
  mret (match c with Some c => negb (auth_enabled c) | None => true end, n, get_client_salt env (Some cfg),
        c ≫= bootstrap_token_expires_at).

End Setup.
End Bootstrap.
