(* ===== verification/AccountAdmin.v ===== *)
(** What administrators do to accounts ([api/admin_users.py]) and the API tokens
    and service accounts of [api/auth.py].  The administrator is the user id
    [actor] the role gate admitted. *)
From S2P Require Import Prelude Sha256 Hmac Regex Rbac Accounts Login.
Open Scope Z_scope.

Module AccountAdmin.
Import Accounts Login.

Section Handlers.
Context `{Libs}.

Definition user_missing : error := Http 404 "User not found".

Definition target_user (i : Z) : M user := u ← gets (fun d => users d !! i); unless u user_missing.

Definition email_exists : error := Http 409 "A user with this email already exists.".

Definition coerced_role (r : string) : string := if valid_role r then r else "viewer".

Definition create_user (e : draw) (em p r : string) (name : option string) : M Z :=
  _ ← lift (validate_password p);
  let r := coerced_role r in
  _ ← get_or_create_settings e;
  insert_user (new_user (norm_email em) (hash_password e 0 p) (Some (default (local_part em) (truthy name))) r (scopes_for_role r) None)
    email_exists.

Definition create_local_user (e : draw) (env : environment) (em r : string) (name : option string) (generate : bool)
    (manual : option string) : M (Z * option string) :=
  let em := norm_email em in
  clash ← gets (user_by_email em);
  _ ← guarded (match clash with Some _ => false | None => true end) (Http 409 "Email already in use");
  let r := coerced_role r in
  p ← (if generate then mret (fresh_password e)
       else
         m ← unless (truthy manual) (Http 400 "manual_password is required when generate_password=False");
         _ ← lift (validate_password m);
         mret m);
  _ ← get_or_create_settings e;
  let h := hash_password e 0 (client_hash_password env p None) in
  i ← insert_user (with_force true (new_user em h (Some (default (local_part em) (truthy name))) r (scopes_for_role r) None)) email_exists;
  mret (i, if generate then Some p else None).

Record user_update := UserUpdate { new_role : option string; new_active : option bool; new_name : option string }.

Definition apply_update (p : user_update) (u : user) : user :=
  let u := match new_role p with
           | Some r => with_granted (Access r (String.eqb r "admin") (String.eqb r "admin") (scopes_for_role r)) u
           | None => u
           end in
  let u := match new_active p with Some b => with_active b u | None => u end in
  match new_name p with Some n => with_name (truthy (Some (strip n))) u | None => u end.

Definition update_user (i : Z) (p : user_update) : M unit :=
  _ ← target_user i;
  _ ← guarded (negb (i =? 0)) (Http 403 "Cannot modify service account");
  _ ← guarded (match new_role p with Some r => valid_role r | None => true end) (Http 400 "Invalid role");
  modify (set_user i (apply_update p)).

Definition delete_user (i : Z) (permanent : bool) : M unit :=
  _ ← target_user i;
  _ ← guarded (negb (i =? 0)) (Http 403 "Cannot delete service account");
  if permanent then delete_user_permanent i else modify (set_user i (with_active false)).

Definition reset_user_password (e : draw) (env : environment) (actor i : Z) : M (string * Z) :=
  _ ← target_user i;
  _ ← guarded (negb (i =? 0)) (Http 403 "Cannot reset service account password");
  _ ← guarded (negb (i =? actor)) (Http 400 "Cannot reset your own password");
  let h := hash_password e 0 (client_hash_password env (fresh_password e) None) in
  _ ← modify (set_user i (fun u => with_force true (with_password h u)));
  n ← revoke_all_sessions i None;
  mret (fresh_password e, n).

Definition revoke_user_sessions (i : Z) : M Z := _ ← target_user i; revoke_all_sessions i None.

Definition unlock_user_endpoint (i : Z) : M unit := u ← unlock_user i; _ ← unless u user_missing; mret tt.

Definition masquerade_user (e : draw) (actor i : Z) (q : request) : M string :=
  cfg ← get_or_create_settings e;
  _ ← guarded (masquerade_enabled cfg) (Http 403 "Masquerade is disabled");
  u ← target_user i;
  _ ← guarded (is_active u) (Http 400 "Cannot masquerade as inactive user");
  issue_session e i u (Some q) cfg (Some (minutes 15)) (Extra None None (Some actor)).

(** *** Invites *)

Definition create_invite_endpoint (e : draw) (actor : Z) (em r : string) : M (Z * string) :=
  _ ← guarded (valid_role r) (Http 400 "Invalid role");
  create_invite e actor em r.

Inductive invite_action := DoRevoke | DoExtend | Other.

Definition extended (by_ : Z) (i : invite) : invite :=
  Invite (i_id i) (i_token i) (i_email i) (i_role i) (i_invited_by i) (i_expires i + by_) (i_status i) (accepted_at i).

Definition update_invite (e : draw) (iid : Z) (a : invite_action) : M unit :=
  row ← gets (fun d => List.find (fun i => i_id i =? iid) (invites d));
  _ ← unless row (Http 404 "Invite not found");
  match a with
  | DoRevoke => _ ← revoke_invite iid; mret tt
  | DoExtend => cfg ← get_or_create_settings e; modify (set_invite iid (extended (days (invite_expiry_days cfg))))
  | Other => raise (Http 400 "Invalid action")
  end.

(** *** API tokens *)

Definition SERVICE_ACCOUNT_LABEL_PREFIX : string := "[Service Account] ".

(** [hash_] column of a token whose salt was drawn with it. *)
Definition stored_hash (e : draw) (raw : string) : string := Hmac.create_salted_api_token_hash (fresh_salt e) raw.

(** An [expires_at] of a payload: absent, not an ISO 8601 time, or a time. *)
Abbreviation expiry := (option (option Z)).

Definition parse_expiry (x : expiry) (bad : string) : M (option Z) :=
  match x with
  | None => mret None
  | Some None => raise (Http 400 bad)
  | Some (Some t) => mret (Some t)
  end.

Definition rbac_user (i : Z) (u : user) : Rbac.user :=
  Rbac.User i (Some (role (granted u))) (is_admin (granted u)) (is_superuser (granted u)) (Some (scopes (granted u)))
    (locked_until (lock u)) (demo_expires u).

Definition service_token (e : draw) (secret : string) (lifetime_hours : Z) (sc : list string) (label : option string) : string :=
  create_token e 0 secret (hours (if lifetime_hours =? 0 then 8760 else lifetime_hours)) None (Some sc) None (Extra label (Some (jti e)) None).

Definition create_service_account (e : draw) (actor : Z) (label : option string) (sc : list string) (x : expiry) : M (Z * string) :=
  cfg ← get_or_create_settings e;
  secret ← configured cfg;
  t ← parse_expiry x "expires_at must be ISO 8601 datetime";
  _ ← guarded (match t with Some t => now e <? t | None => true end) (Http 400 "Expiry must be in the future");
  let delta := match t with Some t => (t - now e) / hours 1 | None => 0 end in
  let token := service_token e secret delta sc label in
  n ← gets next_token;
  _ ← modify (add_token (fun n => ApiToken n (stored_hash e token)
        (Some (SERVICE_ACCOUNT_LABEL_PREFIX +:+ default "unnamed" (truthy label))) actor (Some sc) t));
  mret (n, token).

Definition create_api_token (e : draw) (actor : Z) (label : option string) (sc : option (list string)) (x : expiry) : M (Z * string) :=
  cfg ← get_or_create_settings e;
  _ ← configured cfg;
  t ← parse_expiry x "expires_at must be ISO 8601 datetime";
  u ← refresh actor;
  let sc := match sc with
            | Some (_ :: _ as l) => l
            | _ => py_sorted String.leb (dedup (Rbac.effective_scopes (rbac_user actor u)))
            end in
  n ← gets next_token;
  _ ← modify (add_token (fun n => ApiToken n (stored_hash e (fresh_token e)) label actor (Some sc) t));
  mret (n, fresh_token e).

Definition token_row (i : Z) : M api_token :=
  row ← gets (fun d => List.find (fun t => t_id t =? i) (tokens d)); unless row (Http 404 "API token not found").

Definition revoke_api_token (i : Z) : M unit :=
  _ ← token_row i;
  _ ← modify (drop_token i);
  send DropLocal.

(** Whole hours left, at least one; a row that never expires has none. *)
Definition hours_until (e : draw) (x : option Z) : option Z :=
  (fun t => Z.max 1 (Z.quot (t - now e) (hours 1))) <$> x.

Definition is_service_account (t : api_token) : bool :=
  match t_label t with Some l => startswith SERVICE_ACCOUNT_LABEL_PREFIX l | None => false end.

Definition removeprefix (p s : string) : string :=
  if startswith p s then substring (String.length p) (String.length s - String.length p) s else s.

Definition rotate_api_token (e : draw) (actor i : Z) : M (Z * string) :=
  old ← token_row i;
  let sc := default [] (t_scopes old) in
  raw ← (if is_service_account old then
           cfg ← get_or_create_settings e;
           secret ← configured cfg;
           mret (service_token e secret (default 8760 (hours_until e (t_expires_at old))) sc
                   (removeprefix SERVICE_ACCOUNT_LABEL_PREFIX <$> t_label old))
         else mret (fresh_token e));
  n ← gets next_token;
  _ ← modify (fun d => drop_token i (add_token (fun n => ApiToken n (stored_hash e raw) (t_label old) actor (Some sc) (t_expires_at old)) d));
  _ ← send DropLocal;
  mret (n, raw).

End Handlers.
End AccountAdmin.
