(* ===== verification/SessionCache.v ===== *)
(** Who a request is ([core/security.py]): the per-process cache of validated
    tokens, the Redis keys through which the worker processes tell each other of
    revocations, the validation against the tables, and the dependencies routes
    declare.  Redis is the two keys the code uses; [reach] says whether a call to
    it gets through.  [time.monotonic], Redis' own expiry and the wall clock are
    one clock.  [touch_api_token_last_used] is advisory and left out. *)
From S2P Require Import Prelude Sha256 Hmac Regex Rbac Accounts Login Bootstrap AccountAdmin.
Open Scope Z_scope.

Module SessionCache.
Import Accounts Login.

(** A user id and, for a token that carries its own, its scopes. *)
Abbreviation identity := (Z * option (list string))%type.

(** *** The cache *)

Definition SESSION_CACHE_TTL : Z := seconds 10.
Definition REVOKED_MARKER_TTL : Z := SESSION_CACHE_TTL * 6.
Definition max_size : nat := 2000.

Record entry := Entry { e_user : Z; e_expiry : Z; e_scopes : option (list string) }.

(** A [dict]: pairs in the order their keys were first set. *)
Abbreviation cache := (list (string * entry)).

Definition has_key (h : string) (p : string * entry) : bool := String.eqb p.1 h.
Definition cache_lookup (h : string) (c : cache) : option entry := snd <$> List.find (has_key h) c.
Definition cache_pop (h : string) (c : cache) : cache := List.filter (fun p => negb (has_key h p)) c.
Definition cache_put (h : string) (v : entry) (c : cache) : cache :=
  if existsb (has_key h) c then map (fun p => if has_key h p then (h, v) else p) c else c ++ [(h, v)].

(** [clears] counts the threads that have taken over a new flush epoch and not
    yet emptied the cache. *)
Record worker := Worker { cached : cache; local_epoch : option Z; clears : nat }.

Definition with_cache (c : cache) (w : worker) : worker := Worker c (local_epoch w) (clears w).

(** [cb:sess:flush-epoch], and the time each revocation marker expires at. *)
Record redis := Redis { flush_epoch : option Z; markers : gmap string Z }.

Definition marked (t : Z) (h : string) (r : redis) : bool :=
  match markers r !! h with Some until => t <? until | None => false end.

(** (reachable, token revoked, epoch). *)
Definition shared_cache_state (t : Z) (reach : bool) (h : string) (r : redis) : bool * bool * option Z :=
  if reach then (true, marked t h r, flush_epoch r) else (false, false, None).

(** [_session_cache_get] up to the clearing: a thread that finds a new epoch
    writes it to [_local_flush_epoch] first, without the lock, and clears the
    cache afterwards, so that other threads may run in between. *)
Definition session_cache_look (t : Z) (reach : bool) (h : string) (r : redis) (w : worker) : option identity * worker :=
  match cache_lookup h (cached w) with
  | None => (None, w)
  | Some v =>
      if e_expiry v <=? t then (None, with_cache (cache_pop h (cached w)) w)
      else
        let '(reachable, revoked, epoch) := shared_cache_state t reach h r in
        if negb reachable then (None, w)
        else if revoked then (None, with_cache (cache_pop h (cached w)) w)
        else if bool_decide (epoch = local_epoch w) then (Some (e_user v, e_scopes v), w)
        else (None, Worker (cached w) epoch (S (clears w)))
  end.

(** The clearing, by any thread that owes one. *)
Definition session_cache_clear (w : worker) : worker := Worker [] (local_epoch w) (pred (clears w)).

(** The whole of it, by a thread that is alone on its worker. *)
Definition session_cache_get (t : Z) (reach : bool) (h : string) (r : redis) (w : worker) : option identity * worker :=
  let '(o, w') := session_cache_look t reach h r w in
  (o, if (clears w <? clears w')%nat then session_cache_clear w' else w').

Definition soonest (x y : string * entry) : bool := e_expiry x.2 <=? e_expiry y.2.

Definition session_cache_set (t : Z) (h : string) (who : identity) (w : worker) : worker :=
  let c := cached w in
  let c := if (max_size <=? length c)%nat
           then foldl (fun c p => cache_pop p.1 c) c (take (max_size / 2) (py_sorted soonest c)) else c in
  with_cache (cache_put h (Entry who.1 (t + SESSION_CACHE_TTL) who.2) c) w.

Definition incr (r : redis) : redis := Redis (Some (default 0 (flush_epoch r) + 1)) (markers r).
Definition setex (h : string) (until : Z) (r : redis) : redis := Redis (flush_epoch r) (<[h := until]> (markers r)).

Definition invalidate_session_cache (t : Z) (reach : bool) (token : option string) (w : worker) (r : redis) : worker * redis :=
  match token with
  | Some raw =>
      (with_cache (cache_pop (hash_token raw) (cached w)) w,
       if reach then setex (hash_token raw) (t + REVOKED_MARKER_TTL) r else r)
  | None => (with_cache [] w, if reach then incr r else r)
  end.

Definition invalidate_token_cache (w : worker) : worker := with_cache [] w.

Definition invalidate (t : Z) (reach : bool) (i : invalidation) (w : worker) (r : redis) : worker * redis :=
  match i with
  | DropToken raw => invalidate_session_cache t reach (Some raw) w r
  | DropAll => invalidate_session_cache t reach None w r
  | DropLocal => (invalidate_token_cache w, r)
  end.

(** *** Validation against the tables *)

Definition is_user_accessible (t i : Z) (d : db) : bool :=
  if i =? 0 then true
  else match users d !! i with
       | None => false
       | Some u =>
           is_active u && negb (is_locked t u)
           && negb (String.eqb (role (granted u)) "demo" && is_past t (demo_expires u))
       end.

Definition normalise_token_scopes (sc : option (list string)) : option (list string) := Rbac.cleaned <$> sc.

Definition matching_token (raw : string) (d : db) : option api_token :=
  List.find (fun x => Hmac.verify_salted_api_token_hash raw (token_hash x)) (tokens d).

Definition service_account_token_is_live (t : Z) (raw : string) (d : db) : bool :=
  match matching_token raw d with Some x => negb (is_past t (t_expires_at x)) | None => false end.

Definition static_token (t : Z) (raw : string) (d : db) : option identity :=
  match matching_token raw d with
  | None => None
  | Some x =>
      if is_past t (t_expires_at x) then None
      else if is_user_accessible t (created_by x) d then
        Some (created_by x, match normalise_token_scopes (t_scopes x) with Some [] => None | sc => sc end)
      else None
  end.

Section Resolve.
Context `{Libs}.

(** The part of [resolve_optional_user_id_sync] after a cache miss. *)
Definition validate (t : Z) (raw secret : string) (d : db) : option identity :=
  if is_session_revoked raw d then None
  else
    match jwt_decode raw secret SESSION_AUDIENCE t with
    | Err _ => static_token t raw d
    | Ok c =>
        match c_sub c, c_user_id c with
        | Some (Some i), _ => if is_user_accessible t i d then Some (i, None) else None
        | Some None, _ => static_token t raw d
        | None, Some i =>
            if i =? 0 then
              if service_account_token_is_live t raw d then Some (0, normalise_token_scopes (c_scopes c)) else None
            else if is_user_accessible t i d then Some (i, None) else None
        | None, None => static_token t raw d
        end
    end.

(** A connection: [scope["method"]] is absent on a WebSocket. *)
Record inbound := Inbound { headers : request; legacy_admin : bool; path : string; method : option string }.

Definition PRE_BOOTSTRAP_SETUP_SURFACE : list (string * option (list string)) :=
  [("/api/v1/bootstrap", None); ("/api/v1/auth", None); ("/api/v1/settings/oauth", Some ["PATCH"]);
   ("/api/v1/settings", Some ["GET"; "HEAD"])].

Definition upper (s : string) : string := str_map Bootstrap.upper_char s.

Definition is_pre_bootstrap_setup_surface (x : inbound) : bool :=
  let m := upper (default "GET" (method x)) in
  existsb (fun '(prefix, methods) =>
    (String.eqb (path x) prefix || startswith (prefix +:+ "/") (path x))
    && match methods with None => true | Some l => bool_decide (m ∈ l) end) PRE_BOOTSTRAP_SETUP_SURFACE.

Definition resolve_optional_user_id_sync (e : draw) (x : inbound) (reach : bool) (r : redis) (w : worker) (d : db)
    : option identity * worker * db :=
  if legacy_admin x then (Some (0, None), w, d)
  else
    let raw := extract_token (headers x) in
    let o := get_or_create_settings e d in
    match res o with
    | Err _ => (None, w, post o)
    | Ok cfg =>
        if negb (auth_enabled cfg) then (if is_pre_bootstrap_setup_surface x then Some (0, None) else None, w, post o)
        else
          match truthy (jwt_secret cfg), truthy raw with
          | Some secret, Some raw =>
              match session_cache_get (now e) reach (hash_token raw) r w with
              | (Some who, w) => (Some who, w, post o)
              | (None, w) =>
                  match validate (now e) raw secret (post o) with
                  | Some who => (Some who, session_cache_set (now e) (hash_token raw) who w, post o)
                  | None => (None, w, post o)
                  end
              end
          | _, _ => (None, w, post o)
          end
    end.

(** *** Route dependencies *)

Definition require_auth_always (t : Z) (who : option Z) (d : db) : result error Z :=
  match who with
  | None => Err (Http 401 "Authentication required")
  | Some i =>
      if negb (i =? 0) && negb (is_user_accessible t i d) then Err (Http 403 "Account is not accessible") else Ok i
  end.

Definition require_write_auth (t : Z) (who : option Z) (d : db) : result error Z :=
  match who with
  | None => Err (Http 401 "Authentication required")
  | Some i =>
      if i =? 0 then Ok i
      else match users d !! i with
           | None => Err (Http 401 "User not found")
           | Some u =>
               guard! is_user_accessible t i d else Http 403 "Account is not accessible" ;;
               let v := AccountAdmin.rbac_user i u in
               guard! bool_decide (Rbac.effective_role v ∈ ["admin"; "editor"]) || Rbac.has_scope (Rbac.effective_scopes v) "write" "*"
                 else Http 403 "Insufficient permissions" ;;
               Ok i
           end
  end.

End Resolve.
End SessionCache.
