(* ===== verification/AccountFacts.v ===== *)
(** What the account tables never take back: a revoked session stays revoked (or
    its user is gone), a spent invite is never pending again, a removed API token
    and a removed user never return, and setup is finished once.  [later] is the
    preorder of these facts, and every handler moves the tables along it. *)
From S2P Require Import Prelude Sha256 Hmac Regex Rbac Accounts Login Bootstrap AccountAdmin.
Open Scope Z_scope.

Module AccountFacts.
Import Accounts Login Bootstrap AccountAdmin.

Inductive fact :=
| Dead (h : string) (u : Z)   (* the token with hash [h] no longer opens a session of user [u] *)
| Spent (i : Z)               (* the invite [i] cannot be accepted any more *)
| Gone (i : Z)                (* the API token row [i] was removed *)
| Removed (u : Z)             (* the user [u] was removed *)
| SetUp                       (* bootstrap is finished *)
| Numbered.                   (* ids in use were given out *)

Definition holds (f : fact) (d : db) : Prop :=
  match f with
  | Dead h u =>
      u < next_user d /\
      ((exists s, s ∈ sessions d /\ jwt_token_hash s = h /\ s_user s = u /\ revoked s = true) \/ users d !! u = None)
  | Spent i => i < next_invite d /\ forall x, x ∈ invites d -> i_id x = i -> i_status x <> Pending
  | Gone i => i < next_token d /\ forall x, x ∈ tokens d -> t_id x <> i
  | Removed u => u < next_user d /\ users d !! u = None
  | SetUp => exists c, config d = Some c /\ auth_enabled c = true
  | Numbered => (forall i u, users d !! i = Some u -> i < next_user d) /\ (forall x, x ∈ invites d -> i_id x < next_invite d)
  end.

Definition later (d d' : db) : Prop := forall f, holds f d -> holds f d'.

#[export] Instance later_preorder : PreOrder later.
Proof. split; [by intros d f | intros d1 d2 d3 H1 H2 f Hf; by apply H2, H1]. Qed.

Definition stays {A} (m : M A) : Prop := forall d, later d (post (m d)).

Create HintDb later.

(** *** The monad *)

Lemma bind_ok {A B} (m : M A) (f : A -> M B) d a :
  res (m d) = Ok a -> (m ≫= f) d = Outcome (res (f a (post (m d)))) (post (f a (post (m d)))) (sent (m d) ++ sent (f a (post (m d)))).
Proof. unfold mbind, M_bind. by intros ->. Qed.

Lemma bind_err {A B} (m : M A) (f : A -> M B) d e :
  res (m d) = Err e -> (m ≫= f) d = Outcome (Err e) (post (m d)) (sent (m d)).
Proof. unfold mbind, M_bind. by intros ->. Qed.

(** A composition that returned: its parts did. *)
Lemma bind_inv {A B} (m : M A) (f : A -> M B) d b :
  res ((m ≫= f) d) = Ok b ->
  exists a, res (m d) = Ok a /\ res (f a (post (m d))) = Ok b /\ post ((m ≫= f) d) = post (f a (post (m d))) /\
            sent ((m ≫= f) d) = sent (m d) ++ sent (f a (post (m d))).
Proof.
  destruct (res (m d)) as [a | e] eqn:E.
  - rewrite (bind_ok m f d a E). cbn. intros Hb. by exists a.
  - by rewrite (bind_err m f d e E).
Qed.

Lemma bind_gets {A B} (g : db -> A) (f : A -> M B) d : (gets g ≫= f) d = f (g d) d.
Proof. unfold mbind, M_bind, gets. cbn. by destruct (f (g d) d). Qed.

Lemma bind_modify {B} (g : db -> db) (f : unit -> M B) d : (modify g ≫= f) d = f tt (g d).
Proof. unfold mbind, M_bind, modify. cbn. by destruct (f tt (g d)). Qed.

Lemma bind_mret {A B} (a : A) (f : A -> M B) d : (mret a ≫= f) d = f a d.
Proof. unfold mbind, M_bind, mret, M_ret. cbn. by destruct (f a d). Qed.

Lemma bind_raise {A B} er (f : A -> M B) d : (raise er ≫= f) d = Outcome (Err er) d [].
Proof. done. Qed.

Lemma bind_guarded {B} b er (f : unit -> M B) d : (guarded b er ≫= f) d = if b then f tt d else Outcome (Err er) d [].
Proof. destruct b; [apply bind_mret | done]. Qed.

Lemma bind_unless {A B} (o : option A) er (f : A -> M B) d :
  (unless o er ≫= f) d = match o with Some a => f a d | None => Outcome (Err er) d [] end.
Proof. destruct o; [apply bind_mret | done]. Qed.

Lemma bind_lift {A B} (r : result error A) (f : A -> M B) d :
  (lift r ≫= f) d = match r with Ok a => f a d | Err er => Outcome (Err er) d [] end.
Proof. destruct r; [apply bind_mret | done]. Qed.

Lemma gets_eq {A} (g : db -> A) d : gets g d = Outcome (Ok (g d)) d [].
Proof. done. Qed.

Lemma modify_eq (g : db -> db) d : modify g d = Outcome (Ok tt) (g d) [].
Proof. done. Qed.

Lemma mret_eq {A} (a : A) d : (mret a : M A) d = Outcome (Ok a) d [].
Proof. done. Qed.

(** Reading one row. *)
Lemma bind_row {A B} (g : db -> option A) er (f : A -> M B) d :
  ((x ← gets g; unless x er) ≫= f) d = match g d with Some a => f a d | None => Outcome (Err er) d [] end.
Proof. unfold mbind, M_bind, gets. cbn. destruct (g d) as [a |]; cbn; [by destruct (f a d) | done]. Qed.

Lemma bind_own_user {B} i (f : user -> M B) d :
  (own_user i ≫= f) d = match users d !! i with Some u => f u d | None => Outcome (Err (Http 401 "User not found")) d [] end.
Proof. exact (bind_row (fun d => users d !! i) _ f d). Qed.

Lemma bind_refresh {B} i (f : user -> M B) d :
  (refresh i ≫= f) d = match users d !! i with Some u => f u d | None => Outcome (Err (RuntimeError "row is gone")) d [] end.
Proof. exact (bind_row (fun d => users d !! i) _ f d). Qed.

Lemma bind_target_user {B} i (f : user -> M B) d :
  (target_user i ≫= f) d = match users d !! i with Some u => f u d | None => Outcome (Err user_missing) d [] end.
Proof. exact (bind_row (fun d => users d !! i) _ f d). Qed.

Lemma bind_send {B} i (f : unit -> M B) d :
  (send i ≫= f) d = Outcome (res (f tt d)) (post (f tt d)) (i :: sent (f tt d)).
Proof. done. Qed.

Lemma when_eq b m d : when b m d = if b then m d else Outcome (Ok tt) d [].
Proof. by destruct b. Qed.

Lemma bind_when {B} b m (f : unit -> M B) d : (when b m ≫= f) d = if b then (m ≫= f) d else f tt d.
Proof. destruct b; [done |]. apply bind_mret. Qed.

(** What [revoke_all_sessions] did. *)
Definition revoked_all (i : Z) (x : option string) (d : db) : list invalidation :=
  if bool_decide (List.filter (unrevoked_of i x) (sessions d) = []) then [] else [DropAll].

Lemma revoke_all_run i x d :
  revoke_all_sessions i x d =
  Outcome (Ok (Z.of_nat (length (List.filter (unrevoked_of i x) (sessions d))))) (revoke_where (unrevoked_of i x) d) (revoked_all i x d).
Proof.
  unfold revoke_all_sessions, revoked_all. rewrite bind_gets, bind_modify, bind_when, bind_send. by case_bool_decide.
Qed.

Lemma bind_revoke_all {B} i x (f : Z -> M B) d :
  (revoke_all_sessions i x ≫= f) d =
  let o := f (Z.of_nat (length (List.filter (unrevoked_of i x) (sessions d)))) (revoke_where (unrevoked_of i x) d) in
  Outcome (res o) (post o) (revoked_all i x d ++ sent o).
Proof. unfold mbind at 1, M_bind. by rewrite revoke_all_run. Qed.

Create Rewrite HintDb cb_run.
#[export] Hint Rewrite @bind_own_user @bind_refresh @bind_target_user @bind_send @bind_when @bind_revoke_all @bind_gets @bind_modify @bind_mret @bind_raise @bind_guarded @bind_unless @bind_lift @gets_eq modify_eq @mret_eq : cb_run.

(** Run the straight-line part of a handler. *)
Ltac run := autorewrite with cb_run; cbn [res post sent].
Ltac run_in H := autorewrite with cb_run in H; cbn [res post sent] in H.

Lemma stays_mret {A} (a : A) : stays (mret a).
Proof. by intros d. Qed.

Lemma stays_raise {A} e : stays (@raise A e).
Proof. by intros d. Qed.

Lemma stays_gets {A} (f : db -> A) : stays (gets f).
Proof. by intros d. Qed.

Lemma stays_send i : stays (send i).
Proof. by intros d. Qed.

Lemma stays_guarded b e : stays (guarded b e).
Proof. destruct b; by intros d. Qed.

Lemma stays_unless {A} (o : option A) e : stays (unless o e).
Proof. destruct o; by intros d. Qed.

Lemma stays_lift {A} (r : result error A) : stays (lift r).
Proof. destruct r; by intros d. Qed.

Lemma stays_bind {A B} (m : M A) (f : A -> M B) : stays m -> (forall a, stays (f a)) -> stays (m ≫= f).
Proof.
  intros Hm Hf d. destruct (res (m d)) as [a | e] eqn:E.
  - rewrite (bind_ok m f d a E). cbn. etransitivity; [apply Hm | apply Hf].
  - rewrite (bind_err m f d e E). apply Hm.
Qed.

Lemma stays_modify f : (forall d, later d (f d)) -> stays (modify f).
Proof. intros Hf d. apply Hf. Qed.

#[export] Hint Resolve stays_mret stays_raise stays_gets stays_send stays_guarded stays_unless stays_lift stays_modify : later.

Ltac solve_stays :=
  repeat first
    [ progress intros
    | lazymatch goal with |- stays (mbind _ _) => apply stays_bind end
    | progress unfold when
    | progress cbv zeta
    | solve [eauto with later]
    | match goal with
      | |- stays (match ?x with _ => _ end) => destruct x
      | |- stays (if ?x then _ else _) => destruct x
      end ].

(** *** The table updates *)

Lemma numbered_set_user i f d : holds Numbered d -> holds Numbered (set_user i f d).
Proof.
  intros [Hu Hi]. split; [| done]. cbn. intros j x Hx. destruct (decide (j = i)) as [-> | Hne].
  - rewrite lookup_alter_eq in Hx. destruct (users d !! i) as [y |] eqn:E; [by apply (Hu i y) | done].
  - rewrite lookup_alter_ne in Hx by done. by apply (Hu j x).
Qed.

Lemma numbered_add_user u d : holds Numbered d -> holds Numbered (add_user u d).
Proof.
  intros [Hu Hi]. split; [| done]. cbn. intros j x [[<- _] | [_ Hx%Hu]]%lookup_insert_Some; lia.
Qed.

Lemma numbered_drop_users gone d : holds Numbered d -> holds Numbered (drop_users gone d).
Proof.
  intros [Hu Hi]. split; cbn.
  - intros j x [Hx _]%map_lookup_filter_Some. by apply (Hu j x).
  - intros x [Hx _]%list_elem_of_In%filter_In. by apply Hi, list_elem_of_In.
Qed.

Lemma numbered_add_invite x d : (forall n, i_id (x n) = n) -> holds Numbered d -> holds Numbered (add_invite x d).
Proof.
  intros Hid [Hu Hi]. split; [done |]. cbn. intros y [Hy%Hi | ->%list_elem_of_singleton]%elem_of_app; [lia |]. rewrite Hid. lia.
Qed.

(** An update of an invite that keeps its id and never makes it pending again. *)
Definition forward (f : invite -> invite) : Prop :=
  forall x, i_id (f x) = i_id x /\ (i_status (f x) = Pending -> i_status x = Pending).

Lemma numbered_set_invite i f d : forward f -> holds Numbered d -> holds Numbered (set_invite i f d).
Proof.
  intros Hf [Hu Hi]. split; [done |]. cbn. intros y (x & -> & Hx)%list_elem_of_fmap.
  destruct (i_id x =? i); [rewrite (proj1 (Hf x)) |]; by apply Hi.
Qed.

Lemma later_set_user i f d : later d (set_user i f d).
Proof.
  intros [h u | j | j | u | |]; [.. | apply numbered_set_user]; unfold set_user, with_users; cbn; try done; intros [Hu H]; (split; [done |]).
  - destruct H as [H | H]; [by left | right]. by apply lookup_alter_None.
  - by apply lookup_alter_None.
Qed.

Lemma later_add_user u d : later d (add_user u d).
Proof.
  intros [h v | j | j | v | |]; [.. | apply numbered_add_user]; unfold add_user; cbn; try done; intros [Hu H]; (split; [lia |]).
  - destruct H as [H | H]; [by left | right]. by rewrite lookup_insert_ne by lia.
  - by rewrite lookup_insert_ne by lia.
Qed.

Lemma later_drop_users gone d : later d (drop_users gone d).
Proof.
  intros [h u | j | j | u | |]; [.. | apply numbered_drop_users]; unfold drop_users; cbn; try done; intros [Hu H]; (split; [done |]).
  - destruct H as [(s & Hs & Hh & Hw & Hr) | H].
    + destruct (gone u) eqn:E.
      * right. apply map_lookup_filter_None. right. intros x _. cbn. congruence.
      * left. exists s. split_and!; try done. apply list_elem_of_In, filter_In. split; [by apply list_elem_of_In |].
        by rewrite Hw, E.
    + right. apply map_lookup_filter_None. by left.
  - intros x [Hx _]%list_elem_of_In%filter_In. apply H. by apply list_elem_of_In.
  - intros x [Hx _]%list_elem_of_In%filter_In. apply H. by apply list_elem_of_In.
  - apply map_lookup_filter_None. by left.
Qed.

Lemma later_revoke_where p d : later d (revoke_where p d).
Proof.
  intros [h u | j | j | u | |]; [.. | done]; unfold revoke_where, with_sessions; cbn; try done. intros [Hu [(s & Hs & Hh & Hw & Hr) | H]]; (split; [done |]).
  - left. exists (if p s then revoke s else s). split.
    + apply list_elem_of_fmap. by exists s.
    + by destruct (p s).
  - by right.
Qed.

Lemma later_add_session s d : later d (add_session s d).
Proof.
  intros [h u | j | j | u | |]; [.. | done]; unfold add_session; cbn; try done. intros [Hu [(x & Hx & H) | H]]; (split; [done |]).
  - left. exists x. split; [by apply elem_of_app; left | done].
  - by right.
Qed.

Lemma later_add_invite x d : (forall n, i_id (x n) = n) -> later d (add_invite x d).
Proof.
  intros Hid [h u | j | j | u | |]; [.. | by apply numbered_add_invite]; unfold add_invite; cbn; try done. intros [Hj H]. split; [lia |].
  intros y [Hy | ->%list_elem_of_singleton]%elem_of_app; [by apply H |]. rewrite Hid. lia.
Qed.

Lemma later_set_invite i f d : forward f -> later d (set_invite i f d).
Proof.
  intros Hf [h u | j | j | u | |]; [.. | by apply numbered_set_invite]; unfold set_invite, with_invites; cbn; try done. intros [Hj H]. split; [done |].
  intros y (x & -> & Hx)%list_elem_of_fmap. destruct (Hf x) as [Hid Hst].
  destruct (i_id x =? i); [rewrite Hid; intros E Hp; by apply (H x Hx E), Hst | by apply H].
Qed.

Lemma forward_status st t : st <> Pending -> forward (set_status st t).
Proof. by intros Hst x. Qed.

Lemma forward_status_keep st : st <> Pending -> forward (fun x => set_status st (accepted_at x) x).
Proof. by intros Hst x. Qed.

Lemma forward_extended n : forward (extended n).
Proof. by intros x. Qed.

Lemma later_add_token x d : (forall n, t_id (x n) = n) -> later d (add_token x d).
Proof.
  intros Hid [h u | j | j | u | |]; [.. | done]; unfold add_token; cbn; try done. intros [Hj H]. split; [lia |].
  intros y [Hy | ->%list_elem_of_singleton]%elem_of_app; [by apply H |]. rewrite Hid. lia.
Qed.

Lemma later_drop_token i d : later d (drop_token i d).
Proof.
  intros [h u | j | j | u | |]; [.. | done]; unfold drop_token, with_tokens; cbn; try done. intros [Hj H]. split; [done |].
  intros x [Hx _]%list_elem_of_In%filter_In. apply H. by apply list_elem_of_In.
Qed.

Lemma later_onboarding o d : later d (with_onboarding o d).
Proof. by intros []. Qed.

(** Writing the settings keeps setup finished. *)
Lemma later_config c d : (holds SetUp d -> auth_enabled c = true) -> later d (with_config c d).
Proof. intros Hc []; try done. intros H%Hc. by exists c. Qed.

Lemma later_set_config f d : (forall c, auth_enabled c = true -> auth_enabled (f c) = true) -> later d (set_config f d).
Proof.
  intros Hf. unfold set_config. destruct (config d) as [c |] eqn:E; [| done]. apply later_config.
  intros (c' & E' & Hc). simplify_eq. by apply Hf.
Qed.

#[export] Hint Resolve later_set_user later_add_user later_drop_users later_revoke_where later_add_session later_add_invite
  later_set_invite forward_status forward_status_keep forward_extended later_add_token later_drop_token later_onboarding
  later_config later_set_config : later.

(** Two updates in one commit. *)
Lemma later_compose f g d : later d (g d) -> later (g d) (f (g d)) -> later d (f (g d)).
Proof. apply transitivity. Qed.

(** *** The handlers *)

Section Handlers.
Context `{Libs}.

Lemma get_or_create_stays e : stays (get_or_create_settings e).
Proof.
  intros d. unfold get_or_create_settings. run. destruct (config d) as [c |] eqn:E.
  - destruct (truthy (jwt_secret c)); run; [done |]. apply later_config.
    intros (c' & E' & Hc). by simplify_eq.
  - run. apply later_config. intros (c' & E' & Hc). congruence.
Qed.
Hint Resolve get_or_create_stays : later.

Lemma record_session_stays e i q t cfg l : stays (record_session e i q t cfg l).
Proof.
  unfold record_session. solve_stays. apply stays_modify. intros d.
  apply (later_compose (add_session _)); auto with later.
Qed.
Hint Resolve record_session_stays : later.

Lemma issue_session_stays e i u q cfg l x : stays (issue_session e i u q cfg l x).
Proof. unfold issue_session. solve_stays. Qed.
Hint Resolve issue_session_stays : later.

Lemma revoke_session_stays sid i : stays (revoke_session sid i).
Proof. unfold revoke_session. solve_stays. Qed.

Lemma revoke_all_sessions_stays i x : stays (revoke_all_sessions i x).
Proof. unfold revoke_all_sessions. solve_stays. Qed.

Lemma revoke_token_session_stays t : stays (revoke_token_session t).
Proof. unfold revoke_token_session. solve_stays. Qed.

Lemma record_failed_login_stays e i cfg : stays (record_failed_login e i cfg).
Proof. unfold record_failed_login. solve_stays. Qed.

Lemma reset_login_attempts_stays i : stays (reset_login_attempts i).
Proof. unfold reset_login_attempts. solve_stays. Qed.
Hint Resolve revoke_session_stays revoke_all_sessions_stays revoke_token_session_stays record_failed_login_stays
  reset_login_attempts_stays : later.

Lemma refresh_stays i : stays (refresh i).
Proof. unfold refresh. solve_stays. Qed.
Hint Resolve refresh_stays : later.

Lemma insert_user_stays u er : stays (insert_user u er).
Proof. unfold insert_user. solve_stays. Qed.
Hint Resolve insert_user_stays : later.

Lemma verify_login_password_stays e env who p : stays (verify_login_password e env who p).
Proof. unfold verify_login_password. solve_stays. Qed.
Hint Resolve verify_login_password_stays : later.

Lemma login_stays e em cfg q v : stays (login e em cfg q v).
Proof. unfold login. solve_stays. Qed.
Hint Resolve login_stays : later.

Lemma login_compat_stays e env em p q : stays (login_compat e env em p q).
Proof. unfold login_compat. solve_stays. Qed.

Lemma reset_local_user_password_stays e i p seen : stays (reset_local_user_password e i p seen).
Proof. unfold reset_local_user_password. solve_stays. Qed.
Hint Resolve login_compat_stays reset_local_user_password_stays : later.

Lemma redeem_stays e t a x y : stays (redeem e t a x y).
Proof. unfold redeem, configured, reject_if_locked_out. solve_stays. Qed.
Hint Resolve redeem_stays : later.

Lemma pending_invite_stays e t : stays (pending_invite e t).
Proof. unfold pending_invite. solve_stays. Qed.

Lemma invite_payload_stays e t : stays (invite_payload e t).
Proof. unfold invite_payload. solve_stays. Qed.
Hint Resolve pending_invite_stays invite_payload_stays : later.

Lemma accept_invite_stays e t p n : stays (accept_invite e t p n).
Proof.
  unfold accept_invite. solve_stays. apply stays_modify. intros d.
  apply (later_compose (set_invite _ _)); auto with later.
Qed.
Hint Resolve accept_invite_stays : later.

Lemma delete_row_stays i : stays (delete_row i).
Proof. unfold delete_row. solve_stays. Qed.
Hint Resolve delete_row_stays : later.

Lemma register_stays e em p cfg n : stays (register e em p cfg n).
Proof. unfold register. solve_stays. Qed.
Hint Resolve register_stays : later.

End Handlers.
End AccountFacts.
