(* ===== verification/AccountHistory.v ===== *)
(** The accounts component as it runs: the routes as one type of calls, and the
    worker processes that serve them, each with its own cache, over shared tables
    and a shared Redis.  A request that misses its cache validates against the
    tables and stores the answer in two separate steps, between which anything
    may happen, and so may it between a thread's taking over a new flush epoch and
    its clearing of the cache; workers restart; Redis may be out of reach of any one call. *)
From S2P Require Import Prelude Sha256 Hmac Regex Rbac Accounts Login Bootstrap AccountAdmin SessionCache AccountFacts.
Open Scope Z_scope.

Module AccountHistory.
Import Accounts Login Bootstrap AccountAdmin SessionCache AccountFacts.

Inductive call :=
| CLogin (env : environment) (em p : string) (q : request)
| CForceChange (token p : string) (q : request)
| CVaultReset (active : option string) (em key p : string) (q : request)
| CChangePassword (who : option Z) (current p : string) (q : request)
| CRevokeOthers (who : option Z) (q : request)
| CRevokeSession (who : option Z) (sid : Z)
| CLogout (q : request)
| CMfaSetup (i : Z)
| CMfaActivate (i : Z) (code : string) (q : request)
| CMfaVerify (token code : string) (q : request)
| CMfaDisable (i : Z) (code : string)
| CMfaRegenerate (i : Z) (code : string)
| CRegister (em p : string) (name : option string)
| CAcceptInvite (token p : string) (name : option string) (q : request)
| CConsumeInvite (token em : string)
| CDemo (q : request)
| CDeleteAccount (i : Z)
| CBootstrap (env : environment) (given em p : string) (name : option string) (m : smtp) (key : string) (written : bool)
| CBootstrapOAuth (env : environment) (given oauth : string) (name : option string) (m : smtp) (key : string) (written : bool)
| CStatus (env : environment)
| COnboarding (step : string)
| CSettings
| CCreateUser (em p r : string) (name : option string)
| CCreateLocalUser (env : environment) (em r : string) (name : option string) (generate : bool) (manual : option string)
| CUpdateUser (i : Z) (p : user_update)
| CDeleteUser (i : Z) (permanent : bool)
| CResetPassword (env : environment) (actor i : Z)
| CRevokeUserSessions (i : Z)
| CUnlock (i : Z)
| CMasquerade (actor i : Z) (q : request)
| CCreateInvite (actor : Z) (em r : string)
| CUpdateInvite (iid : Z) (a : invite_action)
| CServiceAccount (actor : Z) (label : option string) (sc : list string) (x : option (option Z))
| CApiToken (actor : Z) (label : option string) (sc : option (list string)) (x : option (option Z))
| CRevokeToken (i : Z)
| CRotateToken (actor i : Z).

Definition ignored {A} (m : M A) : M unit := _ ← m; mret tt.

Section History.
Context `{Libs}.

Definition run (c : call) (e : draw) : M unit :=
  match c with
  | CLogin env em p q => ignored (login_compat e env em p q)
  | CForceChange t p q => ignored (force_change_password e t p q)
  | CVaultReset a em k p q => ignored (vault_reset_password e a em k p q)
  | CChangePassword who cur p q => change_password e who cur p q
  | CRevokeOthers who q => revoke_all_other_sessions who q
  | CRevokeSession who sid => revoke_own_session who sid
  | CLogout q => logout q
  | CMfaSetup i => ignored (mfa_setup e i)
  | CMfaActivate i code q => ignored (mfa_activate e i code q)
  | CMfaVerify t code q => ignored (mfa_verify e t code q)
  | CMfaDisable i code => mfa_disable e i code
  | CMfaRegenerate i code => ignored (mfa_regenerate_backup_codes e i code)
  | CRegister em p n => ignored (register_user e em p n)
  | CAcceptInvite t p n q => ignored (accept_invite_endpoint e t p n q)
  | CConsumeInvite t em => ignored (consume_invite_for_oauth e t em)
  | CDemo q => ignored (create_demo_session e q)
  | CDeleteAccount i => delete_account i
  | CBootstrap env g em p n m k w => ignored (bootstrap_initialize e env g em p n m k w)
  | CBootstrapOAuth env g o n m k w => ignored (bootstrap_initialize_oauth e env g o n m k w)
  | CStatus env => ignored (bootstrap_status e env)
  | COnboarding s => ignored (set_onboarding_step s)
  | CSettings => ignored (get_or_create_settings e)
  | CCreateUser em p r n => ignored (create_user e em p r n)
  | CCreateLocalUser env em r n g m => ignored (create_local_user e env em r n g m)
  | CUpdateUser i p => update_user i p
  | CDeleteUser i perm => delete_user i perm
  | CResetPassword env a i => ignored (reset_user_password e env a i)
  | CRevokeUserSessions i => ignored (revoke_user_sessions i)
  | CUnlock i => unlock_user_endpoint i
  | CMasquerade a i q => ignored (masquerade_user e a i q)
  | CCreateInvite a em r => ignored (create_invite_endpoint e a em r)
  | CUpdateInvite i a => update_invite e i a
  | CServiceAccount a l sc x => ignored (create_service_account e a l sc x)
  | CApiToken a l sc x => ignored (create_api_token e a l sc x)
  | CRevokeToken i => revoke_api_token i
  | CRotateToken a i => ignored (rotate_api_token e a i)
  end.

(** *** Every route moves the tables along [later] *)

#[local] Hint Resolve get_or_create_stays record_session_stays issue_session_stays revoke_session_stays
  revoke_all_sessions_stays revoke_token_session_stays record_failed_login_stays reset_login_attempts_stays refresh_stays
  insert_user_stays login_compat_stays reset_local_user_password_stays redeem_stays pending_invite_stays
  invite_payload_stays accept_invite_stays delete_row_stays register_stays : later.

Lemma ensure_later e env c d : config d = Some c -> later d (post (ensure_bootstrap_token e env c d)).
Proof.
  intros E. unfold ensure_bootstrap_token. destruct (auth_enabled c) eqn:Ha; [reflexivity |].
  match goal with |- context [if negb ?b then _ else _] => destruct b end; cbn [negb]; [| reflexivity].
  assert (later d (with_config (with_bootstrap (Some (Sha256.hexdigest (setup_token env)))
    (Some (now e + hours (bootstrap_token_ttl_hours env))) None c) d)) as Hl.
  { apply later_config. intros (c' & E' & Hc); simplify_eq; congruence. }
  destruct (nonempty (setup_token env)).
  - destruct (MIN_BOOTSTRAP_TOKEN_LEN <=? String.length (setup_token env))%nat; [exact Hl | reflexivity].
  - destruct (token_file_writable env); [| reflexivity].
    apply (later_config _ d). intros (c' & E' & Hc); simplify_eq; congruence.
Qed.

Lemma bind_lock_settings {B} (f : settings -> M B) d :
  (lock_bootstrap_settings ≫= f) d =
  match config d with Some c => f c d | None => Outcome (Err (Http 503 "Bootstrap settings unavailable")) d [] end.
Proof.
  unfold lock_bootstrap_settings, mbind, M_bind, gets. cbn. destruct (config d) as [c |]; cbn; [| done]. by destruct (f c d).
Qed.

Lemma lock_settings_stays : stays lock_bootstrap_settings.
Proof. unfold lock_bootstrap_settings. solve_stays. Qed.
#[local] Hint Resolve lock_settings_stays : later.

Lemma verify_bootstrap_stays e env g : stays (verify_bootstrap_token e env g).
Proof.
  intros d. unfold verify_bootstrap_token. rewrite bind_lock_settings. destruct (config d) as [c |] eqn:E; [| done]. run.
  destruct (auth_enabled c) eqn:Ha; [done |]. cbn [negb].
  match goal with |- later _ (post ((_ ≫= ?f) _)) => assert (forall x, stays (f x)) as Hf by solve_stays end.
  destruct (res (ensure_bootstrap_token e env c d)) as [x | er] eqn:Ee.
  - rewrite (bind_ok _ _ _ x Ee). cbn [post]. etransitivity; [by apply ensure_later | apply (Hf x)].
  - rewrite (bind_err _ _ _ er Ee). by apply ensure_later.
Qed.
#[local] Hint Resolve verify_bootstrap_stays : later.

Lemma finish_bootstrap_stays e i cfg k w : stays (finish_bootstrap e i cfg k w).
Proof.
  unfold finish_bootstrap, generate_and_persist_vault_key. solve_stays.
Qed.
#[local] Hint Resolve finish_bootstrap_stays : later.

Lemma bootstrap_initialize_stays e env g em p n m k w : stays (bootstrap_initialize e env g em p n m k w).
Proof.
  unfold bootstrap_initialize. solve_stays. apply stays_modify. intros d.
  etransitivity; [apply (later_drop_users (fun _ => true)) |]. etransitivity; [eapply later_add_user |].
  by apply later_config.
Qed.

Lemma bootstrap_oauth_stays e env g o n m k w : stays (bootstrap_initialize_oauth e env g o n m k w).
Proof.
  unfold bootstrap_initialize_oauth. solve_stays. apply stays_modify. intros d.
  etransitivity; [eapply later_set_user |]. by apply later_config.
Qed.

Lemma bootstrap_status_stays e env : stays (bootstrap_status e env).
Proof.
  intros d. unfold bootstrap_status. run.
  match goal with |- later _ (post ((_ ≫= ?f) _)) => assert (forall x, stays (f x)) as Hf by solve_stays end.
  destruct (config d) as [c |] eqn:E; [| rewrite bind_mret; apply (Hf None)].
  destruct (res (ensure_bootstrap_token e env c d)) as [x | er] eqn:Ee.
  - erewrite bind_ok by (erewrite bind_ok by exact Ee; reflexivity). cbn [post].
    erewrite (bind_ok (ensure_bootstrap_token e env c)) by exact Ee. cbn [post].
    etransitivity; [by apply (ensure_later e env c) | apply (Hf (Some x))].
  - erewrite bind_err by (erewrite bind_err by exact Ee; reflexivity). cbn [post].
    erewrite (bind_err (ensure_bootstrap_token e env c)) by exact Ee. by apply ensure_later.
Qed.
#[local] Hint Resolve bootstrap_initialize_stays bootstrap_oauth_stays bootstrap_status_stays : later.

Lemma rotate_stays e a i : stays (rotate_api_token e a i).
Proof.
  unfold rotate_api_token, token_row, configured. solve_stays. apply stays_modify. intros d.
  apply (later_compose (drop_token i)); [by apply later_add_token | apply later_drop_token].
Qed.
#[local] Hint Resolve rotate_stays : later.

Lemma run_stays c e : stays (run c e).
Proof.
  destruct c; cbn [run]; unfold ignored, force_change_password, vault_reset_password, change_password,
    revoke_all_other_sessions, revoke_own_session, logout, mfa_setup, mfa_activate, mfa_verify, mfa_disable,
    mfa_regenerate_backup_codes, register_user, accept_invite_endpoint, consume_invite_for_oauth, create_demo_session,
    delete_account, set_onboarding_step, create_user, create_local_user, update_user, delete_user, delete_user_permanent,
    reset_user_password, revoke_user_sessions, unlock_user_endpoint, unlock_user, masquerade_user, create_invite_endpoint,
    create_invite, update_invite, revoke_invite, create_service_account, create_api_token, revoke_api_token, own_user,
    target_user, token_row, parse_expiry, configured; solve_stays.
Qed.

(** A sequence of calls. *)
Fixpoint runs (cs : list (call * draw)) (d : db) : db :=
  match cs with [] => d | (c, e) :: cs => runs cs (post (run c e d)) end.

Lemma runs_later cs d : later d (runs cs d).
Proof.
  revert d; induction cs as [| [c e] cs IH]; intros d; [reflexivity |]. cbn [runs].
  etransitivity; [apply run_stays | apply IH].
Qed.

(** *** Workers *)

(** A validation that has read the tables and not yet stored its answer: the
    worker, the token's hash, and whom it resolved to. *)
Record flight := Flight { f_worker : nat; f_hash : string; f_who : identity }.

(** [stores] records what was ever put in a cache, and when. *)
Record world := World {
  tables : db;
  nodes : nat -> worker;
  shared : redis;
  inflight : list flight;
  stores : list (flight * Z);
  clock : Z
}.

Definition set_node (k : nat) (w : worker) (n : nat -> worker) : nat -> worker := fun j => if (j =? k)%nat then w else n j.

(** The invalidations of one handler, on its worker. *)
Fixpoint publish (t : Z) (reach : bool) (l : list invalidation) (w : worker) (r : redis) : worker * redis :=
  match l with
  | [] => (w, r)
  | i :: l => let '(w, r) := invalidate t reach i w r in publish t reach l w r
  end.

Definition served (c : call) (e : draw) (k : nat) (reach : bool) (W : world) : world :=
  let o := run c e (tables W) in
  let p := publish (clock W) reach (sent o) (nodes W k) (shared W) in
  World (post o) (set_node k p.1 (nodes W)) p.2 (inflight W) (stores W) (clock W).

Definition looked_up (k : nat) (h : string) (reach : bool) (W : world) : option identity * world :=
  let g := session_cache_look (clock W) reach h (shared W) (nodes W k) in
  (g.1, World (tables W) (set_node k g.2 (nodes W)) (shared W) (inflight W) (stores W) (clock W)).

Definition cleared (k : nat) (W : world) : world :=
  World (tables W) (set_node k (session_cache_clear (nodes W k)) (nodes W)) (shared W) (inflight W) (stores W) (clock W).

Definition validated (raw : string) (W : world) : option identity :=
  cfg ← config (tables W);
  secret ← truthy (jwt_secret cfg);
  validate (clock W) raw secret (tables W).

Definition stored (f : flight) (rest : list flight) (W : world) : world :=
  World (tables W) (set_node (f_worker f) (session_cache_set (clock W) (f_hash f) (f_who f) (nodes W (f_worker f))) (nodes W))
        (shared W) rest ((f, clock W) :: stores W) (clock W).

Inductive step (W : world) : world -> Prop :=
| step_wait t : clock W <= t -> step W (World (tables W) (nodes W) (shared W) (inflight W) (stores W) t)
| step_call c e k reach : now e = clock W -> step W (served c e k reach W)
| step_lookup k h reach : step W (looked_up k h reach W).2
| step_clear k : (0 < clears (nodes W k))%nat -> step W (cleared k W)
| step_validate k raw who : validated raw W = Some who ->
    step W (World (tables W) (nodes W) (shared W) (Flight k (hash_token raw) who :: inflight W) (stores W) (clock W))
| step_store f rest : inflight W ≡ₚ f :: rest -> step W (stored f rest W)
| step_restart k : step W (World (tables W) (set_node k (Worker [] None 0) (nodes W)) (shared W)
    (List.filter (fun f => negb (f_worker f =? k)%nat) (inflight W)) (stores W) (clock W)).

Inductive steps : world -> world -> Prop :=
| steps_nil W : steps W W
| steps_cons W W' W'' : steps W W' -> step W' W'' -> steps W W''.

(** Before any request: empty caches, no flush yet, ids given out in order. *)
Definition fresh (W : world) : Prop :=
  (forall k, nodes W k = Worker [] None 0) /\ flush_epoch (shared W) = None /\ inflight W = [] /\ stores W = [] /\
  holds Numbered (tables W).

Definition reachable (W : world) : Prop := exists W0, fresh W0 /\ steps W0 W.

End History.
End AccountHistory.
