(* ===== verification/SessionSafety.v ===== *)
(** What the session cache guarantees across worker processes: an invalidation
    that reaches Redis silences a revoked token on every worker at once (a flush,
    once each worker has emptied its cache), an
    answer is served from a cache for ten seconds at most, and the cache is
    bounded. *)
From S2P Require Import Prelude Sha256 Hmac Regex Rbac Accounts Login Bootstrap AccountAdmin SessionCache AccountFacts AccountHistory.
Open Scope Z_scope.

Module SessionSafety.
Import Accounts Login Bootstrap AccountAdmin SessionCache AccountFacts AccountHistory.

(** *** The cache as a dictionary *)

Lemma lookup_elem h c v : cache_lookup h c = Some v -> (h, v) ∈ c.
Proof.
  unfold cache_lookup. destruct (List.find (has_key h) c) as [[k x] |] eqn:E; [| done]. intros [= <-].
  apply find_some in E as [Hin Hk%String.eqb_eq]. cbn in *. subst. by apply list_elem_of_In.
Qed.

Lemma pop_elem h p c : p ∈ cache_pop h c -> p ∈ c.
Proof. unfold cache_pop. rewrite !list_elem_of_In, filter_In. tauto. Qed.

Lemma put_elem h v p c : p ∈ cache_put h v c -> p = (h, v) \/ p ∈ c.
Proof.
  unfold cache_put. destruct (existsb (has_key h) c).
  - intros (x & -> & Hx)%list_elem_of_fmap. destruct (has_key h x); auto.
  - intros [? | ->%list_elem_of_singleton]%elem_of_app; auto.
Qed.

Lemma pops_elem (ps : cache) p c : p ∈ foldl (fun c p => cache_pop p.1 c) c ps -> p ∈ c.
Proof. revert c; induction ps as [| q ps IH]; intros c; cbn [foldl]; [done |]. intros Hp%IH. by eapply pop_elem. Qed.

Lemma set_elem t h who w p : p ∈ cached (session_cache_set t h who w) -> p = (h, Entry who.1 (t + SESSION_CACHE_TTL) who.2) \/ p ∈ cached w.
Proof.
  unfold session_cache_set. cbn [cached]. intros [-> | Hp]%put_elem; [by left | right].
  destruct (max_size <=? _)%nat; [by eapply pops_elem | done].
Qed.

Lemma look_elem t reach h r w p : p ∈ cached (session_cache_look t reach h r w).2 -> p ∈ cached w.
Proof.
  unfold session_cache_look. destruct (cache_lookup h (cached w)) as [v |]; [| done].
  destruct (e_expiry v <=? t); [by apply pop_elem |]. unfold shared_cache_state. destruct reach; cbn [negb]; [| done].
  destruct (marked t h r); [by apply pop_elem |]. by case_bool_decide.
Qed.

(** *** The bound on its size *)

Lemma pop_length h c : (length (cache_pop h c) <= length c)%nat.
Proof. unfold cache_pop. induction c as [| p c IH]; cbn; [lia |]. destruct (negb _); cbn; lia. Qed.

Lemma pop_shrinks p c : p ∈ c -> (length (cache_pop p.1 c) < length c)%nat.
Proof.
  unfold cache_pop. induction c as [| q c IH]; [by intros ?%elem_of_nil |]. intros [<- | Hp]%elem_of_cons; cbn.
  - unfold has_key at 1. rewrite String.eqb_refl. cbn. pose proof (pop_length p.1 c). unfold cache_pop in *. lia.
  - specialize (IH Hp). destruct (negb _); cbn; lia.
Qed.

Lemma put_length h v c : (length (cache_put h v c) <= S (length c))%nat.
Proof. unfold cache_put. destruct (existsb _ c); [rewrite length_map; lia | rewrite length_app; cbn; lia]. Qed.

(** Keys are unique in a [dict]. *)
Definition keyed (c : cache) : Prop := NoDup c.*1.

Lemma keyed_pop h c : keyed c -> keyed (cache_pop h c).
Proof.
  unfold keyed, cache_pop. induction c as [| p c IH]; cbn; [done |]. intros [Hp Hc]%NoDup_cons.
  destruct (negb (has_key h p)); [| by apply IH]. cbn. apply NoDup_cons. split; [| by apply IH].
  intros (q & E & Hq)%list_elem_of_fmap. apply Hp, list_elem_of_fmap. exists q. split; [done |]. by apply (pop_elem h).
Qed.

Lemma keyed_put h v c : keyed c -> keyed (cache_put h v c).
Proof.
  unfold keyed, cache_put. destruct (existsb (has_key h) c) eqn:E; intros Hc.
  - replace ((map (fun p => if has_key h p then (h, v) else p) c).*1) with (c.*1); [done |].
    rewrite <- list_fmap_compose. apply list_fmap_ext. intros _ [k x] _. unfold has_key, compose. cbn.
    destruct (String.eqb_spec k h); by subst.
  - rewrite fmap_app. apply NoDup_app. split_and!; [done | | apply NoDup_singleton].
    intros k (p & -> & Hp)%list_elem_of_fmap Hk. cbn in Hk. apply list_elem_of_singleton in Hk.
    rewrite existsb_false in E. specialize (E p Hp). unfold has_key in E. by apply String.eqb_neq in E.
Qed.

Abbreviation pops := (foldl (fun c (p : string * entry) => cache_pop p.1 c)).

Lemma keyed_pops l c : keyed c -> keyed (pops c l).
Proof. revert c; induction l as [| p l IH]; intros c Hc; cbn [foldl]; [done |]. by apply IH, keyed_pop. Qed.

Lemma keyed_set t h who w : keyed (cached w) -> keyed (cached (session_cache_set t h who w)).
Proof.
  intros Hw. unfold session_cache_set. cbn [cached]. apply keyed_put.
  destruct (max_size <=? _)%nat; [by apply keyed_pops | done].
Qed.

(** Popping entries the dictionary has, under keys that differ, removes as many. *)
Lemma pops_length (l c : cache) : NoDup l.*1 -> (forall p, p ∈ l -> p ∈ c) -> (length (pops c l) + length l <= length c)%nat.
Proof.
  revert c; induction l as [| p l IH]; intros c Hl Hc; cbn [foldl length]; [lia |].
  apply NoDup_cons in Hl as [Hp Hl]. specialize (IH (cache_pop p.1 c) Hl).
  assert (p ∈ c) as Hpc by (apply Hc; constructor). pose proof (pop_shrinks p c Hpc).
  enough (length (pops (cache_pop p.1 c) l) + length l <= length (cache_pop p.1 c))%nat by lia.
  apply IH. intros q Hq. unfold cache_pop. apply list_elem_of_In, filter_In. split.
  - apply list_elem_of_In, Hc. by constructor.
  - unfold has_key. apply negb_true_iff, String.eqb_neq. intros E. apply Hp. rewrite <- E. by apply list_elem_of_fmap_2.
Qed.

Lemma half : (max_size / 2 = 1000)%nat.
Proof. reflexivity. Qed.

Lemma evicted_length c : keyed c -> (max_size <= length c)%nat ->
  (length (pops c (take (max_size / 2) (py_sorted soonest c))) + 1000 <= length c)%nat.
Proof.
  intros Hc Hlen. pose proof (py_sorted_perm soonest c) as Hp.
  assert (length (take (max_size / 2) (py_sorted soonest c)) = 1000%nat) as Ht.
  { rewrite length_take, Hp, half. unfold max_size in Hlen. lia. }
  pose proof (pops_length (take (max_size / 2) (py_sorted soonest c)) c) as H. rewrite Ht in H. apply H.
  - rewrite fmap_take. eapply (sublist_NoDup _ (py_sorted soonest c).*1); [| apply sublist_take]. by rewrite Hp.
  - intros p Hin. rewrite <- Hp. eapply elem_of_sublist; [exact Hin | apply sublist_take].
Qed.

Lemma set_bound t h who w : keyed (cached w) -> (length (cached w) <= max_size)%nat ->
  (length (cached (session_cache_set t h who w)) <= max_size)%nat.
Proof.
  intros Hk Hl. unfold session_cache_set. cbn [cached]. etransitivity; [apply put_length |].
  destruct (max_size <=? length (cached w))%nat eqn:E.
  - apply Nat.leb_le in E. pose proof (evicted_length _ Hk E). unfold max_size in *. lia.
  - apply Nat.leb_gt in E. lia.
Qed.

(** *** Epochs and markers *)

Definition epoch (o : option Z) : Z := default 0 o.
Definition proper_epoch (o : option Z) : Prop := match o with Some n => 1 <= n | None => True end.

Lemma epoch_inj a b : proper_epoch a -> proper_epoch b -> epoch a = epoch b -> a = b.
Proof. destruct a, b; cbn; intros; f_equal; lia. Qed.

(** What is always true of one worker and Redis at time [t]. *)
Record sound (t : Z) (w : worker) (r : redis) : Prop := Sound {
  sound_expiry h v : (h, v) ∈ cached w -> e_expiry v <= t + SESSION_CACHE_TTL;
  sound_local : proper_epoch (local_epoch w);
  sound_flush : proper_epoch (flush_epoch r);
  sound_order : epoch (local_epoch w) <= epoch (flush_epoch r);
  sound_keys : keyed (cached w);
  sound_size : (length (cached w) <= max_size)%nat
}.

(** The entry is not served any more: it has run out, or its token is marked for
    as long as it lasts; or, where flushes count ([b]), the worker has one to
    notice or to carry out. *)
Definition muted (b : bool) (t : Z) (h : string) (v : entry) (w : worker) (r : redis) : Prop :=
  e_expiry v <= t \/ (exists until, markers r !! h = Some until /\ e_expiry v <= until) \/
  (b = true /\ (epoch (local_epoch w) < epoch (flush_epoch r) \/ (0 < clears w)%nat)).

Lemma muted_not_served b t reach h r w u sc w' :
  (forall v, (h, v) ∈ cached w -> e_user v = u -> muted b t h v w r) -> (b = true -> clears w = 0%nat) ->
  session_cache_look t reach h r w <> (Some (u, sc), w').
Proof.
  intros Hm Hb. unfold session_cache_look. destruct (cache_lookup h (cached w)) as [v |] eqn:E; [| done].
  apply lookup_elem in E. destruct (e_expiry v <=? t) eqn:Ht; [done |]. apply Z.leb_gt in Ht.
  unfold shared_cache_state. destruct reach; cbn [negb]; [| done]. destruct (marked t h r) eqn:Hk; [done |].
  case_bool_decide as He; [| done]. intros [= Hu _ _]. destruct (Hm v E Hu) as [? | [(until & Hr & Hv) | [Eb Hl]]]; [lia | |].
  - unfold marked in Hk. rewrite Hr in Hk. apply Z.ltb_ge in Hk. lia.
  - rewrite (Hb Eb), He in Hl. lia.
Qed.

(** *** Invalidation *)

(** What an invalidation does to a worker and to Redis, seen from another token:
    entries only go, flushes and markers only get stronger. *)
Record calmer (t : Z) (w w' : worker) (r r' : redis) : Prop := Calmer {
  calm_cache p : p ∈ cached w' -> p ∈ cached w;
  calm_keys : keyed (cached w) -> keyed (cached w');
  calm_size : (length (cached w') <= length (cached w))%nat;
  calm_local : local_epoch w' = local_epoch w;
  calm_clears : clears w' = clears w;
  calm_flush : flush_epoch r' = flush_epoch r \/ epoch (flush_epoch r) < epoch (flush_epoch r') /\ (proper_epoch (flush_epoch r) -> proper_epoch (flush_epoch r'));
  calm_marker h : markers r' !! h = markers r !! h \/ markers r' !! h = Some (t + REVOKED_MARKER_TTL)
}.

Lemma calmer_refl t w r : calmer t w w r r.
Proof. split; auto. Qed.

Lemma calmer_trans t w1 w2 w3 r1 r2 r3 : calmer t w1 w2 r1 r2 -> calmer t w2 w3 r2 r3 -> calmer t w1 w3 r1 r3.
Proof.
  intros [A1 B1 C1 D1 G1 E1 F1] [A2 B2 C2 D2 G2 E2 F2]. split; [auto | auto | lia | congruence | congruence | |].
  - destruct E1 as [E1 | [E1 P1]], E2 as [E2 | [E2 P2]]; rewrite ?E1, ?E2 in *; auto; right; (split; [lia | auto]).
  - intros h. destruct (F2 h) as [-> | ->]; auto.
Qed.

Lemma incr_epoch r : proper_epoch (flush_epoch r) -> epoch (flush_epoch r) < epoch (flush_epoch (incr r)) /\ proper_epoch (flush_epoch (incr r)).
Proof. unfold incr, proper_epoch, epoch. cbn. destruct (flush_epoch r); cbn; lia. Qed.

Lemma invalidate_calmer t reach i w r : calmer t w (invalidate t reach i w r).1 r (invalidate t reach i w r).2.
Proof.
  destruct i as [raw | |]; cbn [invalidate invalidate_session_cache invalidate_token_cache fst snd]; split; cbn [with_cache cached local_epoch clears];
    try done; try (intros p; apply pop_elem); try apply keyed_pop; try apply pop_length;
    try (by intros ? ?%elem_of_nil); try (intros; apply NoDup_nil_2); try (cbn; lia); try (destruct reach; by left).
  - intros h. destruct reach; [| by left]. cbn. destruct (decide (h = hash_token raw)) as [-> | Hne].
    + right. apply lookup_insert_eq.
    + left. by rewrite lookup_insert_ne.
  - destruct reach; [right | by left]. split; [unfold incr, epoch; cbn; lia |]. intros Hp. by apply incr_epoch.
Qed.

Lemma publish_calmer t reach l w r : calmer t w (publish t reach l w r).1 r (publish t reach l w r).2.
Proof.
  revert w r; induction l as [| i l IH]; intros w r; cbn [publish]; [apply calmer_refl |].
  pose proof (invalidate_calmer t reach i w r) as H1. destruct (invalidate t reach i w r) as [w1 r1].
  eapply calmer_trans; [exact H1 | apply IH].
Qed.

(** The invalidation [i] is about the token with hash [h]. *)
Definition covers (b : bool) (h : string) (i : invalidation) : Prop :=
  match i with DropToken raw => hash_token raw = h | DropAll => b = true | DropLocal => False end.

(** The token is marked until well after any entry made by now has run out, or
    there is a flush no worker has seen. *)
Definition announced (b : bool) (t : Z) (h : string) (r r' : redis) : Prop :=
  markers r' !! h = Some (t + REVOKED_MARKER_TTL) \/ (b = true /\ epoch (flush_epoch r) < epoch (flush_epoch r')).

Lemma calmer_epoch t w w' r r' : calmer t w w' r r' -> epoch (flush_epoch r) <= epoch (flush_epoch r').
Proof. intros [_ _ _ _ _ [-> | [? _]] _]; lia. Qed.

Lemma announced_calmer b t h w w' r r' r'' : announced b t h r r' -> calmer t w w' r' r'' -> announced b t h r r''.
Proof.
  intros H Hc. pose proof (calmer_epoch _ _ _ _ _ Hc). destruct H as [Hm | [Hb He]]; [left | right; split; [done | lia]].
  destruct Hc as [_ _ _ _ _ _ Hk]. destruct (Hk h) as [-> | ->]; done.
Qed.

Lemma publish_announces b t l w r h : (exists i, i ∈ l /\ covers b h i) -> announced b t h r (publish t true l w r).2.
Proof.
  revert w r; induction l as [| j l IH]; intros w r (i & Hi & Hc); [by apply elem_of_nil in Hi |].
  cbn [publish]. pose proof (invalidate_calmer t true j w r) as Hj.
  assert (i = j -> announced b t h r (invalidate t true j w r).2) as Hann.
  { intros <-. destruct i as [raw | |]; cbn in Hc |- *; [| right; split; [done | unfold incr, epoch; cbn; lia] | done].
    left. cbn. by rewrite Hc, lookup_insert_eq. }
  destruct (invalidate t true j w r) as [w1 r1]. cbn [fst snd] in *.
  apply elem_of_cons in Hi as [-> | Hi].
  - eapply announced_calmer; [by apply Hann | apply publish_calmer].
  - destruct (IH w1 r1 (ex_intro _ i (conj Hi Hc))) as [Hm | [Hb He]]; [by left | right]. apply calmer_epoch in Hj. split; [done | lia].
Qed.

Lemma announced_mutes b t h v w r r' :
  announced b t h r r' -> e_expiry v <= t + SESSION_CACHE_TTL -> epoch (local_epoch w) <= epoch (flush_epoch r) -> muted b t h v w r'.
Proof.
  intros [Hm | [Hb He]] Hx Ho; right; [left | right; split; [done | lia]]. exists (t + REVOKED_MARKER_TTL). split; [done |].
  unfold REVOKED_MARKER_TTL, SESSION_CACHE_TTL, seconds in *. lia.
Qed.

Lemma muted_calmer b t h v w w1 w' r r' :
  muted b t h v w r -> calmer t w1 w' r r' -> e_expiry v <= t + SESSION_CACHE_TTL -> muted b t h v w r'.
Proof.
  intros H Hc Hx. pose proof (calmer_epoch _ _ _ _ _ Hc). destruct H as [? | [(m & Hm & Hv) | [Hb Hl]]]; [by left | | right; right; split; [done | lia]].
  right; left. destruct Hc as [_ _ _ _ _ _ Hk]. destruct (Hk h) as [E | E]; [by exists m; rewrite E |].
  exists (t + REVOKED_MARKER_TTL). split; [done |]. unfold REVOKED_MARKER_TTL, SESSION_CACHE_TTL, seconds in *. lia.
Qed.

(** The same on the worker the invalidation ran on. *)
Lemma muted_own b t h v w w' r r' :
  muted b t h v w r -> calmer t w w' r r' -> e_expiry v <= t + SESSION_CACHE_TTL -> muted b t h v w' r'.
Proof.
  intros Hm Hc Hx. destruct (muted_calmer _ _ _ _ _ _ _ _ _ Hm Hc Hx) as [? | [? | Hl]]; [by left | by right; left |].
  right; right. by rewrite (calm_local _ _ _ _ _ Hc), (calm_clears _ _ _ _ _ Hc).
Qed.

(** *** The invariant of a running system *)

Section Running.
Context `{Libs}.

Definition healthy (W : world) : Prop := forall k, sound (clock W) (nodes W k) (shared W).

Lemma sound_calmer t w w1 w' r r' : sound t w r -> calmer t w1 w' r r' -> sound t w r'.
Proof.
  intros [A B C D E F] Hc. pose proof (calmer_epoch _ _ _ _ _ Hc). split; try done; [| lia].
  destruct Hc as [_ _ _ _ _ [-> | [_ Hp]] _]; auto.
Qed.

Lemma sound_calmer_own t w w' r r' : sound t w r -> calmer t w w' r r' -> sound t w' r'.
Proof.
  intros Hs Hc. pose proof (sound_calmer _ _ _ _ _ _ Hs Hc) as [A B C D E F]. destruct Hc as [G1 G2 G3 G4 _ _ _].
  split; rewrite ?G4; auto; [| lia]. intros h v Hv. by apply (A h), G1.
Qed.

Lemma sound_look t reach h w r : sound t w r -> sound t (session_cache_look t reach h r w).2 r.
Proof.
  intros [A B C D E F]. unfold session_cache_look. destruct (cache_lookup h (cached w)) as [v |]; [| by split].
  assert (sound t (with_cache (cache_pop h (cached w)) w) r) as Hpop.
  { split; cbn; auto. { intros k x Hx%pop_elem. eauto. } { by apply keyed_pop. } { pose proof (pop_length h (cached w)). lia. } }
  destruct (e_expiry v <=? t); [done |]. unfold shared_cache_state. destruct reach; cbn [negb]; [| by split].
  destruct (marked t h r); [done |]. case_bool_decide; by split.
Qed.

Lemma sound_clear t w r : sound t w r -> sound t (session_cache_clear w) r.
Proof. intros [A B C D E F]. split; cbn; [by intros ? ? ?%elem_of_nil | done | done | done | apply NoDup_nil_2 | lia]. Qed.

Lemma sound_set t h who w r : sound t w r -> sound t (session_cache_set t h who w) r.
Proof.
  intros [A B C D E F]. split; [| done | done | done | by apply keyed_set | by apply set_bound].
  intros k x [[= -> ->] | Hx]%set_elem; [cbn; lia | eauto].
Qed.

Lemma sound_restart t w r : sound t w r -> sound t (Worker [] None 0) r.
Proof.
  intros [A B C D E F]. split; cbn; [by intros ? ? ?%elem_of_nil | done | done | | apply NoDup_nil_2 | lia].
  unfold epoch. destruct (flush_epoch r); cbn in *; lia.
Qed.

Lemma sound_wait t t' w r : t <= t' -> sound t w r -> sound t' w r.
Proof. intros Ht [A B C D E F]. split; auto. intros h v Hv%A. lia. Qed.

Lemma set_node_at {P : worker -> Prop} k w n j : P w -> P (n j) -> P (set_node k w n j).
Proof. unfold set_node. by destruct (j =? k)%nat. Qed.

Lemma step_healthy W W' : step W W' -> healthy W -> healthy W'.
Proof.
  intros [t Ht | c e k reach He | k h reach | k Hk | k raw who Hv | f rest Hf | k] Hh j; pose proof (Hh j) as Hj; cbn.
  - by eapply sound_wait.
  - unfold set_node. pose proof (publish_calmer (clock W) reach (sent (run c e (tables W))) (nodes W k) (shared W)) as Hc.
    destruct (Nat.eqb_spec j k) as [-> | _]; [by eapply sound_calmer_own | by eapply sound_calmer].
  - apply (set_node_at (P := fun w => sound (clock W) w (shared W))); [apply sound_look, Hh | done].
  - apply (set_node_at (P := fun w => sound (clock W) w (shared W))); [apply sound_clear, Hh | done].
  - done.
  - apply (set_node_at (P := fun w => sound (clock W) w (shared W))); [apply sound_set, Hh | done].
  - apply (set_node_at (P := fun w => sound (clock W) w (shared W))); [exact (sound_restart _ _ _ (Hh k)) | done].
Qed.

Lemma fresh_healthy W : fresh W -> healthy W.
Proof.
  intros (Hn & Hf & _) k. rewrite Hn. split; cbn; rewrite ?Hf; cbn; try done; try lia; [by intros ? ? ?%elem_of_nil | apply NoDup_nil_2].
Qed.

Lemma steps_healthy W W' : steps W W' -> healthy W -> healthy W'.
Proof. induction 1 as [| W1 W2 W3 _ IH Hs]; [done |]. intros Hh. by eapply step_healthy, IH. Qed.

Lemma reachable_healthy W : reachable W -> healthy W.
Proof. intros (W0 & H0 & Hs). eapply steps_healthy; [exact Hs | by apply fresh_healthy]. Qed.

(** *** A dead token stays silent *)

Lemma dead_not_accessible t u d : u <> 0 -> users d !! u = None -> is_user_accessible t u d = false.
Proof. intros Hu E. unfold is_user_accessible. rewrite E. by apply Z.eqb_neq in Hu as ->. Qed.

Lemma static_accessible t raw d u sc : static_token t raw d = Some (u, sc) -> is_user_accessible t u d = true.
Proof.
  unfold static_token. destruct (matching_token raw d) as [x |]; [| done]. destruct (is_past _ _); [done |].
  destruct (is_user_accessible t (created_by x) d) eqn:E; [| done]. by intros [= <- _].
Qed.

(** Whoever a token resolves to can use the service; the sentinel needs a live
    API token row. *)
Lemma validate_accessible t raw secret d u sc : validate t raw secret d = Some (u, sc) -> is_user_accessible t u d = true.
Proof.
  unfold validate. destruct (is_session_revoked raw d); [done |].
  destruct (jwt_decode raw secret SESSION_AUDIENCE t) as [c |]; [| apply static_accessible].
  destruct (c_sub c) as [[i |] |]; [| apply static_accessible |].
  { destruct (is_user_accessible t i d) eqn:E; [| done]. by intros [= <- _]. }
  destruct (c_user_id c) as [i |]; [| apply static_accessible].
  destruct (Z.eqb_spec i 0) as [-> | _].
  { destruct (service_account_token_is_live t raw d); [| done]. by intros [= <- _]. }
  destruct (is_user_accessible t i d) eqn:E; [| done]. by intros [= <- _].
Qed.

Lemma dead_not_validated t raw secret d u sc :
  u <> 0 -> holds (Dead (hash_token raw) u) d -> validate t raw secret d <> Some (u, sc).
Proof.
  intros Hu [_ [(s & Hs & Hh & _ & Hr) | E]] Hv.
  - unfold validate in Hv. replace (is_session_revoked raw d) with true in Hv; [done |]. symmetry.
    apply existsb_true. exists s. rewrite Hh, Hr, String.eqb_refl. done.
  - apply validate_accessible in Hv. by rewrite (dead_not_accessible t u d Hu E) in Hv.
Qed.

(** The token with hash [h] cannot be taken for user [u] any more, save where a
    flush is still to be carried out ([b]); what is cached of it has run out by
    [T]. *)
Record silenced (b : bool) (T : Z) (h : string) (u : Z) (W : world) : Prop := Silenced {
  silenced_user : u <> 0;
  silenced_dead : holds (Dead h u) (tables W);
  silenced_flights f : f ∈ inflight W -> f_hash f = h -> (f_who f).1 <> u;
  silenced_entries k v : (h, v) ∈ cached (nodes W k) -> e_user v = u -> e_expiry v <= T /\ muted b (clock W) h v (nodes W k) (shared W)
}.

Lemma muted_wait b t t' h v w r : t <= t' -> muted b t h v w r -> muted b t' h v w r.
Proof. intros Ht [? | ?]; [left; lia | by right]. Qed.

Lemma muted_look b t reach h h' r w v : muted b t h v w r -> muted b t h v (session_cache_look t reach h' r w).2 r.
Proof.
  unfold session_cache_look. destruct (cache_lookup h' (cached w)) as [x |]; [| done].
  destruct (e_expiry x <=? t); [done |]. unfold shared_cache_state. destruct reach; cbn [negb]; [| done].
  destruct (marked t h' r); [done |]. case_bool_decide; [done |]. intros [? | [? | [Hb _]]]; [by left | by right; left |]. right; right. cbn. split; [done | lia].
Qed.

Lemma validated_tables raw W who : validated raw W = Some who -> exists secret, validate (clock W) raw secret (tables W) = Some who.
Proof.
  unfold validated. destruct (config (tables W)) as [c |]; [| done]. cbn. destruct (truthy (jwt_secret c)) as [k |]; [| done]. eauto.
Qed.

Lemma step_silenced b T h u W W' : healthy W -> step W W' -> silenced b T h u W -> silenced b T h u W'.
Proof.
  intros Hw Hs [Hu Hd Hf He]. destruct Hs as [t Ht | c e k reach Hn | k h' reach | k Hk | k raw who Hv | f rest Hp | k]; split; cbn; try done.
  - intros k v Hv Hw'. destruct (He k v Hv Hw'). split; [done | by eapply muted_wait].
  - exact (run_stays c e (tables W) (Dead h u) Hd).
  - intros j v. pose proof (publish_calmer (clock W) reach (sent (run c e (tables W))) (nodes W k) (shared W)) as Hc.
    unfold set_node. destruct (Nat.eqb_spec j k) as [-> | _]; intros Hv Hx.
    + pose proof (calm_cache _ _ _ _ _ Hc _ Hv) as Hv'. destruct (He k v Hv' Hx). split; [done |]. eapply muted_own; [done | exact Hc | by apply (sound_expiry _ _ _ (Hw k) h)].
    + destruct (He j v Hv Hx). split; [done |]. eapply muted_calmer; [done | exact Hc | by apply (sound_expiry _ _ _ (Hw j) h)].
  - intros j v. unfold set_node. destruct (Nat.eqb_spec j k) as [-> | _]; [| apply He].
    intros Hv Hx. destruct (He k v) as [? ?]; [by eapply look_elem | done |]. split; [done | by apply muted_look].
  - intros j v. unfold set_node. destruct (Nat.eqb_spec j k) as [-> | _]; [cbn; by intros ?%elem_of_nil | apply He].
  - intros f [-> | Hin]%elem_of_cons; [| by apply Hf]. cbn. intros <- Eu.
    destruct (validated_tables _ _ _ Hv) as [k' Hk]. destruct who as [w sc]. cbn in Eu. subst.
    exact (dead_not_validated _ _ _ _ _ _ Hu Hd Hk).
  - intros g Hg. apply Hf. rewrite Hp. by constructor.
  - intros j v. unfold set_node. destruct (Nat.eqb_spec j (f_worker f)) as [-> | _]; [| apply He].
    intros [[= -> ->] | Hv]%set_elem Hx.
    + exfalso. cbn in Hx. apply (Hf f); [rewrite Hp; constructor | done | done].
    + by apply He.
  - intros f Hin. apply Hf. apply list_elem_of_In, filter_In in Hin as [Hin _]. by apply list_elem_of_In.
  - intros j v. unfold set_node. destruct (Nat.eqb_spec j k) as [-> | _]; [cbn; by intros ?%elem_of_nil | apply He].
Qed.

Lemma steps_silenced b T h u W W' : healthy W -> steps W W' -> silenced b T h u W -> silenced b T h u W'.
Proof.
  intros Hw Hs. induction Hs as [| W1 W2 W3 Hs IH Hst]; [done |]. intros Hsil. eapply step_silenced; [| exact Hst |].
  - by eapply steps_healthy.
  - by apply IH.
Qed.

(** Neither the cache of a worker that satisfies [P] nor the tables take the
    token for its user. *)
Definition refused_on (P : worker -> Prop) (raw : string) (u : Z) (W : world) : Prop :=
  (forall k reach sc, P (nodes W k) -> (looked_up k (hash_token raw) reach W).1 <> Some (u, sc)) /\
  (forall sc, validated raw W <> Some (u, sc)).

Definition refused_everywhere (raw : string) (u : Z) (W : world) : Prop := refused_on (fun _ => True) raw u W.

(** No thread of the worker is about to empty its cache. *)
Definition settled (w : worker) : Prop := clears w = 0%nat.

Lemma silenced_refused b T raw u W (P : worker -> Prop) :
  silenced b T (hash_token raw) u W -> (forall k, P (nodes W k) -> b = true -> settled (nodes W k) \/ T <= clock W) -> refused_on P raw u W.
Proof.
  intros [Hu Hd _ He] HP. split.
  - intros k reach sc Hk Hl. unfold looked_up in Hl. cbn in Hl.
    destruct (session_cache_look (clock W) reach (hash_token raw) (shared W) (nodes W k)) as [o w'] eqn:E. cbn in Hl. subst o.
    assert ((b = true -> clears (nodes W k) = 0%nat) \/ T <= clock W) as [Hs | Ht] by (destruct b; [destruct (HP k Hk eq_refl); auto | by left]).
    + by eapply muted_not_served in E; [| intros v Hv Hx; apply (He k v Hv Hx) | exact Hs].
    + eapply (muted_not_served false) in E; [done | | done]. intros v Hv Hx. left. destruct (He k v Hv Hx). lia.
  - intros sc (k & Hk)%validated_tables. exact (dead_not_validated _ _ _ _ _ _ Hu Hd Hk).
Qed.

(** A call that leaves the token dead and publishes an invalidation of it. *)
Lemma served_silences b c e k W h u :
  healthy W -> u <> 0 -> holds (Dead h u) (post (run c e (tables W))) ->
  (exists i, i ∈ sent (run c e (tables W)) /\ covers b h i) ->
  (forall f, f ∈ inflight W -> f_hash f = h -> (f_who f).1 <> u) -> silenced b (clock W + SESSION_CACHE_TTL) h u (served c e k true W).
Proof.
  intros Hw Hu Hd Hc Hf. split; [done | done | done |]. intros j v.
  pose proof (publish_announces b (clock W) _ (nodes W k) (shared W) h Hc) as Ha.
  pose proof (publish_calmer (clock W) true (sent (run c e (tables W))) (nodes W k) (shared W)) as Hp.
  cbn. unfold set_node. destruct (Nat.eqb_spec j k) as [-> | _]; intros Hv _.
  - assert (e_expiry v <= clock W + SESSION_CACHE_TTL) as Hx by (eapply (sound_expiry _ _ _ (Hw k) h), (calm_cache _ _ _ _ _ Hp), Hv). split; [done |].
    eapply announced_mutes; [exact Ha | done |]. rewrite (calm_local _ _ _ _ _ Hp). apply (sound_order _ _ _ (Hw k)).
  - assert (e_expiry v <= clock W + SESSION_CACHE_TTL) as Hx by by apply (sound_expiry _ _ _ (Hw j) h). split; [done |].
    eapply announced_mutes; [exact Ha | done | apply (sound_order _ _ _ (Hw j))].
Qed.

End Running.
End SessionSafety.
