(* ===== verification/SessionTheorems.v ===== *)
(** The theorems on sessions across worker processes. *)
From S2P Require Import Prelude Sha256 Hmac Regex Rbac Accounts Login Bootstrap AccountAdmin SessionCache AccountFacts AccountHistory SessionSafety.
Open Scope Z_scope.

Module SessionTheorems.
Import Accounts Login Bootstrap AccountAdmin SessionCache AccountFacts AccountHistory SessionSafety.

Section Sessions.
Context `{Libs}.

Lemma step_later W W' : step W W' -> later (tables W) (tables W').
Proof. intros []; try reflexivity. cbn. apply run_stays. Qed.

Lemma steps_later W W' : steps W W' -> later (tables W) (tables W').
Proof. induction 1 as [| W1 W2 W3 _ IH Hs]; [reflexivity |]. etransitivity; [exact IH | by apply step_later]. Qed.

Lemma reachable_numbered W : reachable W -> holds Numbered (tables W).
Proof. intros (W0 & (_ & _ & _ & _ & Hn) & Hs). by apply (steps_later _ _ Hs). Qed.

(** No request is between validating the token for [u] and storing the answer. *)
Definition no_flight (h : string) (u : Z) (W : world) : Prop :=
  forall f, f ∈ inflight W -> f_hash f = h -> (f_who f).1 <> u.

(** Revoking rows that include [s] leaves its token dead. *)
Lemma revoke_where_dead p d s : s ∈ sessions d -> p s = true -> s_user s < next_user d ->
  holds (Dead (jwt_token_hash s) (s_user s)) (revoke_where p d).
Proof.
  intros Hs Hp Hu. split; [done |]. left. exists (revoke s). split_and!; try done. cbn. apply list_elem_of_fmap.
  exists s. by rewrite Hp.
Qed.

Lemma logout_run q raw s d :
  truthy (extract_token q) = Some raw -> List.find (live_with (hash_token raw)) (sessions d) = Some s ->
  logout q d = Outcome (Ok tt) (revoke_where (fun x => s_id x =? s_id s) d) [DropToken raw].
Proof. intros Hq Hs. unfold logout, revoke_token_session, mbind, M_bind, gets. cbn. rewrite Hq. cbn. by rewrite Hs. Qed.

(** C30: signing out is effective on every worker process at once. When a worker
    handles a logout for a token that has a live session of user [u], Redis is
    reachable for that one call, and no request is caught between validating this
    token and storing the answer, then in every later state of the system, on
    every worker, whether Redis is reachable or not, the token is neither served
    from a cache nor validated as [u]. *)
Theorem logout_everywhere W W' q e k raw u :
  reachable W -> now e = clock W -> u <> 0 -> is_Some (users (tables W) !! u) ->
  truthy (extract_token q) = Some raw ->
  (exists s, s ∈ sessions (tables W) /\ live_with (hash_token raw) s = true) ->
  (forall s, s ∈ sessions (tables W) -> jwt_token_hash s = hash_token raw -> s_user s = u) ->
  no_flight (hash_token raw) u W ->
  steps (served (CLogout q) e k true W) W' -> refused_everywhere raw u W'.
Proof.
  intros Hr He Hu [x Hx] Hq (s0 & Hs0 & Hl0) Hown Hf Hs. pose proof (reachable_healthy _ Hr) as Hh.
  destruct (List.find (live_with (hash_token raw)) (sessions (tables W))) as [s |] eqn:E.
  2: { rewrite (find_none _ _ E s0) in Hl0 by by apply list_elem_of_In. done. }
  pose proof (logout_run q raw s (tables W) Hq E) as Hrun.
  apply find_some in E as [Hin Hlive]. apply list_elem_of_In in Hin.
  unfold live_with in Hlive. apply andb_true_iff in Hlive as [Hhash%String.eqb_eq Hrev].
  apply (silenced_refused false (clock W + SESSION_CACHE_TTL)); [| by intros ? _]. eapply steps_silenced; [| exact Hs |].
  { eapply step_healthy; [by apply step_call | done]. }
  apply served_silences; [done | done | | | done].
  - cbn [run]. rewrite Hrun. cbn [post]. rewrite <- Hhash, <- (Hown s Hin Hhash). apply revoke_where_dead; [done | by apply Z.eqb_refl |].
    rewrite (Hown s Hin Hhash). by apply (proj1 (reachable_numbered _ Hr) u x).
  - cbn [run]. rewrite Hrun. exists (DropToken raw). split; [constructor | done].
Qed.

(** The routes that end every session of user [i]. *)
Inductive ends_all (i : Z) : call -> Prop :=
| ends_reset env actor : ends_all i (CResetPassword env actor i)
| ends_revoke : ends_all i (CRevokeUserSessions i)
| ends_delete : ends_all i (CDeleteAccount i).

Lemma revoked_all_dead i d s :
  holds Numbered d -> is_Some (users d !! i) -> s ∈ sessions d -> s_user s = i -> revoked s = false ->
  holds (Dead (jwt_token_hash s) i) (post (revoke_all_sessions i None d)) /\ DropAll ∈ sent (revoke_all_sessions i None d).
Proof.
  intros [Hn _] [x Hx] Hs Hu Hr. rewrite revoke_all_run. cbn [post sent]. unfold revoked_all.
  assert (unrevoked_of i None s = true) as Hp. { unfold unrevoked_of. cbn. rewrite Hu, Z.eqb_refl, Hr. done. }
  split.
  - rewrite <- Hu. apply revoke_where_dead; [done | by rewrite Hu | rewrite Hu; by apply (Hn i x)].
  - case_bool_decide as E; [| constructor]. exfalso. apply (filter_none _ _) with (x := s) in E; [congruence | done].
Qed.

Lemma ignored_ok {A} (m : M A) d : post (ignored m d) = post (m d) /\ sent (ignored m d) = sent (m d).
Proof.
  unfold ignored, mbind, M_bind. destruct (res (m d)); cbn; by rewrite ?app_nil_r.
Qed.

Lemma ignored_res {A} (m : M A) d : res (ignored m d) = Ok tt -> exists a, res (m d) = Ok a.
Proof. unfold ignored, mbind, M_bind. destruct (res (m d)); cbn; eauto. by intros. Qed.

Lemma ends_all_dead i c e d s :
  ends_all i c -> res (run c e d) = Ok tt -> holds Numbered d -> is_Some (users d !! i) ->
  s ∈ sessions d -> s_user s = i -> revoked s = false ->
  holds (Dead (jwt_token_hash s) i) (post (run c e d)) /\ DropAll ∈ sent (run c e d).
Proof.
  intros Hc Hok Hn [u Hx] Hs Hu Hr. destruct Hc as [env actor | |]; cbn [AccountHistory.run] in *.
  - rewrite !(proj1 (ignored_ok _ _)), !(proj2 (ignored_ok _ _)). apply ignored_res in Hok as [a Hok].
    unfold reset_user_password in *. run_in Hok. run. rewrite Hx in *.
    destruct (negb (i =? 0)); [| done]. destruct (negb (i =? actor)); [| done]. run. rewrite app_nil_r.
    match goal with |- context [set_user i ?f d] => set (g := f) end.
    destruct (revoked_all_dead i (set_user i g d) s) as [Hd Hsent]; try done.
    { by apply later_set_user. } { cbn. rewrite lookup_alter_eq, Hx. by eexists. }
    rewrite (revoke_all_run i None (set_user i g d)) in *. done.
  - rewrite !(proj1 (ignored_ok _ _)), !(proj2 (ignored_ok _ _)). unfold revoke_user_sessions. run. rewrite Hx.
    by apply (revoked_all_dead i d s).
  - unfold delete_account, delete_row in *. run_in Hok. run. rewrite Hx in *.
    destruct (referenced i d) eqn:Hf.
    { rewrite (bind_err _ _ _ (IntegrityError "fk_users_invited_by")) in Hok by (run; by rewrite Hf). done. }
    erewrite bind_ok by (run; rewrite Hf; reflexivity). run. rewrite Hf. cbn. split; [| constructor].
    split; [by apply (proj1 Hn i u) |]. right. apply map_lookup_filter_None. right. intros y _. cbn. by rewrite Z.eqb_refl.
Qed.


(** *** What a cache serves *)

(** The answer in [f] was given by the tables, at some point of the history. *)
Definition confirmed (W0 W : world) (f : flight) : Prop :=
  exists W1 raw, steps W0 W1 /\ steps W1 W /\ hash_token raw = f_hash f /\ validated raw W1 = Some (f_who f).

Lemma confirmed_step W0 W W' f : confirmed W0 W f -> step W W' -> confirmed W0 W' f.
Proof. intros (W1 & raw & H1 & H2 & H3) Hs. exists W1, raw. split_and!; try done; [by eapply steps_cons | apply H3 | apply H3]. Qed.

(** Every answer in flight was confirmed, every stored one too, and every entry
    of a cache was stored when its expiry says. *)
Record traced (W0 W : world) : Prop := Traced {
  traced_flights f : f ∈ inflight W -> confirmed W0 W f;
  traced_stores f t : (f, t) ∈ stores W -> confirmed W0 W f /\ t <= clock W;
  traced_entries k h v : (h, v) ∈ cached (nodes W k) ->
    (Flight k h (e_user v, e_scopes v), e_expiry v - SESSION_CACHE_TTL) ∈ stores W
}.

Lemma traced_nodes W0 W W' :
  step W W' -> traced W0 W -> inflight W' = inflight W -> stores W' = stores W -> clock W <= clock W' ->
  (forall k p, p ∈ cached (nodes W' k) -> p ∈ cached (nodes W k)) -> traced W0 W'.
Proof.
  intros Hs [F S N] Ef Es Hc Hn. split; rewrite ?Ef, ?Es.
  - intros f Hf. by eapply confirmed_step; [apply F |].
  - intros f t Hf. destruct (S f t Hf). split; [by eapply confirmed_step | lia].
  - intros k h v Hv. by apply N, Hn.
Qed.

Lemma step_traced W0 W W' : steps W0 W -> step W W' -> traced W0 W -> traced W0 W'.
Proof.
  intros H0 Hs Ht. pose proof Hs as Hst. destruct Hs as [t Hle | c e k reach He | k h reach | k Hk | k raw who Hv | f rest Hp | k].
  - apply (traced_nodes W0 W _ Hst Ht); done.
  - apply (traced_nodes W0 W _ Hst Ht); try done. intros j p. cbn. unfold set_node.
    destruct (Nat.eqb_spec j k) as [-> | _]; [| done]. apply (calm_cache _ _ _ _ _ (publish_calmer _ _ _ _ _)).
  - apply (traced_nodes W0 W _ Hst Ht); try done. intros j p. cbn. unfold set_node.
    destruct (Nat.eqb_spec j k) as [-> | _]; [apply look_elem | done].
  - apply (traced_nodes W0 W _ Hst Ht); try done. intros j p. cbn. unfold set_node.
    destruct (Nat.eqb_spec j k) as [-> | _]; [cbn; by intros ?%elem_of_nil | done].
  - destruct Ht as [F S N]. split; cbn.
    + intros f [-> | Hf]%elem_of_cons; [| by eapply confirmed_step; [apply F |]].
      exists W, raw. split_and!; try done. eapply steps_cons; [apply steps_nil | exact Hst].
    + intros f t Hf. destruct (S f t Hf). split; [by eapply confirmed_step | done].
    + done.
  - destruct Ht as [F S N]. assert (confirmed W0 W f) as Hf by (apply F; rewrite Hp; constructor). split; cbn.
    + intros g Hg. eapply confirmed_step; [| exact Hst]. apply F. rewrite Hp. by constructor.
    + intros g t [[= -> ->] | Hg]%elem_of_cons; [split; [by eapply confirmed_step | done] |].
      destruct (S g t Hg). split; [by eapply confirmed_step | done].
    + intros j h v. unfold set_node. destruct (Nat.eqb_spec j (f_worker f)) as [-> | _].
      * intros [[= -> ->] | Hv]%set_elem; [| constructor; by apply N]. cbn.
        replace (clock W + SESSION_CACHE_TTL - SESSION_CACHE_TTL) with (clock W) by lia. destruct f as [fk fh [fu fs]]. constructor.
      * intros Hv. constructor. by apply N.
  - destruct Ht as [F S N]. split; cbn.
    + intros f [Hf _]%list_elem_of_In%filter_In. eapply confirmed_step; [| exact Hst]. by apply F, list_elem_of_In.
    + intros f t Hf. destruct (S f t Hf). split; [by eapply confirmed_step | done].
    + intros j h v. unfold set_node. destruct (Nat.eqb_spec j k) as [-> | _]; [cbn; by intros ?%elem_of_nil | apply N].
Qed.

Lemma steps_traced W0 W : fresh W0 -> steps W0 W -> traced W0 W.
Proof.
  intros Hf Hs. induction Hs as [W | W1 W2 W3 H12 IH Hst]; [| by eapply step_traced; [exact H12 | | apply IH]].
  destruct Hf as (Hn & _ & Hi & Hst & _). split.
  - rewrite Hi. by intros f ?%elem_of_nil.
  - rewrite Hst. by intros f t ?%elem_of_nil.
  - intros k h v. rewrite Hn. cbn. by intros ?%elem_of_nil.
Qed.

(** C32: a cache serves only answers the database gave, and not for long. When a
    worker answers a token from its cache, the tables gave exactly this answer
    for this token earlier in the history, this worker stored it less than ten
    seconds ago, and the cache holds at most 2000 entries. *)
Theorem cache_serves_recent_answers W0 W k h reach who :
  fresh W0 -> steps W0 W -> (looked_up k h reach W).1 = Some who ->
  confirmed W0 W (Flight k h who) /\
  (exists t, (Flight k h who, t) ∈ stores W /\ t <= clock W /\ clock W < t + SESSION_CACHE_TTL) /\
  (length (cached (nodes W k)) <= max_size)%nat.
Proof.
  intros Hf Hs Hk. destruct (steps_traced W0 W Hf Hs) as [F S N].
  pose proof (steps_healthy _ _ Hs (fresh_healthy _ Hf) k) as [_ _ _ _ _ Hsize].
  cbn in Hk. unfold session_cache_look in Hk. destruct (cache_lookup h (cached (nodes W k))) as [v |] eqn:E; [| done].
  destruct (e_expiry v <=? clock W) eqn:Hx; [done |]. unfold shared_cache_state in Hk.
  destruct reach; cbn [negb] in Hk; [| done]. destruct (marked (clock W) h (shared W)); [done |].
  case_bool_decide; [| done]. cbn in Hk. injection Hk as <-. apply Z.leb_gt in Hx.
  pose proof (N k h v (lookup_elem _ _ _ E)) as Hst. destruct (S _ _ Hst) as [Hc Ht]. split_and!; try done.
  exists (e_expiry v - SESSION_CACHE_TTL). split_and!; [done | done | lia].
Qed.

End Sessions.
End SessionTheorems.
