(* ===== verification/LoginTheorems.v ===== *)
(** The theorems on signing in: the cap on concurrent sessions, what a session is
    given for, lockout, the second factor, challenge tokens, password resets and
    the session a login returns. *)
From S2P Require Import Prelude Sha256 Hmac Regex Rbac Accounts Login Bootstrap AccountAdmin SessionCache AccountFacts.
Open Scope Z_scope.

Module LoginTheorems.
Import Accounts Login Bootstrap AccountAdmin SessionCache AccountFacts.

(** *** The cap on sessions *)

Lemma evict_split limit l popped : evict limit l = Some popped ->
  exists rest, l = popped ++ rest /\ Z.of_nat (length rest) < limit.
Proof.
  revert popped; induction l as [| x l IH]; intros popped; cbn [evict].
  - destruct (Z.ltb_spec (Z.of_nat (length (A := session) [])) limit); [| done]. intros [= <-]. by exists [].
  - destruct (Z.ltb_spec (Z.of_nat (length (x :: l))) limit) as [Hl | _]; [intros [= <-]; by exists (x :: l) |].
    destruct (evict limit l) as [p |]; [| done]. intros [= <-]. destruct (IH p eq_refl) as (rest & -> & Hr). by exists rest.
Qed.

Lemma evict_none limit l : evict limit l = None <-> limit <= 0.
Proof.
  induction l as [| x l IH]; cbn [evict].
  - destruct (Z.ltb_spec (Z.of_nat (length (A := session) [])) limit); cbn in *; split; (done || lia).
  - destruct (Z.ltb_spec (Z.of_nat (length (x :: l))) limit) as [Hl | Hl].
    + split; [done |]. cbn in Hl. lia.
    + rewrite <- IH. by destruct (evict limit l).
Qed.

(** Session ids: unique, and below the next one. *)
Record ids_ok (d : db) : Prop := IdsOk {
  ids_unique s s' : s ∈ sessions d -> s' ∈ sessions d -> s_id s = s_id s' -> s = s';
  ids_fresh s : s ∈ sessions d -> s_id s < next_session d
}.

Lemma mem_id_true i l : mem_id i l = true <-> exists s, s ∈ l /\ s_id s = i.
Proof. unfold mem_id. rewrite existsb_true. by setoid_rewrite Z.eqb_eq. Qed.

Lemma active_props t i s : active_at t i s = true -> s_user s = i /\ revoked s = false.
Proof. unfold active_at. rewrite !andb_true_iff, Z.eqb_eq, negb_true_iff. tauto. Qed.

Lemma filter_length_le {A} (f : A -> bool) l : (length (List.filter f l) <= length l)%nat.
Proof. induction l as [| x l IH]; cbn; [lia |]. destruct (f x); cbn; lia. Qed.

Lemma filter_perm {A} (f : A -> bool) l l' : l ≡ₚ l' -> List.filter f l ≡ₚ List.filter f l'.
Proof.
  induction 1; cbn; try done; repeat (match goal with |- context [f ?x] => destruct (f x) end); try done;
    try by constructor. by etransitivity.
Qed.

Lemma filter_and {A} (f g : A -> bool) l : List.filter (fun x => f x && g x) l = List.filter g (List.filter f l).
Proof. induction l as [| x l IH]; cbn; [done |]. destruct (f x); cbn; [destruct (g x) |]; by rewrite IH. Qed.

(** The rows still active after revoking those named in [popped]. *)
Lemma active_after t i popped l :
  length (List.filter (active_at t i) (map (fun s => if mem_id (s_id s) popped then revoke s else s) l))
  = length (List.filter (fun s => active_at t i s && negb (mem_id (s_id s) popped)) l).
Proof.
  induction l as [| s l IH]; cbn; [done |]. destruct (mem_id (s_id s) popped); cbn [negb].
  - replace (active_at t i (revoke s)) with false by (unfold active_at; cbn; by rewrite andb_false_r). by rewrite andb_false_r, IH.
  - rewrite andb_true_r. destruct (active_at t i s); cbn; by rewrite IH.
Qed.

Lemma survivors t i l popped rest :
  py_sorted older (List.filter (active_at t i) l) = popped ++ rest ->
  (length (List.filter (fun s => active_at t i s && negb (mem_id (s_id s) popped)) l) <= length rest)%nat.
Proof.
  intros E. rewrite filter_and. rewrite (filter_perm _ _ (popped ++ rest)) by (rewrite <- E; symmetry; apply py_sorted_perm).
  rewrite List.filter_app, length_app. replace (List.filter _ popped) with (@nil session).
  - cbn. apply filter_length_le.
  - symmetry. apply filter_none. intros s Hs. apply negb_false_iff, mem_id_true. by exists s.
Qed.

Lemma older_total x y : older x y = true \/ older y x = true.
Proof. unfold older. rewrite !Z.leb_le. lia. Qed.
Lemma older_trans x y z : older x y = true -> older y z = true -> older x z = true.
Proof. unfold older. rewrite !Z.leb_le. lia. Qed.

Lemma sorted_split (l popped rest : list session) s s' :
  py_sorted older l = popped ++ rest -> s ∈ popped -> s' ∈ rest -> s_created_at s <= s_created_at s'.
Proof.
  intros E Hs Hs'. pose proof (py_sorted_ordered older older_total older_trans l) as Ho. rewrite E in Ho. clear E.
  induction popped as [| x p IH]; [by apply elem_of_nil in Hs |]. inversion Ho as [| ? ? Ho' Hall]; subst.
  apply elem_of_cons in Hs as [-> | Hs]; [| by apply IH]. rewrite Forall_forall in Hall.
  specialize (Hall s' ltac:(apply elem_of_app; by right)). unfold in_order, older in Hall. lia.
Qed.

Section Theorems.
Context `{Libs}.

Definition recorded (e : draw) (i : Z) (q : option request) (token : string) (cfg : settings) (lifetime : option Z) (n : Z) : session :=
  Session n i (hash_token token) (q ≫= client_host) ((fun q => substring 0 500 (default EmptyString (agent_header q))) <$> q)
    (now e) (now e + or_time lifetime (hours (session_timeout_hours cfg))) false.

Lemma record_session_run e i q t cfg l d :
  record_session e i q t cfg l d =
  if i =? 0 then Outcome (Ok None) d []
  else match evict (concurrent_sessions cfg) (py_sorted older (List.filter (active_at (now e) i) (sessions d))) with
       | None => Outcome (Err IndexError) d []
       | Some popped =>
           Outcome (Ok (Some (next_session d)))
             (add_session (recorded e i q t cfg l) (revoke_where (fun s => mem_id (s_id s) popped) d)) []
       end.
Proof.
  unfold record_session. destruct (i =? 0); [done |]. run.
  destruct (evict _ _) as [popped |]; [| done]. by run.
Qed.

(** C33: a user never has more live sessions than the configured limit. When a
    session is recorded, the user's unrevoked and unexpired sessions, the new one
    included, number at most [concurrent_sessions]; the sessions given up for it
    are the oldest ones; sessions of other users are left alone; and recording
    fails exactly when the limit is zero or less. *)
Theorem session_cap e i q token cfg lifetime d :
  ids_ok d -> i <> 0 ->
  let o := record_session e i q token cfg lifetime d in
  (res o = Err IndexError <-> concurrent_sessions cfg <= 0) /\
  forall sid, res o = Ok (Some sid) ->
    recorded e i q token cfg lifetime sid ∈ sessions (post o) /\
    Z.of_nat (length (List.filter (active_at (now e) i) (sessions (post o)))) <= concurrent_sessions cfg /\
    (forall s s', s ∈ sessions d -> s' ∈ sessions d -> active_at (now e) i s = true -> active_at (now e) i s' = true ->
       s ∉ sessions (post o) -> s' ∈ sessions (post o) -> s_created_at s <= s_created_at s') /\
    (forall s, s ∈ sessions d -> s_user s <> i -> s ∈ sessions (post o)).
Proof.
  intros [Huniq Hfresh] Hi. rewrite record_session_run. apply Z.eqb_neq in Hi as ->.
  destruct (evict _ _) as [popped |] eqn:Ev; cbn [res post].
  2: { apply evict_none in Ev. by split. }
  split; [split; [done |]; intros Hl; by rewrite (proj2 (evict_none _ _) Hl) in Ev |].
  intros sid [= <-]. destruct (evict_split _ _ _ Ev) as (rest & Es & Hrest). cbn [sessions add_session revoke_where with_sessions].
  assert (forall s, s ∈ popped -> s ∈ sessions d /\ active_at (now e) i s = true) as Hpop.
  { intros s Hs. assert (s ∈ py_sorted older (List.filter (active_at (now e) i) (sessions d))) as Hin.
    { rewrite Es. apply elem_of_app. by left. }
    rewrite py_sorted_perm in Hin. apply list_elem_of_In, filter_In in Hin as [Hin Ha]. by rewrite list_elem_of_In. }
  assert (forall s, s ∈ sessions d -> mem_id (s_id s) popped = true -> s ∈ popped) as Hmem.
  { intros s Hs (x & Hx & Hid)%mem_id_true. by rewrite <- (Huniq x s (proj1 (Hpop x Hx)) Hs Hid). }
  assert (forall s, s ∈ sessions d -> mem_id (s_id s) popped = false -> s ∈ map (fun s => if mem_id (s_id s) popped then revoke s else s) (sessions d)) as Hkeep.
  { intros s Hs Hno. apply list_elem_of_fmap. exists s. by rewrite Hno. }
  split_and!.
  - apply elem_of_app. right. by apply list_elem_of_singleton.
  - rewrite List.filter_app, length_app, active_after. pose proof (survivors _ _ _ _ _ Es). cbn. destruct (active_at _ _ _); cbn; lia.
  - intros s s' Hs Hs' Ha Ha' Hgone Hstay. apply (sorted_split _ _ _ s s' Es).
    + destruct (mem_id (s_id s) popped) eqn:E; [by apply Hmem |]. destruct Hgone. apply elem_of_app. left. by apply Hkeep.
    + assert (s' ∈ popped ++ rest) as Hin.
      { rewrite <- Es, py_sorted_perm. apply list_elem_of_In, filter_In. by rewrite <- list_elem_of_In. }
      apply elem_of_app in Hin as [Hin | Hin]; [| done]. exfalso. apply elem_of_app in Hstay as [Hx | Hx%list_elem_of_singleton].
      * apply list_elem_of_fmap in Hx as (x & Ex & Hx). destruct (active_props _ _ _ Ha') as [_ Hr].
        destruct (mem_id (s_id x) popped) eqn:Em; [by subst s' | subst x].
        assert (mem_id (s_id s') popped = true) by (apply mem_id_true; by exists s'). congruence.
      * pose proof (Hfresh s' Hs') as Hf. rewrite Hx in Hf. cbn in Hf. lia.
  - intros s Hs Hne. apply elem_of_app. left. apply Hkeep; [done |]. destruct (mem_id (s_id s) popped) eqn:E; [| done].
    destruct (Hpop s (Hmem s Hs E)) as [_ Ha]. by destruct (active_props _ _ _ Ha).
Qed.

(** *** Who may sign in *)

(** The [users.email] column is unique. *)
Definition emails_unique (d : db) : Prop :=
  forall i j u v, users d !! i = Some u -> users d !! j = Some v -> email u = email v -> i = j.

Lemma by_email_sound x i u d : user_by_email x d = Some (i, u) -> users d !! i = Some u /\ email u = x.
Proof.
  unfold user_by_email. intros [Hin Hx%String.eqb_eq]%find_some. split; [| done].
  by apply elem_of_map_to_list, list_elem_of_In.
Qed.

Lemma by_email_complete i u d : emails_unique d -> users d !! i = Some u -> user_by_email (email u) d = Some (i, u).
Proof.
  intros Hu Hi. destruct (user_by_email (email u) d) as [[j v] |] eqn:E.
  - apply by_email_sound in E as [Hj He]. pose proof (Hu i j u v Hi Hj (eq_sym He)) as <-. by simplify_eq.
  - unfold user_by_email in E. apply (find_none _ _) with (x := (i, u)) in E; [| by apply list_elem_of_In, elem_of_map_to_list].
    cbn in E. by rewrite String.eqb_refl in E.
Qed.

Lemma emails_set_user i f d : (forall u, email (f u) = email u) -> emails_unique d -> emails_unique (set_user i f d).
Proof.
  intros Hf Hu. assert (forall j u, users (set_user i f d) !! j = Some u -> exists v, users d !! j = Some v /\ email v = email u) as Hback.
  { intros j u. cbn. destruct (decide (j = i)) as [-> | Hne]; [| rewrite lookup_alter_ne by done; eauto].
    rewrite lookup_alter_eq. destruct (users d !! i) as [v |]; [| done]. intros [= <-]. eauto. }
  intros j k u v (u' & Hj & Eu)%Hback (v' & Hk & Ev)%Hback E. apply (Hu j k u' v'); congruence.
Qed.

(** [get_or_create_settings] always returns, and touches nothing but the settings. *)
Lemma settings_run e d : exists cfg, get_or_create_settings e d = Outcome (Ok cfg) (with_config cfg d) [] /\
  (forall c, config d = Some c -> cfg = c \/ cfg = with_secret (fresh_secret e) c) /\
  (forall c k, config d = Some c -> truthy (jwt_secret c) = Some k -> cfg = c).
Proof.
  unfold get_or_create_settings. run. destruct (config d) as [c |] eqn:E.
  - destruct (truthy (jwt_secret c)) as [k |] eqn:Ek; run.
    + exists c. split_and!; [| naive_solver ..]. f_equal. unfold with_config. rewrite <- E. by destruct d.
    + eexists. split_and!; [done | naive_solver |]. naive_solver.
  - run. eexists. by split_and!.
Qed.

Lemma bind_settings {B} e (f : settings -> M B) d : exists cfg,
  (get_or_create_settings e ≫= f) d = f cfg (with_config cfg d) /\
  (forall c, config d = Some c -> cfg = c \/ cfg = with_secret (fresh_secret e) c) /\
  (forall c k, config d = Some c -> truthy (jwt_secret c) = Some k -> cfg = c).
Proof.
  destruct (settings_run e d) as (cfg & E & Hcfg). exists cfg. split; [| done]. unfold mbind, M_bind. rewrite E. cbn.
  by destruct (f cfg (with_config cfg d)).
Qed.

(** The password, or its old wire hash, is the stored one. *)
Definition password_ok (p h : string) : Prop :=
  bcrypt_check p h = true \/ is_client_hash p = false /\ bcrypt_check (legacy_client_wire_hash_v1 p DEFAULT_SALT) h = true.

(** What checking a password does: it answers, and at most stores the same
    password under the current salt. *)
Definition rehashed (d d' : db) : Prop :=
  exists c, d' = with_config c d \/ d' = d \/ exists i h, d' = set_user i (with_password h) (with_config c d).

Lemma verify_run e env who p d : exists b d', verify_login_password e env who p d = Outcome (Ok b) d' [] /\ rehashed d d' /\
  (b = true -> forall i u, who = Some (i, u) -> password_ok p (hashed_password u)).
Proof.
  assert (forall c, rehashed d (with_config c d)) as Hconf by (intros c; exists c; auto).
  assert (rehashed d d) as Hsame by (exists default_settings; auto).
  unfold verify_login_password. destruct (bcrypt_check p _) eqn:Ec.
  { exists true, d. split_and!; [done .. |]. intros _ i u ->. by left. }
  destruct (is_client_hash p) eqn:Hc; [by exists false, d |].
  match goal with |- context [(get_or_create_settings e ≫= ?f) d] => destruct (bind_settings e f d) as (cfg & -> & _) end.
  destruct (String.eqb _ _); [by eexists false, _ |].
  destruct (bcrypt_check (legacy_client_wire_hash_v1 p DEFAULT_SALT) _) eqn:Hl; [| by eexists false, _].
  destruct who as [[i u] |]; [| by eexists false, _].
  eexists true, _. split_and!; [by run | exists cfg; right; right; eauto |]. intros _ j v [= <- <-]. by right.
Qed.

(** A check leaves everything about users but their password hashes. *)
Lemma rehashed_user d d' i u : rehashed d d' -> users d !! i = Some u -> exists h, users d' !! i = Some (with_password h u).
Proof.
  assert (u = with_password (hashed_password u) u) as Hid by by destruct u.
  intros [c [-> | [-> | (j & h & ->)]]] Hu; [exists (hashed_password u); by rewrite <- Hid .. |].
  cbn. destruct (decide (j = i)) as [-> | Hne].
  - exists h. by rewrite lookup_alter_eq, Hu.
  - exists (hashed_password u). by rewrite lookup_alter_ne, <- Hid.
Qed.

Lemma rehashed_back d d' j v : rehashed d d' -> users d' !! j = Some v -> exists v0, users d !! j = Some v0 /\ email v0 = email v.
Proof.
  intros [c [-> | [-> | (k & h & ->)]]]; [eauto | eauto |]. cbn. destruct (decide (k = j)) as [-> | Hne].
  - rewrite lookup_alter_eq. destruct (users d !! j) as [v0 |]; [| done]. intros [= <-]. eauto.
  - rewrite lookup_alter_ne by done. eauto.
Qed.

Lemma rehashed_emails d d' : rehashed d d' -> emails_unique d -> emails_unique d'.
Proof. intros [c [-> | [-> | (j & h & ->)]]] Hu; [done | done |]. by apply emails_set_user. Qed.

(** The straight part of the login route. *)
Lemma login_compat_run e env em p q d : exists cfg b d1,
  let who := user_by_email (norm_email em) d in
  rehashed d d1 /\ (b = true -> forall i u, who = Some (i, u) -> password_ok p (hashed_password u)) /\
  (forall c k, config d = Some c -> truthy (jwt_secret c) = Some k -> cfg = c) /\
  login_compat e env em p q d =
  match who with
  | Some (i, u) =>
      if b && negb (is_locked (now e) u) && force_password_change u then
        (_ ← reset_login_attempts i;
         mret (RequiresChange (jwt_encode (challenge i CHANGE_PASSWORD_AUD (now e + hours 1)) (default EmptyString (jwt_secret cfg))))) d1
      else if b && negb (is_locked (now e) u) && mfa_enabled (factor u) then
        (_ ← reset_login_attempts i;
         mret (RequiresMfa (jwt_encode (challenge i MFA_CHALLENGE_AUD (now e + minutes 5)) (default EmptyString (jwt_secret cfg))))) d1
      else (t ← login e em cfg (Some q) b; mret (Full t)) d1
  | None => (t ← login e em cfg (Some q) b; mret (Full t)) d1
  end.
Proof.
  unfold login_compat.
  match goal with |- context [(get_or_create_settings e ≫= ?f) d] => destruct (bind_settings e f d) as (cfg & -> & _ & Hk) end.
  rewrite bind_gets. change (user_by_email (norm_email em) (with_config cfg d)) with (user_by_email (norm_email em) d).
  destruct (verify_run e env (user_by_email (norm_email em) d) p (with_config cfg d)) as (b & d1 & Hv & Hr & Hb).
  exists cfg, b, d1. split_and!; [| done | done |].
  - destruct Hr as [c [-> | [-> | (j & h & ->)]]]; [exists c; by left | exists cfg; by left | exists c; eauto].
  - rewrite (bind_ok _ _ _ b) by by rewrite Hv. rewrite Hv. cbn [post sent app].
    destruct (user_by_email (norm_email em) d) as [[i u] |]; cbn [locked_now];
      repeat match goal with |- context [if ?x then _ else _] => destruct x end;
      match goal with |- Outcome (res ?o) _ _ = _ => by destruct o end.
Qed.

(** [login] after the check, for a user the mail names. *)
Lemma login_run e em cfg q b d i u :
  emails_unique d -> users d !! i = Some u -> email u = norm_email em ->
  login e em cfg q b d =
  if negb b then
    Outcome (Err (Http 401 "Invalid email or password"))
      (if is_locked (now e) u then d else post (record_failed_login e i cfg d)) []
  else if is_locked (now e) u then Outcome (Err (Http 401 "Invalid email or password")) d []
  else
    let d' := set_user i (with_last_login (now e)) (set_user i (with_lock unlocked) d) in
    issue_session e i (with_last_login (now e) (with_lock unlocked u)) q cfg None no_extra d'.
Proof.
  intros Hu Hi He. unfold login. rewrite bind_gets, <- He, (by_email_complete i u d Hu Hi). destruct b; cbn [negb].
  - destruct (is_locked (now e) u); [done |]. unfold reset_login_attempts. run.
    cbn [set_user with_users users]. by rewrite !lookup_alter_eq, Hi.
  - rewrite bind_when. destruct (is_locked (now e) u); cbn [negb]; [done |].
    unfold record_failed_login. by destruct (i =? 0).
Qed.

(** C34: what a successful login proves, whatever the reply. The mail names an
    account that is not locked, and the password is the stored one. A full
    session is returned only when the account has neither a forced password
    change nor a second factor; an account with a second factor gets the MFA
    challenge, and one with a forced change gets the change token. *)
Theorem login_gate e env em p q d r :
  emails_unique d -> res (login_compat e env em p q d) = Ok r ->
  exists i u, users d !! i = Some u /\ email u = norm_email em /\ is_locked (now e) u = false /\
    password_ok p (hashed_password u) /\
    match r with
    | Full _ => force_password_change u = false /\ mfa_enabled (factor u) = false
    | RequiresChange _ => force_password_change u = true
    | RequiresMfa _ => force_password_change u = false /\ mfa_enabled (factor u) = true
    end.
Proof.
  intros Hu Hok. destruct (login_compat_run e env em p q d) as (cfg & b & d1 & Hr & Hb & _ & Hrun). rewrite Hrun in Hok. clear Hrun.
  pose proof (rehashed_emails _ _ Hr Hu) as Hu1.
  destruct (user_by_email (norm_email em) d) as [[i u] |] eqn:Hwho.
  2: { exfalso. apply bind_inv in Hok as (t & Hl & _). unfold login in Hl. rewrite bind_gets in Hl.
       destruct (user_by_email (norm_email em) d1) as [[j v] |] eqn:E; [| done].
       apply by_email_sound in E as [Hj He]. destruct (rehashed_back _ _ _ _ Hr Hj) as (v0 & Hj0 & He0).
       rewrite <- He, <- He0, (by_email_complete j v0 d Hu Hj0) in Hwho. done. }
  apply by_email_sound in Hwho as [Hi He]. exists i, u.
  assert (b = true -> password_ok p (hashed_password u)) as Hp by (intros E; by eapply Hb). clear Hb.
  destruct (rehashed_user _ _ i u Hr Hi) as [h Hi1].
  assert (res (login e em cfg (Some q) b d1) = Err (Http 401 "Invalid email or password") \/ b = true /\ is_locked (now e) u = false) as Hl.
  { rewrite (login_run e em cfg (Some q) b d1 i (with_password h u) Hu1 Hi1 He). destruct b; cbn [negb]; [| by left].
    change (is_locked (now e) (with_password h u)) with (is_locked (now e) u). destruct (is_locked (now e) u); auto. }
  destruct (b && negb (is_locked (now e) u) && force_password_change u) eqn:Ef.
  { reflect_bools. destruct Ef as [[-> Hlk] Hf]. unfold reset_login_attempts in Hok. run_in Hok. injection Hok as <-. split_and!; auto. }
  destruct (b && negb (is_locked (now e) u) && mfa_enabled (factor u)) eqn:Em.
  { apply andb_true_iff in Em as [Eb Em]. rewrite Eb in Ef. apply andb_true_iff in Eb as [-> Hlk%negb_true_iff]. unfold reset_login_attempts in Hok. run_in Hok. injection Hok as <-.
    split_and!; auto. }
  apply bind_inv in Hok as (t & Ht & [= <-] & _). destruct Hl as [Hl | [-> Hlk]]; [congruence |].
  rewrite Hlk in Ef, Em. cbn in Ef, Em. split_and!; auto.
Qed.

(** *** Lockout *)

Lemma configured_settings e d c k : config d = Some c -> truthy (jwt_secret c) = Some k -> get_or_create_settings e d = Outcome (Ok c) d [].
Proof. intros E Ek. unfold get_or_create_settings. run. rewrite E. by rewrite Ek. Qed.

Lemma bind_configured_settings {B} e d c k (f : settings -> M B) :
  config d = Some c -> truthy (jwt_secret c) = Some k -> (get_or_create_settings e ≫= f) d = f c d.
Proof. intros E Ek. unfold mbind, M_bind. rewrite (configured_settings e d c k E Ek). cbn. by destruct (f c d). Qed.

(** Redeeming a challenge, when settings and the token are in order. *)
Lemma redeem_run e tok aud x y d c k cl i u :
  config d = Some c -> truthy (jwt_secret c) = Some k -> jwt_decode tok k aud (now e) = Ok cl -> c_user_id cl = Some i ->
  users d !! i = Some u ->
  redeem e tok aud x y d =
  if is_active u then
    if is_locked (now e) u then Outcome (Err (Http 401 "Invalid email or password")) d [] else Outcome (Ok (c, i, u)) d []
  else Outcome (Err (Http 401 "User not found or inactive")) d [].
Proof.
  intros E Ek Hd Hi Hu. unfold redeem. rewrite (bind_configured_settings e d c k) by done. unfold configured.
  rewrite bind_unless, Ek, Hd. run. rewrite Hi. run. rewrite Hu. run. destruct (is_active u); [| done].
  unfold reject_if_locked_out. run. by destruct (is_locked (now e) u).
Qed.

Lemma redeem_inv e tok aud x y d c k r :
  config d = Some c -> truthy (jwt_secret c) = Some k -> res (redeem e tok aud x y d) = Ok r ->
  exists cl i u, r = (c, i, u) /\ jwt_decode tok k aud (now e) = Ok cl /\ c_user_id cl = Some i /\ users d !! i = Some u /\
    is_active u = true /\ is_locked (now e) u = false /\ redeem e tok aud x y d = Outcome (Ok r) d [].
Proof.
  intros E Ek Hok. destruct (jwt_decode tok k aud (now e)) as [cl | er] eqn:Hd.
  2: { unfold redeem in Hok. rewrite (bind_configured_settings e d c k) in Hok by done. unfold configured in Hok.
       rewrite bind_unless, Ek, Hd in Hok. by destruct er. }
  assert (exists i u, c_user_id cl = Some i /\ users d !! i = Some u) as (i & u & Hi & Hu).
  { unfold redeem in Hok. rewrite (bind_configured_settings e d c k) in Hok by done. unfold configured in Hok.
    rewrite bind_unless, Ek, Hd in Hok. run_in Hok. destruct (c_user_id cl) as [i |]; [| done]. run_in Hok.
    destruct (users d !! i) as [u |] eqn:Eu; [| done]. eauto. }
  rewrite (redeem_run e tok aud x y d c k cl i u) in * by done.
  destruct (is_active u) eqn:Ha; [| done]. destruct (is_locked (now e) u) eqn:Hlk; [done |]. injection Hok as <-.
  exists cl, i, u. split_and!; done.
Qed.

Lemma failed_locks e c l t : login_lockout_attempts c <= login_attempts l + 1 -> t < now e + minutes (login_lockout_minutes c) ->
  match locked_until (failed e c l) with Some x => t <? x | None => false end = true.
Proof. intros Hn Ht. unfold failed. cbn. apply Z.leb_le in Hn as ->. by apply Z.ltb_lt. Qed.

(** C35: lockout. While an account is locked, no password (right or wrong) signs
    it in, its lock is neither extended nor lifted by trying (a password stored
    under the old wire hash may be re-hashed), and no MFA or change-password
    challenge issued earlier is honoured. While it is not
    locked, a wrong password is refused, counts one attempt, and the attempt
    that reaches the configured threshold locks the account for the configured
    time. *)
Theorem lockout_enforced e env em p q d i u c k :
  emails_unique d -> users d !! i = Some u -> email u = norm_email em -> i <> 0 ->
  config d = Some c -> truthy (jwt_secret c) = Some k ->
  let o := login_compat e env em p q d in
  (is_locked (now e) u = true ->
     res o = Err (Http 401 "Invalid email or password") /\
     (exists u', users (post o) !! i = Some u' /\ lock u' = lock u) /\
     forall tok cl code p', c_user_id cl = Some i ->
       (jwt_decode tok k MFA_CHALLENGE_AUD (now e) = Ok cl -> is_ok (res (mfa_verify e tok code q d)) = false) /\
       (jwt_decode tok k CHANGE_PASSWORD_AUD (now e) = Ok cl -> is_ok (res (force_change_password e tok p' q d)) = false)) /\
  (is_locked (now e) u = false -> ~ password_ok p (hashed_password u) ->
     res o = Err (Http 401 "Invalid email or password") /\
     exists u', users (post o) !! i = Some u' /\ lock u' = failed e c (lock u) /\
       (login_lockout_attempts c <= login_attempts (lock u) + 1 ->
        forall t, t < now e + minutes (login_lockout_minutes c) -> is_locked t u' = true)).
Proof.
  intros Hu Hi He Hi0 Hc Hk o. destruct (login_compat_run e env em p q d) as (cfg & b & d1 & Hr & Hb & Hcfg & Hrun). subst o.
  rewrite (Hcfg c k Hc Hk) in *. rewrite <- He in Hrun, Hb. rewrite (by_email_complete i u d Hu Hi) in Hrun, Hb.
  destruct (rehashed_user _ _ i u Hr Hi) as [h Hi1]. pose proof (rehashed_emails _ _ Hr Hu) as Hu1.
  pose proof (login_run e em c (Some q) b d1 i (with_password h u) Hu1 Hi1 He) as Hl.
  change (is_locked (now e) (with_password h u)) with (is_locked (now e) u) in Hl. split.
  - intros Hlk. rewrite Hlk in Hl, Hrun. cbn [negb] in Hrun. rewrite andb_false_r in Hrun. cbn [andb] in Hrun.
    assert (login e em c (Some q) b d1 = Outcome (Err (Http 401 "Invalid email or password")) d1 []) as El by by destruct b.
    rewrite (bind_err _ _ _ (Http 401 "Invalid email or password")), El in Hrun by by rewrite El. rewrite Hrun. cbn [res post].
    split_and!; [done | by exists (with_password h u) |]. intros tok cl code p' Hcl. split; intros Hd.
    + unfold mfa_verify. pose proof (redeem_run e tok MFA_CHALLENGE_AUD "MFA token expired, please log in again" "Invalid MFA token"
        d c k cl i u Hc Hk Hd Hcl Hi) as Hred. rewrite Hlk in Hred. destruct (is_active u); by erewrite bind_err by by rewrite Hred.
    + unfold force_change_password. pose proof (redeem_run e tok CHANGE_PASSWORD_AUD "Change token has expired, please log in again"
        "Invalid change token" d c k cl i u Hc Hk Hd Hcl Hi) as Hred. rewrite Hlk in Hred.
      destruct (is_active u); by erewrite bind_err by by rewrite Hred.
  - intros Hlk Hwrong. destruct b; [exfalso; apply Hwrong; by eapply Hb |]. cbn [andb negb] in Hrun, Hl. rewrite Hlk in Hl.
    rewrite (bind_err _ _ _ (Http 401 "Invalid email or password")), Hl in Hrun by by rewrite Hl. rewrite Hrun. cbn [res post].
    split; [done |]. unfold record_failed_login. apply Z.eqb_neq in Hi0 as ->. cbn [modify post set_user with_users users].
    rewrite lookup_alter_eq, Hi1. eexists. split_and!; [done | done |]. intros Hn t Ht. by apply (failed_locks e c (lock u)).
Qed.

(** *** The second factor *)

Lemma issue_session_users e i u q cfg l x d : users (post (issue_session e i u q cfg l x d)) = users d.
Proof.
  unfold issue_session. rewrite bind_unless. destruct (truthy (jwt_secret cfg)) as [k |]; [| done].
  unfold mbind, M_bind. rewrite record_session_run. destruct (i =? 0); [done |]. by destruct (evict _ _).
Qed.

Lemma take_code_split code l rest : take_code code l = Some rest ->
  exists l1 h l2, l = l1 ++ h :: l2 /\ rest = l1 ++ l2 /\ bcrypt_check code h = true.
Proof.
  revert rest; induction l as [| h l IH]; intros rest; cbn [take_code]; [done |]. destruct (bcrypt_check code h) eqn:E.
  - intros [= <-]. by exists [], h, l.
  - destruct (take_code code l) as [r |]; [| done]. intros [= <-]. destruct (IH r eq_refl) as (l1 & h' & l2 & -> & -> & Hc).
    by exists (h :: l1), h', l2.
Qed.

(** C36: the second factor. A full session is exchanged for an MFA challenge only
    when the challenge is for an active account that is not locked and the code
    is the current TOTP code or one of the account's backup codes; a backup code
    that was used is taken out of the stored list, so it cannot be used twice,
    and the other codes stay. *)
Theorem second_factor_gate e tok code q d c k t :
  config d = Some c -> truthy (jwt_secret c) = Some k -> res (mfa_verify e tok code q d) = Ok t ->
  exists cl i u, jwt_decode tok k MFA_CHALLENGE_AUD (now e) = Ok cl /\ c_user_id cl = Some i /\ users d !! i = Some u /\
    is_active u = true /\ is_locked (now e) u = false /\
    (totp_ok e (factor u) (strip code) = true \/
     exists l1 h l2 u', backup_codes (factor u) = Some (l1 ++ h :: l2) /\ bcrypt_check (strip code) h = true /\
       users (post (mfa_verify e tok code q d)) !! i = Some u' /\ backup_codes (factor u') = Some (l1 ++ l2)).
Proof.
  intros Hc Hk Hok. unfold mfa_verify in Hok. apply bind_inv in Hok as (r & Hr & Hok & Hpost & _).
  destruct (redeem_inv _ _ _ _ _ _ _ _ _ Hc Hk Hr) as (cl & i & u & -> & Hd & Hi & Hu & Ha & Hlk & Hrun).
  exists cl, i, u. split_and!; try done. fold (mfa_verify e tok code q) in Hpost. rewrite Hpost, Hrun in *. cbn [post] in *.
  destruct (totp_ok e (factor u) (strip code)); [by left | right].
  destruct (spend_code (factor u) (strip code)) as [f |] eqn:Hs.
  2: { unfold record_failed_login in Hok. by destruct (i =? 0). }
  unfold spend_code in Hs. destruct (backup_codes (factor u)) as [stored |]; [| done]. cbn in Hs.
  destruct (take_code (strip code) stored) as [rest |] eqn:Ht; [| done]. cbn in Hs. injection Hs as <-.
  destruct (take_code_split _ _ _ Ht) as (l1 & h & l2 & -> & -> & Hh).
  unfold reset_login_attempts. rewrite !bind_modify, issue_session_users. cbn [set_user with_users users].
  rewrite !lookup_alter_eq, Hu. by eexists l1, h, l2, _.
Qed.

(** *** Passwords *)

(** a password reset takes effect as a whole. When it returns, the account
    has the new password, no forced change and no lock; every one of its
    sessions is revoked; every other account is as it was; and when a session was
    live the caches were told to drop everything. *)
Theorem password_reset_effect `{!LibsLaws} e i p seen d u :
  res (reset_local_user_password e i p seen d) = Ok u ->
  let o := reset_local_user_password e i p seen d in
  users (post o) !! i = Some u /\ bcrypt_check p (hashed_password u) = true /\ force_password_change u = false /\
  lock u = unlocked /\ (forall j, j <> i -> users (post o) !! j = users d !! j) /\
  (forall s, s ∈ sessions (post o) -> s_user s = i -> revoked s = true) /\
  ((exists s, s ∈ sessions d /\ s_user s = i /\ revoked s = false) -> DropAll ∈ sent o).
Proof.
  unfold reset_local_user_password. run. destruct (users d !! i) as [v |] eqn:Hv; [| done]. run.
  destruct (nonempty (hashed_password v)); [| done]. destruct (String.length p <=? MAX_PASSWORD_LEN)%nat; [| done].
  destruct (credential_ok p); [| done]. run. unfold refresh. run. cbn [set_user with_users users revoke_where with_sessions].
  rewrite !lookup_alter_eq, Hv. cbn [unless mret M_ret res post sent fmap option_fmap option_map]. intros [= <-].
  split_and!; try by destruct seen.
  - cbn. by rewrite lookup_alter_eq, Hv.
  - destruct seen; cbn; apply check_own.
  - intros j Hj. cbn. by rewrite lookup_alter_ne.
  - cbn. intros s (x & -> & Hx)%list_elem_of_fmap. unfold unrevoked_of. cbn. destruct (s_user x =? i) eqn:E; cbn.
    + destruct (revoked x) eqn:Er; cbn; [by rewrite Er | done].
    + apply Z.eqb_neq in E. done.
  - intros (s & Hs & Hu & Hr). rewrite app_nil_r. unfold revoked_all. case_bool_decide as E; [| constructor].
    apply (filter_none _ _) with (x := s) in E; [| done]. unfold unrevoked_of in E. by rewrite Hu, Z.eqb_refl, Hr in E.
Qed.

(** *** Tokens and their purposes *)

(** a token is good for one purpose only. A signed token whose audience is
    not the session audience (an MFA challenge, a change-password token, an
    invite) is not taken for a session of anyone, and a token of another audience
    (a session token, say) is not taken for a challenge. *)
Theorem audiences_are_separate `{!LibsLaws} cl k d c t e aud x y :
  config d = Some c -> truthy (jwt_secret c) = Some k -> matching_token (jwt_encode cl k) d = None ->
  (c_aud cl <> SESSION_AUDIENCE -> validate t (jwt_encode cl k) k d = None) /\
  (c_aud cl <> aud -> is_ok (res (redeem e (jwt_encode cl k) aud x y d)) = false).
Proof.
  intros Hc Hk Hm. split; intros Ha.
  - unfold validate, static_token. rewrite decode_encode, Hm. apply String.eqb_neq in Ha as ->.
    destruct (is_session_revoked _ _); [done |]. by destruct (is_past _ _).
  - destruct (res (redeem e (jwt_encode cl k) aud x y d)) as [r |] eqn:E; [| done]. exfalso.
    destruct (redeem_inv _ _ _ _ _ _ _ _ _ Hc Hk E) as (cl' & _ & _ & _ & Hd & _). rewrite decode_encode in Hd.
    apply String.eqb_neq in Ha. rewrite Ha in Hd. by destruct (is_past _ _).
Qed.

(** *** The session a login returns *)

(** C37: issuing a session and presenting it are inverse. The token that any
    login path returns resolves to the user it was issued for, with the user's
    own permissions, at every moment before its expiry at which the account can
    be used, provided no earlier session had the very same token. *)
Theorem issued_session_resolves `{!LibsLaws} e i u q cfg lifetime x d t tok k :
  truthy (jwt_secret cfg) = Some k -> i <> 0 ->
  res (issue_session e i u q cfg lifetime x d) = Ok tok ->
  (forall s, s ∈ sessions d -> jwt_token_hash s <> hash_token tok) ->
  t < seconds ((now e + or_time (Some (or_time lifetime (hours (session_timeout_hours cfg)))) (hours 24)) / 1000000) ->
  is_user_accessible t i d = true ->
  validate t tok k (post (issue_session e i u q cfg lifetime x d)) = Some (i, None).
Proof.
  intros Hk Hi Hok Hnew Ht Hacc. unfold issue_session in Hok |- *. rewrite bind_unless, Hk in *.
  apply bind_inv in Hok as (o & Hrec & [= <-] & Hpost & _). rewrite Hpost in *. clear Hpost.
  rewrite record_session_run in *. apply Z.eqb_neq in Hi as Ei. rewrite Ei in *.
  destruct (evict _ _) as [popped |]; [| done]. cbn [post mret M_ret] in *.
  unfold validate. match goal with |- (if ?b then _ else _) = _ => replace b with false end.
  - unfold session_token, create_token. rewrite decode_encode. unfold stamped, is_past. cbn [c_aud c_exp c_sub c_user_id fmap option_fmap option_map].
    replace (_ <=? t) with false by (symmetry; apply Z.leb_gt; exact Ht). rewrite String.eqb_refl. cbn [c_sub c_user_id]. rewrite Ei.
    unfold is_user_accessible in *. rewrite Ei in *. cbn [users add_session revoke_where with_sessions]. by rewrite Hacc.
  - symmetry. apply existsb_false. intros s [(y & -> & Hy)%list_elem_of_fmap | ->%list_elem_of_singleton]%elem_of_app.
    + apply andb_false_iff. left. apply String.eqb_neq. specialize (Hnew y Hy). by destruct (mem_id _ _).
    + by rewrite andb_false_r.
Qed.

End Theorems.
End LoginTheorems.
