(* ===== verification/AccountTheorems.v ===== *)
(** The theorems on first-run setup, invites and API tokens, and the behaviours
    of the account routes that depart from what the code says of itself. *)
From S2P Require Import Prelude Sha256 Hmac Regex Rbac Accounts Login Bootstrap AccountAdmin SessionCache AccountFacts AccountHistory LoginTheorems.
Open Scope Z_scope.

Module AccountTheorems.
Import Accounts Login Bootstrap AccountAdmin SessionCache AccountFacts AccountHistory LoginTheorems.

Section Theorems.
Context `{Libs}.

(** *** First-run setup *)

Lemma ensure_config e env c d c' : config d = Some c -> res (ensure_bootstrap_token e env c d) = Ok c' ->
  config (post (ensure_bootstrap_token e env c d)) = Some c' /\ auth_enabled c' = auth_enabled c /\
  (forall h, truthy (bootstrap_token_hash c') = Some h ->
     truthy (bootstrap_token_hash c) = Some h \/ h = Sha256.hexdigest (setup_token env) \/ h = Sha256.hexdigest (fresh_token e)) /\
  users (post (ensure_bootstrap_token e env c d)) = users d /\ next_user (post (ensure_bootstrap_token e env c d)) = next_user d.
Proof.
  intros E. unfold ensure_bootstrap_token. destruct (auth_enabled c) eqn:Ha; [intros [= <-]; split_and!; auto |].
  match goal with |- context [if negb ?b then _ else _] => destruct b end; cbn [negb]; [| intros [= <-]; split_and!; auto].
  assert (forall tok h, truthy (Some (Sha256.hexdigest tok)) = Some h -> h = Sha256.hexdigest tok) as Ht.
  { intros tok h. unfold truthy. by destruct (Sha256.hexdigest tok); intros [= <-]. }
  destruct (nonempty (setup_token env)).
  - destruct (MIN_BOOTSTRAP_TOKEN_LEN <=? _)%nat; [| done]. intros [= <-]. split_and!; try done. intros h Hh. right; left. by apply Ht.
  - destruct (token_file_writable env); [| done]. intros [= <-]. split_and!; try done. intros h Hh. right; right. by apply Ht.
Qed.

(** What a presented setup token has to be. *)
Definition setup_token_ok (e : draw) (env : environment) (given : string) (d : db) : Prop :=
  exists c, config d = Some c /\ auth_enabled c = false /\
    (truthy (bootstrap_token_hash c) = Some (Sha256.hexdigest (strip given)) \/
     Sha256.hexdigest (strip given) = Sha256.hexdigest (setup_token env) \/
     Sha256.hexdigest (strip given) = Sha256.hexdigest (fresh_token e)).

Lemma verify_bootstrap_inv e env g d c :
  res (verify_bootstrap_token e env g d) = Ok c ->
  setup_token_ok e env g d /\ users (post (verify_bootstrap_token e env g d)) = users d /\
  next_user (post (verify_bootstrap_token e env g d)) = next_user d.
Proof.
  unfold verify_bootstrap_token. rewrite bind_lock_settings. destruct (config d) as [c0 |] eqn:E; [| done]. run.
  destruct (auth_enabled c0) eqn:Ha; [done |]. cbn [negb]. intros Hok. apply bind_inv in Hok as (c1 & H1 & Hok & Hp & _). rewrite Hp.
  destruct (ensure_config e env c0 d c1 E H1) as (E1 & _ & Hh & Hu & Hn).
  rewrite bind_lock_settings, E1 in *. rewrite bind_unless in *. destruct (truthy (bootstrap_token_hash c1)) as [h |] eqn:Eh; [| done].
  run_in Hok. run. destruct (nonempty (strip g)); [| done]. destruct (negb (bootstrap_token_expired e c1)); [| done].
  destruct (String.eqb_spec (Sha256.hexdigest (strip g)) h) as [Es | _]; [| done]. split; [| done].
  exists c0. split_and!; [done | done |]. rewrite Es. exact (Hh h eq_refl).
Qed.

Lemma setup_refuses e env g d : holds SetUp d -> is_ok (res (verify_bootstrap_token e env g d)) = false.
Proof.
  intros (c & E & Ha). unfold verify_bootstrap_token. rewrite bind_lock_settings, E. run. by rewrite Ha.
Qed.

Lemma bind_not_ok {A B} (m : M A) (f : A -> M B) d : is_ok (res (m d)) = false -> is_ok (res ((m ≫= f) d)) = false.
Proof. unfold mbind, M_bind. by destruct (res (m d)). Qed.

Lemma finish_bootstrap_users e i cfg k w d r : res (finish_bootstrap e i cfg k w d) = Ok r ->
  users (post (finish_bootstrap e i cfg k w d)) = alter (with_last_login (now e)) i (users d).
Proof.
  unfold finish_bootstrap. run. destruct (users d !! i) as [u |]; [| done]. intros Hok.
  apply bind_inv in Hok as (t & _ & Hok & -> & _). run_in Hok. run.
  apply bind_inv in Hok as (o & Hk & _ & -> & _). run. rewrite <- (issue_session_users e i u None cfg None no_extra d).
  unfold generate_and_persist_vault_key. run. cbn [config set_user with_users].
  destruct (config (post (issue_session e i u None cfg None no_extra d))) as [c |] eqn:E; cbn [mbind option_bind].
  - destruct (truthy (vault_key c)); [done |]. destruct (truthy (vault_key_hash c)); [done |]. destruct w; run; [| done].
    unfold set_config. cbn [config set_user with_users]. by rewrite E.
  - destruct w; run; [| done]. unfold set_config. cbn [config set_user with_users]. by rewrite E.
Qed.

(** C38: first-run setup happens once, and only with the setup token. When
    bootstrap returns, setup was unfinished, the token presented was the stored
    one (or the one the environment or this very call provided), and the only
    account in the system is the administrator it created; and after any
    sequence of calls whatever, both ways of running bootstrap are refused. *)
Theorem bootstrap_once e env g em p n m key w d r :
  res (bootstrap_initialize e env g em p n m key w d) = Ok r ->
  let d' := post (bootstrap_initialize e env g em p n m key w d) in
  setup_token_ok e env g d /\
  (exists u, users d' = {[ next_user d := u ]} /\ email u = norm_email em /\ role (granted u) = "admin" /\ is_superuser (granted u) = true) /\
  forall cs e' env' g' em' p' n' m' key' w' tok,
    is_ok (res (bootstrap_initialize e' env' g' em' p' n' m' key' w' (runs cs d'))) = false /\
    is_ok (res (bootstrap_initialize_oauth e' env' g' tok n' m' key' w' (runs cs d'))) = false.
Proof.
  intros Hok d'.
  assert (setup_token_ok e env g d /\ holds SetUp d' /\
    exists u, users d' = {[ next_user d := u ]} /\ email u = norm_email em /\ role (granted u) = "admin" /\ is_superuser (granted u) = true)
    as (Htok & Hset & Hu).
  { subst d'. unfold bootstrap_initialize in Hok |- *. run_in Hok. run. destruct (email_ok (norm_email em)); [| done].
    destruct (String.length p <=? MAX_PASSWORD_LEN)%nat; [| done]. destruct (credential_ok p); [| done].
    destruct (normalise_smtp_bootstrap_payload m); [| done].
    apply bind_inv in Hok as (c & Hv & Hok & Hp & _). rewrite Hp. clear Hp. destruct (verify_bootstrap_inv _ _ _ _ _ Hv) as (Ht & Eu & En).
    run_in Hok. run. split_and!; [done | |].
    - apply finish_bootstrap_stays. eexists. by split.
    - rewrite (finish_bootstrap_users _ _ _ _ _ _ _ Hok). cbn [users next_user with_config add_user drop_users]. rewrite En, Eu.
      replace (filter _ (users d)) with (∅ : gmap Z user); 
        [| symmetry; apply map_eq; intros i; rewrite lookup_empty; apply map_lookup_filter_None; right; done].
      rewrite insert_empty, alter_singleton_eq. by eexists. }
  split_and!; [done | done |]. intros cs e' env' g' em' p' n' m' key' w' tok. pose proof (runs_later cs d' SetUp Hset) as Hs. split.
  - unfold bootstrap_initialize. run. destruct (email_ok _); [| done]. destruct (_ <=? _)%nat; [| done].
    destruct (credential_ok p'); [| done]. destruct (normalise_smtp_bootstrap_payload m'); [| done].
    apply bind_not_ok, setup_refuses, Hs.
  - unfold bootstrap_initialize_oauth. apply bind_not_ok, setup_refuses, Hs.
Qed.

(** *** Invites *)

Definition row_of_token (tok : string) (d : db) : option invite := List.find (fun i => String.eqb (i_token i) tok) (invites d).

Lemma row_elem tok d i : row_of_token tok d = Some i -> i ∈ invites d.
Proof. intros [Hin _]%find_some. by apply list_elem_of_In. Qed.

Lemma pending_invite_inv e tok d i : res (pending_invite e tok d) = Ok i ->
  row_of_token tok d = Some i /\ i_status i = Pending /\ now e <= i_expires i /\ post (pending_invite e tok d) = d.
Proof.
  unfold pending_invite. rewrite bind_gets, bind_unless. fold (row_of_token tok d).
  destruct (row_of_token tok d) as [x |]; [| done]. rewrite bind_guarded. case_bool_decide; [| done].
  destruct (Z.ltb_spec (i_expires x) (now e)); [done |]. by intros [= <-].
Qed.

(** What a presented invite token leads to, when its settings are read: the
    tables are the same but for the settings. *)
Lemma invite_payload_inv e tok d r : res (invite_payload e tok d) = Ok r ->
  exists c em ro k, r = (c, em, ro) /\ post (invite_payload e tok d) = with_config c d /\ truthy (jwt_secret c) = Some k /\
    is_ok (jwt_decode tok k INVITE_TOKEN_AUD (now e)) = true.
Proof.
  unfold invite_payload. match goal with |- context [(get_or_create_settings e ≫= ?f) d] =>
    destruct (bind_settings e f d) as (cfg & -> & _) end.
  rewrite bind_unless. destruct (truthy (jwt_secret cfg)) as [k |] eqn:Ek; [| done]. rewrite bind_lift.
  destruct (jwt_decode tok k INVITE_TOKEN_AUD (now e)) as [cl |] eqn:Ed; [| done]. rewrite bind_unless.
  destruct (truthy (c_email cl)) as [em |]; [| done]. rewrite bind_guarded. destruct (valid_role _); [| done].
  intros [= <-]. exists cfg, em, (default "viewer" (c_role cl)), k. by rewrite Ed.
Qed.

Lemma accept_inv e tok p n d uid : res (accept_invite e tok p n d) = Ok uid ->
  exists c i u, row_of_token tok d = Some i /\ i_status i = Pending /\ now e <= i_expires i /\
    post (accept_invite e tok p n d) = set_invite (i_id i) (set_status Accepted (Some (now e))) (add_user u (with_config c d)).
Proof.
  unfold accept_invite. intros Hok. apply bind_inv in Hok as (r & Hr & Hok & Hp & _). rewrite Hp. clear Hp.
  destruct (invite_payload_inv _ _ _ _ Hr) as (c & em & ro & k & -> & Epost & _). rewrite Epost in *.
  apply bind_inv in Hok as (i & Hi & Hok & Hp & _). rewrite Hp. clear Hp.
  destruct (pending_invite_inv _ _ _ _ Hi) as (Hrow & Hst & Hexp & Ei). rewrite Ei in *.
  run_in Hok. run. destruct (credential_ok p); [| done]. run_in Hok. run. destruct (user_by_email _ _) as [x |]; [done |]. run.
  by exists c, i, (new_user (norm_email em) (hash_password e 0 p) (Some (default (local_part em) (truthy n))) ro [] (Some (i_invited_by i))).
Qed.

Lemma spent_not_pending e tok d i : row_of_token tok d = Some i -> holds (Spent (i_id i)) d -> is_ok (res (pending_invite e tok d)) = false.
Proof.
  intros Hrow [_ Hs]. destruct (res (pending_invite e tok d)) as [x |] eqn:E; [| done]. exfalso.
  apply pending_invite_inv in E as (Hx & Hst & _). rewrite Hrow in Hx. injection Hx as <-. by apply (Hs i (row_elem _ _ _ Hrow)).
Qed.

(** C39: an invite makes one account. When a token is accepted, it had a pending
    and unexpired invite row; that row is then spent for good: after any sequence
    of calls, whatever the administrator does with it (extending it included),
    neither accepting it again nor using it for an OAuth sign-in succeeds while
    it is the token's row. *)
Theorem invite_makes_one_account e tok p n d uid :
  holds Numbered d -> res (accept_invite e tok p n d) = Ok uid ->
  exists i, row_of_token tok d = Some i /\ i_status i = Pending /\ now e <= i_expires i /\
    (forall cs e' p' n' em' i', let d' := runs cs (post (accept_invite e tok p n d)) in
       row_of_token tok d' = Some i' -> i_id i' = i_id i ->
       is_ok (res (accept_invite e' tok p' n' d')) = false /\ is_ok (res (consume_invite_for_oauth e' tok em' d')) = false).
Proof.
  intros [_ Hn] Hok. destruct (accept_inv _ _ _ _ _ _ Hok) as (c & i & u & Hrow & Hst & Hexp & Ep). exists i. split_and!; try done.
  intros cs e' p' n' em' i' d' Hrow' Hid. assert (holds (Spent (i_id i')) d') as Hspent.
  { rewrite Hid. apply runs_later. rewrite Ep. split; [cbn; apply Hn; by eapply row_elem |]. cbn.
    intros x (y & -> & Hy)%list_elem_of_fmap Hx. destruct (Z.eqb_spec (i_id y) (i_id i)); done. }
  split.
  - destruct (res (accept_invite e' tok p' n' d')) as [v |] eqn:E; [| done]. exfalso.
    destruct (accept_inv _ _ _ _ _ _ E) as (_ & j & _ & Hj & Hpend & _). rewrite Hrow' in Hj. injection Hj as <-.
    destruct Hspent as [_ Hs]. by apply (Hs i' (row_elem _ _ _ Hrow')).
  - unfold consume_invite_for_oauth. destruct (res (invite_payload e' tok d')) as [r |] eqn:Er; [| by apply bind_not_ok; rewrite Er].
    rewrite (bind_ok _ _ _ r Er). destruct (invite_payload_inv _ _ _ _ Er) as (c' & em & ro & k & -> & Epost & _). rewrite Epost.
    rewrite bind_guarded. destruct (String.eqb _ _); [| done]. cbn [res]. apply bind_not_ok.
    by apply (spent_not_pending e' tok (with_config c' d') i').
Qed.

(** Extending an invite has no effect on the token: once the expiry it was
    created with has passed, the token is refused, whatever its row says. *)
Theorem extended_invite_refused `{!LibsLaws} e em r exp k p n d c :
  config d = Some c -> truthy (jwt_secret c) = Some k -> exp <= now e ->
  res (accept_invite e (jwt_encode (invite_claims em r exp) k) p n d) = Err (Http 400 "Invalid or expired invite").
Proof.
  intros Hc Hk Hexp. unfold accept_invite, invite_payload. erewrite bind_err; [done |].
  rewrite (bind_configured_settings e d c k) by done. run. rewrite Hk. run. rewrite decode_encode.
  assert (is_past (now e) (c_exp (stamped (invite_claims em r exp))) = true) as ->; [| done].
  cbn. apply Z.leb_le. unfold seconds. pose proof (Z.mul_div_le exp 1000000). lia.
Qed.

(** *** API tokens *)

Lemma find_app_none {A} (f : A -> bool) l x : List.find f l = None -> f x = true -> List.find f (l ++ [x]) = Some x.
Proof. induction l as [| y l IH]; cbn; [by intros _ -> |]. destruct (f y); [done |]. auto. Qed.

Lemma find_filter_none {A} (f g : A -> bool) l : List.find f l = None -> List.find f (List.filter g l) = None.
Proof.
  induction l as [| y l IH]; cbn; [done |]. destruct (f y) eqn:E; [done |]. intros Hn. destruct (g y); cbn; [rewrite E |]; auto.
Qed.

Definition token_by_id (i : Z) (d : db) : option api_token := List.find (fun t => t_id t =? i) (tokens d).

Lemma bind_token_row {B} i (f : api_token -> M B) d :
  (token_row i ≫= f) d = match token_by_id i d with Some t => f t d | None => Outcome (Err (Http 404 "API token not found")) d [] end.
Proof. exact (bind_row (token_by_id i) _ f d). Qed.

(** The row a rotation leaves. *)
Definition rotated_row (e : draw) (actor : Z) (old : api_token) (raw : string) (n : Z) : api_token :=
  ApiToken n (stored_hash e raw) (t_label old) actor (Some (default [] (t_scopes old))) (t_expires_at old).

Lemma rotate_run e actor i d c k old :
  config d = Some c -> truthy (jwt_secret c) = Some k -> token_by_id i d = Some old ->
  let raw := if is_service_account old
             then service_token e k (default 8760 (hours_until e (t_expires_at old))) (default [] (t_scopes old))
                    (removeprefix SERVICE_ACCOUNT_LABEL_PREFIX <$> t_label old)
             else fresh_token e in
  rotate_api_token e actor i d =
  Outcome (Ok (next_token d, raw)) (drop_token i (add_token (rotated_row e actor old raw) d)) [DropLocal].
Proof.
  intros Hc Hk Hi. unfold rotate_api_token. rewrite bind_token_row, Hi. destruct (is_service_account old); cbn zeta.
  - erewrite bind_ok by (rewrite (bind_configured_settings e d c k) by done; unfold configured; rewrite bind_unless, Hk; reflexivity).
    rewrite (bind_configured_settings e d c k) by done. unfold configured. rewrite bind_unless, Hk. by run.
  - by run.
Qed.

(** The rotated row is the one a token scan finds. *)
Lemma rotated_matching e actor i d old raw :
  token_by_id i d = Some old -> i <> next_token d -> matching_token raw d = None ->
  matching_token raw (drop_token i (add_token (rotated_row e actor old raw) d)) = Some (rotated_row e actor old raw (next_token d)).
Proof.
  intros Hi Hne Hm. unfold matching_token, drop_token, add_token. cbn. rewrite List.filter_app. cbn.
  replace (next_token d =? i) with false by (symmetry; apply Z.eqb_neq; congruence). cbn.
  apply find_app_none; [by apply find_filter_none | apply Hmac.verify_own].
Qed.

Lemma service_token_decodes `{!LibsLaws} e k h sc l t :
  h <> 0 -> t < seconds ((now e + hours h) / 1000000) ->
  exists cl, jwt_decode (service_token e k h sc l) k SESSION_AUDIENCE t = Ok cl /\ c_sub cl = None /\ c_user_id cl = Some 0 /\
    c_scopes cl = Some sc.
Proof.
  intros Hh Ht. unfold service_token, create_token. apply Z.eqb_neq in Hh as Eh. rewrite Eh.
  assert ((hours h =? 0) = false) as Eh'. { unfold hours, minutes, seconds. lia. }
  rewrite decode_encode. unfold stamped, is_past. cbn [c_aud c_exp fmap option_fmap option_map or_time].
  rewrite Eh'. replace (_ <=? t) with false by (symmetry; by apply Z.leb_gt). rewrite String.eqb_refl. by eexists.
Qed.

(** C40: rotating a service account's token keeps its power. The new token
    resolves as the service sentinel with exactly the scopes of the old row, for
    as long as neither the row nor the token has expired, and not as the
    administrator who rotated it; the row it replaces is gone for good. *)
Theorem rotation_keeps_power `{!LibsLaws} e actor i d c k old t :
  config d = Some c -> truthy (jwt_secret c) = Some k -> token_by_id i d = Some old -> i <> next_token d -> i < next_token d ->
  is_service_account old = true ->
  let o := rotate_api_token e actor i d in
  exists raw, res o = Ok (next_token d, raw) /\ holds (Gone i) (post o) /\
    (matching_token raw d = None -> (forall s, s ∈ sessions d -> jwt_token_hash s <> hash_token raw) ->
     is_past t (t_expires_at old) = false ->
     t < seconds ((now e + hours (default 8760 (hours_until e (t_expires_at old)))) / 1000000) ->
     validate t raw k (post o) = Some (0, Some (Rbac.cleaned (default [] (t_scopes old))))).
Proof.
  intros Hc Hk Hi Hne Hlt Hsa. pose proof (rotate_run e actor i d c k old Hc Hk Hi) as Hrun. cbn zeta in Hrun. rewrite Hsa in Hrun.
  cbn zeta. rewrite Hrun. clear Hrun. cbn [res post]. eexists. split_and!; [done | |].
  { split; [cbn; lia |]. cbn. intros x [_ Hx]%list_elem_of_In%filter_In. by apply negb_true_iff, Z.eqb_neq in Hx. }
  set (raw := service_token _ _ _ _ _). intros Hm Hs Hrow Ht. unfold validate.
  replace (is_session_revoked raw _) with false.
  2: { symmetry. apply existsb_false. intros s Hin. apply andb_false_iff. left. by apply String.eqb_neq, Hs. }
  set (h := default 8760 (hours_until e (t_expires_at old))) in *.
  assert (h <> 0) as Hh. { subst h. unfold hours_until. destruct (t_expires_at old); cbn; lia. }
  destruct (service_token_decodes e k h (default [] (t_scopes old)) (removeprefix SERVICE_ACCOUNT_LABEL_PREFIX <$> t_label old) t Hh Ht)
    as (cl & Hd & E1 & E2 & E3).
  fold raw in Hd. rewrite Hd, E1, E2, E3. cbn [Z.eqb]. unfold service_account_token_is_live.
  rewrite (rotated_matching e actor i d old raw Hi Hne Hm). cbn [t_expires_at rotated_row]. by rewrite Hrow.
Qed.

(** Rotating a plain token whose row names no scopes hands it to the
    administrator who rotates it: the new token is that administrator, with all
    of their permissions, whoever the old one was. *)
Theorem rotated_unscoped_token_changes_owner e actor i d c k old t er :
  config d = Some c -> truthy (jwt_secret c) = Some k -> token_by_id i d = Some old -> i <> next_token d ->
  is_service_account old = false -> default [] (t_scopes old) = [] ->
  matching_token (fresh_token e) d = None -> (forall s, s ∈ sessions d -> jwt_token_hash s <> hash_token (fresh_token e)) ->
  jwt_decode (fresh_token e) k SESSION_AUDIENCE t = Err er -> is_past t (t_expires_at old) = false ->
  is_user_accessible t actor d = true ->
  validate t (fresh_token e) k (post (rotate_api_token e actor i d)) = Some (actor, None).
Proof.
  intros Hc Hk Hi Hne Hsa Hsc Hm Hs Hd Hrow Hacc. pose proof (rotate_run e actor i d c k old Hc Hk Hi) as Hrun. cbn zeta in Hrun.
  rewrite Hsa in Hrun. rewrite Hrun. cbn [post]. unfold validate. rewrite Hd.
  replace (is_session_revoked (fresh_token e) _) with false.
  2: { symmetry. apply existsb_false. intros s Hin. apply andb_false_iff. left. by apply String.eqb_neq, Hs. }
  unfold static_token. rewrite (rotated_matching e actor i d old (fresh_token e) Hi Hne Hm). cbn [t_expires_at rotated_row created_by t_scopes].
  rewrite Hrow, Hsc. change (is_user_accessible t actor _) with (is_user_accessible t actor d). by rewrite Hacc.
Qed.

(** *** Behaviours that depart from what the code says *)

(** With a session limit of zero nobody can sign in: issuing a session raises. *)
Theorem no_session_allowed e i u q cfg l x d k :
  truthy (jwt_secret cfg) = Some k -> i <> 0 -> concurrent_sessions cfg <= 0 ->
  issue_session e i u q cfg l x d = Outcome (Err IndexError) d [].
Proof.
  intros Hk Hi Hl. unfold issue_session. rewrite bind_unless, Hk. unfold mbind, M_bind. rewrite record_session_run.
  apply Z.eqb_neq in Hi as ->. by rewrite (proj2 (evict_none _ _) Hl).
Qed.

(** Whoever invited a user who joined cannot be deleted. *)
Theorem inviter_not_deletable i j u v d :
  users d !! i = Some u -> users d !! j = Some v -> invited_by v = Some i -> j <> i ->
  delete_account i d = Outcome (Err (IntegrityError "fk_users_invited_by")) d [] /\
  delete_user_permanent i d = Outcome (Err (IntegrityError "fk_users_invited_by")) d [].
Proof.
  intros Hi Hj Hinv Hne. assert (referenced i d = true) as Hr.
  { unfold referenced. apply existsb_true. exists (j, v). split; [by apply elem_of_map_to_list |]. cbn.
    rewrite bool_decide_eq_true_2 by done. by apply negb_true_iff, Z.eqb_neq. }
  assert (delete_row i d = Outcome (Err (IntegrityError "fk_users_invited_by")) d []) as Hd.
  { unfold delete_row. run. by rewrite Hr. }
  split.
  - unfold delete_account. rewrite bind_own_user, Hi. by rewrite (bind_err _ _ _ (IntegrityError "fk_users_invited_by")), Hd by by rewrite Hd.
  - unfold delete_user_permanent. run. by rewrite Hi, Hd.
Qed.

(** An account made by an invite has no scopes of its own, unlike one an
    administrator creates or changes. *)
Theorem invited_user_has_no_scopes e tok p n d uid :
  res (accept_invite e tok p n d) = Ok uid -> next_user d = uid ->
  exists u, users (post (accept_invite e tok p n d)) !! uid = Some u /\ scopes (granted u) = [].
Proof.
  unfold accept_invite. intros Hok <-. apply bind_inv in Hok as (r & Hr & Hok & Hp & _). rewrite Hp. clear Hp.
  destruct (invite_payload_inv _ _ _ _ Hr) as (c & em & ro & k & -> & Epost & _). rewrite Epost in *.
  apply bind_inv in Hok as (i & Hi & Hok & Hp & _). rewrite Hp. clear Hp.
  destruct (pending_invite_inv _ _ _ _ Hi) as (Hrow & Hst & Hexp & Ei). rewrite Ei in *.
  run_in Hok. run. destruct (credential_ok p); [| done]. run_in Hok. run. destruct (user_by_email _ _) as [x |]; [done |]. run.
  eexists. cbn. rewrite lookup_insert_eq. by split.
Qed.

(** The second factor never locks an account. Whatever the counter stood at, a
    right password followed by a wrong code leaves it at one failure and
    unlocked, so this round can be repeated for ever. *)
Theorem second_factor_never_locks `{!LibsLaws} e e' env em p code q d c k i u mfa :
  emails_unique d -> users d !! i = Some u -> email u = norm_email em -> i <> 0 ->
  config d = Some c -> truthy (jwt_secret c) = Some k -> 2 <= login_lockout_attempts c ->
  is_active u = true -> is_locked (now e) u = false -> force_password_change u = false -> mfa_enabled (factor u) = true ->
  bcrypt_check p (hashed_password u) = true ->
  res (login_compat e env em p q d) = Ok (RequiresMfa mfa) ->
  now e' < seconds ((now e + minutes 5) / 1000000) ->
  totp_ok e' (factor u) (strip code) = false -> spend_code (factor u) (strip code) = None ->
  let d1 := post (login_compat e env em p q d) in
  res (mfa_verify e' mfa code q d1) = Err (Http 401 "Invalid or expired MFA code") /\
  users (post (mfa_verify e' mfa code q d1)) !! i = Some (with_lock (Lockout 1 None) u).
Proof.
  intros Hu Hi He Hi0 Hc Hk Hn Ha Hlk Hf Hm Hp Hok Ht Htotp Hspend d1.
  assert (jwt_secret c = Some k) as Hsec. { destruct (jwt_secret c) as [[|] |]; cbn in Hk; congruence. }
  assert (login_compat e env em p q d = Outcome (Ok (RequiresMfa (jwt_encode (challenge i MFA_CHALLENGE_AUD (now e + minutes 5)) k)))
            (set_user i (with_lock unlocked) d) []) as Hl.
  { unfold login_compat. rewrite (bind_configured_settings e d c k) by done. rewrite bind_gets, <- He, (by_email_complete i u d Hu Hi).
    unfold verify_login_password. rewrite Hp, bind_mret. cbn [locked_now]. rewrite Hlk, Hf, Hm. cbn [andb negb].
    unfold reset_login_attempts. run. by rewrite Hsec. }
  subst d1. rewrite Hl in *. cbn [res post] in *. injection Hok as <-.
  set (d1 := set_user i (with_lock unlocked) d) in *.
  assert (users d1 !! i = Some (with_lock unlocked u)) as Hi1. { subst d1. cbn. by rewrite lookup_alter_eq, Hi. }
  unfold mfa_verify. pose proof (redeem_run e' (jwt_encode (challenge i MFA_CHALLENGE_AUD (now e + minutes 5)) k) MFA_CHALLENGE_AUD
    "MFA token expired, please log in again" "Invalid MFA token" d1 c k (stamped (challenge i MFA_CHALLENGE_AUD (now e + minutes 5))) i
    (with_lock unlocked u) Hc Hk) as Hred.
  rewrite decode_encode in Hred. assert (is_past (now e') (c_exp (stamped (challenge i MFA_CHALLENGE_AUD (now e + minutes 5)))) = false) as Hpast.
  { cbn. by apply Z.leb_gt. }
  rewrite Hpast in Hred. specialize (Hred eq_refl eq_refl Hi1). cbn [is_active is_locked with_lock lock unlocked locked_until] in Hred. rewrite Ha in Hred.
  erewrite bind_ok by by rewrite Hred. rewrite Hred. cbn [post res]. cbn [factor with_lock]. rewrite Htotp, Hspend.
  unfold record_failed_login. apply Z.eqb_neq in Hi0 as ->. run. split; [done |].
  cbn [raise post set_user with_users users]. rewrite lookup_alter_eq, Hi1. cbn [fmap option_fmap option_map].
  assert (failed e' c (lock (with_lock unlocked u)) = Lockout 1 None) as ->; [| done]. unfold failed. cbn [lock with_lock login_attempts unlocked locked_until].
  change (0 + 1) with 1. by replace (login_lockout_attempts c <=? 1) with false by lia.
Qed.

(** A password stored under the old wire hash works once. Checking it accepts it
    and stores it under the salt of the settings, and from then on the same
    password is refused: the plain password is only ever compared as it is or
    under the old wire hash. *)
Theorem legacy_password_works_once e e' env p d c k i u :
  config d = Some c -> truthy (jwt_secret c) = Some k -> users d !! i = Some u ->
  get_client_salt env (Some c) <> DEFAULT_SALT -> is_client_hash p = false ->
  bcrypt_check p (hashed_password u) = false ->
  bcrypt_check (legacy_client_wire_hash_v1 p DEFAULT_SALT) (hashed_password u) = true ->
  (forall s a b, bcrypt_check a (bcrypt_hash s b) = true -> a = b) ->
  let stored := client_hash_password env p (Some (get_client_salt env (Some c))) in
  p <> stored -> legacy_client_wire_hash_v1 p DEFAULT_SALT <> stored ->
  let o := verify_login_password e env (Some (i, u)) p d in
  res o = Ok true /\
  exists u', users (post o) !! i = Some u' /\ res (verify_login_password e' env (Some (i, u')) p (post o)) = Ok false.
Proof.
  intros Hc Hk Hu Hsalt Hcl Hp Hleg Hexact stored Hne1 Hne2. apply String.eqb_neq in Hsalt.
  assert (verify_login_password e env (Some (i, u)) p d =
          Outcome (Ok true) (set_user i (with_password (hash_password e 0 stored)) d) []) as Hv.
  { unfold verify_login_password. rewrite Hp, Hcl, (bind_configured_settings e d c k) by done. by rewrite Hsalt, Hleg. }
  cbn zeta. rewrite Hv. cbn [res post]. split; [done |]. eexists. split; [cbn; by rewrite lookup_alter_eq, Hu |].
  assert (forall a, a <> stored -> bcrypt_check a (hashed_password (with_password (hash_password e 0 stored) u)) = false) as Hno.
  { intros a Ha. apply not_true_iff_false. intros E. by apply Ha, (Hexact (salt_of e 0)). }
  unfold verify_login_password. rewrite Hno, Hcl by done. rewrite (bind_configured_settings e' _ c k) by done. by rewrite Hsalt, Hno.
Qed.

End Theorems.
End AccountTheorems.
