(* ===== verification/AccountsLab.v ===== *)
(** A concrete instance of the libraries the accounts component uses, and the
    theorems applied to it: a token format with a checked key, a password hash and
    a one-time code that can be evaluated. *)
From S2P Require Import Prelude Sha256 Hmac Regex Rbac Accounts Login Bootstrap AccountAdmin SessionCache AccountFacts AccountHistory SessionSafety SessionTheorems LoginTheorems AccountTheorems.
Open Scope Z_scope.

Module AccountsLab.
Import Accounts Login Bootstrap AccountAdmin SessionCache AccountFacts AccountHistory SessionSafety SessionTheorems LoginTheorems AccountTheorems.

(** *** Self-delimiting text *)

Record codec (A : Type) := Codec {
  put : A -> string -> string;
  take_ : string -> option (A * string);
  put_take a s : take_ (put a s) = Some (a, s)
}.
Arguments Codec {A} put take_ put_take.
Arguments put {A} c a s.
Arguments take_ {A} c s.
Arguments put_take {A} c a s.

Fixpoint put_text (t s : string) : string :=
  match t with EmptyString => String "." s | String c t => String "c" (String c (put_text t s)) end.

Fixpoint take_text (s : string) : option (string * string) :=
  match s with
  | String x (String c r) => if Ascii.eqb x "c" then prod_map (String c) id <$> take_text r else if Ascii.eqb x "." then Some (EmptyString, String c r) else None
  | String x EmptyString => if Ascii.eqb x "." then Some (EmptyString, EmptyString) else None
  | EmptyString => None
  end.

Lemma put_take_text t s : take_text (put_text t s) = Some (t, s).
Proof. induction t as [| c t IH]; cbn; [by destruct s |]. by rewrite IH. Qed.

Definition text_codec : codec string := Codec put_text take_text put_take_text.

Fixpoint bits (p : positive) : string :=
  match p with xH => EmptyString | xO p => String "0" (bits p) | xI p => String "1" (bits p) end.
Fixpoint of_bits (s : string) : positive :=
  match s with EmptyString => xH | String c s => if Ascii.eqb c "0" then xO (of_bits s) else xI (of_bits s) end.
Lemma of_bits_bits p : of_bits (bits p) = p.
Proof. induction p as [p IH | p IH |]; cbn; by rewrite ?IH. Qed.

Definition int_text (n : Z) : string :=
  match n with Z0 => "z" | Zpos p => String "p" (bits p) | Zneg p => String "n" (bits p) end.
Definition text_int (s : string) : Z :=
  match s with
  | String c s => if Ascii.eqb c "p" then Zpos (of_bits s) else if Ascii.eqb c "n" then Zneg (of_bits s) else Z0
  | EmptyString => Z0
  end.
Lemma text_int_text n : text_int (int_text n) = n.
Proof. destruct n; cbn; by rewrite ?of_bits_bits. Qed.

Program Definition int_codec : codec Z :=
  Codec (fun n => put_text (int_text n)) (fun s => prod_map text_int id <$> take_text s) _.
Next Obligation. intros n s. cbn. rewrite put_take_text. cbn. by rewrite text_int_text. Qed.

Program Definition option_codec {A} (c : codec A) : codec (option A) :=
  Codec (fun o s => match o with None => String "n" s | Some a => String "s" (put c a s) end)
        (fun s => match s with
                  | String x r => if Ascii.eqb x "n" then Some (None, r) else prod_map Some id <$> take_ c r
                  | EmptyString => None
                  end) _.
Next Obligation. intros A c [a |] s; cbn; [by rewrite put_take | done]. Qed.

(** A list as its length in unary and its elements. *)
Fixpoint put_list {A} (c : codec A) (l : list A) (s : string) : string :=
  match l with [] => String "n" s | a :: l => String "s" (put c a (put_list c l s)) end.
Fixpoint take_list {A} (c : codec A) (fuel : nat) (s : string) : option (list A * string) :=
  match fuel, s with
  | S fuel, String x r =>
      if Ascii.eqb x "n" then Some ([], r)
      else '(a, r) ← take_ c r; '(l, r) ← take_list c fuel r; Some (a :: l, r)
  | _, _ => None
  end.
Lemma put_take_list {A} (c : codec A) l s fuel : (length l < fuel)%nat -> take_list c fuel (put_list c l s) = Some (l, s).
Proof.
  revert fuel; induction l as [| a l IH]; intros [| fuel] Hf; cbn in *; try lia; [done |].
  rewrite put_take. cbn. rewrite IH by lia. done.
Qed.

Definition put_counted {A} (c : codec A) (l : list A) (s : string) : string := put int_codec (Z.of_nat (length l)) (put_list c l s).
Definition take_counted {A} (c : codec A) (s : string) : option (list A * string) :=
  '(n, r) ← take_ int_codec s; take_list c (S (Z.to_nat n)) r.

Lemma put_take_counted {A} (c : codec A) l s : take_counted c (put_counted c l s) = Some (l, s).
Proof. unfold take_counted, put_counted. rewrite put_take. cbn [mbind option_bind]. apply put_take_list. lia. Qed.

Definition list_codec {A} (c : codec A) : codec (list A) := Codec (put_counted c) (take_counted c) (put_take_counted c).

Program Definition pair_codec {A B} (c : codec A) (b : codec B) : codec (A * B) :=
  Codec (fun p s => put c p.1 (put b p.2 s)) (fun s => '(x, r) ← take_ c s; '(y, r) ← take_ b r; Some ((x, y), r)) _.
Next Obligation. intros A B c b [x y] s. cbn. rewrite put_take. cbn. rewrite put_take. done. Qed.

(** *** Tokens *)

Abbreviation fields := (string * (option Z * (option (option Z) * (option Z * (option string * (option string *
  (option (list string) * (option Z * (option string * (option string * option Z))))))))))%type.

Definition to_fields (c : claims) : fields :=
  (c_aud c, (c_exp c, (c_sub c, (c_user_id c, (c_email c, (c_role c, (c_scopes c, (c_demo_expires c, (c_label c, (c_jti c, c_masquerade_by c)))))))))).
Definition of_fields (f : fields) : claims :=
  let '(a, (b, (c, (d, (e, (f, (g, (h, (i, (j, k)))))))))) := f in Claims a b c d e f g h i j k.

Definition fields_codec : codec fields :=
  pair_codec text_codec (pair_codec (option_codec int_codec) (pair_codec (option_codec (option_codec int_codec))
    (pair_codec (option_codec int_codec) (pair_codec (option_codec text_codec) (pair_codec (option_codec text_codec)
      (pair_codec (option_codec (list_codec text_codec)) (pair_codec (option_codec int_codec) (pair_codec (option_codec text_codec)
        (pair_codec (option_codec text_codec) (option_codec int_codec)))))))))).

Definition lab_encode (c : claims) (k : string) : string := put text_codec k (put fields_codec (to_fields (stamped c)) EmptyString).

Definition lab_decode (t k a : string) (now : Z) : result jwt_error claims :=
  match take_ text_codec t with
  | Some (k', r) =>
      if String.eqb k' k then
        match take_ fields_codec r with
        | Some (f, EmptyString) =>
            let c := of_fields f in
            if is_past now (c_exp c) then Err ExpiredSignatureError
            else if String.eqb (c_aud c) a then Ok c else Err InvalidTokenError
        | _ => Err InvalidTokenError
        end
      else Err InvalidTokenError
  | None => Err InvalidTokenError
  end.

#[export] Instance lab : Libs := {|
  jwt_encode := lab_encode;
  jwt_decode := lab_decode;
  bcrypt_hash salt p := String "$" p;
  bcrypt_check p h := String.eqb h (String "$" p);
  totp_verify secret code t := String.eqb code ("otp-" +:+ secret)
|}.

#[export] Instance lab_laws : LibsLaws.
Proof.
  split.
  - intros c k a t. change (lab_decode (lab_encode c k) k a t = if is_past t (c_exp (stamped c)) then Err ExpiredSignatureError
      else if String.eqb (c_aud c) a then Ok (stamped c) else Err InvalidTokenError).
    unfold lab_decode, lab_encode. rewrite put_take, String.eqb_refl, put_take.
    replace (of_fields (to_fields (stamped c))) with (stamped c) by by destruct (stamped c). done.
  - intros tok k a t c. change (lab_decode tok k a t = Ok c -> c_aud c = a). unfold lab_decode.
    destruct (take_ text_codec tok) as [[k' r] |]; [| done]. destruct (String.eqb k' k); [| done].
    destruct (take_ fields_codec r) as [[f [|]] |]; [| done ..]. destruct (is_past _ _); [done |].
    destruct (String.eqb_spec (c_aud (of_fields f)) a); [| done]. by intros [= <-].
  - intros salt p. cbn. apply String.eqb_refl.
Qed.

(** *** One installation *)

Definition at_ (t : Z) : draw := Draw t "fresh-secret" "fresh-token" (fun _ => "salt") ["AAAA"; "BBBB"] "Temp0rary!" "saltsalt" "jti".
Definition env0 : environment := Environment None None None true.
Definition cfg0 : settings := Settings true (Some "key") None 24 2 3 15 7 true true None None None None None.
Definition ann : user :=
  User "ann@example.org" "$Passw0rd!" (Some "Ann") true (Access "viewer" false false ["read:*"]) (Lockout 0 None)
    (SecondFactor false None None) false None None None.

(** Ann signed in at second 100. *)
Definition tok : string := Eval vm_compute in session_token (at_ (seconds 100)) 1 ann cfg0 "key" None no_extra.
Definition tok_hash : string := Eval vm_compute in hash_token tok.
Definition ann_session : session := Session 1 1 tok_hash None None (seconds 100) (seconds 86500) false.
Definition d0 : db := Db (Some cfg0) {[ 1 := ann ]} 2 [ann_session] 2 [] 1 [] 1 None.
Definition with_tok : request := Request "" (Some tok) None None.

Lemma tok_hash_eq : hash_token tok = tok_hash.
Proof. vm_compute. reflexivity. Qed.

Lemma d0_numbered : holds Numbered d0.
Proof. split; [cbn; intros i u [<- _]%lookup_singleton_Some; lia | intros x Hx; by apply elem_of_nil in Hx]. Qed.

Lemma d0_ann : users d0 !! 1 = Some ann.
Proof. reflexivity. Qed.

Lemma d0_session : ann_session ∈ sessions d0.
Proof. constructor. Qed.

Lemma d0_only s : s ∈ sessions d0 -> s = ann_session.
Proof. by intros ->%list_elem_of_singleton. Qed.

(** Two workers and Redis, at second 101. *)
Definition w0 : world := World d0 (fun _ => Worker [] None 0) (Redis None ∅) [] [] (seconds 101).
Definition seen : flight := Flight 1 tok_hash (1, None).
Definition w1 : world := World d0 (fun _ => Worker [] None 0) (Redis None ∅) [seen] [] (seconds 101).
(** Worker 1 has Ann's token in its cache. *)
Definition w2 : world := stored seen [] w1.

Lemma w0_fresh : fresh w0.
Proof. split_and!; try done. exact d0_numbered. Qed.

Lemma tok_valid : validated tok w0 = Some (1, None).
Proof. vm_compute. reflexivity. Qed.

Lemma w0_w1 : step w0 w1.
Proof. pose proof (step_validate w0 1 tok (1, None) tok_valid) as Hs. rewrite tok_hash_eq in Hs. exact Hs. Qed.

Lemma w0_w2 : steps w0 w2.
Proof.
  eapply steps_cons; [eapply steps_cons; [apply steps_nil | exact w0_w1] |]. apply (step_store w1 seen []). reflexivity.
Qed.

Lemma w2_reachable : reachable w2.
Proof. exists w0. split; [exact w0_fresh | exact w0_w2]. Qed.

Lemma w2_no_flight h u : no_flight h u w2.
Proof. intros f Hf. by apply elem_of_nil in Hf. Qed.

Lemma with_tok_token : truthy (extract_token with_tok) = Some tok.
Proof. vm_compute. reflexivity. Qed.

Lemma ann_live : live_with (hash_token tok) ann_session = true.
Proof. rewrite tok_hash_eq. vm_compute. reflexivity. Qed.

(** Worker 1 would serve Ann from its cache; she signs out on worker 0. *)
Lemma logout_everywhere_witness :
  (looked_up 1 tok_hash true w2).1 = Some (1, None) /\
  refused_everywhere tok 1 (served (CLogout with_tok) (at_ (seconds 101)) 0 true w2).
Proof.
  split; [vm_compute; reflexivity |].
  apply (logout_everywhere w2 _ with_tok (at_ (seconds 101)) 0 tok 1).
  - exact w2_reachable.
  - reflexivity.
  - discriminate.
  - exists ann. exact d0_ann.
  - exact with_tok_token.
  - exists ann_session. exact (conj d0_session ann_live).
  - intros s Hs _. by rewrite (d0_only s Hs).
  - apply w2_no_flight.
  - apply steps_nil.
Defined.

(** An administrator revokes Ann's sessions on worker 0; then ten seconds pass. *)
Definition w_revoked : world := served (CRevokeUserSessions 1) (at_ (seconds 101)) 0 true w2.
Definition w_later : world := World (tables w_revoked) (nodes w_revoked) (shared w_revoked) (inflight w_revoked) (stores w_revoked) (seconds 111).

Lemma w_revoked_later : steps w_revoked w_later.
Proof. eapply steps_cons; [apply steps_nil |]. apply (step_wait w_revoked (seconds 111)). vm_compute. discriminate. Qed.


(** A thread of worker 1 takes over the new epoch; before it empties the cache,
    another one is answered from it. *)
Lemma flush_overtaken :
  let '(first, W) := looked_up 1 tok_hash true w_revoked in
  first = None /\ is_session_revoked tok (tables W) = true /\ (looked_up 1 tok_hash true W).1 = Some (1, None) /\
  (looked_up 1 tok_hash true (cleared 1 W)).1 = None.
Proof. split; [| split; [| split]]; vm_compute; reflexivity. Qed.

Lemma cache_serves_recent_answers_witness :
  (exists t, (Flight 1 tok_hash (1, None), t) ∈ stores w2 /\ t <= clock w2 /\ clock w2 < t + SESSION_CACHE_TTL).
Proof.
  refine (proj1 (proj2 (cache_serves_recent_answers w0 w2 1 tok_hash true (1, None) w0_fresh w0_w2 _))). vm_compute. reflexivity.
Defined.

(** *** Signing in *)

Lemma d0_emails : emails_unique d0.
Proof. unfold emails_unique. cbn. intros i j u v [<- _]%lookup_singleton_Some [<- _]%lookup_singleton_Some _. reflexivity. Qed.

Lemma d0_ids : ids_ok d0.
Proof. split; [intros s s' ->%d0_only ->%d0_only _; done | intros s ->%d0_only; cbn; lia]. Qed.

(** The limit is two: a second session fits, and Ann's first stays. *)
Lemma session_cap_witness :
  Z.of_nat (length (List.filter (active_at (seconds 200) 1) (sessions (post (record_session (at_ (seconds 200)) 1 None "another" cfg0 None d0)))))
  <= concurrent_sessions cfg0.
Proof.
  refine (proj1 (proj2 (proj2 (session_cap (at_ (seconds 200)) 1 None "another" cfg0 None d0 d0_ids _) 2 _))).
  - discriminate.
  - vm_compute. reflexivity.
Defined.

Definition mallory : request := Request "" None (Some "203.0.113.9") None.

Definition ann_reply : reply := Eval vm_compute in
  match res (login_compat (at_ (seconds 200)) env0 " Ann@Example.org" "Passw0rd!" mallory d0) with Ok r => r | Err _ => Full "" end.

Lemma login_gate_witness :
  res (login_compat (at_ (seconds 200)) env0 " Ann@Example.org" "Passw0rd!" mallory d0) = Ok ann_reply /\
  exists i u, users d0 !! i = Some u /\ email u = "ann@example.org" /\ is_locked (seconds 200) u = false.
Proof.
  assert (res (login_compat (at_ (seconds 200)) env0 " Ann@Example.org" "Passw0rd!" mallory d0) = Ok ann_reply) as E by (vm_compute; reflexivity).
  split; [exact E |].
  destruct (login_gate (at_ (seconds 200)) env0 " Ann@Example.org" "Passw0rd!" mallory d0 ann_reply d0_emails E)
    as (i & u & Hi & He & Hl & _).
  exists i, u. exact (conj Hi (conj He Hl)).
Defined.

Lemma wrong_password : ~ password_ok "wrong" (hashed_password ann).
Proof. intros [E | [_ E]]; vm_compute in E; discriminate. Qed.

Lemma lockout_enforced_witness :
  exists u', users (post (login_compat (at_ (seconds 200)) env0 "ann@example.org" "wrong" mallory d0)) !! 1 = Some u' /\
    lock u' = failed (at_ (seconds 200)) cfg0 (lock ann).
Proof.
  destruct (proj2 (lockout_enforced (at_ (seconds 200)) env0 "ann@example.org" "wrong" mallory d0 1 ann cfg0 "key"
    d0_emails d0_ann eq_refl ltac:(discriminate) eq_refl eq_refl) eq_refl wrong_password) as [_ (u' & Hu & Hl & _)].
  exists u'. exact (conj Hu Hl).
Defined.

(** Bob has a second factor. *)
Definition bob : user :=
  User "bob@example.org" "$Passw0rd!" None true (Access "admin" true true []) (Lockout 0 None)
    (SecondFactor true (Some "S") (Some ["$AAAA"; "$BBBB"])) false None (Some 1) None.
Definition d1 : db := Db (Some cfg0) {[ 1 := ann; 2 := bob ]} 3 [] 1 [] 1 [] 1 None.
Definition mfa_tok : string := Eval vm_compute in jwt_encode (challenge 2 MFA_CHALLENGE_AUD (seconds 500)) "key".

Definition bob_token : string := Eval vm_compute in
  match res (mfa_verify (at_ (seconds 200)) mfa_tok " BBBB " mallory d1) with Ok t => t | Err _ => EmptyString end.

Lemma second_factor_gate_witness :
  res (mfa_verify (at_ (seconds 200)) mfa_tok " BBBB " mallory d1) = Ok bob_token /\
  exists cl, jwt_decode mfa_tok "key" MFA_CHALLENGE_AUD (seconds 200) = Ok cl.
Proof.
  assert (res (mfa_verify (at_ (seconds 200)) mfa_tok " BBBB " mallory d1) = Ok bob_token) as E by (vm_compute; reflexivity).
  split; [exact E |].
  destruct (second_factor_gate (at_ (seconds 200)) mfa_tok " BBBB " mallory d1 cfg0 "key" bob_token eq_refl eq_refl E) as (cl & _ & _ & Hd & _).
  exists cl. exact Hd.
Defined.

Lemma password_reset_effect_witness :
  exists u, bcrypt_check "N3w-pass!" (hashed_password u) = true /\
    users (post (reset_local_user_password (at_ (seconds 200)) 1 "N3w-pass!" true d0)) !! 1 = Some u.
Proof.
  destruct (res (reset_local_user_password (at_ (seconds 200)) 1 "N3w-pass!" true d0)) as [u |] eqn:E; [| by vm_compute in E].
  destruct (password_reset_effect (at_ (seconds 200)) 1 "N3w-pass!" true d0 u E) as (H1 & H2 & _).
  exists u. exact (conj H2 H1).
Defined.

Definition token_of (o : outcome string) : string := match res o with Ok t => t | Err _ => EmptyString end.
Definition ann_second : string := Eval vm_compute in token_of (issue_session (at_ (seconds 200)) 1 ann None cfg0 None no_extra d0).

Lemma ann_second_new s : s ∈ sessions d0 -> jwt_token_hash s <> hash_token ann_second.
Proof. intros ->%d0_only E. vm_compute in E. discriminate. Qed.

Lemma issued_session_resolves_witness :
  validate (seconds 300) ann_second "key" (post (issue_session (at_ (seconds 200)) 1 ann None cfg0 None no_extra d0)) = Some (1, None).
Proof.
  apply (issued_session_resolves (at_ (seconds 200)) 1 ann None cfg0 None no_extra d0 (seconds 300) ann_second "key").
  - reflexivity.
  - discriminate.
  - vm_compute. reflexivity.
  - exact ann_second_new.
  - vm_compute. reflexivity.
  - vm_compute. reflexivity.
Defined.

(** *** Setup, invites, tokens *)

Definition setup_cfg : settings :=
  Settings false (Some "key") None 24 5 5 15 7 true true (Some (Sha256.hexdigest "the-setup-token!")) (Some (seconds 9000)) None None None.
Definition d_setup : db := Db (Some setup_cfg) ∅ 1 [] 1 [] 1 [] 1 None.
Definition no_smtp : smtp := Smtp None None None None None None None None.

Definition root_reply : string * option string := Eval vm_compute in
  match res (bootstrap_initialize (at_ (seconds 200)) env0 "the-setup-token!" "Root@Example.org" "Passw0rd!" None no_smtp "vault" true d_setup) with
  | Ok r => r | Err _ => (EmptyString, None) end.

Lemma bootstrap_once_witness :
  res (bootstrap_initialize (at_ (seconds 200)) env0 "the-setup-token!" "Root@Example.org" "Passw0rd!" None no_smtp "vault" true d_setup) = Ok root_reply /\
  forall cs e' env' g' em' p' n' m' key' w',
    is_ok (res (bootstrap_initialize e' env' g' em' p' n' m' key' w'
      (runs cs (post (bootstrap_initialize (at_ (seconds 200)) env0 "the-setup-token!" "Root@Example.org" "Passw0rd!" None no_smtp "vault" true d_setup))))) = false.
Proof.
  assert (res (bootstrap_initialize (at_ (seconds 200)) env0 "the-setup-token!" "Root@Example.org" "Passw0rd!" None no_smtp "vault" true d_setup) = Ok root_reply) as E by (vm_compute; reflexivity).
  refine (conj E _). intros cs e' env' g' em' p' n' m' key' w'.
  exact (proj1 (proj2 (proj2 (bootstrap_once (at_ (seconds 200)) env0 "the-setup-token!" "Root@Example.org" "Passw0rd!" None no_smtp "vault" true
    d_setup root_reply E)) cs e' env' g' em' p' n' m' key' w' EmptyString)).
Defined.

Definition invite_tok : string := Eval vm_compute in jwt_encode (invite_claims "eve@example.org" "editor" (seconds 1000)) "key".
Definition eve_invite : invite := Invite 1 invite_tok "eve@example.org" "editor" 2 (seconds 1000) Pending None.
Definition d2 : db := Db (Some cfg0) {[ 1 := ann; 2 := bob ]} 3 [] 1 [eve_invite] 2 [] 1 None.

Lemma d2_numbered : holds Numbered d2.
Proof.
  split; [cbn | intros x ->%list_elem_of_singleton; cbn; lia].
  intros i u [[<- _] | [_ [<- _]%lookup_singleton_Some]]%lookup_insert_Some; lia.
Qed.

Lemma invite_makes_one_account_witness :
  res (accept_invite (at_ (seconds 200)) invite_tok "Passw0rd!" None d2) = Ok 3 /\
  exists i, row_of_token invite_tok d2 = Some i /\ i_status i = Pending.
Proof.
  assert (res (accept_invite (at_ (seconds 200)) invite_tok "Passw0rd!" None d2) = Ok 3) as E by (vm_compute; reflexivity).
  split; [exact E |].
  destruct (invite_makes_one_account (at_ (seconds 200)) invite_tok "Passw0rd!" None d2 3 d2_numbered E) as (i & H1 & H2 & _).
  exists i. exact (conj H1 H2).
Defined.

Definition robot_row : api_token :=
  ApiToken 1 "00:0" (Some "[Service Account] robot") 2 (Some ["read:*"]) None.
Definition d3 : db := Db (Some cfg0) {[ 1 := ann; 2 := bob ]} 3 [] 1 [] 1 [robot_row] 2 None.

Definition robot_tok : string := Eval vm_compute in
  match res (rotate_api_token (at_ (seconds 200)) 2 1 d3) with Ok (_, t) => t | Err _ => EmptyString end.

Lemma robot_rotated : res (rotate_api_token (at_ (seconds 200)) 2 1 d3) = Ok (2, robot_tok).
Proof. vm_compute. reflexivity. Qed.

Lemma robot_tok_new : matching_token robot_tok d3 = None.
Proof. vm_compute. reflexivity. Qed.

Lemma no_sessions s : s ∈ sessions d3 -> jwt_token_hash s <> hash_token robot_tok.
Proof. intros Hs. exfalso. exact (not_elem_of_nil s Hs). Qed.

Lemma robot_in_time : seconds 300 < seconds ((now (at_ (seconds 200)) + hours (default 8760 (hours_until (at_ (seconds 200)) (t_expires_at robot_row)))) / 1000000).
Proof. vm_compute. reflexivity. Qed.

Lemma rotation_keeps_power_witness :
  validate (seconds 300) robot_tok "key" (post (rotate_api_token (at_ (seconds 200)) 2 1 d3)) =
  Some (0, Some (Rbac.cleaned (default [] (t_scopes robot_row)))).
Proof.
  destruct (rotation_keeps_power (at_ (seconds 200)) 2 1 d3 cfg0 "key" robot_row (seconds 300) eq_refl eq_refl eq_refl
    ltac:(discriminate) ltac:(reflexivity) eq_refl) as (raw & Hr & _ & Hv).
  rewrite robot_rotated in Hr. injection Hr as <-.
  exact (Hv robot_tok_new no_sessions eq_refl robot_in_time).
Defined.

(** *** Histories in which a dead token is still served *)

(** Redis is out of reach of the logout and back for the next lookup: worker 1
    serves the token from its cache, although the tables refuse it. *)
Lemma stale_after_redis_outage :
  let W := served (CLogout with_tok) (at_ (seconds 101)) 0 false w2 in
  validated tok W = None /\ (looked_up 1 tok_hash true W).1 = Some (1, None).
Proof. split; vm_compute; reflexivity. Qed.

(** Ann is removed for good by an administrator on worker 0, with Redis in reach:
    worker 1 still serves her token. *)
Lemma removed_user_still_served :
  let W := served (CDeleteUser 1 true) (at_ (seconds 101)) 0 true w2 in
  users (tables W) !! 1 = None /\ (looked_up 1 tok_hash true W).1 = Some (1, None).
Proof. split; vm_compute; reflexivity. Qed.

(** With a limit of one session, signing in on worker 0 ends Ann's first session
    in the tables, but worker 1 still serves it. *)
Definition one_session : settings := Settings true (Some "key") None 24 1 3 15 7 true true None None None None None.
Definition w2_one : world := World (with_config one_session d0) (nodes w2) (shared w2) [] (stores w2) (clock w2).

Lemma evicted_session_still_served :
  let W := served (CLogin env0 "ann@example.org" "Passw0rd!" mallory) (at_ (seconds 101)) 0 true w2_one in
  is_session_revoked tok (tables W) = true /\ (looked_up 1 tok_hash true W).1 = Some (1, None).
Proof. split; vm_compute; reflexivity. Qed.

(** Two requests with the token were validated on worker 1 before an
    administrator revoked Ann's sessions on worker 0. The first stores its answer
    before; a lookup notices the flush and clears the cache; the second stores its answer after, and
    the revoked token is served again. *)
Definition w_race : world := World d0 (fun _ => Worker [] None 0) (Redis None ∅) [seen; seen] [] (seconds 101).

Lemma flush_race :
  let W1 := served (CRevokeUserSessions 1) (at_ (seconds 101)) 0 true (stored seen [seen] w_race) in
  let '(first, W2) := looked_up 1 tok_hash true W1 in
  let W3 := stored seen [] (cleared 1 W2) in
  first = None /\ is_session_revoked tok (tables W3) = true /\ (looked_up 1 tok_hash true W3).1 = Some (1, None).
Proof. split; [| split]; vm_compute; reflexivity. Qed.

(** Bob's API token, cached on worker 1, is revoked on worker 0 with Redis in
    reach: worker 1 still serves it. *)
Definition opaque : string := "opaque-token".
Definition opaque_hash : string := Eval vm_compute in hash_token opaque.
Definition opaque_row : api_token := ApiToken 1 (Hmac.create_salted_api_token_hash "s" opaque) (Some "ci") 2 (Some ["write:*"]) None.
Definition w_token : world :=
  stored (Flight 1 opaque_hash (2, Some ["write:*"])) []
    (World (Db (Some cfg0) {[ 1 := ann; 2 := bob ]} 3 [] 1 [] 1 [opaque_row] 2 None) (fun _ => Worker [] None 0) (Redis None ∅)
       [Flight 1 opaque_hash (2, Some ["write:*"])] [] (seconds 101)).

Lemma revoked_api_token_still_served :
  let W := served (CRevokeToken 1) (at_ (seconds 101)) 0 true w_token in
  validated opaque w_token = Some (2, Some ["write:*"]) /\ validated opaque W = None /\
  (looked_up 1 opaque_hash true W).1 = Some (2, Some ["write:*"]).
Proof. split; [| split]; vm_compute; reflexivity. Qed.

(** A token signed out and a sign-in in the same second: the new session has the
    very same token, and is refused from the start. *)
Lemma same_second_session_refused :
  let W := served (CLogout with_tok) (at_ (seconds 100)) 0 true (World d0 (fun _ => Worker [] None 0) (Redis None ∅) [] [] (seconds 100)) in
  let o := login_compat (at_ (seconds 100)) env0 "ann@example.org" "Passw0rd!" mallory (tables W) in
  res o = Ok (Full tok) /\ validate (seconds 101) tok "key" (post o) = None.
Proof. split; vm_compute; reflexivity. Qed.

End AccountsLab.
